(* ===== verification/_CoqProject ===== *)
-Q . S2P
Prelude.v
GoValue.v
NvConsts.v
NvEncode.v
NvDecode.v
NvWire.v
NvEncodeSpec.v
NvDecodeSpec.v
NvSafety.v
NvEncodeTotal.v
NvRoundtrip.v
NvTarget.v
NvStruct.v
NvEdge.v
NvFields.v
NvTruncate.v
IoctlTypes.v
Ioctl.v
IoctlSpec.v
WrapTypes.v
Wrappers.v
WrapSpec.v
Streams.v
StreamsSpec.v
NvTheorems.v
IoctlTheorems.v
StreamTheorems.v
