(* ===== verification/Prelude.v ===== *)
(** * go-zfs: nvlists and the ZFS ioctl interface

    This library models the Go repository go-zfs: package nvlist (src/nvlist),
    which encodes and decodes the name-value lists of ZFS, and package ioctl
    (src/ioctl), which sends them to the kernel. Definitions follow the source
    function by function and are executable; theorems are about them.

    ** The program and the files that model it

    - Prelude (this file): bytes, Go errors and panics as values of [outcome],
      the state-and-error monad [go] in which methods are written, checked
      indexing and slicing, fixed-width integers in both byte orders, and the
      shared tactics and hint databases.
    - GoValue: what package reflect shows of a Go value. Both codecs are driven
      by reflection, so types (nominal, recursive), values, tags, assignability
      and zero values are data here. A Go map is an association list in the
      order in which [MapKeys] returns its keys.
    - NvConsts (consts.go, types.go): type codes, kind tables, headers.
    - NvEncode (encoder.go): the record [nvlistWriter], its methods as
      computations, [writeNvPairs] split into collecting the pairs
      ([collectPairs]), one pair ([writePair], [writeArray]) and the loop
      ([writeLoop]), and [Marshal].
    - NvDecode (decode.go, fuzz.go): [nvlistReader] and [nvPairReader] as
      modules of methods; [readPairs] split into following the target
      ([resolveTarget]), framing ([nextPair]), header ([readPairHeader]), value
      ([readValue]), storing ([storePair]) and the loop ([readLoop]);
      [Unmarshal] and [Fuzz].
    - NvWire: the wire format as a specification, independent of both codecs:
      abstract lists [nvs], their bytes [packed] in either byte order, and the
      Go value [nvs_value] they decode to.
    - NvEncodeSpec: [Marshal] refines the wire format. NvDecodeSpec:
      [Unmarshal] inverts it. NvEncodeTotal and NvSafety: termination and the
      possible panics on all inputs. NvRoundtrip: the values that survive
      unchanged. NvTarget and NvStruct: struct targets, and [store_struct], a
      specification of storing into a struct by tag names alone. NvFields:
      [struct_nvs], which fields of a struct reach the wire, and the round trip
      of structs. NvEdge: errors, nil, nested failures, map order. NvTruncate:
      truncated input.
    - IoctlTypes (types.go, types_most.go, types_freebsd.go): the command
      structure and the ioctl numbers.
    - Ioctl (ioctl.go, and the two buffer functions of wrappers.go):
      [NvlistIoctl] with its retry loop, against the class [NvCodec] that
      states what it needs of the nvlist package; [nvlist_codec] is the
      instance. IoctlSpec: the loop-free specification [ioctl_spec] and the
      refinement; [logged] records the system calls.
    - WrapTypes and Wrappers (wrappers.go): the tagged structures and one
      function per exported operation over the state [env] (the package
      variable zfsHandle and the kernel). WrapSpec: what they send and return.
    - Streams (wrappers.go): sendStream, Send, ReceiveStream, Receive. The
      methods are functions on the shared state (pipe, channels, stream) that
      may block; [send_step] and [recv_step] interleave caller, goroutine and
      kernel. StreamsSpec: their invariants, by rule induction.
    - NvTheorems, IoctlTheorems, StreamTheorems: the properties, C1 to C40,
      with witnesses.

    ** What the theorems show

    Codec: encoding then decoding is the identity on canonical values, with any
    trailing bytes (C1), and on structs of flat fields (C13); the encoder refines
    and the decoder inverts the wire format (C2, C3); the decoder terminates,
    never leaves its buffer on any input and any target and has four panics left,
    all about the target (C4), and cannot panic on a dynamic target (C9); into a
    dynamic target every truncation is an error (C5); the encoder terminates and
    panics only in reflection on values that are not [plain] (C10); map iteration
    order does not matter (C11); flat lists into structs and which struct fields
    are encoded (C24, C25); the header errors (C28). Calls: [NvlistIoctl] is its
    specification for every kernel (C6), makes at most five calls (C12), leaves
    the caller's command alone when it gives up (C27) and passes names through
    (C26); every wrapper issues its own ioctl and no other (C15); single wrappers
    end to end (C14, C16, C21 to C23, C29 to C31). Streams: no byte is lost or
    reordered and errors are the ioctl's (C7, C8, C17 to C20). The last group
    (C32 to C40) states behaviour that differs from what comments or names
    promise; each is proved of the model as the code is written.

    ** Fuel and bounds

    [writeNvPairs] has the nesting depth of its argument as fuel, [readLoop] the
    number of input bytes plus one (every iteration moves the reader forward by
    at least four bytes), [ioctlLoop] five attempts (8 KiB times 8 four times is
    the first size of at least 16 MiB). C4, C10 and C6 show that none of them
    runs out. Go's int is a 64-bit integer; offsets are bounded by the buffer
    length plus 2^31 and are kept as unbounded integers, while every integer
    that is written or read has its width.

    ** Parameters

    The kernel ([kernel W]: any function of a state and a call to a reply), the
    addresses of Go buffers, the results of os.Open, os.IsNotExist, unix.Mknod
    and unix.Mkdev in [Init], the error of os.Pipe, and the split of pipe reads
    and the errors of pipe writes carry no assumptions. The order in which Go
    lists the keys of the map that Snapshot and DestroySnapshots build is the
    parameter [mapKeys]; C22 and C33 assume that it is a permutation and nothing
    more. A map that a caller passes in is listed in some order of its own.

    ** Not modelled

    The programs under ioctl/trace and ioctl/testhelper (ptrace and virtual
    machine set-up), the inputs of cgo -godefs, and the tests. Of the modelled
    code: aliasing between a decoded byte slice and the input buffer, cyclic Go
    values (the value graph is a tree), a nil interface as the argument of
    [Unmarshal] (its kind is invalid; like a nil pointer it is refused with
    ErrInvalidData after a good header), the capacity of pipes, garbage
    collection and runtime.KeepAlive, a change of map order between two
    marshallings of the same configuration, and the numbers inside formatted
    error texts. *)

From Stdlib Require Import ZArith Lia Strings.Byte Strings.String.
From stdpp Require Import base list gmap.

#[global] Open Scope Z_scope.
#[global] Open Scope list_scope.

(** ** Bytes and Go strings *)

(** A Go [string] is an immutable byte sequence; a [[]byte] is modelled by the
    same list when only its contents matter. *)
Abbreviation gostring := (list byte).

(** The Go string literal with the given (ASCII) text. *)
Definition str (s : string) : gostring := list_byte_of_string s.

Definition byte_to_Z (b : byte) : Z := Z.of_N (Byte.to_N b).

(** Conversion [byte(z)]: reduction modulo 256. *)
Definition byte_of_Z (z : Z) : byte :=
  match Byte.of_N (Z.to_N (z mod 256)) with Some b => b | None => x00 end.

(** [len(s)] as a Go [int]. *)
Definition blen {A} (l : list A) : Z := Z.of_nat (length l).

#[global] Arguments blen : simpl never.

#[global] Instance byte_eq_dec : EqDecision byte := Byte.byte_eq_dec.

#[global] Program Instance byte_countable : Countable byte :=
  inj_countable Byte.to_N Byte.of_N _.
Next Obligation. intros b. apply Byte.of_to_N. Qed.

(** ** Errors, panics and results *)

(** The error values the two packages create or pass on. *)
Inductive goerr :=
| ErrInvalidEncoding | ErrInvalidEndianess | ErrInvalidData | ErrInvalidValue
| ErrUnsupportedType | errEndOfData          (* package nvlist *)
| EOF | ErrUnexpectedEOF                     (* package io *)
| ErrBinaryType                              (* encoding/binary: not a fixed-size value *)
| Errno (n : Z)                              (* syscall.Errno *)
| ErrText (s : gostring).                    (* errors.New / fmt.Errorf *)

#[global] Instance goerr_eq_dec : EqDecision goerr.
Proof. solve_decision. Defined.

(** Run-time panics. The first two are the memory-safety panics of slices. *)
Inductive gopanic :=
| PIndex                       (* index out of range *)
| PSlice                       (* slice bounds out of range *)
| PNil                         (* nil pointer or nil interface used *)
| PNilMap                      (* assignment to entry in nil map *)
| PAssign                      (* reflect: value not assignable to the target type *)
| PReflect                     (* reflect: method called on a wrong kind or flag *)
| PTypeAssert                  (* failed x.(T) *)
| PClosed                      (* send on, or close of, a closed channel *)
| PExplicit (s : gostring).    (* panic("...") in the source *)

#[global] Instance gopanic_eq_dec : EqDecision gopanic.
Proof. solve_decision. Defined.

(** Result of running Go code: a value, a returned error, a panic, or (for the
    model only) an exhausted fuel bound. *)
Inductive outcome (A : Type) :=
| Ok (a : A) | Err (e : goerr) | Panic (p : gopanic) | OutOfFuel.
Arguments Ok {A} a.
Arguments Err {A} e.
Arguments Panic {A} p.
Arguments OutOfFuel {A}.

(** State-passing computations; the state survives errors and panics, as the
    mutated Go objects do. *)
Definition go (S A : Type) : Type := S -> outcome A * S.

Definition gret {S A} (a : A) : go S A := fun s => (Ok a, s).
Definition gerr {S A} (e : goerr) : go S A := fun s => (Err e, s).
Definition gpanic {S A} (p : gopanic) : go S A := fun s => (Panic p, s).
Definition gget {S} : go S S := fun s => (Ok s, s).
Definition gput {S} (s : S) : go S unit := fun _ => (Ok tt, s).
Definition gmodify {S} (f : S -> S) : go S unit := fun s => (Ok tt, f s).
Definition glift {S A} (o : outcome A) : go S A := fun s => (o, s).

Definition gbind {S A B} (c : go S A) (k : A -> go S B) : go S B :=
  fun s =>
    match c s with
    | (Ok a, s') => k a s'
    | (Err e, s') => (Err e, s')
    | (Panic p, s') => (Panic p, s')
    | (OutOfFuel, s') => (OutOfFuel, s')
    end.

Definition obind {A B} (o : outcome A) (k : A -> outcome B) : outcome B :=
  match o with
  | Ok a => k a
  | Err e => Err e
  | Panic p => Panic p
  | OutOfFuel => OutOfFuel
  end.

Declare Scope go_scope.
Delimit Scope go_scope with go.
Notation "x <- c ;; k" := (gbind c (fun x => k))
  (at level 100, c at next level, right associativity) : go_scope.
Notation "c ;;; k" := (gbind c (fun _ => k))
  (at level 100, right associativity) : go_scope.
#[global] Open Scope go_scope.

(** A call whose error result is discarded; its effects and panics stay. *)
Definition gignore {S} (c : go S unit) : go S unit :=
  fun s => match c s with (Err _, s') => (Ok tt, s') | r => r end.

(** [for _, x := range l { body(x) }] *)
Fixpoint gforeach {S A} (f : A -> go S unit) (l : list A) : go S unit :=
  match l with
  | [] => gret tt
  | x :: r => f x ;;; gforeach f r
  end.

(** ** Slices: checked indexing and slicing *)

(** [data[i]] *)
Definition go_index {A} (data : list A) (i : Z) : outcome A :=
  if (0 <=? i) && (i <? blen data)
  then match data !! Z.to_nat i with Some b => Ok b | None => Panic PIndex end
  else Panic PIndex.

(** [data[a:b]]. Go checks the upper bound against the capacity; the model is
    stricter and panics beyond the length. *)
Definition go_slice {A} (data : list A) (a b : Z) : outcome (list A) :=
  if (0 <=? a) && (a <=? b) && (b <=? blen data)
  then Ok (take (Z.to_nat (b - a)) (drop (Z.to_nat a) data))
  else Panic PSlice.

(** [data[i] = b] *)
Definition go_update {A} (data : list A) (i : Z) (b : A) : outcome (list A) :=
  if (0 <=? i) && (i <? blen data)
  then Ok (<[Z.to_nat i := b]> data) else Panic PIndex.

(** ** Fixed-width integers and encoding/binary *)

Inductive ByteOrder := LittleEndian | BigEndian.

#[global] Instance ByteOrder_eq_dec : EqDecision ByteOrder.
Proof. solve_decision. Defined.

(** The [n] low-order bytes of [z], least significant first. *)
Fixpoint le_bytes (n : nat) (z : Z) : list byte :=
  match n with
  | O => []
  | S n' => byte_of_Z z :: le_bytes n' (z / 256)
  end.

Fixpoint le_value (bs : list byte) : Z :=
  match bs with
  | [] => 0
  | b :: bs' => byte_to_Z b + 256 * le_value bs'
  end.

(** [order.PutUintN] and [order.UintN] on [n] bytes. *)
Definition put_uint (o : ByteOrder) (n : nat) (z : Z) : list byte :=
  match o with LittleEndian => le_bytes n z | BigEndian => rev (le_bytes n z) end.

Definition get_uint (o : ByteOrder) (bs : list byte) : Z :=
  match o with LittleEndian => le_value bs | BigEndian => le_value (rev bs) end.

(** Two's complement reading of an unsigned [n]-byte value. *)
Definition to_signed (n : nat) (u : Z) : Z :=
  if u <? 2 ^ (8 * Z.of_nat n - 1) then u else u - 2 ^ (8 * Z.of_nat n).

(** Conversion to a signed integer type of [n] bytes (wrap-around). *)
Definition wrap_signed (n : nat) (z : Z) : Z :=
  to_signed n (z mod 2 ^ (8 * Z.of_nat n)).

(** ** Shared tactics *)

(** Case analysis on the first [match] or [if] in the goal. *)
Ltac go_case :=
  match goal with
  | |- context [if ?b then _ else _] => destruct b eqn:?
  | |- context [match ?x with _ => _ end] => destruct x eqn:?
  end.

(** Turn boolean comparisons in hypotheses into linear facts. *)
Ltac bool_to_prop :=
  repeat match goal with
  | H : (_ && _) = true |- _ => apply andb_true_iff in H as [? ?]
  | H : (_ && _) = false |- _ => apply andb_false_iff in H
  | H : (_ || _) = false |- _ => apply orb_false_iff in H as [? ?]
  | H : (_ || _) = true |- _ => apply orb_true_iff in H
  | H : negb _ = true |- _ => apply negb_true_iff in H
  | H : negb _ = false |- _ => apply negb_false_iff in H
  | H : (_ <? _) = true |- _ => apply Z.ltb_lt in H
  | H : (_ <? _) = false |- _ => apply Z.ltb_ge in H
  | H : (_ <=? _) = true |- _ => apply Z.leb_le in H
  | H : (_ <=? _) = false |- _ => apply Z.leb_gt in H
  | H : (_ =? _) = true |- _ => apply Z.eqb_eq in H
  | H : (_ =? _) = false |- _ => apply Z.eqb_neq in H
  | H : _ \/ _ |- _ => destruct H
  end.

(** Destruct tuples and existentials in the context. *)
Ltac destr_ctx :=
  repeat match goal with
  | H : _ /\ _ |- _ => destruct H
  | H : exists _, _ |- _ => destruct H
  | p : (_ * _)%type |- _ => destruct p
  end.

(** Pick the branch of a boolean test that the context decides. *)
Ltac decide_true b := replace b with true by (symmetry; bool_solver)
with decide_false b := replace b with false by (symmetry; bool_solver)
with bool_solver :=
  repeat first
    [ rewrite andb_true_iff | rewrite orb_false_iff
    | rewrite Z.ltb_lt | rewrite Z.ltb_ge | rewrite Z.leb_le | rewrite Z.leb_gt
    | rewrite Z.eqb_eq | rewrite Z.eqb_neq ]; repeat split; lia.

(** ** The result monad *)

Create HintDb gozfs.
#[export] Hint Constants Opaque : gozfs.

Lemma gbind_ok {S A B} (c : go S A) (k : A -> go S B) s a s' :
  c s = (Ok a, s') -> gbind c k s = k a s'.
Proof. intros H. unfold gbind. now rewrite H. Qed.

(** ** Lengths *)

Lemma blen_nonneg {A} (l : list A) : 0 <= blen l.
Proof. unfold blen. lia. Qed.
Lemma blen_app {A} (l k : list A) : blen (l ++ k) = blen l + blen k.
Proof. unfold blen. rewrite length_app. lia. Qed.
Lemma blen_cons {A} (x : A) l : blen (x :: l) = 1 + blen l.
Proof. unfold blen. cbn [length]. lia. Qed.
Lemma blen_nil {A} : blen (@nil A) = 0.
Proof. reflexivity. Qed.
Lemma blen_replicate {A} n (x : A) : blen (replicate n x) = Z.of_nat n.
Proof. unfold blen. now rewrite length_replicate. Qed.
Lemma blen_map {A B} (f : A -> B) l : blen (map f l) = blen l.
Proof. unfold blen. now rewrite length_map. Qed.
Lemma blen_rev {A} (l : list A) : blen (rev l) = blen l.
Proof. unfold blen. now rewrite length_rev. Qed.
Lemma blen_insert {A} i (x : A) l : blen (<[i:=x]> l) = blen l.
Proof. unfold blen. now rewrite length_insert. Qed.

Create Rewrite HintDb blen.
#[export] Hint Rewrite @blen_app @blen_cons @blen_nil @blen_replicate @blen_map
  @blen_rev @blen_insert : blen.

(** Normalise lengths, then linear arithmetic. *)
Ltac blen_lia := autorewrite with blen in *; repeat match goal with
  | |- context [@blen ?A ?l] => lazymatch goal with
      | _ : 0 <= blen l |- _ => fail
      | _ => pose proof (@blen_nonneg A l) end
  | _ : context [@blen ?A ?l] |- _ => lazymatch goal with
      | _ : 0 <= blen l |- _ => fail
      | _ => pose proof (@blen_nonneg A l) end
  end; lia.

(** ** Bytes and integers *)

Lemma byte_to_Z_range b : 0 <= byte_to_Z b < 256.
Proof. unfold byte_to_Z. pose proof (Byte.to_N_bounded b). lia. Qed.

Lemma byte_to_of_Z z : byte_to_Z (byte_of_Z z) = z mod 256.
Proof.
  unfold byte_to_Z, byte_of_Z.
  pose proof (Z.mod_pos_bound z 256 ltac:(lia)).
  destruct (Byte.of_N (Z.to_N (z mod 256))) as [b|] eqn:E.
  - apply Byte.to_of_N in E. rewrite E. lia.
  - apply Byte.of_N_None_iff in E. lia.
Qed.

Lemma byte_of_to_Z b : byte_of_Z (byte_to_Z b) = b.
Proof.
  unfold byte_of_Z. rewrite Z.mod_small by apply byte_to_Z_range.
  unfold byte_to_Z. rewrite N2Z.id. now rewrite Byte.of_to_N.
Qed.

Lemma length_le_bytes n z : length (le_bytes n z) = n.
Proof. revert z. induction n as [|n IH]; intros z; cbn; [done|]. now rewrite IH. Qed.

Lemma length_put_uint o n z : length (put_uint o n z) = n.
Proof. destruct o; cbn; rewrite ?length_rev; apply length_le_bytes. Qed.

Lemma blen_put_uint o n z : blen (put_uint o n z) = Z.of_nat n.
Proof. unfold blen. now rewrite length_put_uint. Qed.
#[export] Hint Rewrite blen_put_uint : blen.

Lemma le_value_bytes n z : le_value (le_bytes n z) = z mod 2 ^ (8 * Z.of_nat n).
Proof.
  revert z. induction n as [|n IH]; intros z; cbn [le_bytes le_value].
  - now rewrite Z.mod_1_r.
  - rewrite IH, byte_to_of_Z.
    replace (2 ^ (8 * Z.of_nat (S n))) with (256 * 2 ^ (8 * Z.of_nat n)).
    + rewrite Z.rem_mul_r by lia. lia.
    + replace (8 * Z.of_nat (S n)) with (8 + 8 * Z.of_nat n) by lia.
      rewrite Z.pow_add_r by lia. reflexivity.
Qed.

Lemma get_put_uint o n z : get_uint o (put_uint o n z) = z mod 2 ^ (8 * Z.of_nat n).
Proof. destruct o; cbn; rewrite ?rev_involutive; apply le_value_bytes. Qed.

Lemma le_value_range bs : 0 <= le_value bs < 2 ^ (8 * blen bs).
Proof.
  induction bs as [|b bs IH]; cbn [le_value]; [split; [lia | reflexivity]|].
  rewrite blen_cons, Z.mul_add_distr_l, Z.pow_add_r by blen_lia.
  change (2 ^ (8 * 1)) with 256. pose proof (byte_to_Z_range b). nia.
Qed.

Lemma get_uint_range o bs : 0 <= get_uint o bs < 2 ^ (8 * blen bs).
Proof.
  destruct o; cbn; [apply le_value_range|].
  rewrite <- (blen_rev bs). apply le_value_range.
Qed.

Lemma le_bytes_value bs : le_bytes (length bs) (le_value bs) = bs.
Proof.
  induction bs as [|b bs IH]; cbn [le_value le_bytes length]; [done|].
  pose proof (byte_to_Z_range b).
  f_equal.
  - rewrite <- (byte_of_to_Z b) at 2. unfold byte_of_Z.
    now rewrite Z.mul_comm, Z.mod_add by lia.
  - rewrite Z.mul_comm, Z.div_add, Z.div_small by lia. exact IH.
Qed.

Lemma put_get_uint o bs : put_uint o (length bs) (get_uint o bs) = bs.
Proof.
  destruct o; cbn; [apply le_bytes_value|].
  rewrite <- (length_rev bs), le_bytes_value. apply rev_involutive.
Qed.

Lemma to_signed_mod n z :
  - 2 ^ (8 * Z.of_nat n - 1) <= z < 2 ^ (8 * Z.of_nat n - 1) -> (0 < n)%nat ->
  to_signed n (z mod 2 ^ (8 * Z.of_nat n)) = z.
Proof.
  intros H Hn. unfold to_signed.
  assert (E : 2 ^ (8 * Z.of_nat n) = 2 * 2 ^ (8 * Z.of_nat n - 1)).
  { rewrite <- Z.pow_succ_r by lia. f_equal. lia. }
  destruct (Z.leb_spec 0 z).
  - rewrite Z.mod_small by lia. now decide_true (z <? 2 ^ (8 * Z.of_nat n - 1)).
  - replace (z mod 2 ^ (8 * Z.of_nat n)) with (z + 2 ^ (8 * Z.of_nat n)).
    + decide_false (z + 2 ^ (8 * Z.of_nat n) <? 2 ^ (8 * Z.of_nat n - 1)). lia.
    + apply Z.mod_unique with (-1); lia.
Qed.

(** ** Byte sequences inside a buffer *)

(** [has_at data p bs]: the bytes [bs] stand at offset [p] of [data]. *)
Definition has_at (data : list byte) (p : Z) (bs : list byte) : Prop :=
  exists pre post, data = pre ++ bs ++ post /\ p = blen pre.

Lemma has_at_split data p a b :
  has_at data p (a ++ b) -> has_at data p a /\ has_at data (p + blen a) b.
Proof.
  intros (pre & post & -> & ->). split.
  - exists pre, (b ++ post). now rewrite <- !app_assoc.
  - exists (pre ++ a), post. rewrite blen_app. split; [|done]. now rewrite <- !app_assoc.
Qed.

Lemma has_at_bound data p bs : has_at data p bs -> 0 <= p /\ p + blen bs <= blen data.
Proof. intros (pre & post & -> & ->). blen_lia. Qed.

Lemma has_at_take_drop data p bs :
  has_at data p bs -> take (length bs) (drop (Z.to_nat p) data) = bs.
Proof.
  intros (pre & post & -> & ->). unfold blen. rewrite Nat2Z.id, drop_app_length.
  apply take_app_length.
Qed.

Lemma has_at_slice data p bs :
  has_at data p bs -> go_slice data p (p + blen bs) = Ok bs.
Proof.
  intros H. pose proof (has_at_bound _ _ _ H). pose proof (blen_nonneg bs).
  unfold go_slice.
  decide_true ((0 <=? p) && (p <=? p + blen bs) && (p + blen bs <=? blen data)).
  replace (Z.to_nat (p + blen bs - p)) with (length bs) by (unfold blen; lia).
  f_equal. now apply has_at_take_drop.
Qed.

Lemma has_at_index data p b bs : has_at data p (b :: bs) -> go_index data p = Ok b.
Proof.
  intros H. pose proof (has_at_bound _ _ _ H) as [? Hb]. rewrite blen_cons in Hb.
  pose proof (blen_nonneg bs).
  unfold go_index. decide_true ((0 <=? p) && (p <? blen data)).
  destruct H as (pre & post & -> & ->). unfold blen. rewrite Nat2Z.id.
  now rewrite lookup_app_r, Nat.sub_diag by lia.
Qed.

Lemma has_at_self data : has_at data 0 data.
Proof. exists [], []. cbn. now rewrite app_nil_r. Qed.

Lemma has_at_app_r data p bs suffix : has_at data p bs -> has_at (data ++ suffix) p bs.
Proof.
  intros (pre & post & -> & ->). exists pre, (post ++ suffix).
  now rewrite <- !app_assoc.
Qed.

Lemma go_index_ok {A} (data : list A) i :
  0 <= i < blen data -> exists b, go_index data i = Ok b.
Proof.
  intros H. unfold go_index. decide_true ((0 <=? i) && (i <? blen data)).
  destruct (data !! Z.to_nat i) eqn:E; [eauto|].
  apply lookup_ge_None in E. unfold blen in H. lia.
Qed.

Lemma go_slice_ok {A} (data : list A) a b :
  0 <= a <= b -> b <= blen data ->
  exists l, go_slice data a b = Ok l /\ blen l = b - a.
Proof.
  intros H Hb. unfold go_slice.
  decide_true ((0 <=? a) && (a <=? b) && (b <=? blen data)).
  eexists; split; [reflexivity|]. unfold blen in *.
  rewrite length_take, length_drop. lia.
Qed.
