(* ===== verification/GoValue.v ===== *)
(** * Go values as package [reflect] shows them

    Both codecs are driven by reflection, so this file models the part of Go's
    type system and of package [reflect] they use: kinds, types (nominal for
    named types), values that carry their type, field tags, zero values,
    assignability, and maps as association lists in [MapKeys] order.

    The reachable value graph is a tree: pointers and maps own what they point
    to. Only the empty interface type occurs ([NumMethod() == 0]). A nil slice
    and an empty slice are not distinguished, since no code here does. *)

From Stdlib Require Import ZArith Lia Strings.Byte.
From stdpp Require Import base list gmap.
From S2P Require Import Prelude.

#[local] Set Warnings "-register-all".

(** ** Integer kinds *)

Inductive ikind :=
| KInt | KInt8 | KInt16 | KInt32 | KInt64
| KUint | KUint8 | KUint16 | KUint32 | KUint64 | KUintptr.

#[global] Instance ikind_eq_dec : EqDecision ikind.
Proof. solve_decision. Defined.

(** Size in bytes (64-bit platform). *)
Definition isize (k : ikind) : nat :=
  match k with
  | KInt8 | KUint8 => 1
  | KInt16 | KUint16 => 2
  | KInt32 | KUint32 => 4
  | KInt | KInt64 | KUint | KUint64 | KUintptr => 8
  end.

Definition isigned (k : ikind) : bool :=
  match k with KInt | KInt8 | KInt16 | KInt32 | KInt64 => true | _ => false end.

(** The values of the kind. *)
Definition in_range (k : ikind) (z : Z) : bool :=
  if isigned k
  then (- 2 ^ (8 * Z.of_nat (isize k) - 1) <=? z) && (z <? 2 ^ (8 * Z.of_nat (isize k) - 1))
  else (0 <=? z) && (z <? 2 ^ (8 * Z.of_nat (isize k))).

Definition put_int (o : ByteOrder) (k : ikind) (z : Z) : list byte :=
  put_uint o (isize k) z.

Definition get_int (o : ByteOrder) (k : ikind) (bs : list byte) : Z :=
  if isigned k then to_signed (isize k) (get_uint o bs) else get_uint o bs.

(** ** Kinds and types *)

(** [reflect.Kind]; [OtherKind] stands for complex numbers, channels, functions
    and unsafe pointers, which no code here distinguishes. *)
Inductive Kind :=
| Invalid | Bool | IntKind (k : ikind) | Float32 | Float64
| Array | Interface | Map | Ptr | Slice | String | Struct | OtherKind.

#[global] Instance Kind_eq_dec : EqDecision Kind.
Proof. solve_decision. Defined.

(** [reflect.StructField]: the name and the value of the [nvlist] tag key. *)
Record sfield := SField { f_Name : gostring; f_Tag : gostring }.

#[global] Instance sfield_eq_dec : EqDecision sfield.
Proof. solve_decision. Defined.

(** Types. [nm] is the declared name, [None] for predeclared and literal types;
    [TRef n] refers back to the enclosing declared type [n] (recursive types). *)
Inductive gtype :=
| TBool (nm : option gostring)
| TInt (nm : option gostring) (k : ikind)
| TFloat (nm : option gostring) (is64 : bool)
| TString (nm : option gostring)
| TArray (nm : option gostring) (n : nat) (t : gtype)
| TSlice (nm : option gostring) (t : gtype)
| TMap (nm : option gostring) (kt t : gtype)
| TStruct (nm : option gostring) (fs : list (sfield * gtype))
| TPtr (nm : option gostring) (t : gtype)
| TIface (nm : option gostring)
| TOpaque (nm : option gostring) (id : nat)
| TRef (n : gostring).

Definition tname (t : gtype) : option gostring :=
  match t with
  | TBool nm | TInt nm _ | TFloat nm _ | TString nm | TArray nm _ _ | TSlice nm _
  | TMap nm _ _ | TStruct nm _ | TPtr nm _ | TIface nm | TOpaque nm _ => nm
  | TRef n => Some n
  end.

Definition set_tname (nm : option gostring) (t : gtype) : gtype :=
  match t with
  | TBool _ => TBool nm
  | TInt _ k => TInt nm k
  | TFloat _ b => TFloat nm b
  | TString _ => TString nm
  | TArray _ n t => TArray nm n t
  | TSlice _ t => TSlice nm t
  | TMap _ kt t => TMap nm kt t
  | TStruct _ fs => TStruct nm fs
  | TPtr _ t => TPtr nm t
  | TIface _ => TIface nm
  | TOpaque _ i => TOpaque nm i
  | TRef n => TRef n
  end.

Definition kind_of_type (t : gtype) : Kind :=
  match t with
  | TBool _ => Bool
  | TInt _ k => IntKind k
  | TFloat _ is64 => if is64 then Float64 else Float32
  | TString _ => String
  | TArray _ _ _ => Array
  | TSlice _ _ => Slice
  | TMap _ _ _ => Map
  | TStruct _ _ => Struct
  | TPtr _ _ => Ptr
  | TIface _ => Interface
  | TOpaque _ _ | TRef _ => OtherKind
  end.

(** Type identity: declared types by name, literal types by structure. *)
Fixpoint type_eqb (a b : gtype) : bool :=
  match tname a, tname b with
  | Some m, Some n => bool_decide (m = n)
  | None, None =>
      match a, b with
      | TBool _, TBool _ | TString _, TString _ | TIface _, TIface _ => true
      | TInt _ k, TInt _ k' => bool_decide (k = k')
      | TFloat _ w, TFloat _ w' => Bool.eqb w w'
      | TArray _ n t, TArray _ n' t' => Nat.eqb n n' && type_eqb t t'
      | TSlice _ t, TSlice _ t' | TPtr _ t, TPtr _ t' => type_eqb t t'
      | TMap _ k t, TMap _ k' t' => type_eqb k k' && type_eqb t t'
      | TStruct _ fs, TStruct _ gs =>
          (fix fields (fs gs : list (sfield * gtype)) : bool :=
             match fs, gs with
             | [], [] => true
             | (f, t) :: fs', (g, u) :: gs' =>
                 bool_decide (f = g) && type_eqb t u && fields fs' gs'
             | _, _ => false
             end) fs gs
      | TOpaque _ i, TOpaque _ j => Nat.eqb i j
      | _, _ => false
      end
  | _, _ => false
  end.

(** [Type.hasName]: declared types and predeclared basic types have names. *)
Definition has_name (t : gtype) : bool :=
  match t with
  | TBool _ | TInt _ _ | TFloat _ _ | TString _ => true
  | _ => match tname t with Some _ => true | None => false end
  end.

(** Assignability of a non-interface value of type [src] to [dst]
    (reflect's [implements] and [directlyAssignable]). *)
Definition assignable (dst src : gtype) : bool :=
  match dst with
  | TIface _ => true
  | _ =>
      type_eqb dst src
      || (negb (has_name dst && has_name src)
          && type_eqb (set_tname None dst) (set_tname None src))
  end.

(** ** Values *)

Inductive gval :=
| VBool (nm : option gostring) (b : bool)
| VInt (nm : option gostring) (k : ikind) (z : Z)
| VFloat (nm : option gostring) (is64 : bool) (bits : Z)
| VString (nm : option gostring) (s : gostring)
| VArray (nm : option gostring) (t : gtype) (vs : list gval)
| VSlice (nm : option gostring) (t : gtype) (vs : list gval)
| VMap (nm : option gostring) (kt t : gtype) (kvs : option (list (gostring * gval)))
| VStruct (nm : option gostring) (fs : list (sfield * gval))
| VPtr (nm : option gostring) (t : gtype) (p : option gval)
| VIface (nm : option gostring) (v : option gval)
| VOpaque (nm : option gostring) (id : nat).

(** [Value.Kind()] *)
Definition kind (v : gval) : Kind :=
  match v with
  | VBool _ _ => Bool
  | VInt _ k _ => IntKind k
  | VFloat _ is64 _ => if is64 then Float64 else Float32
  | VString _ _ => String
  | VArray _ _ _ => Array
  | VSlice _ _ _ => Slice
  | VMap _ _ _ _ => Map
  | VStruct _ _ => Struct
  | VPtr _ _ _ => Ptr
  | VIface _ _ => Interface
  | VOpaque _ _ => OtherKind
  end.

(** [Value.Type()] *)
Fixpoint typeOf (v : gval) : gtype :=
  match v with
  | VBool nm _ => TBool nm
  | VInt nm k _ => TInt nm k
  | VFloat nm w _ => TFloat nm w
  | VString nm _ => TString nm
  | VArray nm t vs => TArray nm (length vs) t
  | VSlice nm t _ => TSlice nm t
  | VMap nm kt t _ => TMap nm kt t
  | VStruct nm fs => TStruct nm (map (fun '(f, x) => (f, typeOf x)) fs)
  | VPtr nm t _ => TPtr nm t
  | VIface nm _ => TIface nm
  | VOpaque nm i => TOpaque nm i
  end.

Definition set_vname (nm : option gostring) (v : gval) : gval :=
  match v with
  | VBool _ b => VBool nm b
  | VInt _ k z => VInt nm k z
  | VFloat _ w z => VFloat nm w z
  | VString _ s => VString nm s
  | VArray _ t vs => VArray nm t vs
  | VSlice _ t vs => VSlice nm t vs
  | VMap _ kt t kvs => VMap nm kt t kvs
  | VStruct _ fs => VStruct nm fs
  | VPtr _ t p => VPtr nm t p
  | VIface _ o => VIface nm o
  | VOpaque _ i => VOpaque nm i
  end.

(** [Value.Set] / the element step of [SetMapIndex]: store the non-interface
    value [v] into a variable of type [dst]. *)
Definition assign (dst : gtype) (v : gval) : outcome gval :=
  match dst with
  | TIface nm => Ok (VIface nm (Some v))
  | _ => if assignable dst (typeOf v) then Ok (set_vname (tname dst) v) else Panic PAssign
  end.

(** Substitution of enclosing declared types for back references. *)
Fixpoint tsubst (env : list (gostring * gtype)) (t : gtype) : gtype :=
  match t with
  | TRef n =>
      match list_find (fun e => e.1 = n) env with
      | Some (_, (_, u)) => u
      | None => t
      end
  | TArray nm n u => TArray nm n (tsubst env u)
  | TSlice nm u => TSlice nm (tsubst env u)
  | TMap nm kt u => TMap nm (tsubst env kt) (tsubst env u)
  | TStruct nm fs => TStruct nm (map (fun '(f, u) => (f, tsubst env u)) fs)
  | TPtr nm u => TPtr nm (tsubst env u)
  | _ => t
  end.

(** The zero value of a type ([reflect.New], [var x T]). *)
Fixpoint zero_in (env : list (gostring * gtype)) (t : gtype) : gval :=
  let env := match tname t with Some n => (n, tsubst env t) :: env | None => env end in
  match t with
  | TBool nm => VBool nm false
  | TInt nm k => VInt nm k 0
  | TFloat nm w => VFloat nm w 0
  | TString nm => VString nm []
  | TArray nm n u => VArray nm (tsubst env u) (replicate n (zero_in env u))
  | TSlice nm u => VSlice nm (tsubst env u) []
  | TMap nm kt u => VMap nm (tsubst env kt) (tsubst env u) None
  | TStruct nm fs => VStruct nm (map (fun '(f, u) => (f, zero_in env u)) fs)
  | TPtr nm u => VPtr nm (tsubst env u) None
  | TIface nm => VIface nm None
  | TOpaque nm i => VOpaque nm i
  | TRef n => VIface None None (* a declared type cannot contain itself directly *)
  end.

Definition zero (t : gtype) : gval := zero_in [] t.

(** ** Maps, struct fields and tags *)

(** [m[k] = v] on the entries in iteration order. *)
Fixpoint map_set {A} (k : gostring) (v : A) (kvs : list (gostring * A)) : list (gostring * A) :=
  match kvs with
  | [] => [(k, v)]
  | (k', v') :: r => if bool_decide (k' = k) then (k, v) :: r else (k', v') :: map_set k v r
  end.

(** [v, ok := m[k]] *)
Fixpoint map_get {A} (k : gostring) (kvs : list (gostring * A)) : option A :=
  match kvs with
  | [] => None
  | (k', v') :: r => if bool_decide (k' = k) then Some v' else map_get k r
  end.

(** [strings.Split(s, ",")] *)
Fixpoint split_comma (s : gostring) : list gostring :=
  match s with
  | [] => [[]]
  | c :: s' =>
      if bool_decide (c = ","%byte) then [] :: split_comma s'
      else match split_comma s' with
           | h :: t => (c :: h) :: t
           | [] => [[c]]
           end
  end.

(** A struct field is exported iff its name starts with an upper case letter. *)
Definition exported (name : gostring) : bool :=
  match name with
  | c :: _ => (65 <=? byte_to_Z c) && (byte_to_Z c <=? 90)
  | [] => false
  end.

(** Nesting depth, the fuel measure of recursive traversals. *)
Fixpoint depth (v : gval) : nat :=
  match v with
  | VArray _ _ vs | VSlice _ _ vs => S (list_max (map depth vs))
  | VMap _ _ _ (Some kvs) => S (list_max (map (fun '(_, x) => depth x) kvs))
  | VStruct _ fs => S (list_max (map (fun '(_, x) => depth x) fs))
  | VPtr _ _ (Some x) => S (depth x)
  | VIface _ (Some x) => S (depth x)
  | _ => 1%nat
  end.

(** Commonly used types and values. *)
Definition tString : gtype := TString None.
Definition tIface : gtype := TIface None.
(** [map[string]interface{}] *)
Definition tAnyMap : gtype := TMap None tString tIface.
Definition vAnyMap (kvs : list (gostring * gval)) : gval := VMap None tString tIface (Some kvs).
(** A pointer to an [interface{}] variable, as [new(interface{})]. *)
Definition vIfacePtr (o : option gval) : gval := VPtr None tIface (Some (VIface None o)).

(** ** Lemmas *)

Lemma length_put_int o k z : length (put_int o k z) = isize k.
Proof. apply length_put_uint. Qed.

Lemma blen_put_int o k z : blen (put_int o k z) = Z.of_nat (isize k).
Proof. apply blen_put_uint. Qed.
#[export] Hint Rewrite blen_put_int : blen.

Lemma isize_pos k : (0 < isize k)%nat.
Proof. destruct k; cbn; lia. Qed.

(** Every integer of a kind survives [binary.Write] and [binary.Read], in
    either byte order. *)
Lemma get_put_int o k z : in_range k z = true -> get_int o k (put_int o k z) = z.
Proof.
  unfold in_range, get_int, put_int. rewrite get_put_uint.
  destruct (isigned k) eqn:S; intros H; bool_to_prop.
  - apply to_signed_mod; [lia|apply isize_pos].
  - apply Z.mod_small. lia.
Qed.

(** Whatever bytes are read, the result is a value of the kind. *)
Lemma get_int_range o k bs : length bs = isize k -> in_range k (get_int o k bs) = true.
Proof.
  intros L. pose proof (get_uint_range o bs) as H. unfold blen in H. rewrite L in H.
  unfold in_range, get_int. pose proof (isize_pos k).
  assert (E : 2 ^ (8 * Z.of_nat (isize k)) = 2 * 2 ^ (8 * Z.of_nat (isize k) - 1)).
  { rewrite <- Z.pow_succ_r by lia. f_equal. lia. }
  destruct (isigned k); [|bool_solver].
  unfold to_signed. go_case; bool_to_prop; bool_solver.
Qed.

(** Setting a key that is absent appends it: insertion keeps iteration order. *)
Lemma map_set_fresh {A} k (v : A) kvs :
  k ∉ kvs.*1 -> map_set k v kvs = kvs ++ [(k, v)].
Proof.
  induction kvs as [|[k' v'] r IH]; cbn; intros H; [done|].
  rewrite not_elem_of_cons in H. destruct H as [H1 H2].
  rewrite bool_decide_eq_false_2 by congruence. now rewrite IH.
Qed.

