(* ===== verification/NvConsts.v ===== *)
(** * nvlist/consts.go and nvlist/types.go

    The nvpair type codes, the kind-to-code tables and the C structures of the
    native encoding. *)

From Stdlib Require Import ZArith Lia Strings.Byte Strings.String.
From stdpp Require Import base list gmap.
From S2P Require Import Prelude GoValue.

(** [nvtype]: the [iota] constants. *)
Inductive nvtype :=
| typeUnknown | typeBoolean | typeByte | typeInt16 | typeUint16 | typeInt32
| typeUint32 | typeInt64 | typeUint64 | typeString | typeByteArray
| typeInt16Array | typeUint16Array | typeInt32Array | typeUint32Array
| typeInt64Array | typeUint64Array | typeStringArray | typeHrtime | typeNvlist
| typeNvlistArray | typeBooleanValue | typeInt8 | typeUint8 | typeBooleanArray
| typeInt8Array | typeUint8Array | typeDouble.

#[global] Instance nvtype_eq_dec : EqDecision nvtype.
Proof. solve_decision. Defined.

(** All constants in declaration order; [iota] numbers them from zero. *)
Definition nvtypes : list nvtype :=
  [typeUnknown; typeBoolean; typeByte; typeInt16; typeUint16; typeInt32;
   typeUint32; typeInt64; typeUint64; typeString; typeByteArray;
   typeInt16Array; typeUint16Array; typeInt32Array; typeUint32Array;
   typeInt64Array; typeUint64Array; typeStringArray; typeHrtime; typeNvlist;
   typeNvlistArray; typeBooleanValue; typeInt8; typeUint8; typeBooleanArray;
   typeInt8Array; typeUint8Array; typeDouble].

(** The number of a constant on the wire. *)
Definition nvtype_code (t : nvtype) : Z :=
  match t with
  | typeUnknown => 0 | typeBoolean => 1 | typeByte => 2 | typeInt16 => 3
  | typeUint16 => 4 | typeInt32 => 5 | typeUint32 => 6 | typeInt64 => 7
  | typeUint64 => 8 | typeString => 9 | typeByteArray => 10
  | typeInt16Array => 11 | typeUint16Array => 12 | typeInt32Array => 13
  | typeUint32Array => 14 | typeInt64Array => 15 | typeUint64Array => 16
  | typeStringArray => 17 | typeHrtime => 18 | typeNvlist => 19
  | typeNvlistArray => 20 | typeBooleanValue => 21 | typeInt8 => 22
  | typeUint8 => 23 | typeBooleanArray => 24 | typeInt8Array => 25
  | typeUint8Array => 26 | typeDouble => 27
  end.

(** The constant with a given number, [None] for numbers with no constant. *)
Definition nvtype_of_code (z : Z) : option nvtype :=
  if 0 <=? z then nvtypes !! Z.to_nat z else None.

Definition nvlistHeaderSize : Z := 16.
Definition uniqueNameFlag : Z := 1.

(** [nvtypeFromKindMap] *)
Definition nvtypeFromKindMap (k : Kind) : option nvtype :=
  match k with
  | Bool => Some typeBooleanValue
  | IntKind KInt8 => Some typeInt8
  | IntKind KInt16 => Some typeInt16
  | IntKind KInt32 => Some typeInt32
  | IntKind KInt64 => Some typeInt64
  | IntKind KUint8 => Some typeByte
  | IntKind KUint16 => Some typeUint16
  | IntKind KUint32 => Some typeUint32
  | IntKind KUint64 => Some typeUint64
  | Float64 => Some typeDouble
  | Map => Some typeNvlist
  | String => Some typeString
  | Struct => Some typeNvlist
  | _ => None
  end.

(** [nvtypeFromArrayKindMap] *)
Definition nvtypeFromArrayKindMap (k : Kind) : option nvtype :=
  match k with
  | Bool => Some typeBooleanArray
  | IntKind KInt8 => Some typeInt8Array
  | IntKind KInt16 => Some typeInt16Array
  | IntKind KInt32 => Some typeInt32Array
  | IntKind KInt64 => Some typeInt64Array
  | IntKind KUint8 => Some typeByteArray
  | IntKind KUint16 => Some typeUint16Array
  | IntKind KUint32 => Some typeUint32Array
  | IntKind KUint64 => Some typeUint64Array
  | Map => Some typeNvlistArray
  | String => Some typeStringArray
  | Struct => Some typeNvlistArray
  | _ => None
  end.

Definition nvtypeFromKind (k : Kind) : nvtype :=
  match nvtypeFromKindMap k with Some t => t | None => typeUnknown end.

Definition nvtypeFromArrayKind (k : Kind) : nvtype :=
  match nvtypeFromArrayKindMap k with Some t => t | None => typeUnknown end.

(** [struct nvpair]; [nvp_Type] is the raw 32-bit number. *)
Record nvpair := NvPair {
  nvp_Size : Z;        (* int32 *)
  nvp_Name_sz : Z;     (* int16 *)
  nvp_Reserve : Z;     (* int16 *)
  nvp_Value_elem : Z;  (* int32 *)
  nvp_Type : Z         (* uint32 *)
}.

(** [struct nvlist] *)
Record nvlist_hdr := NvList {
  nvl_Version : Z;     (* int32 *)
  nvl_Nvflag : Z;      (* uint32 *)
  nvl_Priv : Z;        (* uint64 *)
  nvl_Flag : Z;        (* uint32 *)
  nvl_Pad : Z          (* int32 *)
}.

(** [Encoding] *)
Inductive Encoding := EncodingNative | EncodingXDR.

Definition encoding_byte (e : Encoding) : Z :=
  match e with EncodingNative => 0 | EncodingXDR => 1 end.

Definition bigEndian : Z := 0.
Definition littleEndian : Z := 1.

Lemma nvtype_of_code_code t : nvtype_of_code (nvtype_code t) = Some t.
Proof. destruct t; reflexivity. Qed.

