(* ===== verification/NvEncode.v ===== *)
(** * nvlist/encoder.go: the writer

    [nvlistWriter] is a state record and every method a computation over it.
    A pair is written in place: [startNvPair] reserves sixteen zero bytes,
    the name and the value are appended, and [endNvPair] patches the header
    at the remembered start offset.

    [reflect.Value] is a value with its read-only flag ([flagRO], set below
    unexported struct fields); the zero [reflect.Value] is [None]. *)

From Stdlib Require Import ZArith Lia Strings.Byte Strings.String.
From stdpp Require Import base list gmap.
From S2P Require Import Prelude GoValue NvConsts.

Record nvlistWriter := NvlistWriter {
  w_nvlist : list byte;
  w_nvpairStartByte : Z;
  w_modeWriteFromStartByte : bool;
  w_endianness : option ByteOrder;
  w_flags : Z;
  w_version : Z
}.

Definition set_w_nvlist (l : list byte) (w : nvlistWriter) : nvlistWriter :=
  NvlistWriter l (w_nvpairStartByte w) (w_modeWriteFromStartByte w) (w_endianness w)
    (w_flags w) (w_version w).
Definition set_w_start (z : Z) (w : nvlistWriter) : nvlistWriter :=
  NvlistWriter (w_nvlist w) z (w_modeWriteFromStartByte w) (w_endianness w)
    (w_flags w) (w_version w).
Definition set_w_mode (b : bool) (w : nvlistWriter) : nvlistWriter :=
  NvlistWriter (w_nvlist w) (w_nvpairStartByte w) b (w_endianness w)
    (w_flags w) (w_version w).
Definition set_w_endianness (o : ByteOrder) (w : nvlistWriter) : nvlistWriter :=
  NvlistWriter (w_nvlist w) (w_nvpairStartByte w) (w_modeWriteFromStartByte w) (Some o)
    (w_flags w) (w_version w).

(** [w.nvlist = append(w.nvlist, bs...)] *)
Definition w_append (bs : list byte) : go nvlistWriter unit :=
  gmodify (fun w => set_w_nvlist (w_nvlist w ++ bs) w).

(** ** Primitive writes *)

Definition WriteByte (c : byte) : go nvlistWriter unit := w_append [c].

Definition skipN (n : nat) : go nvlistWriter unit := gforeach WriteByte (replicate n x00).

Definition skipToAlign : go nvlistWriter unit :=
  w <- gget ;;
  let used := blen (w_nvlist w) - w_nvpairStartByte w in
  let padSize := if negb (used mod 8 =? 0) then 8 - used mod 8 else 0 in
  gforeach WriteByte (replicate (Z.to_nat padSize) x00).

(** [for i, b := range buf { nvlist[start+i] = b }] *)
Fixpoint overwrite (data : list byte) (start : Z) (buf : list byte) : outcome (list byte) :=
  match buf with
  | [] => Ok data
  | b :: r => obind (go_update data start b) (fun d => overwrite d (start + 1) r)
  end.

Definition Write (buf : list byte) : go nvlistWriter Z :=
  w <- gget ;;
  (if w_modeWriteFromStartByte w then
     d <- glift (overwrite (w_nvlist w) (w_nvpairStartByte w) buf) ;;
     gmodify (fun w => set_w_start (w_nvpairStartByte w + blen buf) (set_w_nvlist d w))
   else gforeach WriteByte buf) ;;;
  gret (blen buf).

(** The bytes [binary.Write] produces for the values the encoder passes to it:
    fixed-size integers and floats, and pointers to them. A nil [*T] is
    dereferenced when [T] is predeclared and rejected otherwise. *)
Definition binary_bytes (o : ByteOrder) (v : gval) : outcome (list byte) :=
  let fixed v :=
    match v with
    | VInt _ (KInt | KUint | KUintptr) _ => Err ErrBinaryType
    | VInt _ k z => Ok (put_int o k z)
    | VFloat _ is64 bits => Ok (put_uint o (if is64 then 8 else 4)%nat bits)
    | _ => Err ErrBinaryType
    end in
  match v with
  | VPtr _ _ (Some x) => fixed x
  | VPtr _ t None => match tname t with None => Panic PNil | Some _ => Err ErrBinaryType end
  | _ => fixed v
  end.

Definition writeInt (v : gval) : go nvlistWriter unit :=
  w <- gget ;;
  o <- glift (match w_endianness w with Some o => Ok o | None => Panic PNil end) ;;
  bs <- glift (binary_bytes o v) ;;
  Write bs ;;; gret tt.

(** [w.writeInt(x)] for a variable [x] of integer kind [k], error dropped. *)
Definition writeIntK (k : ikind) (z : Z) : go nvlistWriter unit :=
  gignore (writeInt (VInt None k z)).

Fixpoint writeString (s : gostring) : go nvlistWriter unit :=
  match s with
  | [] => w_append [x00]
  | c :: s' =>
      if bool_decide (c = x00) then gerr ErrInvalidValue
      else w_append [c] ;;; writeString s'
  end.

Definition writeNvHeader : go nvlistWriter unit :=
  WriteByte (byte_of_Z (encoding_byte EncodingNative)) ;;;
  WriteByte (byte_of_Z littleEndian) ;;;
  gmodify (set_w_endianness LittleEndian) ;;;
  skipN 2 ;;;
  w <- gget ;;
  writeIntK KInt32 (w_version w) ;;;
  writeIntK KUint32 (w_flags w).

(** ** Reflection helpers *)

Record Value := MkValue { v_ro : bool; v_val : gval }.

Definition unpackVal (v : Value) : option Value :=
  let unpackIface v :=
    match v_val v with
    | VIface _ None => None
    | VIface _ (Some x) => Some (MkValue (v_ro v) x)
    | _ => Some v
    end in
  match v_val v with
  | VPtr _ _ None => None
  | VPtr _ _ (Some x) => unpackIface (MkValue (v_ro v) x)
  | _ => unpackIface v
  end.

Definition unpackType (t : gtype) : outcome gtype :=
  let t := match t with TPtr _ u => u | _ => t end in
  match t with
  | TIface _ => Panic PReflect     (* Elem of an interface type *)
  | _ => Ok t
  end.

(** [v.Interface()] *)
Definition Value_Interface (v : Value) : outcome gval :=
  if v_ro v then Panic PReflect else Ok (v_val v).

(** [v.Bool()] and [v.String()] on the result of [unpackVal]. *)
Definition Value_Bool (v : option Value) : outcome bool :=
  match v with
  | Some (MkValue _ (VBool _ b)) => Ok b
  | _ => Panic PReflect
  end.

Definition Value_String (v : option Value) : gostring :=
  match v with
  | Some (MkValue _ (VString _ s)) => s
  | None => str "<invalid Value>"
  | Some _ => str "<T Value>"
  end.

Definition isEmptyValue (v : option Value) : bool :=
  match v with
  | None => false
  | Some v =>
      match v_val v with
      | VArray _ _ vs | VSlice _ _ vs => blen vs =? 0
      | VMap _ _ _ o => match o with Some kvs => blen kvs =? 0 | None => true end
      | VString _ s => blen s =? 0
      | VBool _ b => negb b
      | VInt _ _ z => z =? 0
      | VFloat _ is64 bits => (bits =? 0) || (bits =? if is64 then 2 ^ 63 else 2 ^ 31)
      | VIface _ o => match o with None => true | Some _ => false end
      | VPtr _ _ o => match o with None => true | Some _ => false end
      | _ => false
      end
  end.

(** ** Pair framing *)

Definition startNvPair : go nvlistWriter unit :=
  gmodify (fun w => set_w_start (blen (w_nvlist w)) w) ;;;
  gforeach WriteByte (replicate (Z.to_nat nvlistHeaderSize) x00).

Definition endNvPair (nvp : nvpair) : go nvlistWriter unit :=
  if nvp_Type nvp =? nvtype_code typeUnknown then gpanic (PExplicit (str "Unknown type hit"))
  else
    w <- gget ;;
    if w_nvpairStartByte w =? 0 then gpanic (PExplicit (str "nvPair was not started"))
    else
      skipToAlign ;;;
      w <- gget ;;
      let size := wrap_signed 4 (blen (w_nvlist w) - w_nvpairStartByte w) in
      gmodify (set_w_mode true) ;;;
      writeIntK KInt32 size ;;;
      writeIntK KInt16 (nvp_Name_sz nvp) ;;;
      writeIntK KInt16 (nvp_Reserve nvp) ;;;
      writeIntK KInt32 (nvp_Value_elem nvp) ;;;
      writeIntK KUint32 (nvp_Type nvp) ;;;
      gmodify (set_w_mode false) ;;;
      gmodify (set_w_start 0).

Definition writeNvlistHeader : go nvlistWriter unit :=
  let nvl := NvList 0 uniqueNameFlag 0 0 0 in
  writeIntK KInt32 (nvl_Version nvl) ;;;
  writeIntK KUint32 (nvl_Nvflag nvl) ;;;
  writeIntK KUint64 (nvl_Priv nvl) ;;;
  writeIntK KUint32 (nvl_Flag nvl) ;;;
  writeIntK KInt32 (nvl_Pad nvl).

(** ** writeNvPairs *)

(** First part: the [names] and [vals] of a map, nil values dropped. *)
Fixpoint collectMap (ro : bool) (kt : gtype) (kvs : list (gostring * gval)) :
    outcome (list (gostring * Value)) :=
  match kvs with
  | [] => Ok []
  | (key, x) :: r =>
      if negb (bool_decide (kind_of_type kt = String)) then Err ErrInvalidValue
      else obind (collectMap ro kt r) (fun l =>
        Ok (match unpackVal (MkValue ro x) with
            | Some val => (key, val) :: l
            | None => l
            end))
  end.

(** The name and the value of one struct field, [None] when it is skipped. *)
Definition collectField (ro : bool) (f : sfield) (x : gval) : option (gostring * Value) :=
  let tags := split_comma (f_Tag f) in
  let name := match tags with t :: _ => t | [] => [] end in
  let val := unpackVal (MkValue (ro || negb (exported (f_Name f))) x) in
  let skip :=
    match tags with
    | _ :: opt :: _ =>
        if bool_decide (opt = str "omitempty") then isEmptyValue val
        else bool_decide (opt = str "ro")
    | _ => false
    end in
  if skip then None
  else match val with
       | Some v => Some (if bool_decide (name = []) then f_Name f else name, v)
       | None => None
       end.

Fixpoint collectStruct (ro : bool) (fs : list (sfield * gval)) : list (gostring * Value) :=
  match fs with
  | [] => []
  | (f, x) :: r =>
      match collectField ro f x with
      | Some p => p :: collectStruct ro r
      | None => collectStruct ro r
      end
  end.

Definition collectPairs (v : Value) : outcome (list (gostring * Value)) :=
  match v_val v with
  | VMap _ kt _ o => collectMap (v_ro v) kt (match o with Some kvs => kvs | None => [] end)
  | VStruct _ fs => Ok (collectStruct (v_ro v) fs)
  | _ => Err ErrInvalidValue
  end.

(** How one iteration of the loop ends: with the next one, or with [return nil]. *)
Inductive flow := Continue | ReturnNil.

Definition fixed_int (k : ikind) : bool :=
  match k with KInt | KUint | KUintptr => false | _ => true end.

(** The array and slice cases of the type switch. *)
Definition writeArray (rec : option Value -> go nvlistWriter unit)
    (nvp : nvpair) (ro : bool) (t : gtype) (vs : list gval) : go nvlistWriter flow :=
  if 2147483647 <=? blen vs then gerr ErrInvalidValue
  else
    let with_type ty :=
      NvPair (nvp_Size nvp) (nvp_Name_sz nvp) (nvp_Reserve nvp) (blen vs) (nvtype_code ty) in
    et <- glift (unpackType t) ;;
    match kind_of_type et with
    | IntKind k =>
        if fixed_int k then
          gforeach (fun x => y <- glift (Value_Interface (MkValue ro x)) ;; writeInt y) vs ;;;
          endNvPair (with_type (nvtypeFromArrayKind (IntKind k))) ;;; gret Continue
        else gerr ErrInvalidValue
    | Bool =>
        gforeach (fun x =>
          b <- glift (Value_Bool (unpackVal (MkValue ro x))) ;;
          writeInt (VInt None KInt32 (if b : bool then 1 else 0))) vs ;;;
        endNvPair (with_type typeBooleanArray) ;;; gret Continue
    | String =>
        skipN (8 * length vs) ;;;
        gforeach (fun x => gignore (writeString (Value_String (unpackVal (MkValue ro x))))) vs ;;;
        endNvPair (with_type typeStringArray) ;;; gret Continue
    | Struct | Map =>
        skipN (8 * length vs) ;;;
        gforeach (fun _ => writeNvlistHeader) vs ;;;
        endNvPair (with_type typeNvlistArray) ;;;
        gforeach (fun x => rec (Some (MkValue ro x))) vs ;;;
        gret Continue
    | _ => gerr ErrInvalidValue
    end.

(** The body of the loop over [names] and [vals]. *)
Definition writePair (rec : option Value -> go nvlistWriter unit)
    (name : gostring) (val : Value) : go nvlistWriter flow :=
  let nameLen := blen name + 1 in
  if 32767 <=? nameLen then gerr ErrInvalidValue
  else
    let nvp n ty := NvPair 0 (wrap_signed 2 nameLen) 0 n (nvtype_code ty) in
    match v_val val with
    | VBool _ false => gret Continue
    | _ =>
        startNvPair ;;;
        gignore (writeString name) ;;;
        skipToAlign ;;;
        match v_val val with
        | VInt _ k _ =>
            if fixed_int k then
              x <- glift (Value_Interface val) ;;
              writeInt x ;;;
              endNvPair (nvp 1 (nvtypeFromKind (IntKind k))) ;;; gret Continue
            else gerr ErrInvalidValue
        | VFloat _ true _ =>
            x <- glift (Value_Interface val) ;;
            writeInt x ;;;
            endNvPair (nvp 1 (nvtypeFromKind Float64)) ;;; gret Continue
        | VBool _ _ => endNvPair (nvp 0 typeBoolean) ;;; gret Continue
        | VMap _ _ _ _ | VStruct _ _ =>
            writeNvlistHeader ;;;
            endNvPair (nvp 1 typeNvlist) ;;;
            (fun w => match rec (Some val) w with
                      | (Ok _, w') => (Ok Continue, w')
                      | (Err _, w') => (Ok ReturnNil, w')
                      | (Panic p, w') => (Panic p, w')
                      | (OutOfFuel, w') => (OutOfFuel, w')
                      end)
        | VString _ s =>
            gignore (writeString s) ;;;
            endNvPair (nvp 1 typeString) ;;; gret Continue
        | VArray _ t vs | VSlice _ t vs => writeArray rec (nvp 1 typeUnknown) (v_ro val) t vs
        | _ => gerr ErrInvalidValue
        end
    end.

(** The loop and the four byte trailer after it. *)
Fixpoint writeLoop (rec : option Value -> go nvlistWriter unit)
    (pairs : list (gostring * Value)) : go nvlistWriter unit :=
  match pairs with
  | [] => skipN 4
  | (name, val) :: r =>
      fl <- writePair rec name val ;;
      match fl with Continue => writeLoop rec r | ReturnNil => gret tt end
  end.

Fixpoint writeNvPairs (fuel : nat) (v : option Value) : go nvlistWriter unit :=
  match fuel with
  | O => glift OutOfFuel
  | S fuel' =>
      match v ≫= unpackVal with
      | None => gret tt
      | Some v =>
          pairs <- glift (collectPairs v) ;;
          writeLoop (writeNvPairs fuel') pairs
      end
  end.

(** [Marshal(val)]; [None] is the nil interface. The fuel is the nesting depth. *)
Definition Marshal (val : option gval) : outcome (list byte) :=
  let w0 := NvlistWriter [] 0 false None uniqueNameFlag 0 in
  let fuel := match val with Some v => S (depth v) | None => 1%nat end in
  match (writeNvHeader ;;; writeNvPairs fuel (MkValue false <$> val)) w0 with
  | (Ok _, w) => Ok (w_nvlist w)
  | (Err e, _) => Err e
  | (Panic p, _) => Panic p
  | (OutOfFuel, _) => OutOfFuel
  end.
