(* ===== verification/NvDecode.v ===== *)
(** * nvlist/decode.go: the reader

    [nvlistReader] walks the buffer from pair to pair, [nvPairReader] walks
    inside one pair. Both are state records; offsets are Go [int]s, kept as
    unbounded integers: an offset is at most the length of the buffer plus the
    31-bit size of a pair or the 8 * 65535 bytes of a string array, far below
    the 64-bit range.

    [readPairs] is driven by the [reflect.Value] it fills. Since the target is
    a tree, filling it is state passing: every function returns the updated
    target next to its result, also when it returns an error or panics. *)

From Stdlib Require Import ZArith Lia Strings.Byte Strings.String.
From stdpp Require Import base list gmap.
From S2P Require Import Prelude GoValue NvConsts.

Record nvlistReader := NvlistReader {
  r_nvlist : list byte;
  r_currentByte : Z;
  r_endianness : option ByteOrder;
  r_encoding : Encoding;
  r_flags : Z;
  r_version : Z
}.

(** The pointer to the list reader is the explicit argument [r] of the methods:
    they only use its buffer, byte order and encoding. *)
Record nvPairReader := NvPairReader {
  p_startByte : Z;
  p_sizeBytes : Z;
  p_currentByte : Z
}.

Definition set_r_currentByte (z : Z) (r : nvlistReader) : nvlistReader :=
  NvlistReader (r_nvlist r) z (r_endianness r) (r_encoding r) (r_flags r) (r_version r).
Definition set_r_encoding (e : Encoding) (r : nvlistReader) : nvlistReader :=
  NvlistReader (r_nvlist r) (r_currentByte r) (r_endianness r) e (r_flags r) (r_version r).
Definition set_r_endianness (o : ByteOrder) (r : nvlistReader) : nvlistReader :=
  NvlistReader (r_nvlist r) (r_currentByte r) (Some o) (r_encoding r) (r_flags r) (r_version r).
Definition set_r_flags (z : Z) (r : nvlistReader) : nvlistReader :=
  NvlistReader (r_nvlist r) (r_currentByte r) (r_endianness r) (r_encoding r) z (r_version r).
Definition set_r_version (z : Z) (r : nvlistReader) : nvlistReader :=
  NvlistReader (r_nvlist r) (r_currentByte r) (r_endianness r) (r_encoding r) (r_flags r) z.
Definition set_p_currentByte (z : Z) (p : nvPairReader) : nvPairReader :=
  NvPairReader (p_startByte p) (p_sizeBytes p) z.
Definition set_p_sizeBytes (z : Z) (p : nvPairReader) : nvPairReader :=
  NvPairReader (p_startByte p) z (p_currentByte p).

(** ** Byte-level methods *)

(** [for i := 0; i < n; i++ { p[i] = data[cur+i] }], the bytes copied. *)
Fixpoint copy_bytes (data : list byte) (cur : Z) (n : nat) : outcome (list byte) :=
  match n with
  | O => Ok []
  | S n' => obind (go_index data cur) (fun b =>
            obind (copy_bytes data (cur + 1) n') (fun l => Ok (b :: l)))
  end.

(** [io.ReadFull(r, buf)] with [len(buf) = len], as called by [binary.Read].
    [Read] returns the bytes stored, their number and whether it reported
    [io.EOF]; both readers below report it with every short read, so the loop
    of [io.ReadAtLeast] makes one call, or none for an empty buffer. *)
Definition io_ReadFull {S} (Read : Z -> go S (list byte * Z * bool)) (len : Z) :
    go S (list byte) :=
  if len =? 0 then gret []
  else
    res <- Read len ;;
    let '(bs, n, _) := res in
    if len <=? n then gret bs
    else if 0 <? n then gerr ErrUnexpectedEOF else gerr EOF.

(** [binary.Read] of one integer of kind [k] through [Read]. *)
Definition binary_Read {S} (Read : Z -> go S (list byte * Z * bool))
    (o : option ByteOrder) (k : ikind) : go S Z :=
  bs <- io_ReadFull Read (Z.of_nat (isize k)) ;;
  match o with Some o => gret (get_int o k bs) | None => gpanic PNil end.

(** The integers of kind [k] in [bs], one every [isize k] bytes. *)
Fixpoint get_ints (o : ByteOrder) (k : ikind) (n : nat) (bs : list byte) : list Z :=
  match n with
  | O => []
  | S n' => get_int o k (take (isize k) bs) :: get_ints o k n' (drop (isize k) bs)
  end.

(** [binary.Read] into a slice of [n] integers of kind [k]. *)
Definition binary_ReadSlice {S} (Read : Z -> go S (list byte * Z * bool))
    (o : option ByteOrder) (k : ikind) (n : Z) : go S (list Z) :=
  bs <- io_ReadFull Read (n * Z.of_nat (isize k)) ;;
  match o with
  | Some o => gret (get_ints o k (Z.to_nat n) bs)
  | None => if n =? 0 then gret [] else gpanic PNil
  end.

Module nvlistReader.
Definition ReadByte : go nvlistReader byte :=
  r <- gget ;;
  if r_currentByte r <? blen (r_nvlist r) then
    val <- glift (go_index (r_nvlist r) (r_currentByte r)) ;;
    gput (set_r_currentByte (r_currentByte r + 1) r) ;;;
    gret val
  else gerr ErrInvalidData.

Definition Read (len : Z) : go nvlistReader (list byte * Z * bool) :=
  r <- gget ;;
  let cur := r_currentByte r in
  let '(n, eof) :=
    if cur + len <? blen (r_nvlist r) then (len, false)
    else (blen (r_nvlist r) - cur, true) in
  bs <- glift (copy_bytes (r_nvlist r) cur (Z.to_nat n)) ;;
  gput (set_r_currentByte (cur + n) r) ;;;
  gret (bs, n, eof).

Definition skipN (n : Z) : go nvlistReader unit :=
  gmodify (fun r => set_r_currentByte (r_currentByte r + n) r).

Definition readInt (k : ikind) : go nvlistReader Z :=
  r <- gget ;; binary_Read Read (r_endianness r) k.

Definition readNvHeader : go nvlistReader unit :=
  encoding <- ReadByte ;;
  (if byte_to_Z encoding =? encoding_byte EncodingNative
   then gmodify (set_r_encoding EncodingNative)
   else if byte_to_Z encoding =? encoding_byte EncodingXDR
   then gmodify (set_r_encoding EncodingXDR)
   else gerr ErrInvalidEncoding) ;;;
  endiness <- ReadByte ;;
  (if byte_to_Z endiness =? bigEndian then gmodify (set_r_endianness BigEndian)
   else if byte_to_Z endiness =? littleEndian then gmodify (set_r_endianness LittleEndian)
   else gerr ErrInvalidEndianess) ;;;
  skipN 2 ;;;
  version <- readInt KInt32 ;;
  gmodify (set_r_version version) ;;;
  flags <- readInt KUint32 ;;
  gmodify (set_r_flags flags).
End nvlistReader.

Module nvPairReader.
Section methods.
Context (r : nvlistReader).

Definition ReadByte : go nvPairReader byte :=
  p <- gget ;;
  if p_currentByte p <=? p_startByte p + p_sizeBytes p then
    val <- glift (go_index (r_nvlist r) (p_currentByte p)) ;;
    gput (set_p_currentByte (p_currentByte p + 1) p) ;;;
    gret val
  else gerr ErrInvalidData.

(** The scanning loop of [ReadBytes]; [n] bounds the bytes left in the pair. *)
Fixpoint scan (delim : byte) (start : Z) (n : nat) : go nvPairReader (list byte) :=
  p <- gget ;;
  match n with
  | O => gerr ErrInvalidData
  | S n' =>
      b <- glift (go_index (r_nvlist r) (p_currentByte p)) ;;
      if bool_decide (b = delim) then
        val <- glift (go_slice (r_nvlist r) start (p_currentByte p + 1)) ;;
        gput (set_p_currentByte (p_currentByte p + 1) p) ;;;
        gret val
      else
        gput (set_p_currentByte (p_currentByte p + 1) p) ;;;
        scan delim start n'
  end.

Definition ReadBytes (delim : byte) : go nvPairReader (list byte) :=
  p <- gget ;;
  let startByte := p_currentByte p in
  scan delim startByte
    (Z.to_nat (p_startByte p + p_sizeBytes p - startByte + 1)).

Definition readN (n : Z) : go nvPairReader (list byte) :=
  p <- gget ;;
  if p_currentByte p + n <=? p_startByte p + p_sizeBytes p then
    val <- glift (go_slice (r_nvlist r) (p_currentByte p) (p_currentByte p + n)) ;;
    gput (set_p_currentByte (p_currentByte p + n) p) ;;;
    gret val
  else gerr ErrInvalidData.

Definition Read (len : Z) : go nvPairReader (list byte * Z * bool) :=
  p <- gget ;;
  let cur := p_currentByte p in
  let '(n, eof) :=
    if cur + len <=? p_startByte p + p_sizeBytes p then (len, false)
    else (p_startByte p + p_sizeBytes p - cur, true) in
  bs <- glift (copy_bytes (r_nvlist r) cur (Z.to_nat n)) ;;
  gput (set_p_currentByte (cur + n) p) ;;;
  gret (bs, n, eof).

Definition readInt (k : ikind) : go nvPairReader Z :=
  binary_Read Read (r_endianness r) k.

(** Go's [%] truncates; the offset inside the pair is never negative. *)
Definition skipToAlign : go nvPairReader unit :=
  let alignment := match r_encoding r with EncodingNative => 8 | EncodingXDR => 4 end in
  gmodify (fun p =>
    let off := Z.rem (p_currentByte p - p_startByte p) alignment in
    if negb (off =? 0) then set_p_currentByte (p_currentByte p + (alignment - off)) p else p).

Definition skipN (n : Z) : go nvPairReader unit :=
  gmodify (fun p => set_p_currentByte (p_currentByte p + n) p).
End methods.
End nvPairReader.

(** ** One pair: framing, header and primitive values *)

(** Start of the loop body: the size, the position of the next pair and the
    reader of this pair; [None] at the zero size that ends the list. *)
Definition nextPair : go nvlistReader (option nvPairReader) :=
  r0 <- gget ;;
  let nvpr := NvPairReader (r_currentByte r0) 0 (r_currentByte r0 + 4) in
  size <- nvlistReader.readInt KInt32 ;;
  if size <? 0 then gerr ErrInvalidData
  else if size =? 0 then gret None
  else
    r <- gget ;;
    if blen (r_nvlist r) <? size + r_currentByte r then gerr ErrInvalidData
    else
      nvlistReader.skipN (size - 4) ;;;
      (match r_encoding r with
       | EncodingXDR => nvlistReader.skipN 4
       | EncodingNative => gret tt
       end) ;;;
      gret (Some (set_p_sizeBytes size nvpr)).

(** The rest of the nvpair header and the name. The size field was read above. *)
Definition readPairHeader (r : nvlistReader) : go nvPairReader (nvpair * gostring) :=
  p <- gget ;;
  name_sz <- nvPairReader.readInt r KInt16 ;;
  if name_sz <=? 0 then gerr ErrInvalidData
  else
    reserve <- nvPairReader.readInt r KInt16 ;;
    value_elem <- nvPairReader.readInt r KInt32 ;;
    if value_elem <? 0 then gerr ErrInvalidData
    else if 65535 <? value_elem then gerr ErrInvalidData
    else
      type <- nvPairReader.readInt r KUint32 ;;
      nameRaw <- nvPairReader.readN r name_sz ;;
      name <- glift (go_slice nameRaw 0 (blen nameRaw - 1)) ;;
      nvPairReader.skipToAlign r ;;;
      gret (NvPair (p_sizeBytes p) name_sz reserve value_elem type, name).

(** What the type switch does with a pair: a value for [setPrimitive], one of
    the two nested cases, or nothing (codes without a case). *)
Inductive pairValue :=
| PVPrimitive (v : gval)
| PVNvlist
| PVNvlistArray (n : Z)
| PVNothing.

(** [switch tmp { case 0: false; case 1: true; default: error }] *)
Definition boolOfInt (tmp : Z) : outcome bool :=
  if tmp =? 0 then Ok false else if tmp =? 1 then Ok true else Err ErrInvalidData.

Definition readScalar (r : nvlistReader) (k : ikind) : go nvPairReader pairValue :=
  z <- nvPairReader.readInt r k ;; gret (PVPrimitive (VInt None k z)).

Definition readIntArray (r : nvlistReader) (k : ikind) (n : Z) : go nvPairReader pairValue :=
  zs <- binary_ReadSlice (nvPairReader.Read r) (r_endianness r) k n ;;
  gret (PVPrimitive (VSlice None (TInt None k) (map (VInt None k) zs))).

(** One string of a string value: everything up to the terminating zero. *)
Definition readCString (r : nvlistReader) : go nvPairReader gostring :=
  data <- nvPairReader.ReadBytes r x00 ;;
  glift (go_slice data 0 (blen data - 1)).

(** [for i := 0; i < n; i++ { val[i] = f() }] *)
Fixpoint readMany {S A} (f : go S A) (n : nat) : go S (list A) :=
  match n with
  | O => gret []
  | S n' => x <- f ;; l <- readMany f n' ;; gret (x :: l)
  end.

Definition readValue (r : nvlistReader) (nvp : nvpair) : go nvPairReader pairValue :=
  let n := nvp_Value_elem nvp in
  match nvtype_of_code (nvp_Type nvp) with
  | Some typeUnknown => gerr ErrInvalidData
  | Some typeBoolean => gret (PVPrimitive (VBool None true))
  | Some typeInt16 => readScalar r KInt16
  | Some typeUint16 => readScalar r KUint16
  | Some typeInt32 => readScalar r KInt32
  | Some typeUint32 => readScalar r KUint32
  | Some typeInt64 => readScalar r KInt64
  | Some typeUint64 => readScalar r KUint64
  | Some typeInt8 => readScalar r KInt8
  | Some typeUint8 => readScalar r KUint8
  | Some typeByte =>
      b <- nvPairReader.ReadByte r ;;
      gret (PVPrimitive (VInt None KUint8 (byte_to_Z b)))
  | Some typeString => s <- readCString r ;; gret (PVPrimitive (VString None s))
  | Some typeBooleanValue =>
      tmp <- nvPairReader.readInt r KInt32 ;;
      b <- glift (boolOfInt tmp) ;;
      gret (PVPrimitive (VBool None b))
  | Some typeInt16Array => readIntArray r KInt16 n
  | Some typeUint16Array => readIntArray r KUint16 n
  | Some typeInt32Array => readIntArray r KInt32 n
  | Some typeUint32Array => readIntArray r KUint32 n
  | Some typeInt64Array => readIntArray r KInt64 n
  | Some typeUint64Array => readIntArray r KUint64 n
  | Some typeInt8Array => readIntArray r KInt8 n
  | Some typeUint8Array => readIntArray r KUint8 n
  | Some typeByteArray =>
      val <- nvPairReader.readN r n ;;
      gret (PVPrimitive (VSlice None (TInt None KUint8)
        (map (fun b => VInt None KUint8 (byte_to_Z b)) val)))
  | Some typeStringArray =>
      nvPairReader.skipN (8 * n) ;;;
      val <- readMany (readCString r) (Z.to_nat n) ;;
      gret (PVPrimitive (VSlice None tString (map (VString None) val)))
  | Some typeBooleanArray =>
      val <- readMany (tmp <- nvPairReader.readInt r KInt32 ;; glift (boolOfInt tmp)) (Z.to_nat n) ;;
      gret (PVPrimitive (VSlice None (TBool None) (map (VBool None) val)))
  | Some typeNvlist => gret PVNvlist
  | Some typeNvlistArray => gret (PVNvlistArray n)
  | Some typeHrtime | Some typeDouble | None => gret PVNothing
  end.

(** Header and value of the pair [p], as one computation on its reader. *)
Definition readPair (r : nvlistReader) (p : nvPairReader) : outcome (gostring * pairValue) :=
  ((h <- readPairHeader r ;; let '(nvp, name) := h in
   pv <- readValue r nvp ;; gret (name, pv)) p).1.

(** ** The target of [readPairs] *)

(** The state of [readPairs]: the target and the list reader. *)
Abbreviation rstate := (gval * nvlistReader)%type.

Definition on_reader {A} (c : go nvlistReader A) : go rstate A :=
  fun s => let '(o, r') := c (snd s) in (o, (fst s, r')).

(** Run [c] on another target, then put the updated one back with [k],
    whatever the outcome. *)
Definition on_target (x : gval) (k : gval -> gval -> gval) (c : go rstate unit) : go rstate unit :=
  fun s => let '(o, (x', r')) := c (x, snd s) in (o, (k x' (fst s), r')).

(** Run [c] on a fresh value; the current target is untouched. *)
Definition on_fresh (x : gval) (c : go rstate unit) : go rstate gval :=
  fun s =>
    match c (x, snd s) with
    | (Ok _, (x', r')) => (Ok x', (fst s, r'))
    | (Err e, (_, r')) => (Err e, (fst s, r'))
    | (Panic p, (_, r')) => (Panic p, (fst s, r'))
    | (OutOfFuel, (_, r')) => (OutOfFuel, (fst s, r'))
    end.

(** Change the target by a computation that may panic. *)
Definition on_value (f : gval -> outcome gval) : go rstate unit :=
  fun s =>
    match f (fst s) with
    | Ok v' => (Ok tt, (v', snd s))
    | Err e => (Err e, s)
    | Panic p => (Panic p, s)
    | OutOfFuel => (OutOfFuel, s)
    end.

(** First lines of [readPairs]: one pointer is followed, an interface variable
    gets a fresh map. The result is the struct or map to fill, whether it is
    addressable, and how it sits in the argument. *)
Definition resolveTarget (addr : bool) (v : gval) : outcome (bool * gval * (gval -> gval)) :=
  let step addr v (k : gval -> gval) :=
    match v with
    | VIface nm _ =>
        if addr : bool then Ok (false, vAnyMap [], fun m => k (VIface nm (Some m)))
        else Panic PReflect
    | VStruct _ _ | VMap _ _ _ _ => Ok (addr, v, k)
    | _ => Err ErrInvalidData
    end in
  match v with
  | VPtr nm t (Some x) => step true x (fun x' => VPtr nm t (Some x'))
  | VPtr _ _ None => Err ErrInvalidData
  | _ => step addr v id
  end.

(** The name a struct field is decoded from. *)
Definition fieldName (f : sfield) : gostring :=
  match split_comma (f_Tag f) with
  | tag :: _ => if bool_decide (tag = []) then f_Name f else tag
  | [] => f_Name f
  end.

(** The map [structFieldByName], to field indices; a later field wins. *)
Definition structFieldByName (v : gval) : gmap gostring nat :=
  match v with
  | VStruct _ fs => list_to_map (rev (imap (fun i e => (fieldName (fst e), i)) fs))
  | _ => ∅
  end.

(** [structFieldByName[name]] together with [field.CanSet()]. *)
Definition settableField (addr : bool) (idx : gmap gostring nat) (name : gostring)
    (fs : list (sfield * gval)) : option (nat * sfield * gval) :=
  match idx !! name with
  | Some i =>
      match fs !! i with
      | Some (f, cur) => if addr && exported (f_Name f) then Some (i, f, cur) else None
      | None => None
      end
  | None => None
  end.

Definition setField (i : nat) (x v : gval) : gval :=
  match v with
  | VStruct nm fs =>
      match fs !! i with Some (f, _) => VStruct nm (<[i := (f, x)]> fs) | None => v end
  | _ => v
  end.

(** [v.SetMapIndex(reflect.ValueOf(name), val)] *)
Definition setMapIndex (name : gostring) (val v : gval) : outcome gval :=
  match v with
  | VMap nm kt t o =>
      obind (assign kt (VString None name)) (fun _ =>
      obind (assign t val) (fun x =>
      match o with
      | Some kvs => Ok (VMap nm kt t (Some (map_set name x kvs)))
      | None => Panic PNilMap
      end))
  | _ => Panic PReflect
  end.

Definition setPrimitive (addr : bool) (idx : gmap gostring nat) (name : gostring)
    (val v : gval) : outcome gval :=
  match v with
  | VStruct _ fs =>
      match settableField addr idx name fs with
      | Some (i, _, cur) => obind (assign (typeOf cur) val) (fun x => Ok (setField i x v))
      | None => Ok v
      end
  | VMap _ _ _ _ => setMapIndex name val v
  | _ => Ok v
  end.

(** ** readPairs *)

Section nested.
(** [rp addr] is the recursive call [readPairs] on an (un)addressable value. *)
Context (rp : bool -> go rstate unit).

(** [case typeNvlist] *)
Definition readNvlist (addr : bool) (idx : gmap gostring nat) (name : gostring) : go rstate unit :=
  s <- gget ;;
  match fst s with
  | VStruct _ fs =>
      match settableField addr idx name fs with
      | Some (i, _, cur) => on_target cur (setField i) (rp true)
      | None => gret tt
      end
  | VMap _ _ t _ =>
      val <- glift (match t with
                    | TIface _ => Ok (vAnyMap [])
                    | TStruct _ _ => Ok (VPtr None t (Some (zero t)))
                    | TMap _ _ u => Ok (VMap None tString u (Some []))
                    | _ => Panic (PExplicit (str "Cannot currently handle complex hybrid types"))
                    end) ;;
      val' <- on_fresh val (rp false) ;;
      on_value (setMapIndex name (match val' with VPtr _ _ (Some x) => x | _ => val' end))
  | _ => gpanic (PExplicit (str "Invalid pair type (not map or struct)"))
  end.

(** The elements of an nvlist array, each read into a fresh map. *)
Fixpoint readElems (n : nat) : go rstate (list gval) :=
  match n with
  | O => gret []
  | S n' => m <- on_fresh (vAnyMap []) (rp true) ;; l <- readElems n' ;; gret (m :: l)
  end.

(** [case typeNvlistArray]; [nvpr] is not used after the skipped headers. *)
Definition readNvlistArray (name : gostring) (n : Z) : go rstate unit :=
  s <- gget ;;
  match fst s with
  | VStruct _ _ =>
      gpanic (PExplicit (str "Deserializing NVListArrays into structs currently unsupported"))
  | VMap _ _ _ _ =>
      l <- readElems (Z.to_nat n) ;;
      on_value (setMapIndex name (VSlice None tAnyMap l))
  | _ => gpanic (PExplicit (str "Invalid pair type (not map or struct)"))
  end.

(** The effect of one pair on the target. *)
Definition storePair (addr : bool) (idx : gmap gostring nat) (name : gostring)
    (pv : pairValue) : go rstate unit :=
  match pv with
  | PVPrimitive x => on_value (setPrimitive addr idx name x)
  | PVNvlist => readNvlist addr idx name
  | PVNvlistArray n => readNvlistArray name n
  | PVNothing => gret tt
  end.
End nested.

(** [readPairs] given the loop. *)
Definition enter (loop : bool -> gmap gostring nat -> go rstate unit) (addr : bool) : go rstate unit :=
  fun s =>
    match resolveTarget addr (fst s) with
    | Ok (addr', x, k) => on_target x (fun x' _ => k x') (loop addr' (structFieldByName x)) s
    | Err e => (Err e, s)
    | Panic p => (Panic p, s)
    | OutOfFuel => (OutOfFuel, s)
    end.

(** The loop of [readPairs]. One unit of fuel per iteration; every iteration
    moves the list reader forward. *)
Fixpoint readLoop (fuel : nat) (addr : bool) (idx : gmap gostring nat) : go rstate unit :=
  match fuel with
  | O => glift OutOfFuel
  | S fuel' =>
      next <- on_reader nextPair ;;
      match next with
      | None => gret tt
      | Some p =>
          s <- gget ;;
          np <- glift (readPair (snd s) p) ;;
          storePair (enter (readLoop fuel')) addr idx (fst np) (snd np) ;;;
          readLoop fuel' addr idx
      end
  end.

Definition readPairs (fuel : nat) (addr : bool) : go rstate unit := enter (readLoop fuel) addr.

(** [Unmarshal(data, val)]: the result and [val] afterwards. [val] is the value
    in the interface the caller passes; a nil interface, which holds none, is
    treated by the code as a nil pointer is. *)
Definition Unmarshal (data : list byte) (val : gval) : outcome unit * gval :=
  let s := NvlistReader data 0 None EncodingNative 0 0 in
  let '(o, (v, _)) :=
    (on_reader nvlistReader.readNvHeader ;;; readPairs (S (length data)) false) (val, s) in
  (o, v).

(** [Fuzz(data)] of nvlist/fuzz.go: [out] is a pointer to an interface, and
    [Unmarshal] gets a pointer to that pointer. *)
Definition Fuzz (data : list byte) : outcome Z :=
  match fst (Unmarshal data (VPtr None (TPtr None tIface) (Some (vIfacePtr None)))) with
  | Ok _ => Ok 1
  | Err _ => Ok 0
  | Panic p => Panic p
  | OutOfFuel => OutOfFuel
  end.
