(* ===== verification/NvWire.v ===== *)
(** * The native nvlist encoding as a specification

    An abstract nvlist is a list of named values of type [nvval]; [wire] lays
    it out as bytes, in either byte order, compositionally: a framed pair,
    then whatever follows it (the pairs of nested lists), then four zero
    bytes. [encoder.go] is proved to produce [wire LittleEndian] and
    [decode.go] to invert [wire] in both byte orders, so [wire] is the
    contract between them. *)

From Stdlib Require Import ZArith Lia Strings.Byte Strings.String.
From stdpp Require Import base list gmap.
From S2P Require Import Prelude GoValue NvConsts.

#[local] Set Warnings "-register-all".

(** One value per nvpair data type. [NInt] covers the eight integer types,
    [NIntArray] their arrays; [NByte] and [NByteArray] are the separate byte
    types. *)
Inductive nvval :=
| NBoolean
| NByte (z : Z)
| NInt (k : ikind) (z : Z)
| NString (s : gostring)
| NBooleanValue (b : bool)
| NByteArray (bs : list byte)
| NIntArray (k : ikind) (zs : list Z)
| NStringArray (ss : list gostring)
| NBooleanArray (bs : list bool)
| NNvlist (l : list (gostring * nvval))
| NNvlistArray (ls : list (list (gostring * nvval)))
| NHrtime (z : Z)
| NDouble (bits : Z).

Abbreviation nvs := (list (gostring * nvval)).

Definition int_code (k : ikind) : nvtype :=
  match k with
  | KInt8 => typeInt8 | KUint8 => typeUint8
  | KInt16 => typeInt16 | KUint16 => typeUint16
  | KInt32 => typeInt32 | KUint32 => typeUint32
  | KInt64 => typeInt64 | KUint64 => typeUint64
  | KInt | KUint | KUintptr => typeUnknown
  end.

Definition int_array_code (k : ikind) : nvtype :=
  match k with
  | KInt8 => typeInt8Array | KUint8 => typeUint8Array
  | KInt16 => typeInt16Array | KUint16 => typeUint16Array
  | KInt32 => typeInt32Array | KUint32 => typeUint32Array
  | KInt64 => typeInt64Array | KUint64 => typeUint64Array
  | KInt | KUint | KUintptr => typeUnknown
  end.

Definition code (v : nvval) : nvtype :=
  match v with
  | NBoolean => typeBoolean
  | NByte _ => typeByte
  | NInt k _ => int_code k
  | NString _ => typeString
  | NBooleanValue _ => typeBooleanValue
  | NByteArray _ => typeByteArray
  | NIntArray k _ => int_array_code k
  | NStringArray _ => typeStringArray
  | NBooleanArray _ => typeBooleanArray
  | NNvlist _ => typeNvlist
  | NNvlistArray _ => typeNvlistArray
  | NHrtime _ => typeHrtime
  | NDouble _ => typeDouble
  end.

(** The [nvp_value_elem] field. *)
Definition elems (v : nvval) : Z :=
  match v with
  | NBoolean => 0
  | NByteArray l => blen l
  | NIntArray _ l => blen l
  | NStringArray l => blen l
  | NBooleanArray l => blen l
  | NNvlistArray l => blen l
  | _ => 1
  end.

Definition zeros (n : nat) : list byte := replicate n x00.
(** Bytes missing to the next multiple of eight. *)
Definition pad8 (n : Z) : Z := (- n) mod 8.
Definition padding (n : Z) : list byte := zeros (Z.to_nat (pad8 n)).

Definition bool_int (b : bool) : Z := if b then 1 else 0.

(** An embedded [nvlist_t]: version, flags, private pointer, flag, padding. *)
Definition nvlist_header (o : ByteOrder) : list byte :=
  put_int o KInt32 0 ++ put_int o KUint32 uniqueNameFlag ++ put_int o KUint64 0
  ++ put_int o KUint32 0 ++ put_int o KInt32 0.

(** A C string. *)
Definition cstring (s : gostring) : list byte := s ++ [x00].

(** The data inside the pair's frame. *)
Definition payload (o : ByteOrder) (v : nvval) : list byte :=
  match v with
  | NBoolean => []
  | NByte z => [byte_of_Z z]
  | NInt k z => put_int o k z
  | NString s => cstring s
  | NBooleanValue b => put_int o KInt32 (bool_int b)
  | NByteArray bs => bs
  | NIntArray k zs => concat (map (put_int o k) zs)
  | NStringArray ss => zeros (8 * length ss) ++ concat (map cstring ss)
  | NBooleanArray bs => concat (map (fun b => put_int o KInt32 (bool_int b)) bs)
  | NNvlist _ => nvlist_header o
  | NNvlistArray ls => zeros (8 * length ls) ++ concat (map (fun _ => nvlist_header o) ls)
  | NHrtime z => put_int o KInt64 z
  | NDouble bits => put_uint o 8 bits
  end.

(** Offset of the data in the frame, and the size of the frame: header and
    name padded to eight bytes, then the data padded to eight bytes. *)
Definition data_offset (name : gostring) : Z :=
  let n := nvlistHeaderSize + blen name + 1 in n + pad8 n.

Definition frame_size (name : gostring) (data : list byte) : Z :=
  let n := data_offset name + blen data in n + pad8 n.

(** [struct nvpair] in byte order [o]. *)
Definition pair_header (o : ByteOrder) (size name_sz n ty : Z) : list byte :=
  put_int o KInt32 size ++ put_int o KInt16 name_sz ++ put_int o KInt16 0
  ++ put_int o KInt32 n ++ put_int o KUint32 ty.

Definition frame (o : ByteOrder) (name : gostring) (ty : nvtype) (n : Z) (data : list byte) :
    list byte :=
  pair_header o (frame_size name data) (blen name + 1) n (nvtype_code ty)
  ++ cstring name ++ padding (nvlistHeaderSize + blen name + 1)
  ++ data ++ padding (data_offset name + blen data).

Definition pair_frame (o : ByteOrder) (name : gostring) (v : nvval) : list byte :=
  frame o name (code v) (elems v) (payload o v).

(** What follows the frame of a pair: the pairs of the lists it embeds. *)
Fixpoint trailer (o : ByteOrder) (v : nvval) : list byte :=
  let pairs := fix pairs (l : nvs) : list byte :=
    match l with
    | [] => zeros 4
    | (name, x) :: r => pair_frame o name x ++ trailer o x ++ pairs r
    end in
  match v with
  | NNvlist l => pairs l
  | NNvlistArray ls => concat (map pairs ls)
  | _ => []
  end.

(** The bytes of a list of pairs. *)
Definition wire (o : ByteOrder) (l : nvs) : list byte := trailer o (NNvlist l).

(** The stream header: encoding, byte order, two reserved bytes, version, flags. *)
Definition stream_header (o : ByteOrder) : list byte :=
  [byte_of_Z (encoding_byte EncodingNative);
   byte_of_Z (match o with BigEndian => bigEndian | LittleEndian => littleEndian end);
   x00; x00] ++ put_int o KInt32 0 ++ put_int o KUint32 uniqueNameFlag.

(** A complete packed nvlist. *)
Definition packed (o : ByteOrder) (l : nvs) : list byte := stream_header o ++ wire o l.

(** ** Representable lists *)

Definition nul_free (s : gostring) : bool := forallb (fun b => negb (bool_decide (b = x00))) s.

Definition fixed_width (k : ikind) : bool :=
  match k with KInt | KUint | KUintptr => false | _ => true end.

(** The frame fits the 32-bit size, the name the 16-bit name size, and the
    element count the reader's limit. *)
Definition frame_fits (name : gostring) (v : nvval) : bool :=
  (frame_size name (payload LittleEndian v) <? 2 ^ 31)
  && (blen name + 1 <? 2 ^ 15) && (elems v <=? 65535).

Fixpoint nv_ok (v : nvval) : bool :=
  let pairs := fix pairs (l : nvs) : bool :=
    match l with
    | [] => true
    | (name, x) :: r => frame_fits name x && nv_ok x && pairs r
    end in
  match v with
  | NByte z => in_range KUint8 z
  | NInt k z => fixed_width k && in_range k z
  | NString s => nul_free s
  | NIntArray k zs => fixed_width k && forallb (in_range k) zs
  | NStringArray ss => forallb nul_free ss
  | NNvlist l => pairs l
  | NNvlistArray ls => forallb pairs ls
  | NHrtime z => in_range KInt64 z
  | NDouble bits => in_range KUint64 bits
  | _ => true
  end.

Definition nvs_ok (l : nvs) : bool := nv_ok (NNvlist l).

(** ** Decoded form *)

Definition store (f : nvval -> option gval) (m : list (gostring * gval)) (p : gostring * nvval) :
    list (gostring * gval) :=
  match f (snd p) with
  | Some g => map_set (fst p) (VIface None (Some g)) m
  | None => m
  end.

(** The Go value an [interface{}] receives; times and doubles are dropped. *)
Fixpoint nv_value (v : nvval) : option gval :=
  match v with
  | NBoolean => Some (VBool None true)
  | NByte z => Some (VInt None KUint8 z)
  | NInt k z => Some (VInt None k z)
  | NString s => Some (VString None s)
  | NBooleanValue b => Some (VBool None b)
  | NByteArray bs =>
      Some (VSlice None (TInt None KUint8) (map (fun b => VInt None KUint8 (byte_to_Z b)) bs))
  | NIntArray k zs => Some (VSlice None (TInt None k) (map (VInt None k) zs))
  | NStringArray ss => Some (VSlice None tString (map (VString None) ss))
  | NBooleanArray bs => Some (VSlice None (TBool None) (map (VBool None) bs))
  | NNvlist l => Some (vAnyMap (fold_left (store nv_value) l []))
  | NNvlistArray ls =>
      Some (VSlice None tAnyMap (map (fun l => vAnyMap (fold_left (store nv_value) l [])) ls))
  | NHrtime _ | NDouble _ => None
  end.

(** The entries of a map after the pairs [l] were decoded into it. *)
Definition nvs_into (m : list (gostring * gval)) (l : nvs) : list (gostring * gval) :=
  fold_left (store nv_value) l m.

Definition nvs_value (l : nvs) : gval := vAnyMap (nvs_into [] l).

(** ** Layout lemmas *)

Lemma wire_nil o : wire o [] = zeros 4.
Proof. reflexivity. Qed.

Lemma wire_cons o name x l :
  wire o ((name, x) :: l) = pair_frame o name x ++ trailer o x ++ wire o l.
Proof. reflexivity. Qed.

Lemma trailer_array o ls : trailer o (NNvlistArray ls) = concat (map (wire o) ls).
Proof. reflexivity. Qed.

Lemma nvs_ok_cons name x l :
  nvs_ok ((name, x) :: l) = frame_fits name x && nv_ok x && nvs_ok l.
Proof. reflexivity. Qed.

Lemma nv_ok_array ls : nv_ok (NNvlistArray ls) = forallb nvs_ok ls.
Proof. reflexivity. Qed.

Lemma nv_value_nvlist l : nv_value (NNvlist l) = Some (nvs_value l).
Proof. reflexivity. Qed.

Lemma blen_zeros n : blen (zeros n) = Z.of_nat n.
Proof. apply blen_replicate. Qed.

Lemma pad8_range n : 0 <= pad8 n < 8.
Proof. apply Z.mod_pos_bound. lia. Qed.

Lemma pad8_aligns n : (n + pad8 n) mod 8 = 0.
Proof.
  unfold pad8. rewrite Z.add_mod_idemp_r by lia.
  replace (n + - n) with 0 by lia. reflexivity.
Qed.

Lemma blen_padding n : blen (padding n) = pad8 n.
Proof. unfold padding. rewrite blen_zeros. pose proof (pad8_range n). lia. Qed.

Lemma blen_cstring s : blen (cstring s) = blen s + 1.
Proof. unfold cstring. now rewrite blen_app. Qed.

#[export] Hint Rewrite blen_zeros blen_padding blen_cstring : blen.

Lemma blen_concat_const {A B} (f : A -> list B) c l :
  (forall x, blen (f x) = c) -> blen (concat (map f l)) = c * blen l.
Proof. intros H. induction l as [|x l IH]; cbn [map concat]; [autorewrite with blen; lia|].
  rewrite blen_app, blen_cons, IH, H. lia. Qed.

Lemma blen_nvlist_header o : blen (nvlist_header o) = 24.
Proof. unfold nvlist_header. now autorewrite with blen. Qed.

Lemma blen_pair_header o size name_sz n ty :
  blen (pair_header o size name_sz n ty) = nvlistHeaderSize.
Proof. unfold pair_header. now autorewrite with blen. Qed.

Lemma blen_stream_header o : blen (stream_header o) = 12.
Proof. unfold stream_header. now autorewrite with blen. Qed.

#[export] Hint Rewrite blen_nvlist_header blen_pair_header blen_stream_header : blen.

(** The byte order does not change the size of the data. *)
Lemma blen_payload o v : blen (payload o v) = blen (payload LittleEndian v).
Proof.
  destruct v; cbn [payload]; autorewrite with blen; try done.
  - rewrite !(blen_concat_const _ (Z.of_nat (isize k))) by (intros; apply blen_put_int). done.
  - rewrite !(blen_concat_const _ 4) by (intros; apply blen_put_int). done.
  - rewrite !(blen_concat_const _ 24) by (intros; apply blen_nvlist_header). done.
Qed.

Lemma frame_size_data name d d' : blen d = blen d' -> frame_size name d = frame_size name d'.
Proof. unfold frame_size. now intros ->. Qed.

Lemma blen_frame o name ty n data : blen (frame o name ty n data) = frame_size name data.
Proof.
  unfold frame, frame_size, data_offset. autorewrite with blen. lia.
Qed.

Lemma blen_pair_frame o name v :
  blen (pair_frame o name v) = frame_size name (payload LittleEndian v).
Proof.
  unfold pair_frame. rewrite blen_frame. apply frame_size_data, blen_payload.
Qed.

Lemma frame_size_bounds name data :
  24 <= frame_size name data /\ data_offset name + blen data <= frame_size name data.
Proof.
  unfold frame_size, data_offset, nvlistHeaderSize.
  pose proof (pad8_range (16 + blen name + 1)).
  pose proof (pad8_range (16 + blen name + 1 + pad8 (16 + blen name + 1) + blen data)).
  pose proof (pad8_aligns (16 + blen name + 1)).
  pose proof (blen_nonneg name). pose proof (blen_nonneg data).
  assert (24 <= 16 + blen name + 1 + pad8 (16 + blen name + 1)); [|lia].
  Z.div_mod_to_equations. lia.
Qed.

