(* ===== verification/NvEncodeSpec.v ===== *)
(** * The encoder implements the wire format

    [abs_pairs] is the abstract nvlist a Go value stands for, and
    [writeNvPairs] is proved to append exactly its [wire] bytes: the
    reserve-and-patch writer refines the compositional layout. *)

From Stdlib Require Import ZArith Lia Strings.Byte Strings.String.
From stdpp Require Import base list gmap.
From S2P Require Import Prelude GoValue NvConsts NvEncode NvWire.

(** ** The abstract list of a Go value *)

(** An integer element of kind [k], possibly behind a pointer. *)
Definition int_elem (k : ikind) (x : gval) : option Z :=
  match x with
  | VInt _ k' z | VPtr _ _ (Some (VInt _ k' z)) =>
      if bool_decide (k' = k) && in_range k z then Some z else None
  | _ => None
  end.

Definition bool_elem (x : gval) : option bool :=
  match unpackVal (MkValue false x) with Some (MkValue _ (VBool _ b)) => Some b | _ => None end.

Definition string_elem (x : gval) : option gostring :=
  match unpackVal (MkValue false x) with
  | Some (MkValue _ (VString _ s)) => if nul_free s then Some s else None
  | _ => None
  end.

Definition abs_array (rec : Value -> option nvs) (t : gtype) (vs : list gval) : option nvval :=
  if 2147483647 <=? blen vs then None
  else
    match unpackType t with
    | Ok et =>
        match kind_of_type et with
        | IntKind KUint8 => NByteArray ∘ map byte_of_Z <$> mapM (int_elem KUint8) vs
        | IntKind k => if fixed_int k then NIntArray k <$> mapM (int_elem k) vs else None
        | Bool => NBooleanArray <$> mapM bool_elem vs
        | String => NStringArray <$> mapM string_elem vs
        | Struct | Map => NNvlistArray <$> mapM (fun x => rec (MkValue false x)) vs
        | _ => None
        end
    | _ => None
    end.

(** [Some None]: the value is left out (a [false] boolean). *)
Definition abs_value (rec : Value -> option nvs) (v : Value) : option (option nvval) :=
  if v_ro v then None
  else
    match v_val v with
    | VBool _ b => Some (if b then Some NBoolean else None)
    | VInt _ k z =>
        if fixed_int k && in_range k z
        then Some (Some (if bool_decide (k = KUint8) then NByte z else NInt k z)) else None
    | VFloat _ true bits => if in_range KUint64 bits then Some (Some (NDouble bits)) else None
    | VString _ s => if nul_free s then Some (Some (NString s)) else None
    | VMap _ _ _ _ | VStruct _ _ => Some ∘ NNvlist <$> rec v
    | VArray _ t vs | VSlice _ t vs => Some <$> abs_array rec t vs
    | _ => None
    end.

Fixpoint abs_list (f : Value -> option (option nvval)) (ps : list (gostring * Value)) : option nvs :=
  match ps with
  | [] => Some []
  | (name, v) :: r =>
      if nul_free name && (blen name + 1 <? 32767) then
        match f v, abs_list f r with
        | Some (Some x), Some l => Some ((name, x) :: l)
        | Some None, Some l => Some l
        | _, _ => None
        end
      else None
  end.

(** The list of pairs of a map or struct, [None] when it is not cleanly
    representable (nil, bad kinds, zero bytes in strings, long names). *)
Fixpoint abs_pairs (fuel : nat) (v : Value) : option nvs :=
  match fuel with
  | O => None
  | S fuel' =>
      match unpackVal v with
      | Some v =>
          match collectPairs v with
          | Ok ps => abs_list (abs_value (abs_pairs fuel')) ps
          | _ => None
          end
      | None => None
      end
  end.

(** The abstract list of an argument of [Marshal]. *)
Definition abstract (v : gval) : option nvs := abs_pairs (S (depth v)) (MkValue false v).

(** ** Writer steps as equations *)

Definition w_app (bs : list byte) (w : nvlistWriter) : nvlistWriter :=
  set_w_nvlist (w_nvlist w ++ bs) w.

(** Between pairs: append mode, byte order chosen, header written. *)
Definition ready (w : nvlistWriter) : Prop :=
  w_modeWriteFromStartByte w = false /\ w_endianness w = Some LittleEndian
  /\ 0 < blen (w_nvlist w).

Lemma w_app_app a b w : w_app b (w_app a w) = w_app (a ++ b) w.
Proof. destruct w. unfold w_app, set_w_nvlist. cbn. now rewrite app_assoc. Qed.

Lemma w_app_nil w : w_app [] w = w.
Proof. destruct w. unfold w_app, set_w_nvlist. cbn. now rewrite app_nil_r. Qed.

Lemma w_app_restart a b s s' w :
  w_app b (set_w_start s' (w_app a (set_w_start s w))) = w_app (a ++ b) (set_w_start s' w).
Proof. destruct w. unfold w_app, set_w_nvlist. cbn. now rewrite app_assoc. Qed.

Lemma ready_app bs w : ready w -> ready (w_app bs w).
Proof. intros (? & ? & ?). repeat split; try done. cbn. blen_lia. Qed.

Lemma ready_start s w : ready w -> ready (set_w_start s w).
Proof. done. Qed.

#[export] Hint Resolve ready_app ready_start : gozfs.

Lemma gforeach_WriteByte bs w : gforeach WriteByte bs w = (Ok tt, w_app bs w).
Proof.
  revert w. induction bs as [|b bs IH]; intros w; cbn.
  - now rewrite w_app_nil.
  - unfold gbind. cbn. rewrite IH. f_equal. apply (w_app_app [b] bs).
Qed.

Lemma skipN_spec n w : skipN n w = (Ok tt, w_app (zeros n) w).
Proof. apply gforeach_WriteByte. Qed.

Lemma pad8_code n : (if negb (n mod 8 =? 0) then 8 - n mod 8 else 0) = pad8 n.
Proof.
  unfold pad8. pose proof (Z.mod_pos_bound n 8 ltac:(lia)).
  destruct (Z.eqb_spec (n mod 8) 0) as [E|E]; cbn [negb].
  - now rewrite Z.mod_opp_l_z.
  - now rewrite Z.mod_opp_l_nz by lia.
Qed.

Lemma skipToAlign_spec w :
  skipToAlign w = (Ok tt, w_app (padding (blen (w_nvlist w) - w_nvpairStartByte w)) w).
Proof. unfold skipToAlign, gbind, gget. rewrite pad8_code. apply gforeach_WriteByte. Qed.

Lemma Write_append buf w :
  w_modeWriteFromStartByte w = false -> Write buf w = (Ok (blen buf), w_app buf w).
Proof.
  intros H. unfold Write, gbind at 1, gget. rewrite H.
  now rewrite (gbind_ok _ _ _ _ _ (gforeach_WriteByte buf w)).
Qed.

Lemma writeInt_append v bs w :
  ready w -> binary_bytes LittleEndian v = Ok bs -> writeInt v w = (Ok tt, w_app bs w).
Proof.
  intros (Hm & He & _) Hb. unfold writeInt, gbind at 1, gget. rewrite He.
  unfold glift at 1, gbind at 1. rewrite Hb. unfold glift at 1, gbind at 1.
  now rewrite (gbind_ok _ _ _ _ _ (Write_append bs w Hm)).
Qed.

Lemma writeIntK_append k z w :
  ready w -> fixed_int k = true -> writeIntK k z w = (Ok tt, w_app (put_int LittleEndian k z) w).
Proof.
  intros R F. unfold writeIntK, gignore.
  rewrite (writeInt_append _ (put_int LittleEndian k z) w R); [done|].
  now destruct k.
Qed.

Lemma writeString_spec s w :
  nul_free s = true -> writeString s w = (Ok tt, w_app (cstring s) w).
Proof.
  unfold cstring. revert w. induction s as [|c s IH]; intros w; cbn [nul_free forallb writeString].
  - reflexivity.
  - intros [H1 H2]%andb_true_iff.
    destruct (bool_decide (c = x00)); [discriminate|].
    unfold gbind. cbn. rewrite (IH _ H2). f_equal. apply (w_app_app [c]).
Qed.

Lemma ignore_writeString s w :
  nul_free s = true -> gignore (writeString s) w = (Ok tt, w_app (cstring s) w).
Proof. intros H. unfold gignore. now rewrite writeString_spec. Qed.

(** Run the first computation of a sequence with its equation [H]. *)
Ltac wstep H :=
  erewrite gbind_ok by (eapply H; eauto with gozfs); cbv beta.

Lemma gforeach_append {A} (f : A -> go nvlistWriter unit) (g : A -> list byte) l w :
  ready w ->
  (forall x w, x ∈ l -> ready w -> f x w = (Ok tt, w_app (g x) w)) ->
  gforeach f l w = (Ok tt, w_app (concat (map g l)) w).
Proof.
  revert w. induction l as [|x l IH]; intros w R H; cbn.
  - now rewrite w_app_nil.
  - rewrite (gbind_ok _ _ _ _ _ (H x w ltac:(set_solver) R)).
    rewrite IH; [|eauto with gozfs|intros; apply H; set_solver].
    now rewrite w_app_app.
Qed.

Lemma writeNvlistHeader_spec w :
  ready w -> writeNvlistHeader w = (Ok tt, w_app (nvlist_header LittleEndian) w).
Proof.
  intros R. unfold writeNvlistHeader, nvlist_header. cbn [nvl_Version nvl_Nvflag nvl_Priv nvl_Flag nvl_Pad].
  do 4 wstep writeIntK_append. rewrite writeIntK_append by eauto with gozfs. now rewrite !w_app_app, <- ?app_assoc.
Qed.

(** ** Framing *)

Lemma overwrite_spec pre old buf post :
  length old = length buf ->
  overwrite (pre ++ old ++ post) (blen pre) buf = Ok (pre ++ buf ++ post).
Proof.
  revert pre old. induction buf as [|b buf IH]; intros pre [|c old] L; try discriminate; [done|].
  cbn [overwrite]. unfold go_update.
  assert (0 <= blen pre < blen (pre ++ (c :: old) ++ post)) by blen_lia.
  decide_true ((0 <=? blen pre) && (blen pre <? blen (pre ++ (c :: old) ++ post))).
  cbn [obind]. unfold blen at 1. rewrite Nat2Z.id.
  rewrite insert_app_r_alt, Nat.sub_diag by lia. cbn.
  replace (blen pre + 1) with (blen (pre ++ [b])) by now rewrite blen_app.
  injection L as L. specialize (IH (pre ++ [b]) old L). rewrite <- !app_assoc in IH.
  exact IH.
Qed.

(** A write at the remembered offset: [old] becomes the integer. *)
Lemma writeIntK_patch k z pre old post f v :
  fixed_int k = true -> length old = isize k ->
  writeIntK k z (NvlistWriter (pre ++ old ++ post) (blen pre) true (Some LittleEndian) f v) =
    (Ok tt, NvlistWriter ((pre ++ put_int LittleEndian k z) ++ post)
              (blen (pre ++ put_int LittleEndian k z)) true (Some LittleEndian) f v).
Proof.
  intros Hk Hl.
  assert (B : binary_bytes LittleEndian (VInt None k z) = Ok (put_int LittleEndian k z))
    by now destruct k.
  unfold writeIntK, gignore, writeInt, gbind, gget, glift. cbn [w_endianness]. rewrite B.
  unfold Write, gbind, gget, glift. cbn [w_modeWriteFromStartByte w_nvlist w_nvpairStartByte].
  rewrite overwrite_spec by now rewrite length_put_int.
  unfold gmodify, gret, set_w_start, set_w_nvlist. cbn -[blen].
  now rewrite blen_app, <- app_assoc.
Qed.

Lemma put_int_wrap o z : put_int o KInt32 (wrap_signed 4 z) = put_int o KInt32 z.
Proof.
  unfold put_int, wrap_signed. cbn [isize].
  assert (E : forall a b, a mod 2 ^ 32 = b mod 2 ^ 32 -> put_uint o 4 a = put_uint o 4 b).
  { intros a b H.
    rewrite <- (put_get_uint o (put_uint o 4 a)), <- (put_get_uint o (put_uint o 4 b)).
    rewrite !get_put_uint, !length_put_uint. change (8 * Z.of_nat 4) with 32. now rewrite H. }
  apply E. unfold to_signed. change (8 * Z.of_nat 4) with 32. go_case.
  - now rewrite Z.mod_mod by lia.
  - rewrite <- (Z.mod_add _ 1) by lia. rewrite Z.mul_1_l, Z.sub_add. now rewrite Z.mod_mod by lia.
Qed.

(** The five header writes of [endNvPair], followed by [k]. *)
Lemma patch_header {A} (k : go nvlistWriter A) pre body f v size name_sz n ty :
  (writeIntK KInt32 size ;;; writeIntK KInt16 name_sz ;;; writeIntK KInt16 0 ;;;
   writeIntK KInt32 n ;;; writeIntK KUint32 ty ;;; k)
    (NvlistWriter (pre ++ zeros 16 ++ body) (blen pre) true (Some LittleEndian) f v) =
  k (NvlistWriter (pre ++ pair_header LittleEndian size name_sz n ty ++ body)
       (blen (pre ++ pair_header LittleEndian size name_sz n ty)) true
       (Some LittleEndian) f v).
Proof.
  change (zeros 16 ++ body)
    with (zeros 4 ++ (zeros 2 ++ (zeros 2 ++ (zeros 4 ++ (zeros 4 ++ body))))).
  do 5 (erewrite gbind_ok by now apply writeIntK_patch).
  unfold pair_header. now rewrite <- !app_assoc.
Qed.

(** [endNvPair] pads the pair and fills in the reserved header. *)
Lemma endNvPair_spec pre body f v name_sz n ty :
  0 < blen pre -> nvtype_code ty <> 0 ->
  let size := nvlistHeaderSize + blen body in
  endNvPair (NvPair 0 name_sz 0 n (nvtype_code ty))
    (NvlistWriter (pre ++ zeros 16 ++ body) (blen pre) false (Some LittleEndian) f v) =
    (Ok tt, NvlistWriter
      (pre ++ pair_header LittleEndian (size + pad8 size) name_sz n (nvtype_code ty)
           ++ body ++ padding size) 0 false (Some LittleEndian) f v).
Proof.
  intros Hpos Hty size.
  unfold endNvPair. cbn [nvp_Type nvp_Name_sz nvp_Reserve nvp_Value_elem].
  change (nvtype_code typeUnknown) with 0. decide_false (nvtype_code ty =? 0).
  unfold gbind at 1, gget at 1. cbn [w_nvpairStartByte]. decide_false (blen pre =? 0).
  wstep skipToAlign_spec. unfold gbind at 1, gget at 1, gmodify at 1, gbind at 1.
  unfold w_app, set_w_nvlist, set_w_mode. cbn [w_nvlist w_nvpairStartByte w_endianness w_flags w_version].
  assert (L : blen (pre ++ zeros 16 ++ body) - blen pre = size)
    by (unfold size, nvlistHeaderSize; autorewrite with blen; lia).
  rewrite L.
  replace (blen ((pre ++ zeros 16 ++ body) ++ padding size) - blen pre) with (size + pad8 size)
    by (rewrite blen_app, blen_padding; lia).
  rewrite <- !app_assoc, patch_header.
  unfold gmodify, gbind, set_w_mode, set_w_start.
  cbn [w_nvlist w_nvpairStartByte w_modeWriteFromStartByte w_endianness w_flags w_version].
  unfold pair_header. now rewrite put_int_wrap.
Qed.

(** The writer inside a pair, after the name was written and padded. *)
Definition opened (name : gostring) (w : nvlistWriter) : nvlistWriter :=
  w_app (zeros 16 ++ cstring name ++ padding (nvlistHeaderSize + blen name + 1))
    (set_w_start (blen (w_nvlist w)) w).

Lemma ready_opened name w : ready w -> ready (opened name w).
Proof. intros. unfold opened. eauto with gozfs. Qed.
#[export] Hint Resolve ready_opened : gozfs.

Lemma open_pair {A} (k : go nvlistWriter A) name w :
  nul_free name = true ->
  (startNvPair ;;; gignore (writeString name) ;;; skipToAlign ;;; k) w = k (opened name w).
Proof.
  intros N. unfold startNvPair.
  erewrite gbind_ok by (unfold gbind at 1, gmodify at 1; apply gforeach_WriteByte).
  wstep ignore_writeString. wstep skipToAlign_spec. f_equal.
  unfold opened. rewrite !w_app_app, <- ?app_assoc.
  change (replicate (Z.to_nat nvlistHeaderSize) x00) with (zeros 16).
  do 3 f_equal. cbn -[blen zeros cstring]. autorewrite with blen. unfold nvlistHeaderSize. f_equal. lia.
Qed.

Lemma close_pair name data n ty w :
  ready w -> nvtype_code ty <> 0 ->
  endNvPair (NvPair 0 (blen name + 1) 0 n (nvtype_code ty)) (w_app data (opened name w)) =
  (Ok tt, w_app (frame LittleEndian name ty n data) (set_w_start 0 w)).
Proof.
  destruct w as [nv s m e fl v]. intros (Hm & He & Hp) Hty. cbn in Hm, He, Hp. subst m e.
  unfold opened, w_app, set_w_nvlist, set_w_start.
  cbn [w_nvlist w_nvpairStartByte w_modeWriteFromStartByte w_endianness w_flags w_version].
  rewrite <- !app_assoc, endNvPair_spec by done. do 2 f_equal.
  unfold frame. rewrite <- !app_assoc.
  assert (E : nvlistHeaderSize
      + blen (cstring name ++ padding (nvlistHeaderSize + blen name + 1) ++ data)
      = data_offset name + blen data)
    by (unfold data_offset; autorewrite with blen; lia).
  rewrite E. reflexivity.
Qed.

(** Closing a pair whose data [c] appends. *)
Lemma framed (c : go nvlistWriter unit) name data n ty w w0 :
  ready w -> nvtype_code ty <> 0 ->
  c w0 = (Ok tt, w_app data (opened name w)) ->
  (c ;;; endNvPair (NvPair 0 (blen name + 1) 0 n (nvtype_code ty)) ;;; gret Continue) w0
  = (Ok Continue, w_app (frame LittleEndian name ty n data) (set_w_start 0 w)).
Proof.
  intros R H E. rewrite (gbind_ok _ _ _ _ _ E).
  now rewrite (gbind_ok _ _ _ _ _ (close_pair _ _ _ _ _ R H)).
Qed.

Lemma wrap_signed_small z : 0 <= z < 32767 -> wrap_signed 2 z = z.
Proof.
  intros H. unfold wrap_signed. apply to_signed_mod; [|lia].
  change (2 ^ (8 * Z.of_nat 2 - 1)) with 32768. lia.
Qed.

(** ** Elements of arrays *)

Lemma mapM_elems {A B} (f : A -> option B) (g : A -> list byte) (h : B -> list byte) vs zs :
  mapM f vs = Some zs -> (forall x z, x ∈ vs -> f x = Some z -> g x = h z) ->
  concat (map g vs) = concat (map h zs).
Proof.
  intros H%mapM_Some G. induction H as [|x z vs zs E F IH]; [done|]. cbn. f_equal.
  - apply G; set_solver.
  - apply IH. intros. apply G; set_solver.
Qed.

Lemma mapM_blen {A B} (f : A -> option B) vs zs : mapM f vs = Some zs -> blen zs = blen vs.
Proof. intros H%length_mapM. unfold blen. now rewrite H. Qed.

(** Writing the elements of an array, when each element [x] yields [h z]. *)
Lemma gforeach_mapM {A B} (f : A -> option B) (c : A -> go nvlistWriter unit) h vs zs w :
  ready w -> mapM f vs = Some zs ->
  (forall x z w, f x = Some z -> ready w -> c x w = (Ok tt, w_app (h z) w)) ->
  gforeach c vs w = (Ok tt, w_app (concat (map h zs)) w).
Proof.
  intros R M%mapM_Some H. revert w R.
  induction M as [|x z vs zs E F IH]; intros w R; cbn; [now rewrite w_app_nil|].
  wstep H. rewrite IH by eauto with gozfs. now rewrite w_app_app.
Qed.

Lemma write_int_elem k x z w :
  fixed_int k = true -> int_elem k x = Some z -> ready w ->
  (y <- glift (Value_Interface (MkValue false x)) ;; writeInt y) w
  = (Ok tt, w_app (put_int LittleEndian k z) w).
Proof.
  intros F E R. unfold gbind at 1, glift at 1, Value_Interface. cbn [v_ro v_val].
  apply writeInt_append; [done|]. unfold int_elem in E.
  repeat case_match; try discriminate; simplify_eq; bool_to_prop;
    repeat match goal with H : bool_decide _ = true |- _ => apply bool_decide_eq_true in H; subst end;
    now destruct k.
Qed.

Lemma write_bool_elem x b w :
  bool_elem x = Some b -> ready w ->
  (b <- glift (Value_Bool (unpackVal (MkValue false x))) ;;
   writeInt (VInt None KInt32 (if b : bool then 1 else 0))) w
  = (Ok tt, w_app (put_int LittleEndian KInt32 (bool_int b)) w).
Proof.
  unfold bool_elem. intros E R.
  destruct (unpackVal (MkValue false x)) as [[ro []]|]; try discriminate. simplify_eq.
  unfold gbind at 1, glift at 1. cbn [Value_Bool]. now apply writeInt_append.
Qed.

Lemma write_string_elem x s w :
  string_elem x = Some s -> ready w ->
  gignore (writeString (Value_String (unpackVal (MkValue false x)))) w
  = (Ok tt, w_app (cstring s) w).
Proof.
  unfold string_elem. intros E R.
  destruct (unpackVal (MkValue false x)) as [[ro []]|]; try discriminate.
  destruct (nul_free s0) eqn:N; simplify_eq. now apply ignore_writeString.
Qed.

(** ** The pair loop *)

(** The recursive call writes the wire bytes of the abstract list. *)
Definition rec_ok (rec_abs : Value -> option nvs) (rec : option Value -> go nvlistWriter unit) : Prop :=
  forall v l w, rec_abs v = Some l -> ready w ->
    exists s, rec (Some v) w = (Ok tt, w_app (wire LittleEndian l) (set_w_start s w)).

Lemma gforeach_rec rec_abs rec vs ls w :
  rec_ok rec_abs rec -> mapM (fun x => rec_abs (MkValue false x)) vs = Some ls -> ready w ->
  exists s, gforeach (fun x => rec (Some (MkValue false x))) vs w
            = (Ok tt, w_app (concat (map (wire LittleEndian) ls)) (set_w_start s w)).
Proof.
  intros H M%mapM_Some. revert w. induction M as [|x l vs ls E F IH]; intros w R; cbn.
  - exists (w_nvpairStartByte w). destruct w. now rewrite w_app_nil.
  - destruct (H _ _ w E R) as [s Hs]. rewrite (gbind_ok _ _ _ _ _ Hs).
    edestruct IH as [s' Hs']; [|rewrite Hs'; exists s'].
    + eauto with gozfs.
    + now rewrite w_app_restart.
Qed.

Lemma concat_singleton zs :
  concat (map (put_int LittleEndian KUint8) zs) = map byte_of_Z zs.
Proof. induction zs as [|z zs IH]; cbn; [done|]. now rewrite IH. Qed.

(** The result of writing the pair [name] with value [x] after [w]. *)
Definition wrote (name : gostring) (x : nvval) (w : nvlistWriter)
    (res : outcome flow * nvlistWriter) : Prop :=
  exists s, res = (Ok Continue,
    w_app (pair_frame LittleEndian name x ++ trailer LittleEndian x) (set_w_start s w)).

(** Values without embedded lists: their data, then [endNvPair]. *)
Lemma wrote_simple c name x w w0 :
  ready w -> trailer LittleEndian x = [] -> nvtype_code (code x) <> 0 ->
  c w0 = (Ok tt, w_app (payload LittleEndian x) (opened name w)) ->
  wrote name x w
    ((c ;;; endNvPair (NvPair 0 (blen name + 1) 0 (elems x) (nvtype_code (code x)))
        ;;; gret Continue) w0).
Proof.
  intros R T H C. exists 0. rewrite T, app_nil_r. unfold pair_frame. now apply framed.
Qed.

Lemma wrote_int_array rec_abs rec name t et k vs x w :
  ready w -> blen vs < 2147483647 -> unpackType t = Ok et -> kind_of_type et = IntKind k ->
  abs_array rec_abs t vs = Some x ->
  wrote name x w (writeArray rec (NvPair 0 (blen name + 1) 0 1 0) false t vs (opened name w)).
Proof.
  intros R L Et Ek. unfold abs_array, writeArray.
  decide_false (2147483647 <=? blen vs). rewrite Et. unfold glift at 1, gbind at 1. rewrite Ek.
  destruct (decide (k = KUint8)) as [->|Nk].
  - intros E. apply fmap_Some in E as (zs & E & ->). cbn [fixed_int nvp_Size nvp_Name_sz nvp_Reserve].
    replace (blen vs) with (elems (NByteArray (map byte_of_Z zs)))
      by (cbn; rewrite blen_map; now apply mapM_blen in E).
    apply wrote_simple; [done..|]. cbn [payload]. rewrite <- concat_singleton.
    eapply gforeach_mapM; eauto using write_int_elem with gozfs.
  - intros E.
    assert (E' : fixed_int k = true /\ exists zs, mapM (int_elem k) vs = Some zs /\ x = NIntArray k zs).
    { destruct k; try discriminate; try done; apply fmap_Some in E as (zs & E & ->); eauto. }
    destruct E' as (F & zs & E' & ->). rewrite F.
    replace (blen vs) with (elems (NIntArray k zs)) by (cbn; now apply mapM_blen in E').
    replace (nvtypeFromArrayKind (IntKind k)) with (code (NIntArray k zs)) by now destruct k.
    apply wrote_simple; [done|done|now destruct k|].
    eapply gforeach_mapM; eauto using write_int_elem with gozfs.
Qed.

Lemma wrote_list_array rec_abs rec name vs ls w :
  rec_ok rec_abs rec -> ready w -> mapM (fun x => rec_abs (MkValue false x)) vs = Some ls ->
  wrote name (NNvlistArray ls) w
    ((skipN (8 * length vs) ;;; gforeach (fun _ => writeNvlistHeader) vs ;;;
      endNvPair (NvPair 0 (blen name + 1) 0 (blen vs) (nvtype_code typeNvlistArray)) ;;;
      gforeach (fun x => rec (Some (MkValue false x))) vs ;;; gret Continue) (opened name w)).
Proof.
  intros HR R E. pose proof (length_mapM _ _ _ E) as L.
  wstep skipN_spec.
  erewrite gbind_ok.
  2: { apply (gforeach_append _ (fun _ => nvlist_header LittleEndian)); [eauto with gozfs|].
       intros; now apply writeNvlistHeader_spec. }
  rewrite w_app_app. erewrite gbind_ok by now apply close_pair.
  destruct (gforeach_rec rec_abs rec vs ls
    (w_app (pair_frame LittleEndian name (NNvlistArray ls)) (set_w_start 0 w)) HR E) as [s Hs].
  { eauto with gozfs. }
  exists s. unfold pair_frame in Hs. cbn [code elems payload] in Hs.
  assert (Hc : concat (map (fun _ => nvlist_header LittleEndian) vs)
               = concat (map (fun _ => nvlist_header LittleEndian) ls)).
  { eapply mapM_elems; [exact E|done]. }
  rewrite Hc, L. replace (blen vs) with (blen ls) by now apply mapM_blen in E.
  rewrite (gbind_ok _ _ _ _ _ Hs). now rewrite w_app_restart.
Qed.

(** Arrays and slices of every kind. *)
Lemma writeArray_spec rec_abs rec name t vs x w :
  rec_ok rec_abs rec -> ready w -> abs_array rec_abs t vs = Some x ->
  wrote name x w (writeArray rec (NvPair 0 (blen name + 1) 0 1 0) false t vs (opened name w)).
Proof.
  intros HR R A. pose proof A as E. unfold abs_array in E.
  destruct (Z.leb_spec 2147483647 (blen vs)); [discriminate|].
  destruct (unpackType t) as [et| | |] eqn:Et; try discriminate.
  destruct (kind_of_type et) as [| |k| | | | | | | | | |] eqn:Ek; try discriminate;
    try (now eapply wrote_int_array; eauto);
    apply fmap_Some in E as (l & E & ->);
    unfold writeArray; decide_false (2147483647 <=? blen vs); rewrite Et;
    unfold glift at 1, gbind at 1; rewrite Ek; cbn [nvp_Size nvp_Name_sz nvp_Reserve].
  - replace (blen vs) with (elems (NBooleanArray l)) by (cbn; now apply mapM_blen in E).
    apply wrote_simple; [done..|]. eapply gforeach_mapM; eauto using write_bool_elem with gozfs.
  - now apply wrote_list_array with rec_abs.
  - pose proof (length_mapM _ _ _ E) as L. wstep skipN_spec.
    replace (blen vs) with (elems (NStringArray l)) by (cbn; now apply mapM_blen in E).
    apply wrote_simple; [done..|].
    erewrite gforeach_mapM; eauto using write_string_elem with gozfs.
    now rewrite w_app_app, L.
  - now apply wrote_list_array with rec_abs.
Qed.

(** An embedded list: its header in the frame, its pairs after it. *)
Lemma wrote_list rec_abs rec name val l w :
  rec_ok rec_abs rec -> ready w -> rec_abs val = Some l ->
  wrote name (NNvlist l) w
    ((writeNvlistHeader ;;;
      endNvPair (NvPair 0 (blen name + 1) 0 1 (nvtype_code typeNvlist)) ;;;
      (fun w => match rec (Some val) w with
                | (Ok _, w') => (Ok Continue, w')
                | (Err _, w') => (Ok ReturnNil, w')
                | (Panic p, w') => (Panic p, w')
                | (OutOfFuel, w') => (OutOfFuel, w')
                end)) (opened name w)).
Proof.
  intros HR R E. wstep writeNvlistHeader_spec. erewrite gbind_ok by now apply close_pair.
  edestruct HR as [s Hs]; [exact E| |rewrite Hs; exists s]; [eauto with gozfs|].
  now rewrite w_app_restart.
Qed.

(** One iteration of the loop. *)
Lemma writePair_spec rec_abs rec name val x w :
  rec_ok rec_abs rec -> ready w -> nul_free name = true -> blen name + 1 < 32767 ->
  abs_value rec_abs val = Some (Some x) -> wrote name x w (writePair rec name val w).
Proof.
  intros HR R N L A. unfold writePair. decide_false (32767 <=? blen name + 1).
  rewrite wrap_signed_small by (pose proof (blen_nonneg name); lia).
  unfold abs_value in A. destruct val as [ro v]. cbn [v_ro v_val] in *.
  destruct ro; [discriminate|].
  destruct v as [nm b|nm k z|nm [] bits|nm s|nm t vs|nm t vs|nm kt t o|nm fs|nm t o|nm o|nm i];
    try discriminate; try (destruct b; [|discriminate]); rewrite open_pair by done.
  - injection A as <-. exists 0. unfold pair_frame. cbn [trailer]. rewrite app_nil_r.
    pose proof (close_pair name [] 0 typeBoolean w R ltac:(done)) as C. rewrite w_app_nil in C.
    now rewrite (gbind_ok _ _ _ _ _ C).
  - destruct (fixed_int k) eqn:F; [|discriminate]. destruct (in_range k z); [|discriminate].
    injection A as <-. unfold gbind at 1, glift at 1. cbn [Value_Interface v_ro v_val].
    assert (W : writeInt (VInt nm k z) (opened name w)
                = (Ok tt, w_app (put_int LittleEndian k z) (opened name w))).
    { apply writeInt_append; [eauto with gozfs|]. now destruct k. }
    case_bool_decide as K.
    + subst k. now apply (wrote_simple _ _ (NByte z)).
    + replace (nvtypeFromKind (IntKind k)) with (code (NInt k z)) by now destruct k.
      apply (wrote_simple _ _ (NInt k z)); [done|done|now destruct k|done].
  - destruct (in_range KUint64 bits); [|discriminate]. injection A as <-.
    unfold gbind at 1, glift at 1. cbn [Value_Interface v_ro v_val].
    apply (wrote_simple _ _ (NDouble bits)); [done..|].
    apply writeInt_append; eauto with gozfs.
  - destruct (nul_free s) eqn:F; [|discriminate]. injection A as <-.
    apply (wrote_simple _ _ (NString s)); [done..|]. now apply ignore_writeString.
  - apply fmap_Some in A as (y & A & [= <-]). now apply writeArray_spec with rec_abs.
  - apply fmap_Some in A as (y & A & [= <-]). now apply writeArray_spec with rec_abs.
  - apply fmap_Some in A as (l & A & [= ->]). now apply wrote_list with rec_abs.
  - apply fmap_Some in A as (l & A & [= ->]). now apply wrote_list with rec_abs.
Qed.

Lemma writePair_omitted rec_abs rec name val w :
  blen name + 1 < 32767 -> abs_value rec_abs val = Some None ->
  writePair rec name val w = (Ok Continue, w).
Proof.
  intros L A. unfold writePair. decide_false (32767 <=? blen name + 1).
  destruct val as [[] v]; [discriminate|]. cbn [abs_value v_ro v_val] in *.
  destruct v as [nm []| | nm [] bits| | | | | | | |]; try discriminate; try done;
    cbn in A; repeat (case_match; try discriminate); try done;
    apply fmap_Some in A as (? & _ & ?); discriminate.
Qed.

Lemma writeLoop_spec rec_abs rec ps l w :
  rec_ok rec_abs rec -> ready w -> abs_list (abs_value rec_abs) ps = Some l ->
  exists s, writeLoop rec ps w = (Ok tt, w_app (wire LittleEndian l) (set_w_start s w)).
Proof.
  intros HR. revert l w. induction ps as [|[name val] ps IH]; intros l w R A; cbn [writeLoop abs_list] in *.
  - injection A as <-. exists (w_nvpairStartByte w). rewrite skipN_spec. now destruct w.
  - destruct (nul_free name) eqn:N; [|discriminate].
    destruct (Z.ltb_spec (blen name + 1) 32767); [|discriminate].
    destruct (abs_value rec_abs val) as [[x|]|] eqn:V; try discriminate;
      destruct (abs_list _ ps) as [l'|]; try discriminate; injection A as <-.
    + destruct (writePair_spec _ _ _ _ _ _ HR R N ltac:(lia) V) as [s E].
      rewrite (gbind_ok _ _ _ _ _ E).
      edestruct IH as [s' E']; [|reflexivity|rewrite E'; exists s']; [eauto with gozfs|].
      rewrite w_app_restart, wire_cons. now rewrite <- app_assoc.
    + rewrite (gbind_ok _ _ _ _ _ (writePair_omitted rec_abs rec name val w ltac:(lia) V)). now apply IH.
Qed.

(** [writeNvPairs] appends the wire bytes of the abstract list. *)
Lemma writeNvPairs_spec fuel : rec_ok (abs_pairs fuel) (writeNvPairs fuel).
Proof.
  induction fuel as [|fuel IH]; intros v l w A R; cbn in A |- *; [discriminate|].
  destruct (unpackVal v) as [v'|]; [|discriminate].
  destruct (collectPairs v') as [ps| | |]; try discriminate.
  unfold glift, gbind. now apply writeLoop_spec with (abs_pairs fuel).
Qed.

Lemma writeNvHeader_spec :
  writeNvHeader (NvlistWriter [] 0 false None uniqueNameFlag 0)
  = (Ok tt, NvlistWriter (stream_header LittleEndian) 0 false (Some LittleEndian) uniqueNameFlag 0).
Proof. reflexivity. Qed.

Lemma Marshal_spec v l : abstract v = Some l -> Marshal (Some v) = Ok (packed LittleEndian l).
Proof.
  intros A. unfold Marshal. rewrite (gbind_ok _ _ _ _ _ writeNvHeader_spec).
  edestruct writeNvPairs_spec as [s E]; [exact A| |cbn [fmap option_fmap option_map]; rewrite E].
  - repeat split; reflexivity.
  - reflexivity.
Qed.
