(* ===== verification/NvDecodeSpec.v ===== *)
(** * The decoder inverts the wire format

    [Unmarshal] into an [interface{}] reads back exactly the abstract nvlist
    whose wire bytes the buffer holds, in both byte orders, and ignores what
    follows them. *)

From Stdlib Require Import ZArith Lia Strings.Byte Strings.String.
From stdpp Require Import base list gmap.
From S2P Require Import Prelude GoValue NvConsts NvDecode NvWire.

Section reading.
Context (data : list byte) (o : ByteOrder) (fl ver : Z).

(** A list reader at offset [cur] of a natively encoded buffer. *)
Definition rd (cur : Z) : nvlistReader := NvlistReader data cur (Some o) EncodingNative fl ver.

(** ** Integers and raw bytes *)

Lemma copy_bytes_spec cur bs : has_at data cur bs -> copy_bytes data cur (length bs) = Ok bs.
Proof.
  revert cur. induction bs as [|b bs IH]; intros cur H; [done|]. cbn [length copy_bytes].
  rewrite (has_at_index _ _ _ _ H). cbn [obind].
  apply (has_at_split _ _ [b] bs) in H as [_ H]. change (blen [b]) with 1 in H. now rewrite (IH _ H).
Qed.

Lemma list_Read cur bs :
  has_at data cur bs ->
  exists eof, nvlistReader.Read (blen bs) (rd cur) = (Ok (bs, blen bs, eof), rd (cur + blen bs)).
Proof.
  intros H. pose proof (has_at_bound _ _ _ H).
  assert (E : Z.to_nat (blen bs) = length bs) by (unfold blen; lia).
  unfold nvlistReader.Read, gbind, gget. cbn [r_nvlist r_currentByte rd].
  destruct (Z.ltb_spec (cur + blen bs) (blen data)).
  - unfold glift. rewrite E, copy_bytes_spec by done. now eexists.
  - replace (blen data - cur) with (blen bs) by lia.
    unfold glift. rewrite E, copy_bytes_spec by done. now eexists.
Qed.

Lemma list_readInt cur k z :
  has_at data cur (put_int o k z) -> in_range k z = true ->
  nvlistReader.readInt k (rd cur) = (Ok z, rd (cur + Z.of_nat (isize k))).
Proof.
  intros H R. destruct (list_Read _ _ H) as [eof E]. rewrite blen_put_int in E.
  unfold nvlistReader.readInt, gbind at 1, gget, binary_Read, io_ReadFull.
  pose proof (isize_pos k). decide_false (Z.of_nat (isize k) =? 0).
  unfold gbind. rewrite E. decide_true (Z.of_nat (isize k) <=? Z.of_nat (isize k)).
  cbn [gret r_endianness rd]. now rewrite get_put_int.
Qed.

Context (r : nvlistReader) (Hr : r_nvlist r = data) (Ho : r_endianness r = Some o)
  (He : r_encoding r = EncodingNative).

Lemma pair_Read st size cur bs :
  has_at data cur bs -> cur + blen bs <= st + size ->
  nvPairReader.Read r (blen bs) (NvPairReader st size cur)
  = (Ok (bs, blen bs, false), NvPairReader st size (cur + blen bs)).
Proof.
  intros H L. unfold nvPairReader.Read, gbind, gget. cbn [p_currentByte p_startByte p_sizeBytes].
  decide_true (cur + blen bs <=? st + size). unfold glift. rewrite Hr.
  replace (Z.to_nat (blen bs)) with (length bs) by (unfold blen; lia).
  now rewrite copy_bytes_spec.
Qed.

Lemma pair_ReadFull st size cur bs :
  has_at data cur bs -> cur + blen bs <= st + size ->
  io_ReadFull (nvPairReader.Read r) (blen bs) (NvPairReader st size cur)
  = (Ok bs, NvPairReader st size (cur + blen bs)).
Proof.
  intros H L. unfold io_ReadFull. destruct (Z.eqb_spec (blen bs) 0) as [E|E].
  - destruct bs; [|exfalso; unfold blen in E; cbn in E; lia]. cbn. now rewrite Z.add_0_r.
  - unfold gbind. rewrite pair_Read by done. now decide_true (blen bs <=? blen bs).
Qed.

Lemma pair_readInt st size cur k z :
  has_at data cur (put_int o k z) -> in_range k z = true ->
  cur + Z.of_nat (isize k) <= st + size ->
  nvPairReader.readInt r k (NvPairReader st size cur)
  = (Ok z, NvPairReader st size (cur + Z.of_nat (isize k))).
Proof.
  intros H R L. unfold nvPairReader.readInt, binary_Read, gbind.
  pose proof (pair_ReadFull st size _ _ H) as E. rewrite blen_put_int in E. rewrite E by done.
  rewrite Ho. cbn [gret]. now rewrite get_put_int.
Qed.

Lemma pair_readN st size cur bs :
  has_at data cur bs -> cur + blen bs <= st + size ->
  nvPairReader.readN r (blen bs) (NvPairReader st size cur)
  = (Ok bs, NvPairReader st size (cur + blen bs)).
Proof.
  intros H L. unfold nvPairReader.readN, gbind, gget. cbn [p_currentByte p_startByte p_sizeBytes].
  decide_true (cur + blen bs <=? st + size). unfold glift. rewrite Hr.
  now rewrite has_at_slice.
Qed.

Lemma get_ints_concat k zs :
  forallb (in_range k) zs = true ->
  get_ints o k (length zs) (concat (map (put_int o k) zs)) = zs.
Proof.
  induction zs as [|z zs IH]; cbn [length get_ints map concat forallb]; [done|].
  intros [R Rs]%andb_true_iff.
  rewrite take_app_length', drop_app_length' by now rewrite length_put_int.
  rewrite get_put_int by done. now rewrite IH.
Qed.

Lemma pair_ReadSlice st size cur k zs :
  has_at data cur (concat (map (put_int o k) zs)) -> forallb (in_range k) zs = true ->
  cur + Z.of_nat (isize k) * blen zs <= st + size ->
  binary_ReadSlice (nvPairReader.Read r) (r_endianness r) k (blen zs) (NvPairReader st size cur)
  = (Ok zs, NvPairReader st size (cur + Z.of_nat (isize k) * blen zs)).
Proof.
  intros H R L. unfold binary_ReadSlice, gbind.
  pose proof (pair_ReadFull st size _ _ H) as E.
  rewrite (blen_concat_const _ (Z.of_nat (isize k))) in E by (intros; apply blen_put_int).
  rewrite Z.mul_comm, E by done. rewrite Ho. unfold gret.
  replace (Z.to_nat (blen zs)) with (length zs) by (unfold blen; lia).
  now rewrite get_ints_concat.
Qed.

(** ** Zero-terminated strings *)

Lemma scan_spec st size start a b n :
  has_at data start (a ++ cstring b) -> nul_free b = true -> (length b < n)%nat ->
  nvPairReader.scan r x00 start n (NvPairReader st size (start + blen a))
  = (Ok (a ++ cstring b), NvPairReader st size (start + blen (a ++ cstring b))).
Proof.
  revert a n. induction b as [|c b IH]; intros a n H N L; destruct n as [|n]; [lia| |lia|];
    cbn [nvPairReader.scan]; unfold gbind at 1, gget; cbn [p_currentByte]; rewrite Hr;
    pose proof (has_at_split _ _ _ _ H) as [_ H2]; unfold cstring in H2; cbn [app] in H2;
    rewrite (has_at_index _ _ _ _ H2); unfold glift at 1, gbind at 1.
  - rewrite bool_decide_eq_true_2 by done.
    replace (start + blen a + 1) with (start + blen (a ++ cstring [])) by (autorewrite with blen; lia).
    rewrite has_at_slice by done. reflexivity.
  - cbn [nul_free forallb] in N. apply andb_true_iff in N as [N1 N2].
    destruct (bool_decide (c = x00)); [discriminate|].
    unfold gput, gbind at 1. unfold set_p_currentByte. cbn [p_startByte p_sizeBytes].
    replace (a ++ cstring (c :: b)) with ((a ++ [c]) ++ cstring b) in *
      by (unfold cstring; now rewrite <- app_assoc).
    replace (start + blen a + 1) with (start + blen (a ++ [c])) by (autorewrite with blen; lia).
    apply IH; [done|done|cbn in L; lia].
Qed.

Lemma readCString_spec st size cur s :
  has_at data cur (cstring s) -> nul_free s = true -> cur + blen s + 1 <= st + size ->
  readCString r (NvPairReader st size cur) = (Ok s, NvPairReader st size (cur + blen s + 1)).
Proof.
  intros H N L. unfold readCString, nvPairReader.ReadBytes, gbind at 1.
  unfold gbind at 1, gget. cbn [p_currentByte p_startByte p_sizeBytes].
  pose proof (scan_spec st size cur [] s (Z.to_nat (st + size - cur + 1)) H N) as E.
  rewrite Z.add_0_r in E. rewrite E by (unfold blen in L; lia). cbn [app].
  unfold glift. replace (blen (cstring s) - 1) with (0 + blen s) by (rewrite blen_cstring; lia).
  rewrite has_at_slice by (exists [], [x00]; done).
  do 2 f_equal. rewrite blen_cstring. lia.
Qed.

Lemma readStrings_spec st size cur ss :
  has_at data cur (concat (map cstring ss)) -> forallb nul_free ss = true ->
  cur + blen (concat (map cstring ss)) <= st + size ->
  exists cur', readMany (readCString r) (length ss) (NvPairReader st size cur)
    = (Ok ss, NvPairReader st size cur').
Proof.
  revert cur. induction ss as [|s ss IH]; intros cur H N L; cbn [length readMany map concat forallb] in *.
  - now eexists.
  - apply has_at_split in H as [H1 H2]. apply andb_true_iff in N as [N1 N2].
    rewrite blen_app, blen_cstring in L. rewrite blen_cstring in H2.
    pose proof (blen_nonneg (concat (map cstring ss))).
    erewrite gbind_ok by (apply readCString_spec; [done|done|lia]).
    destruct (IH (cur + blen s + 1)) as [c' E];
      [now rewrite <- Z.add_assoc|done|lia|].
    rewrite (gbind_ok _ _ _ _ _ E). now eexists.
Qed.

Lemma readBools_spec st size cur bs :
  has_at data cur (concat (map (fun b => put_int o KInt32 (bool_int b)) bs)) ->
  cur + 4 * blen bs <= st + size ->
  exists cur', readMany (tmp <- nvPairReader.readInt r KInt32 ;; glift (boolOfInt tmp)) (length bs)
      (NvPairReader st size cur) = (Ok bs, NvPairReader st size cur').
Proof.
  revert cur. induction bs as [|b bs IH]; intros cur H L; cbn [length readMany map concat] in *.
  - now eexists.
  - apply has_at_split in H as [H1 H2]. rewrite blen_put_int in H2. rewrite blen_cons in L.
    pose proof (blen_nonneg bs).
    erewrite gbind_ok.
    2: { erewrite gbind_ok by (apply pair_readInt; [exact H1|now destruct b|cbn; lia]).
         instantiate (2 := b). now destruct b. }
    destruct (IH (cur + 4)) as [c' E]; [done|lia|].
    rewrite (gbind_ok _ _ _ _ _ E). now eexists.
Qed.
End reading.

(** ** One pair *)

Section pair.
Context (data : list byte) (o : ByteOrder) (fl ver : Z).
Abbreviation R := (rd data o fl ver).

Lemma nextPair_end cur : has_at data cur (zeros 4) -> nextPair (R cur) = (Ok None, R (cur + 4)).
Proof.
  intros H. unfold nextPair, gbind at 1, gget.
  erewrite gbind_ok; [|apply (list_readInt data o fl ver cur KInt32 0); [|done]].
  - reflexivity.
  - destruct o; exact H.
Qed.

Lemma size_in_range z : 0 <= z < 2 ^ 31 -> in_range KInt32 z = true.
Proof. intros. unfold in_range. cbn [isigned isize]. change (8 * Z.of_nat 4 - 1) with 31. bool_solver. Qed.

Lemma name_sz_in_range z : 0 <= z < 2 ^ 15 -> in_range KInt16 z = true.
Proof. intros. unfold in_range. cbn [isigned isize]. change (8 * Z.of_nat 2 - 1) with 15. bool_solver. Qed.

Lemma nextPair_spec cur name ty n d :
  has_at data cur (frame o name ty n d) ->
  frame_size name d < 2 ^ 31 -> cur + frame_size name d + 4 <= blen data ->
  nextPair (R cur) = (Ok (Some (NvPairReader cur (frame_size name d) (cur + 4))),
                      R (cur + frame_size name d)).
Proof.
  intros H B L. pose proof (frame_size_bounds name d) as [S _].
  unfold frame, pair_header in H. rewrite <- !app_assoc in H. apply has_at_split in H as [H _].
  unfold nextPair, gbind at 1, gget.
  erewrite gbind_ok by (apply list_readInt; [exact H|apply size_in_range; lia]).
  decide_false (frame_size name d <? 0). decide_false (frame_size name d =? 0).
  unfold gbind at 1. cbn [r_nvlist r_currentByte rd].
  change (Z.of_nat (isize KInt32)) with 4.
  decide_false (blen data <? frame_size name d + (cur + 4)).
  unfold nvlistReader.skipN, gmodify, gbind, gret. cbn [r_encoding rd r_currentByte].
  unfold set_p_sizeBytes, set_r_currentByte. cbn [p_startByte p_currentByte]. do 2 f_equal.
  unfold rd. f_equal. cbn [isize r_currentByte]. lia.
Qed.

Context (r : nvlistReader) (Hr : r_nvlist r = data) (Ho : r_endianness r = Some o)
  (He : r_encoding r = EncodingNative).

Lemma skipToAlign_native st size name :
  nvPairReader.skipToAlign r (NvPairReader st size (st + (nvlistHeaderSize + blen name + 1)))
  = (Ok tt, NvPairReader st size (st + data_offset name)).
Proof.
  unfold nvPairReader.skipToAlign, gmodify. rewrite He. cbn [p_currentByte p_startByte p_sizeBytes].
  unfold data_offset. set (n := nvlistHeaderSize + blen name + 1).
  replace (st + n - st) with n by lia.
  pose proof (blen_nonneg name). rewrite Z.rem_mod_nonneg by (unfold n, nvlistHeaderSize; lia).
  pose proof (Z.mod_pos_bound n 8 ltac:(lia)). unfold pad8.
  destruct (Z.eqb_spec (n mod 8) 0) as [E|E]; cbn [negb].
  - rewrite Z.mod_opp_l_z by lia. now rewrite Z.add_0_r.
  - rewrite Z.mod_opp_l_nz by lia. unfold set_p_currentByte. cbn [p_currentByte p_startByte p_sizeBytes].
    do 2 f_equal. lia.
Qed.

Lemma readPairHeader_spec st name ty n d :
  has_at data st (frame o name ty n d) ->
  blen name + 1 < 2 ^ 15 -> 0 <= n <= 65535 ->
  readPairHeader r (NvPairReader st (frame_size name d) (st + 4))
  = (Ok (NvPair (frame_size name d) (blen name + 1) 0 n (nvtype_code ty), name),
     NvPairReader st (frame_size name d) (st + data_offset name)).
Proof.
  intros H Ln Hn. set (size := frame_size name d).
  pose proof (frame_size_bounds name d) as [_ Sd]. pose proof (blen_nonneg d).
  pose proof (blen_nonneg name). fold size in Sd.
  assert (Od : 16 + blen name + 1 <= data_offset name).
  { unfold data_offset, nvlistHeaderSize. pose proof (pad8_range (16 + blen name + 1)). lia. }
  unfold frame, pair_header in H. rewrite <- !app_assoc in H.
  apply has_at_split in H as [_ H]. apply has_at_split in H as [A1 H].
  apply has_at_split in H as [A2 H]. apply has_at_split in H as [A3 H].
  apply has_at_split in H as [A4 H]. apply has_at_split in H as [A5 _].
  rewrite !blen_put_int in *. cbn [isize] in *.
  unfold readPairHeader, gbind at 1, gget. cbn [p_sizeBytes].
  erewrite gbind_ok by (apply (pair_readInt data o r Hr Ho); [exact A1|apply name_sz_in_range; lia|cbn; lia]).
  decide_false (blen name + 1 <=? 0). cbn [isize].
  erewrite gbind_ok by (apply (pair_readInt data o r Hr Ho); [exact A2|done|cbn; lia]). cbn [isize].
  erewrite gbind_ok by (apply (pair_readInt data o r Hr Ho); [exact A3|apply size_in_range; lia|cbn; lia]).
  decide_false (n <? 0). decide_false (65535 <? n). cbn [isize].
  erewrite gbind_ok.
  2: { apply (pair_readInt data o r Hr Ho); [exact A4| |cbn; lia]. now destruct ty. }
  cbn [isize].
  erewrite gbind_ok.
  2: { rewrite <- blen_cstring. apply (pair_readN data r Hr); [exact A5|].
       rewrite blen_cstring. lia. }
  erewrite gbind_ok.
  2: { unfold glift. instantiate (2 := name). instantiate (1 := NvPairReader st size
         (st + (nvlistHeaderSize + blen name + 1))). f_equal.
       - replace (blen (cstring name) - 1) with (0 + blen name) by (rewrite blen_cstring; lia).
         apply has_at_slice. exists [], [x00]. done.
       - f_equal. rewrite blen_cstring. unfold nvlistHeaderSize. lia. }
  erewrite gbind_ok by apply skipToAlign_native. reflexivity.
Qed.

(** ** Values *)

Lemma readScalar_spec st size cur k z :
  has_at data cur (put_int o k z) -> in_range k z = true -> cur + Z.of_nat (isize k) <= st + size ->
  exists p', readScalar r k (NvPairReader st size cur) = (Ok (PVPrimitive (VInt None k z)), p').
Proof.
  intros H R L. unfold readScalar. erewrite gbind_ok by (eapply (pair_readInt data o r Hr Ho); eassumption).
  now eexists.
Qed.

Lemma readIntArray_spec st size cur k zs :
  has_at data cur (concat (map (put_int o k) zs)) -> forallb (in_range k) zs = true ->
  cur + Z.of_nat (isize k) * blen zs <= st + size ->
  exists p', readIntArray r k (blen zs) (NvPairReader st size cur)
    = (Ok (PVPrimitive (VSlice None (TInt None k) (map (VInt None k) zs))), p').
Proof.
  intros H R L. unfold readIntArray. erewrite gbind_ok by (eapply (pair_ReadSlice data o r Hr Ho); eassumption).
  now eexists.
Qed.

(** What the type switch makes of an abstract value. *)
Definition pv_of (v : nvval) : pairValue :=
  match v with
  | NNvlist _ => PVNvlist
  | NNvlistArray ls => PVNvlistArray (blen ls)
  | _ => match nv_value v with Some g => PVPrimitive g | None => PVNothing end
  end.

Lemma readValue_spec st size cur v a b c :
  nv_ok v = true -> has_at data cur (payload o v) -> cur + blen (payload o v) <= st + size ->
  exists p', readValue r (NvPair a b c (elems v) (nvtype_code (code v))) (NvPairReader st size cur)
    = (Ok (pv_of v), p').
Proof.
  intros K H L. unfold readValue. cbn [nvp_Value_elem nvp_Type]. rewrite nvtype_of_code_code.
  destruct v as [|z|k z|s|b0|bs|k zs|ss|bs|l|ls|z|bits]; cbn [code payload elems nv_ok] in *;
    try (now eexists).
  - (* byte *)
    unfold nvPairReader.ReadByte, gbind, gget, glift. cbn [p_currentByte p_startByte p_sizeBytes].
    rewrite blen_cons in L. pose proof (blen_nonneg (@nil byte)).
    decide_true (cur <=? st + size). rewrite Hr, (has_at_index _ _ _ _ H). eexists.
    unfold gput, gret, pv_of, nv_value. do 4 f_equal. rewrite byte_to_of_Z.
    apply Z.mod_small. unfold in_range in K. cbn [isigned isize] in K.
    change (2 ^ (8 * Z.of_nat 1)) with 256 in K. bool_to_prop. lia.
  - (* integers *) apply andb_true_iff in K as [F K]. rewrite blen_put_int in L.
    destruct k; try discriminate; now apply readScalar_spec.
  - (* string *) rewrite blen_cstring in L.
    erewrite gbind_ok by (apply (readCString_spec data r Hr); [exact H|done|lia]). now eexists.
  - (* boolean value *) rewrite blen_put_int in L.
    erewrite gbind_ok by (apply (pair_readInt data o r Hr Ho); [exact H|now destruct b0|done]).
    destruct b0; now eexists.
  - (* byte array *)
    erewrite gbind_ok by (eapply (pair_readN data r Hr); eassumption). now eexists.
  - (* integer arrays *) apply andb_true_iff in K as [F K].
    rewrite (blen_concat_const _ (Z.of_nat (isize k))) in L by (intros; apply blen_put_int).
    destruct k; try discriminate; now apply readIntArray_spec.
  - (* string array *) apply has_at_split in H as [_ H]. rewrite blen_app, blen_zeros in *.
    erewrite gbind_ok by reflexivity. unfold set_p_currentByte. cbn [p_startByte p_sizeBytes p_currentByte].
    destruct (readStrings_spec data r Hr st size (cur + 8 * blen ss) ss) as [c' E].
    + replace (8 * blen ss) with (Z.of_nat (8 * length ss)) by (unfold blen; lia). exact H.
    + done.
    + unfold blen at 1. lia.
    + replace (Z.to_nat (blen ss)) with (length ss) by (unfold blen; lia).
      erewrite gbind_ok by exact E. now eexists.
  - (* boolean array *)
    rewrite (blen_concat_const _ 4) in L by (intros; apply blen_put_int).
    destruct (readBools_spec data o r Hr Ho st size cur bs H L) as [c' E].
    replace (Z.to_nat (blen bs)) with (length bs) by (unfold blen; lia).
    erewrite gbind_ok by exact E. now eexists.
Qed.

(** Header and value together. *)
Lemma readPair_spec st name v :
  has_at data st (pair_frame o name v) -> frame_fits name v = true -> nv_ok v = true ->
  readPair r (NvPairReader st (frame_size name (payload o v)) (st + 4)) = Ok (name, pv_of v).
Proof.
  intros H F K. unfold frame_fits in F. bool_to_prop.
  unfold readPair, pair_frame in *.
  erewrite gbind_ok.
  2: { apply readPairHeader_spec; [exact H|lia|].
       split; [|lia]. destruct v; cbn; try lia; apply blen_nonneg. }
  edestruct readValue_spec as [p' E]; [exact K| | |erewrite gbind_ok by exact E; done].
  - unfold frame in H. apply has_at_split in H as [_ H]. apply has_at_split in H as [_ H].
    apply has_at_split in H as [_ H]. apply has_at_split in H as [H _].
    rewrite blen_pair_header, blen_cstring, blen_padding in H.
    unfold data_offset. replace (st + _) with (st + nvlistHeaderSize + (blen name + 1)
      + pad8 (nvlistHeaderSize + blen name + 1)) by lia. exact H.
  - pose proof (frame_size_bounds name (payload o v)). lia.
Qed.
End pair.

(** ** The loop *)

Lemma blen_wire_ge o l : 4 <= blen (wire o l).
Proof.
  induction l as [|[name v] l IH]; [now rewrite wire_nil, blen_zeros|].
  rewrite wire_cons. blen_lia.
Qed.

(** Entering a map with any loop is running the loop on it. *)
Lemma enter_map loop addr m r :
  enter loop addr (vAnyMap m, r) = loop addr ∅ (vAnyMap m, r).
Proof.
  unfold enter, on_target. cbn. now destruct (loop addr ∅ (vAnyMap m, r)) as [? [? ?]].
Qed.

Lemma readNvlist_any rp addr idx name m r :
  readNvlist rp addr idx name (vAnyMap m, r)
  = (val <- on_fresh (vAnyMap []) (rp false) ;;
     on_value (setMapIndex name (match val with VPtr _ _ (Some x) => x | _ => val end)))
      (vAnyMap m, r).
Proof. reflexivity. Qed.

Section loop.
Context (data : list byte) (o : ByteOrder) (fl ver : Z).
Abbreviation R := (rd data o fl ver).

(** [loop] decodes every list that stands at or after offset [lo]. *)
Definition decodes (loop : bool -> gmap gostring nat -> go rstate unit) (lo : Z) : Prop :=
  forall cur l m addr idx,
    has_at data cur (wire o l) -> nvs_ok l = true -> lo <= cur ->
    loop addr idx (vAnyMap m, R cur)
    = (Ok tt, (vAnyMap (nvs_into m l), R (cur + blen (wire o l)))).

Lemma on_fresh_decodes loop lo cur l v addr :
  decodes loop lo -> has_at data cur (wire o l) -> nvs_ok l = true -> lo <= cur ->
  on_fresh (vAnyMap []) (enter loop addr) (v, R cur)
  = (Ok (nvs_value l), (v, R (cur + blen (wire o l)))).
Proof.
  intros D H K L. unfold on_fresh. cbn [snd fst]. rewrite enter_map.
  now rewrite (D cur l [] addr ∅ H K L).
Qed.

Lemma readElems_decodes loop lo cur ls v :
  decodes loop lo -> has_at data cur (concat (map (wire o) ls)) ->
  forallb nvs_ok ls = true -> lo <= cur ->
  readElems (enter loop) (length ls) (v, R cur)
  = (Ok (map nvs_value ls), (v, R (cur + blen (concat (map (wire o) ls))))).
Proof.
  intros D. revert cur. induction ls as [|l ls IH]; intros cur H K L;
    cbn [length readElems map concat forallb] in *.
  - unfold gret. rewrite blen_nil. now rewrite Z.add_0_r.
  - apply has_at_split in H as [H1 H2]. apply andb_true_iff in K as [K1 K2].
    pose proof (blen_nonneg (wire o l)).
    erewrite gbind_ok by (eapply on_fresh_decodes; eauto).
    erewrite gbind_ok by (apply IH; [exact H2|done|lia]).
    unfold gret. now rewrite blen_app, Z.add_assoc.
Qed.

(** The effect of one pair on the map. *)
Lemma storePair_decodes loop lo cur name v m addr idx :
  decodes loop lo -> has_at data cur (trailer o v) -> nv_ok v = true -> lo <= cur ->
  storePair (enter loop) addr idx name (pv_of v) (vAnyMap m, R cur)
  = (Ok tt, (vAnyMap (store nv_value m (name, v)), R (cur + blen (trailer o v)))).
Proof.
  intros D H K L.
  assert (Z0 : R (cur + 0) = R cur) by now rewrite Z.add_0_r.
  destruct v; cbn [trailer]; try (rewrite blen_nil, Z0); try reflexivity.
  - change (trailer o (NNvlist l)) with (wire o l) in *.
    unfold pv_of, storePair. rewrite readNvlist_any. erewrite gbind_ok by (eapply on_fresh_decodes; eauto). reflexivity.
  - rewrite trailer_array in H. change (concat (map _ ls)) with (concat (map (wire o) ls)).
    rewrite nv_ok_array in K.
    unfold pv_of, storePair, readNvlistArray, gbind at 1, gget. cbn [fst vAnyMap].
    replace (Z.to_nat (blen ls)) with (length ls) by (unfold blen; lia).
    erewrite gbind_ok by (eapply readElems_decodes; eauto). reflexivity.
Qed.

(** One iteration of the loop on a pair of the wire format. *)
Lemma readLoop_step fuel addr idx v cur name x tail :
  has_at data cur (pair_frame o name x ++ tail) -> 4 <= blen tail ->
  frame_fits name x = true -> nv_ok x = true ->
  readLoop (S fuel) addr idx (v, R cur)
  = (storePair (enter (readLoop fuel)) addr idx name (pv_of x) ;;; readLoop fuel addr idx)
      (v, R (cur + frame_size name (payload o x))).
Proof.
  intros H L F K. pose proof (has_at_bound _ _ _ H) as [_ B].
  rewrite blen_app, blen_pair_frame, <- (frame_size_data name _ _ (blen_payload o x)) in B.
  apply has_at_split in H as [Hf _]. cbn [readLoop].
  pose proof F as F'. unfold frame_fits in F'. bool_to_prop.
  erewrite gbind_ok.
  2: { unfold on_reader. cbn [snd fst]. erewrite nextPair_spec; [reflexivity|exact Hf| |lia].
       rewrite (frame_size_data name _ _ (blen_payload o x)). lia. }
  cbv beta. unfold gbind at 1, gget. cbn [snd].
  erewrite gbind_ok by (unfold glift; erewrite (readPair_spec data o);
    [reflexivity|reflexivity..|exact Hf|done|done]).
  reflexivity.
Qed.

Lemma readLoop_decodes fuel :
  forall lo, blen data - lo < Z.of_nat fuel -> decodes (readLoop fuel) lo.
Proof.
  induction fuel as [|fuel IH]; intros lo F cur l m addr idx H K L;
    pose proof (has_at_bound _ _ _ H) as [_ HB].
  { pose proof (blen_nonneg (wire o l)). lia. }
  destruct l as [|[name v] l].
  - cbn [readLoop].
    erewrite gbind_ok by (unfold on_reader; cbn [snd fst]; rewrite nextPair_end by done; done).
    reflexivity.
  - rewrite wire_cons in *. rewrite nvs_ok_cons in K. bool_to_prop.
    pose proof (blen_wire_ge o l). pose proof (blen_nonneg (trailer o v)).
    rewrite (readLoop_step fuel addr idx (vAnyMap m) cur name v (trailer o v ++ wire o l));
      [|done|blen_lia|done|done].
    apply has_at_split in H as [_ H]. rewrite !blen_app in *.
    rewrite blen_pair_frame, <- (frame_size_data name _ _ (blen_payload o v)) in *.
    set (size := frame_size name (payload o v)) in *.
    pose proof (frame_size_bounds name (payload o v)) as [Hs _]. fold size in Hs.
    pose proof (has_at_split _ _ _ _ H) as [Ht Hw].
    erewrite gbind_ok by (apply storePair_decodes with (cur + size);
      [apply IH; lia|exact Ht|done|lia]).
    erewrite (IH (cur + size)); [|lia|exact Hw|done|lia].
    do 3 f_equal. lia.
Qed.
End loop.

(** ** Unmarshal *)

Lemma list_ReadByte r b bs :
  has_at (r_nvlist r) (r_currentByte r) (b :: bs) ->
  nvlistReader.ReadByte r = (Ok b, set_r_currentByte (r_currentByte r + 1) r).
Proof.
  intros H. pose proof (has_at_bound _ _ _ H) as [_ B]. rewrite blen_cons in B.
  pose proof (blen_nonneg bs). unfold nvlistReader.ReadByte, gbind, gget, glift.
  decide_true (r_currentByte r <? blen (r_nvlist r)). now rewrite (has_at_index _ _ _ _ H).
Qed.

Lemma readNvHeader_spec o data :
  has_at data 0 (stream_header o) ->
  nvlistReader.readNvHeader (NvlistReader data 0 None EncodingNative 0 0)
  = (Ok tt, rd data o uniqueNameFlag 0 12).
Proof.
  intros H. unfold stream_header in H. apply has_at_split in H as [H0 H].
  apply has_at_split in H as [H1 H2].
  change (0 + blen _) with 4 in H1, H2. rewrite blen_put_int in H2. cbn [isize] in H2.
  apply (has_at_split _ _ [_]) in H0 as [Ha Hb]. change (0 + blen _) with 1 in Hb.
  unfold nvlistReader.readNvHeader.
  erewrite gbind_ok by (eapply list_ReadByte; exact Ha).
  change (byte_to_Z _ =? encoding_byte EncodingNative) with true. cbv iota.
  unfold gbind at 1, gmodify at 1. erewrite gbind_ok by (eapply list_ReadByte; exact Hb).
  assert (E : forall (k : go nvlistReader unit) s,
    ((if byte_to_Z (byte_of_Z (match o with BigEndian => bigEndian | LittleEndian => littleEndian end))
         =? bigEndian then gmodify (set_r_endianness BigEndian)
      else if byte_to_Z (byte_of_Z (match o with BigEndian => bigEndian | LittleEndian => littleEndian end))
         =? littleEndian then gmodify (set_r_endianness LittleEndian)
      else gerr ErrInvalidEndianess) ;;; k) s = k (set_r_endianness o s)) by (destruct o; reflexivity).
  rewrite E. unfold gbind at 1, nvlistReader.skipN at 1, gmodify at 1.
  change (set_r_currentByte _ _) with (rd data o 0 0 4).
  erewrite gbind_ok by (apply list_readInt; [exact H1|done]).
  unfold gbind at 1, gmodify at 1. change (set_r_version 0 _) with (rd data o 0 0 8).
  erewrite gbind_ok by (apply list_readInt; [exact H2|done]). reflexivity.
Qed.

(** Decoding a packed list, whatever bytes follow it. *)
Lemma Unmarshal_packed o l rest old :
  nvs_ok l = true ->
  Unmarshal (packed o l ++ rest) (vIfacePtr old) = (Ok tt, vIfacePtr (Some (nvs_value l))).
Proof.
  intros K. unfold Unmarshal. set (data := packed o l ++ rest).
  assert (H : has_at data 0 (packed o l)) by apply has_at_app_r, has_at_self.
  unfold packed in H. apply has_at_split in H as [Hh Hw]. rewrite blen_stream_header in Hw.
  erewrite gbind_ok by (unfold on_reader; cbn [snd fst]; rewrite (readNvHeader_spec o) by done; done).
  unfold readPairs, enter. cbn [fst resolveTarget vIfacePtr].
  unfold on_target. cbn [snd].
  rewrite (readLoop_decodes data o uniqueNameFlag 0 (S (length data)) 12); [|unfold blen; lia|exact Hw|done|lia].
  reflexivity.
Qed.

(** The same into an existing map: the pairs are added to its entries. *)
Lemma Unmarshal_packed_map o l rest m :
  nvs_ok l = true ->
  Unmarshal (packed o l ++ rest) (vAnyMap m) = (Ok tt, vAnyMap (nvs_into m l)).
Proof.
  intros K. unfold Unmarshal. set (data := packed o l ++ rest).
  assert (H : has_at data 0 (packed o l)) by apply has_at_app_r, has_at_self.
  unfold packed in H. apply has_at_split in H as [Hh Hw]. rewrite blen_stream_header in Hw.
  erewrite gbind_ok by (unfold on_reader; cbn [snd fst]; rewrite (readNvHeader_spec o) by done; done).
  unfold readPairs. rewrite enter_map.
  now rewrite (readLoop_decodes data o uniqueNameFlag 0 (S (length data)) 12);
    [|unfold blen; lia|exact Hw|done|lia].
Qed.
