(* ===== verification/NvSafety.v ===== *)
(** * Safety and termination of the decoder

    For arbitrary input bytes: no index or slice expression of [decode.go]
    goes out of bounds and the loop bound is never reached (the decoder
    terminates), for every target; and with a dynamic target
    ([interface{}] or [map[string]interface{}]) there is no panic at all. *)

From Stdlib Require Import ZArith Lia Strings.Byte Strings.String.
From stdpp Require Import base list gmap.
From S2P Require Import Prelude GoValue NvConsts NvDecode.

(** The panics [decode.go] can end in: the value does not have the type of the
    field, element or key it is assigned to; the map to fill is nil; and two of
    the explicit panics. *)
Definition target_panics : list gopanic :=
  [PAssign; PNilMap; PExplicit (str "Cannot currently handle complex hybrid types");
   PExplicit (str "Deserializing NVListArrays into structs currently unsupported")].

(** ** Inside a pair *)

Section pair.
Context (r : nvlistReader) (o : ByteOrder) (Ho : r_endianness r = Some o).

(** The pair lies inside the buffer with at least one byte after it. *)
Definition pinv (p : nvPairReader) : Prop :=
  0 <= p_currentByte p /\ 0 <= p_startByte p
  /\ p_startByte p + p_sizeBytes p < blen (r_nvlist r).

(** [c] neither panics nor runs out of fuel, and on success keeps the pair and
    returns a value with property [Q]. *)
Definition psafe {A} (c : go nvPairReader A) (Q : A -> Prop) : Prop :=
  forall p, pinv p ->
    match c p with
    | (Ok a, p') => pinv p' /\ Q a
    | (Err _, _) => True
    | (Panic _, _) | (OutOfFuel, _) => False
    end.

Lemma psafe_bind {A B} (c : go nvPairReader A) (k : A -> go nvPairReader B) Q Q' :
  psafe c Q -> (forall a, Q a -> psafe (k a) Q') -> psafe (gbind c k) Q'.
Proof.
  intros H K p I. specialize (H p I). unfold gbind. destruct (c p) as [[a| | |] p']; try done.
  destruct H as [I' Qa]. exact (K a Qa p' I').
Qed.

Lemma psafe_ret {A} (a : A) (Q : A -> Prop) : Q a -> psafe (gret a) Q.
Proof. intros H p I. now split. Qed.

Lemma psafe_err {A} e (Q : A -> Prop) : psafe (gerr e) Q.
Proof. now intros p I. Qed.

Lemma psafe_get {A} (k : nvPairReader -> go nvPairReader A) Q :
  (forall s, psafe (k s) Q) -> psafe (gbind gget k) Q.
Proof. intros H p I. exact (H p p I). Qed.

Lemma copy_bytes_ok data cur n :
  0 <= cur -> (n = 0%nat \/ cur + Z.of_nat n <= blen data) ->
  exists bs, copy_bytes data cur n = Ok bs /\ length bs = n.
Proof.
  revert cur. induction n as [|n IH]; intros cur H L; [now exists []|]. cbn [copy_bytes].
  destruct (go_index_ok data cur) as [b ->]; [lia|].
  destruct (IH (cur + 1)) as (bs & -> & E); [lia..|]. exists (b :: bs). cbn. auto.
Qed.

Lemma psafe_Read len :
  0 <= len -> psafe (io_ReadFull (nvPairReader.Read r) len) (fun bs => blen bs = len).
Proof.
  intros HL p (I1 & I2 & I3). unfold io_ReadFull.
  destruct (Z.eqb_spec len 0) as [->|N]; [repeat split; done|].
  unfold nvPairReader.Read, gbind, gget, glift.
  destruct (Z.leb_spec (p_currentByte p + len) (p_startByte p + p_sizeBytes p)) as [C|C].
  - destruct (copy_bytes_ok (r_nvlist r) (p_currentByte p) (Z.to_nat len)) as (bs & E & L); [lia..|].
    unfold gput, gret. rewrite E. decide_true (len <=? len).
    unfold set_p_currentByte, pinv. cbn. unfold blen in *. repeat split; lia.
  - remember (p_startByte p + p_sizeBytes p - p_currentByte p) as n eqn:En.
    destruct (copy_bytes_ok (r_nvlist r) (p_currentByte p) (Z.to_nat n)) as (bs & E & L); [lia..|].
    unfold gput, gret. rewrite E. decide_false (len <=? n). now destruct (0 <? n).
Qed.

Lemma psafe_readInt k : psafe (nvPairReader.readInt r k) (fun z => in_range k z = true).
Proof.
  unfold nvPairReader.readInt, binary_Read. rewrite Ho.
  eapply psafe_bind; [apply psafe_Read; lia|]. intros bs L. apply psafe_ret, get_int_range.
  unfold blen in L. lia.
Qed.

Lemma psafe_ReadSlice k n :
  0 <= n -> psafe (binary_ReadSlice (nvPairReader.Read r) (r_endianness r) k n) (fun _ => True).
Proof.
  intros H. unfold binary_ReadSlice. rewrite Ho.
  eapply psafe_bind; [apply psafe_Read; lia|]. intros. now apply psafe_ret.
Qed.

Lemma psafe_readN n : 0 <= n -> psafe (nvPairReader.readN r n) (fun bs => blen bs = n).
Proof.
  intros H p (I1 & I2 & I3). unfold nvPairReader.readN, gbind, gget, glift.
  destruct (Z.leb_spec (p_currentByte p + n) (p_startByte p + p_sizeBytes p)); [|done].
  destruct (go_slice_ok (r_nvlist r) (p_currentByte p) (p_currentByte p + n))
    as (l & -> & L); [lia..|].
  unfold gput, gret, pinv. cbn. repeat split; lia.
Qed.

Lemma psafe_ReadByte : psafe (nvPairReader.ReadByte r) (fun _ => True).
Proof.
  intros p (I1 & I2 & I3). unfold nvPairReader.ReadByte, gbind, gget, glift.
  destruct (Z.leb_spec (p_currentByte p) (p_startByte p + p_sizeBytes p)); [|done].
  destruct (go_index_ok (r_nvlist r) (p_currentByte p)) as (b & ->); [lia|].
  unfold gput, gret, pinv. cbn. repeat split; lia.
Qed.

(** The scan stays inside the pair and returns at least the delimiter. *)
Lemma scan_safe delim start n p :
  pinv p -> 0 <= start <= p_currentByte p ->
  p_currentByte p + Z.of_nat n <= p_startByte p + p_sizeBytes p + 1 ->
  match nvPairReader.scan r delim start n p with
  | (Ok a, p') => pinv p' /\ 1 <= blen a
  | (Err _, _) => True
  | _ => False
  end.
Proof.
  revert p. induction n as [|n IH]; intros p (I1 & I2 & I3) H L; [done|].
  cbn [nvPairReader.scan]. unfold gbind, gget, glift.
  destruct (go_index_ok (r_nvlist r) (p_currentByte p)) as (b & ->); [lia|].
  destruct (bool_decide (b = delim)).
  - destruct (go_slice_ok (r_nvlist r) start (p_currentByte p + 1)) as (l & -> & E); [lia..|].
    unfold gput, gret, pinv. cbn. repeat split; lia.
  - unfold gput. apply IH; unfold pinv; cbn; lia.
Qed.

Lemma psafe_readCString : psafe (readCString r) (fun _ => True).
Proof.
  unfold readCString. eapply (psafe_bind _ _ (fun a => 1 <= blen a)).
  - intros p I. pose proof I as (I1 & I2 & I3). unfold nvPairReader.ReadBytes, gbind, gget.
    destruct (Z.leb_spec (p_currentByte p) (p_startByte p + p_sizeBytes p + 1)).
    + apply scan_safe; [done|lia..].
    + now rewrite Z2Nat.nonpos by lia.
  - intros a H p I. unfold glift.
    destruct (go_slice_ok a 0 (blen a - 1)) as (l & -> & E); [lia..|]. done.
Qed.

Lemma psafe_readMany {A} (c : go nvPairReader A) Q n :
  psafe c Q -> psafe (readMany c n) (fun _ => True).
Proof.
  intros H. induction n as [|n IH]; cbn; [now apply psafe_ret|].
  eapply psafe_bind; [exact H|]. intros a _. eapply psafe_bind; [exact IH|].
  intros. now apply psafe_ret.
Qed.

Lemma psafe_modify f :
  (forall p, pinv p -> pinv (f p)) -> psafe (gmodify f) (fun _ => True).
Proof. intros H p I. split; [now apply H|done]. Qed.

Lemma psafe_boolOfInt z : psafe (glift (boolOfInt z)) (fun _ => True).
Proof. intros p I. unfold glift, boolOfInt. now repeat go_case. Qed.

#[local] Hint Resolve psafe_readInt psafe_ReadSlice psafe_readN psafe_ReadByte psafe_readCString
  psafe_boolOfInt : gozfs.

Lemma psafe_skipToAlign : psafe (nvPairReader.skipToAlign r) (fun _ => True).
Proof.
  apply psafe_modify. intros p (I1 & I2 & I3). cbv zeta.
  go_case; [|done]. unfold pinv. cbn. repeat split; [|done..].
  destruct (r_encoding r).
  - pose proof (Z.rem_bound_abs (p_currentByte p - p_startByte p) 8 ltac:(lia)). lia.
  - pose proof (Z.rem_bound_abs (p_currentByte p - p_startByte p) 4 ltac:(lia)). lia.
Qed.

Lemma psafe_readPairHeader :
  psafe (readPairHeader r) (fun h => 0 <= nvp_Value_elem (fst h) <= 65535).
Proof.
  unfold readPairHeader. apply psafe_get. intros p0.
  eapply psafe_bind; [eauto with gozfs|]. intros name_sz _.
  destruct (Z.leb_spec name_sz 0); [apply psafe_err|].
  eapply psafe_bind; [eauto with gozfs|]. intros reserve _.
  eapply psafe_bind; [eauto with gozfs|]. intros n _.
  destruct (Z.ltb_spec n 0); [apply psafe_err|].
  destruct (Z.ltb_spec 65535 n); [apply psafe_err|].
  eapply psafe_bind; [eauto with gozfs|]. intros ty _.
  eapply psafe_bind; [apply psafe_readN; lia|]. intros raw L. cbv beta in L.
  eapply (psafe_bind _ _ (fun _ => True)).
  - intros p I. unfold glift.
    destruct (go_slice_ok raw 0 (blen raw - 1)) as (l & -> & E); [lia..|]. done.
  - intros name _. eapply psafe_bind; [apply psafe_skipToAlign|]. intros _ _.
    apply psafe_ret. cbn. lia.
Qed.

(** The element count of a nested array is the one of the header. *)
Definition pv_bound (pv : pairValue) : Prop :=
  match pv with PVNvlistArray n => 0 <= n <= 65535 | _ => True end.

Lemma psafe_primitive {A} (c : go nvPairReader A) Q (f : A -> gval) :
  psafe c Q -> psafe (x <- c ;; gret (PVPrimitive (f x))) pv_bound.
Proof. intros C. eapply psafe_bind; [exact C|]. intros. now apply psafe_ret. Qed.

Lemma psafe_readValue nvp :
  0 <= nvp_Value_elem nvp <= 65535 -> psafe (readValue r nvp) pv_bound.
Proof.
  intros [H H']. unfold readValue, readScalar, readIntArray.
  destruct (nvtype_of_code (nvp_Type nvp)) as [[]|];
    try apply psafe_err; try (now apply psafe_ret);
    try (eapply psafe_primitive; now eauto using psafe_readMany with gozfs).
  - (* string array *)
    eapply (psafe_bind _ _ (fun _ => True)).
    + apply psafe_modify. intros p (? & ? & ?). unfold pinv. cbn. lia.
    + intros _ _. eapply psafe_primitive, psafe_readMany, psafe_readCString.
  - (* boolean value *)
    eapply psafe_bind; [apply psafe_readInt|]. intros z _. eapply psafe_primitive, psafe_boolOfInt.
  - (* boolean array *)
    eapply psafe_primitive, psafe_readMany. eapply psafe_bind; [apply psafe_readInt|].
    intros. apply psafe_boolOfInt.
Qed.

Lemma readPair_safe p :
  pinv p ->
  match readPair r p with
  | Ok (_, pv) => pv_bound pv
  | Err _ => True
  | _ => False
  end.
Proof.
  intros I. unfold readPair.
  assert (S : psafe (h <- readPairHeader r ;; let '(nvp, name) := h in
                     pv <- readValue r nvp ;; gret (name, pv)) (fun np => pv_bound (snd np))).
  { eapply psafe_bind; [apply psafe_readPairHeader|]. intros [nvp name] H. cbn in H.
    eapply psafe_bind; [now apply psafe_readValue|]. intros pv Hpv. now apply psafe_ret. }
  specialize (S p I). destruct (gbind _ _ p) as [[[? ?]| | |] ?]; try done. apply S.
Qed.
End pair.

(** ** Between pairs *)

Section list_reader.
Context (data : list byte).

(** The buffer is [data], the header was read, and the cursor is not negative. *)
Definition rinv (r : nvlistReader) : Prop :=
  r_nvlist r = data /\ is_Some (r_endianness r) /\ 0 <= r_currentByte r.

Lemma list_readInt_safe k r :
  rinv r ->
  match nvlistReader.readInt k r with
  | (Ok _, r') => rinv r' /\ r' = set_r_currentByte (r_currentByte r + Z.of_nat (isize k)) r
                  /\ r_currentByte r' <= blen data
  | (Err _, _) => True
  | _ => False
  end.
Proof.
  intros (E & [o Ho] & H). pose proof (isize_pos k) as Hk.
  unfold nvlistReader.readInt, binary_Read, io_ReadFull, gbind at 1, gget. rewrite Ho.
  decide_false (Z.of_nat (isize k) =? 0).
  unfold gbind, nvlistReader.Read, gget, glift, gbind. rewrite E.
  set (len := Z.of_nat (isize k)) in *.
  assert (D : exists n eof, (if r_currentByte r + len <? blen data then (len, false)
    else (blen data - r_currentByte r, true)) = (n, eof) /\ n <= len
    /\ (n = len -> r_currentByte r + len <= blen data)
    /\ (0 < n -> r_currentByte r + n <= blen data)).
  { destruct (Z.ltb_spec (r_currentByte r + len) (blen data)); do 2 eexists; (split; [reflexivity|]); lia. }
  destruct D as (n & eof & -> & D1 & D2 & D3).
  destruct (copy_bytes_ok data (r_currentByte r) (Z.to_nat n)) as (bs & -> & L); [lia..|].
  unfold gput, gret. destruct (Z.leb_spec len n).
  - assert (n = len) as -> by lia. repeat split; cbn; try done; lia.
  - now destruct (0 <? n).
Qed.

(** [nextPair] moves forward and yields a pair inside the buffer. *)
Lemma nextPair_safe r :
  rinv r ->
  match nextPair r with
  | (Ok None, r') => rinv r' /\ r_currentByte r + 4 <= r_currentByte r'
  | (Ok (Some p), r') =>
      rinv r' /\ r_currentByte r + 1 <= r_currentByte r' /\ r_currentByte r + 4 <= blen data
      /\ pinv r' p
  | (Err _, _) => True
  | _ => False
  end.
Proof.
  intros I. unfold nextPair, gbind at 1, gget. unfold gbind at 1.
  pose proof (list_readInt_safe KInt32 r I) as S.
  destruct (nvlistReader.readInt KInt32 r) as [[size| | |] r']; try done.
  destruct S as (I' & -> & B). change (Z.of_nat (isize KInt32)) with 4 in *.
  cbn [set_r_currentByte r_currentByte] in B. destruct I as (E & Ho & H).
  destruct (Z.ltb_spec size 0); [done|].
  destruct (Z.eqb_spec size 0); [split; [done|cbn; lia]|].
  unfold gbind at 1. cbn [set_r_currentByte r_nvlist r_currentByte r_encoding].
  destruct (Z.ltb_spec (blen (r_nvlist r)) (size + (r_currentByte r + 4))); [done|].
  unfold nvlistReader.skipN, gmodify, gbind, gret. rewrite E in *.
  destruct (r_encoding r);
    unfold rinv, pinv, set_p_sizeBytes, set_r_currentByte; cbn; rewrite E;
    repeat split; try done; lia.
Qed.

(** ** The loop, for a class of targets *)

(** [P]: the panics allowed; [T]: the targets considered. *)
Context (P : gopanic -> Prop) (T : gval -> Prop).

Definition good {A} (out : outcome A) : Prop :=
  match out with Panic p => P p | OutOfFuel => False | _ => True end.

(** [c] started at or after [lo] is good and on success keeps the target class,
    the reader invariant, and never moves the reader backwards. *)
Definition lsafe {A} (lo : Z) (c : go rstate A) (Q : A -> Prop) : Prop :=
  forall v r, T v -> rinv r -> lo <= r_currentByte r ->
    match c (v, r) with
    | (Ok a, (v', r')) => T v' /\ rinv r' /\ r_currentByte r <= r_currentByte r' /\ Q a
    | (out, _) => good out
    end.

Lemma lsafe_bind {A B} lo (c : go rstate A) (k : A -> go rstate B) Q Q' :
  lsafe lo c Q -> (forall a, Q a -> lsafe lo (k a) Q') -> lsafe lo (gbind c k) Q'.
Proof.
  intros H K v r HT HI L. specialize (H v r HT HI L). unfold gbind.
  destruct (c (v, r)) as [[a|e|p|] [v' r']]; try done.
  destruct H as (H1 & H2 & H3 & H4). specialize (K a H4 v' r' H1 H2 ltac:(lia)).
  destruct (k a (v', r')) as [[b|e|p|] [v'' r'']]; try done. intuition lia.
Qed.

Lemma lsafe_ret {A} lo (a : A) (Q : A -> Prop) : Q a -> lsafe lo (gret a) Q.
Proof. intros H v r HT HI L. cbn. auto with lia. Qed.

(** The same for a whole call of [readPairs] on targets with [E], which may be
    pointers or interface variables. *)
Definition esafe (lo : Z) (c : go rstate unit) (E : gval -> Prop) : Prop :=
  forall v r, E v -> rinv r -> lo <= r_currentByte r ->
    match c (v, r) with
    | (Ok _, (_, r')) => rinv r' /\ r_currentByte r <= r_currentByte r'
    | (out, _) => good out
    end.

(** What is required of the targets: resolving an (un)addressable argument with
    [E] gives a target of the class, and storing stays in it. *)
Context (E : bool -> gval -> Prop).
Context (resolve_ok : forall addr v, E addr v ->
  match resolveTarget addr v with
  | Ok (_, x, _) => T x
  | Err _ => True
  | Panic p => P p
  | OutOfFuel => False
  end).
Context (store_ok : forall lo (rp : bool -> go rstate unit) addr idx name pv,
  (forall addr, esafe lo (rp addr) (E addr)) -> pv_bound pv ->
  lsafe lo (storePair rp addr idx name pv) (fun _ => True)).

Lemma enter_safe lo loop addr :
  (forall addr idx, lsafe lo (loop addr idx) (fun _ => True)) ->
  esafe lo (enter loop addr) (E addr).
Proof.
  intros H v r HE HI L. unfold enter. cbn [fst].
  pose proof (resolve_ok addr v HE) as R.
  destruct (resolveTarget addr v) as [[[a x] k]| | |]; try done.
  unfold on_target. cbn [snd fst].
  specialize (H a (structFieldByName x) x r R HI L).
  destruct (loop a (structFieldByName x) (x, r)) as [[u| | |] [x' r']]; try done.
  now destruct H as (_ & ? & ? & _).
Qed.

Lemma readLoop_safe fuel lo addr idx :
  (0 < fuel)%nat -> blen data - lo < Z.of_nat fuel ->
  lsafe lo (readLoop fuel addr idx) (fun _ => True).
Proof.
  revert lo addr idx. induction fuel as [|fuel IH]; [lia|]. intros lo addr idx _ F v r HT HI L.
  cbn [readLoop]. unfold gbind at 1, on_reader. cbn [fst snd].
  pose proof (nextPair_safe r HI) as N.
  destruct (nextPair r) as [[[p|]| | |] r']; try done; [|cbn; intuition lia].
  destruct N as (HI' & N1 & N2 & Np). unfold gbind at 1, gget. cbn [snd].
  pose proof HI' as (_ & [o Ho] & _).
  pose proof (readPair_safe r' o Ho p Np) as RP.
  unfold gbind at 1, glift. destruct (readPair r' p) as [[name pv]| | |]; try done.
  assert (K : lsafe (r_currentByte r + 1)
    (storePair (enter (readLoop fuel)) addr idx name pv ;;; readLoop fuel addr idx) (fun _ => True)).
  { eapply lsafe_bind; [apply store_ok; [|done]|].
    - intros a. apply enter_safe. intros. apply IH; lia.
    - intros _ _. apply IH; lia. }
  specialize (K v r' HT HI' N1). cbn [fst snd].
  destruct (gbind _ _ _) as [[u| | |] [v'' r'']]; try done. intuition lia.
Qed.
End list_reader.

(** Reading into a fresh target keeps the outer one. *)
Lemma lsafe_on_fresh data (P : gopanic -> Prop) T E lo x c :
  esafe data P lo c E -> E x -> lsafe data P T lo (on_fresh x c) (fun _ => True).
Proof.
  intros H Ex v r HT HI L. unfold on_fresh. cbn [fst snd]. specialize (H x r Ex HI L).
  destruct (c (x, r)) as [[u| | |] [x' r']]; try done. now destruct H.
Qed.

Lemma lsafe_readElems data (P : gopanic -> Prop) T (E : bool -> gval -> Prop) lo rp n :
  (forall a, esafe data P lo (rp a) (E a)) -> E true (vAnyMap []) ->
  lsafe data P T lo (readElems rp n) (fun _ => True).
Proof.
  intros H Em. induction n as [|n IH]; cbn; [now apply lsafe_ret|].
  eapply lsafe_bind; [now eapply lsafe_on_fresh|]. intros m _.
  eapply lsafe_bind; [exact IH|]. intros l _. now apply lsafe_ret.
Qed.

Lemma lsafe_on_value data (P : gopanic -> Prop) T lo f :
  (forall v, T v -> match f v with
                    | Ok v' => T v'
                    | Err _ => True
                    | Panic p => P p
                    | OutOfFuel => False
                    end) ->
  lsafe data P T lo (on_value f) (fun _ => True).
Proof.
  intros H v r HT HI L. unfold on_value. cbn [fst snd]. specialize (H v HT).
  now destruct (f v).
Qed.

(** ** Storing into arbitrary targets *)

Section any_target.
Context (data : list byte).

Definition allowed (p : gopanic) : Prop := p ∈ target_panics.
(** The loop fills structs and maps; [readPairs] is called on anything but an
    interface value that is not addressable. *)
Definition is_map (v : gval) : Prop := kind v = Map.
Definition fillable (v : gval) : Prop := kind v = Struct \/ is_map v.
Definition enterable (addr : bool) (v : gval) : Prop := addr = true \/ kind v <> Interface.
Abbreviation safe T lo c := (lsafe data allowed T lo c (fun _ => True)).

Lemma assign_allowed t v :
  match assign t v with Ok _ | Err _ => True | Panic p => allowed p | OutOfFuel => False end.
Proof.
  unfold assign. destruct t; try done;
    (destruct (assignable _ _); [done|apply list_elem_of_here]).
Qed.

Lemma setMapIndex_allowed name val v :
  is_map v ->
  match setMapIndex name val v with
  | Ok v' => is_map v'
  | Err _ => True
  | Panic p => allowed p
  | OutOfFuel => False
  end.
Proof.
  unfold is_map. destruct v as [| |? []|?|?|?|nm kt t o|?|?|?|]; try done. intros _.
  unfold setMapIndex. pose proof (assign_allowed kt (VString None name)).
  destruct (assign kt _); try done. pose proof (assign_allowed t val).
  destruct (assign t val); try done. cbn [obind].
  destruct o; [done|apply list_elem_of_further, list_elem_of_here].
Qed.

Lemma setField_struct i x nm fs : kind (setField i x (VStruct nm fs)) = Struct.
Proof. cbn. now destruct (fs !! i) as [[f y]|]. Qed.

Lemma setPrimitive_allowed addr idx name val v :
  fillable v ->
  match setPrimitive addr idx name val v with
  | Ok v' => fillable v'
  | Err _ => True
  | Panic p => allowed p
  | OutOfFuel => False
  end.
Proof.
  intros F. unfold setPrimitive. destruct v as [| | |?|?|?|nm kt t o|nm fs|?|?|]; try done.
  - pose proof (setMapIndex_allowed name val (VMap nm kt t o) eq_refl) as S.
    destruct (setMapIndex _ _ _); try done. now right.
  - destruct (settableField addr idx name fs) as [[[i f] cur]|]; [|done].
    pose proof (assign_allowed (typeOf cur) val).
    destruct (assign (typeOf cur) val); try done. left. apply setField_struct.
Qed.

(** A computation that is safe on maps is safe on a map among all targets. *)
Lemma safe_on_map lo (c : go rstate unit) v r :
  safe is_map lo c -> is_map v -> rinv data r -> lo <= r_currentByte r ->
  match c (v, r) with
  | (Ok _, (v', r')) =>
      fillable v' /\ rinv data r' /\ r_currentByte r <= r_currentByte r' /\ True
  | (out, _) => good allowed out
  end.
Proof.
  intros S M HI L. specialize (S v r M HI L). destruct (c (v, r)) as [[u| | |] [v' r']]; try done.
  destruct S as (M' & ? & ? & _). split; [now right|auto].
Qed.

Lemma safe_readNvlist lo rp addr idx name :
  (forall a, esafe data allowed lo (rp a) (enterable a)) ->
  safe fillable lo (readNvlist rp addr idx name).
Proof.
  intros H v r F HI L. unfold readNvlist, gbind at 1, gget. cbn [fst].
  destruct v as [|?|? []|?|?|?|nm kt t o|nm fs|?|?|]; try (now destruct F).
  - apply safe_on_map with lo; try done.
    eapply (lsafe_bind _ _ _ _ _ _ (enterable false)).
    + intros v' r' F' HI' L'. unfold glift.
      destruct t; cbn [good]; first
        [ split; [done|]; split; [done|]; split; [lia|now right]
        | repeat first [apply list_elem_of_here | apply list_elem_of_further] ].
    + intros x Ex. eapply lsafe_bind; [eapply lsafe_on_fresh; [apply H|exact Ex]|].
      intros y _. apply lsafe_on_value. intros. now apply setMapIndex_allowed.
  - destruct (settableField addr idx name fs) as [[[i f] cur]|]; [|cbn; auto with lia].
    unfold on_target. cbn [fst snd]. specialize (H true cur r ltac:(now left) HI L).
    destruct (rp true (cur, r)) as [[u| | |] [x' r']]; try done.
    destruct H. split; [left; apply setField_struct|auto].
Qed.

Lemma safe_readNvlistArray lo rp name n :
  (forall a, esafe data allowed lo (rp a) (enterable a)) ->
  safe fillable lo (readNvlistArray rp name n).
Proof.
  intros H v r F HI L. unfold readNvlistArray, gbind at 1, gget. cbn [fst].
  destruct v as [|?|? []|?|?|?|nm kt t o|nm fs|?|?|]; try (now destruct F).
  - apply safe_on_map with lo; try done.
    eapply lsafe_bind; [eapply lsafe_readElems; [exact H|now left]|].
    intros l _. apply lsafe_on_value. intros. now apply setMapIndex_allowed.
  - cbn. repeat first [apply list_elem_of_here | apply list_elem_of_further].
Qed.

Lemma safe_storePair lo rp addr idx name pv :
  (forall a, esafe data allowed lo (rp a) (enterable a)) -> pv_bound pv ->
  safe fillable lo (storePair rp addr idx name pv).
Proof.
  intros H _. destruct pv as [x| |n|]; cbn [storePair].
  - apply lsafe_on_value. intros. now apply setPrimitive_allowed.
  - now apply safe_readNvlist.
  - now apply safe_readNvlistArray.
  - now apply lsafe_ret.
Qed.

Lemma safe_resolve addr v :
  enterable addr v ->
  match resolveTarget addr v with
  | Ok (_, x, _) => fillable x
  | Err _ => True
  | Panic p => allowed p
  | OutOfFuel => False
  end.
Proof.
  unfold enterable, resolveTarget. intros [->|N].
  - destruct v as [|?|? []|?|?|?|?|?|nm t [x|]|?|]; try done; try (now left); try (now right).
    destruct x as [|?|? []|?|?|?|?|?|?|?|]; try done; try (now left); now right.
  - destruct v as [|?|? []|?|?|?|?|?|nm t [x|]|?|]; try done; try (now left); try (now right).
    destruct x as [|?|? []|?|?|?|?|?|?|?|]; try done; try (now left); now right.
Qed.
End any_target.

(** ** Storing into dynamic maps *)

Section dynamic_target.
Context (data : list byte).

Definition dynamic (v : gval) : Prop := exists m, v = vAnyMap m.
Definition never (p : gopanic) : Prop := False.
Abbreviation dsafe lo c := (lsafe data never dynamic lo c (fun _ => True)).

Lemma dsafe_set lo name g : dsafe lo (on_value (setMapIndex name g)).
Proof. apply lsafe_on_value. intros v [m ->]. cbn. now eexists. Qed.

Lemma dsafe_storePair lo rp addr idx name pv :
  (forall a : bool, esafe data never lo (rp a) dynamic) -> pv_bound pv ->
  dsafe lo (storePair rp addr idx name pv).
Proof.
  intros H _. destruct pv as [x| |n|]; cbn [storePair].
  - intros v r [m ->] HI L. exact (dsafe_set lo name x _ r ltac:(now eexists) HI L).
  - intros v r [m ->] HI L.
    assert (K : dsafe lo (val <- on_fresh (vAnyMap []) (rp false) ;;
      on_value (setMapIndex name (match val with VPtr _ _ (Some x) => x | _ => val end)))).
    { eapply lsafe_bind; [eapply lsafe_on_fresh; [apply H|now eexists]|]. intros. apply dsafe_set. }
    exact (K (vAnyMap m) r ltac:(now eexists) HI L).
  - intros v r [m ->] HI L.
    assert (K : dsafe lo (l <- readElems rp (Z.to_nat n) ;;
      on_value (setMapIndex name (VSlice None tAnyMap l)))).
    { eapply lsafe_bind; [apply (lsafe_readElems _ _ _ (fun _ => dynamic)); [exact H|now eexists]|].
      intros. apply dsafe_set. }
    exact (K (vAnyMap m) r ltac:(now eexists) HI L).
  - now apply lsafe_ret.
Qed.

Lemma dsafe_resolve (addr : bool) v :
  dynamic v ->
  match resolveTarget addr v with
  | Ok (_, x, _) => dynamic x
  | Err _ => True
  | Panic p => never p
  | OutOfFuel => False
  end.
Proof. intros [m ->]. cbn. now eexists. Qed.
End dynamic_target.

(** ** Unmarshal *)

Lemma list_ReadByte_safe r :
  0 <= r_currentByte r ->
  match nvlistReader.ReadByte r with
  | (Ok _, r') => r' = set_r_currentByte (r_currentByte r + 1) r
  | (Err e, _) => e = ErrInvalidData
  | _ => False
  end.
Proof.
  intros H. unfold nvlistReader.ReadByte, gbind, gget, glift.
  destruct (Z.ltb_spec (r_currentByte r) (blen (r_nvlist r))); [|done].
  destruct (go_index_ok (r_nvlist r) (r_currentByte r)) as (b & ->); [lia|done].
Qed.

(** The header after the byte order is known. *)
Lemma header_tail_safe data o enc :
  match
    (nvlistReader.skipN 2 ;;;
     version <- nvlistReader.readInt KInt32 ;;
     gmodify (set_r_version version) ;;;
     flags <- nvlistReader.readInt KUint32 ;;
     gmodify (set_r_flags flags)) (NvlistReader data 2 (Some o) enc 0 0) with
  | (Ok _, r') => rinv data r' /\ r_currentByte r' = 12
  | (Err _, _) => True
  | _ => False
  end.
Proof.
  unfold gbind at 1, nvlistReader.skipN, gmodify at 1. cbn [set_r_currentByte r_currentByte].
  unfold gbind at 1.
  pose proof (list_readInt_safe data KInt32 (NvlistReader data 4 (Some o) enc 0 0)
    ltac:(repeat split; cbn; (done || lia))) as B.
  destruct (nvlistReader.readInt KInt32 _) as [[ver| | |] r1]; try done.
  destruct B as (B & -> & _). unfold gbind at 1, gmodify at 1. unfold gbind at 1.
  pose proof (list_readInt_safe data KUint32 (NvlistReader data 8 (Some o) enc 0 ver)
    ltac:(repeat split; cbn; (done || lia))) as C.
  change (set_r_version _ _) with (NvlistReader data 8 (Some o) enc 0 ver).
  destruct (nvlistReader.readInt KUint32 _) as [[fl| | |] r2]; try done.
  destruct C as (C & -> & _). repeat split; cbn; (done || lia).
Qed.

Lemma readNvHeader_safe data :
  match nvlistReader.readNvHeader (NvlistReader data 0 None EncodingNative 0 0) with
  | (Ok _, r') => rinv data r' /\ r_currentByte r' = 12
  | (Err _, _) => True
  | _ => False
  end.
Proof.
  unfold nvlistReader.readNvHeader, gbind at 1.
  pose proof (list_ReadByte_safe (NvlistReader data 0 None EncodingNative 0 0) ltac:(cbn; lia)) as B1.
  destruct (nvlistReader.ReadByte _) as [[b1| | |] r1]; try done. subst r1. cbn [set_r_currentByte].
  unfold gbind at 1.
  assert (E1 : forall enc, match
    (endiness <- nvlistReader.ReadByte ;;
     (if byte_to_Z endiness =? bigEndian then gmodify (set_r_endianness BigEndian)
      else if byte_to_Z endiness =? littleEndian then gmodify (set_r_endianness LittleEndian)
      else gerr ErrInvalidEndianess) ;;;
     nvlistReader.skipN 2 ;;;
     version <- nvlistReader.readInt KInt32 ;;
     gmodify (set_r_version version) ;;;
     flags <- nvlistReader.readInt KUint32 ;;
     gmodify (set_r_flags flags)) (NvlistReader data 1 None enc 0 0) with
    | (Ok _, r') => rinv data r' /\ r_currentByte r' = 12
    | (Err _, _) => True
    | _ => False
    end).
  { intros enc. unfold gbind at 1.
    pose proof (list_ReadByte_safe (NvlistReader data 1 None enc 0 0) ltac:(cbn; lia)) as B2.
    destruct (nvlistReader.ReadByte _) as [[b2| | |] r2]; try done. subst r2.
    unfold gbind at 1. destruct (_ =? bigEndian); [exact (header_tail_safe data BigEndian enc)|].
    destruct (_ =? littleEndian); [exact (header_tail_safe data LittleEndian enc)|done]. }
  destruct (_ =? encoding_byte EncodingNative); [exact (E1 EncodingNative)|].
  destruct (_ =? encoding_byte EncodingXDR); [exact (E1 EncodingXDR)|done].
Qed.

(** Termination and the possible panics, for every target. An argument of
    interface kind cannot be passed by a Go program. *)
Lemma Unmarshal_panics data val :
  match fst (Unmarshal data val) with
  | Panic p => p ∈ target_panics \/ p = PReflect /\ kind val = Interface
  | OutOfFuel => False
  | _ => True
  end.
Proof.
  unfold Unmarshal, gbind, on_reader. cbn [fst snd].
  pose proof (readNvHeader_safe data) as H.
  destruct (nvlistReader.readNvHeader _) as [[u| | |] r]; try done. destruct H as [HI HC].
  destruct (decide (kind val = Interface)) as [K|K].
  { destruct val as [| |? []| | | | | | | |]; try discriminate K. now right. }
  pose proof (enter_safe data allowed fillable enterable safe_resolve 0
    (readLoop (S (length data))) false) as S.
  specialize (S ltac:(intros; eapply readLoop_safe;
    [exact safe_resolve|intros; now apply safe_storePair|lia|unfold blen; lia])).
  specialize (S val r ltac:(now right) HI ltac:(destruct HI; lia)). unfold readPairs.
  destruct (enter _ _ _) as [[u'| | |] [v' r']]; try done. now left.
Qed.

Lemma Unmarshal_ends data val : fst (Unmarshal data val) <> OutOfFuel.
Proof. intros E. pose proof (Unmarshal_panics data val) as H. now rewrite E in H. Qed.

(** The loop on a [map[string]interface{}]. *)
Lemma dynamic_loop data m r :
  rinv data r -> r_currentByte r = 12 ->
  match readLoop (S (length data)) false (structFieldByName (vAnyMap m)) (vAnyMap m, r) with
  | (Ok _, (v, _)) => dynamic v
  | (out, _) => good never out
  end.
Proof.
  intros HI HC.
  assert (S : lsafe data never dynamic 0 (readLoop (S (length data)) false
    (structFieldByName (vAnyMap m))) (fun _ => True)).
  { apply (readLoop_safe data never dynamic (fun _ => dynamic)); [intros; now apply dsafe_resolve
      |intros; now apply dsafe_storePair|lia|unfold blen; lia]. }
  specialize (S (vAnyMap m) r ltac:(now eexists) HI ltac:(destruct HI; lia)).
  destruct (readLoop _ _ _ _) as [[u'| | |] [v' r']]; try done. now destruct S.
Qed.

(** No panic at all with a dynamic target: a map, or an interface variable. *)
Lemma Unmarshal_dynamic data old : good never (fst (Unmarshal data (vIfacePtr old))).
Proof.
  unfold Unmarshal, gbind, on_reader. cbn [fst snd].
  pose proof (readNvHeader_safe data) as H.
  destruct (nvlistReader.readNvHeader _) as [[u| | |] r]; try done. destruct H as [HI HC].
  unfold readPairs, enter. cbn [fst resolveTarget vIfacePtr]. unfold on_target. cbn [snd].
  pose proof (dynamic_loop data [] r HI HC) as D.
  now destruct (readLoop _ _ _ _) as [[u'| | |] [v' r']].
Qed.

Lemma Unmarshal_anymap data m :
  match Unmarshal data (vAnyMap m) with
  | (Ok _, v) => dynamic v
  | (out, _) => good never out
  end.
Proof.
  unfold Unmarshal, gbind, on_reader. cbn [fst snd].
  pose proof (readNvHeader_safe data) as H.
  destruct (nvlistReader.readNvHeader _) as [[u| | |] r]; try done. destruct H as [HI HC].
  unfold readPairs, enter. cbn [fst resolveTarget vAnyMap]. unfold on_target. cbn [snd fst].
  pose proof (dynamic_loop data m r HI HC) as D. unfold vAnyMap in D.
  now destruct (readLoop _ _ _ _) as [[u'| | |] [v' r']].
Qed.
