(* ===== verification/NvEncodeTotal.v ===== *)
(** * Totality of the encoder

    [Marshal] terminates on every value tree (its fuel, the nesting depth, is
    enough), never hits its two explicit panics or an out-of-range write, its
    result is never shorter than the stream header, and it does not panic at
    all on values without unexported fields and without slices or arrays of
    pointers or interfaces ([plain]). *)

From Stdlib Require Import ZArith Lia Strings.Byte Strings.String.
From stdpp Require Import base list gmap.
From S2P Require Import Prelude GoValue NvConsts NvEncode NvWire NvEncodeSpec.

(** The only panics left, see [plain] below. *)
Definition enc_panic (p : gopanic) : bool :=
  match p with PReflect | PNil => true | _ => false end.

(** Values on which reflection cannot fail: all struct fields are exported, and
    the elements of arrays and slices are neither pointers nor interfaces (their
    kind is that of the element type, as for every Go value). *)
Fixpoint plain (v : gval) : bool :=
  match v with
  | VArray _ t vs | VSlice _ t vs =>
      negb (bool_decide (kind_of_type t = Ptr)) && negb (bool_decide (kind_of_type t = Interface))
      && forallb (fun x => bool_decide (kind x = kind_of_type t) && plain x) vs
  | VMap _ _ _ (Some kvs) => forallb (fun '(_, x) => plain x) kvs
  | VStruct _ fs => forallb (fun '(f, x) => exported (f_Name f) && plain x) fs
  | VPtr _ _ (Some x) | VIface _ (Some x) => plain x
  | _ => true
  end.

Definition plain_value (v : Value) : bool := negb (v_ro v) && plain (v_val v).

Section tame.
(** Whether the value being encoded is plain: then no panic is allowed. *)
Context (q : bool).

(** A pair was started: sixteen zero bytes are reserved at the start offset. *)
Definition wopen (w : nvlistWriter) : Prop :=
  ready w /\ exists pre body, w_nvlist w = pre ++ zeros 16 ++ body
                              /\ w_nvpairStartByte w = blen pre /\ 0 < blen pre.

(** [c] run in a state with [Pre] has an allowed outcome, keeps the writer
    usable after a value or an error, and never shortens the buffer. *)
Definition tame {A} (Pre : nvlistWriter -> Prop) (c : go nvlistWriter A)
    (Post : nvlistWriter -> Prop) : Prop :=
  forall w, Pre w ->
    let '(out, w') := c w in
    blen (w_nvlist w) <= blen (w_nvlist w') /\
    match out with
    | Ok _ => Post w'
    | Err _ => ready w'
    | Panic p => enc_panic p = true /\ q = false
    | OutOfFuel => False
    end.

Lemma tame_bind {A B} P Q S (c : go nvlistWriter A) (k : A -> go nvlistWriter B) :
  tame P c Q -> (forall a, tame Q (k a) S) -> tame P (gbind c k) S.
Proof.
  intros H K w I. specialize (H w I). unfold gbind. destruct (c w) as [[a| | |] w']; try done.
  destruct H as [L I']. specialize (K a w' I'). destruct (k a w') as [out w'']. split; [lia|apply K].
Qed.

Lemma tame_ret {A} P (a : A) : tame P (gret a) P.
Proof. intros w I. now split. Qed.

Lemma tame_err {A} (P Q : nvlistWriter -> Prop) e :
  (forall w, P w -> ready w) -> tame P (@gerr _ A e) Q.
Proof. intros H w I. split; [done|]. now apply H. Qed.

Lemma tame_lift {A} (P : nvlistWriter -> Prop) (out : outcome A) :
  (forall w, P w -> ready w) ->
  match out with Panic p => enc_panic p = true /\ q = false | OutOfFuel => False | _ => True end ->
  tame P (glift out) P.
Proof. intros H G w I. unfold glift. split; [done|]. destruct out; auto. Qed.

Lemma tame_foreach {A} P (f : A -> go nvlistWriter unit) l :
  (forall x, x ∈ l -> tame P (f x) P) -> tame P (gforeach f l) P.
Proof.
  induction l as [|x l IH]; intros H; cbn; [apply tame_ret|].
  eapply tame_bind; [apply H; set_solver|]. intros _. apply IH. set_solver.
Qed.

Lemma wopen_ready w : wopen w -> ready w.
Proof. now intros [? _]. Qed.

Lemma wopen_app bs w : wopen w -> wopen (w_app bs w).
Proof.
  intros (R & pre & body & E & S & L). split; [now apply ready_app|].
  exists pre, (body ++ bs). cbn. rewrite E, S. now rewrite <- !app_assoc.
Qed.

(** Appending computations are tame. *)
Lemma tame_append P (c : go nvlistWriter unit) (f : nvlistWriter -> list byte) :
  (forall w bs, P w -> P (w_app bs w)) ->
  (forall w, P w -> c w = (Ok tt, w_app (f w) w)) -> tame P c P.
Proof.
  intros H E w I. rewrite (E w I). split; [cbn; blen_lia|now apply H].
Qed.

Lemma tame_skipN n : tame wopen (skipN n) wopen.
Proof. apply (tame_append _ _ (fun _ => zeros n)); [eauto using wopen_app|]. intros. apply skipN_spec. Qed.

Lemma tame_skipToAlign : tame wopen skipToAlign wopen.
Proof. eapply tame_append; [eauto using wopen_app|]. intros. apply skipToAlign_spec. Qed.

(** The part of a string before its first zero byte. *)
Fixpoint before_nul (s : gostring) : gostring :=
  match s with
  | [] => []
  | c :: s' => if bool_decide (c = x00) then [] else c :: before_nul s'
  end.

(** What an unchecked [writeString] leaves in the buffer. *)
Definition written (s : gostring) : list byte := if nul_free s then cstring s else before_nul s.

Lemma writeString_nul s w :
  nul_free s = false -> writeString s w = (Err ErrInvalidValue, w_app (before_nul s) w).
Proof.
  revert w. induction s as [|c s IH]; intros w H; [discriminate|].
  cbn [nul_free forallb writeString before_nul] in *.
  destruct (bool_decide (c = x00)); cbn [negb andb] in H.
  - unfold gerr. now rewrite w_app_nil.
  - unfold gbind. cbn [w_append gmodify]. unfold w_append, gmodify. rewrite (IH _ H).
    f_equal. apply (w_app_app [c]).
Qed.

Lemma ignore_writeString_written s w :
  gignore (writeString s) w = (Ok tt, w_app (written s) w).
Proof.
  unfold gignore, written. destruct (nul_free s) eqn:N.
  - now rewrite writeString_spec.
  - now rewrite writeString_nul.
Qed.

Lemma tame_ignore_writeString s : tame wopen (gignore (writeString s)) wopen.
Proof.
  eapply tame_append; [eauto using wopen_app|]. intros. apply ignore_writeString_written.
Qed.

Lemma tame_writeNvlistHeader : tame wopen writeNvlistHeader wopen.
Proof.
  eapply tame_append; [eauto using wopen_app|]. intros w [R _]. now apply writeNvlistHeader_spec.
Qed.

(** The integer behind a nil pointer. *)
Definition no_ptr (v : gval) : bool := match v with VPtr _ _ _ => false | _ => true end.

Lemma tame_writeInt v : (q = true -> no_ptr v = true) -> tame wopen (writeInt v) wopen.
Proof.
  intros N w I. pose proof I as [R _]. pose proof R as (Hm & He & _).
  destruct (binary_bytes LittleEndian v) as [bs|e|p|] eqn:B.
  - rewrite (writeInt_append v bs w R B). split; [cbn; blen_lia|now apply wopen_app].
  - unfold writeInt, gbind, gget, glift. rewrite He, B. now split.
  - unfold writeInt, gbind, gget, glift. rewrite He, B. split; [done|].
    unfold binary_bytes in B. repeat (case_match; try discriminate); simplify_eq.
    split; [done|]. destruct q; [now specialize (N eq_refl)|done].
  - unfold binary_bytes in B. repeat (case_match; try discriminate).
Qed.

Lemma tame_start : tame ready startNvPair wopen.
Proof.
  intros w R. pose proof R as (_ & _ & L). unfold startNvPair, gbind, gmodify.
  rewrite gforeach_WriteByte. split; [cbn; blen_lia|]. split; [eauto with gozfs|].
  now exists (w_nvlist w), [].
Qed.

Lemma tame_end n name_sz ty :
  nvtype_code ty <> 0 -> tame wopen (endNvPair (NvPair 0 name_sz 0 n (nvtype_code ty))) ready.
Proof.
  intros T [nv st m e fl v] ((Hm & He & _) & pre & body & E & S & L).
  cbn [w_nvlist w_modeWriteFromStartByte w_endianness w_nvpairStartByte] in Hm, He, E, S.
  subst. rewrite endNvPair_spec by done.
  split; [cbn; autorewrite with blen; unfold nvlistHeaderSize; pose proof (pad8_range (16 + blen body)); lia|].
  repeat split. cbn [w_nvlist]. rewrite blen_app. pose proof (blen_nonneg (pair_header LittleEndian
    (nvlistHeaderSize + blen body + pad8 (nvlistHeaderSize + blen body)) name_sz n (nvtype_code ty)
    ++ body ++ padding (nvlistHeaderSize + blen body))). lia.
Qed.

(** ** Depth of the parts of a value *)

Lemma unpackVal_depth v v' : unpackVal v = Some v' -> (depth (v_val v') <= depth (v_val v))%nat.
Proof.
  destruct v as [ro x]. unfold unpackVal. cbn [v_val].
  destruct x as [| | | | | |? ? ? []| |nm t [y|]|nm [y|]|]; intros H; simplify_eq; cbn; try lia.
  destruct y as [| | | | | |? ? ? []| |nm' t' [z|]|nm' [z|]|]; simplify_eq; cbn; lia.
Qed.

Lemma list_max_cons n l : list_max (n :: l) = Nat.max n (list_max l).
Proof. reflexivity. Qed.

Lemma list_max_in {A} (f : A -> nat) x l : x ∈ l -> (f x <= list_max (map f l))%nat.
Proof.
  induction l as [|y l IH]; [set_solver|]. intros [->|H]%elem_of_cons; cbn [map]; rewrite list_max_cons; [lia|].
  specialize (IH H). lia.
Qed.

Lemma collectMap_depth ro kt kvs ps name v :
  collectMap ro kt kvs = Ok ps -> (name, v) ∈ ps ->
  (depth (v_val v) <= list_max (map (fun '(_, x) => depth x) kvs))%nat.
Proof.
  revert ps. induction kvs as [|[k x] kvs IH]; cbn [collectMap map]; intros ps H I;
    [simplify_eq; set_solver|]. rewrite list_max_cons.
  destruct (negb _); [discriminate|].
  destruct (collectMap ro kt kvs) as [l| | |]; try discriminate. cbn in H. injection H as <-.
  specialize (IH l eq_refl). destruct (unpackVal _) as [u|] eqn:U.
  - apply elem_of_cons in I as [[= -> ->]|I]; [|specialize (IH I); lia].
    apply unpackVal_depth in U. cbn in U. lia.
  - specialize (IH I). lia.
Qed.

Lemma collectStruct_depth ro fs name v :
  (name, v) ∈ collectStruct ro fs ->
  (depth (v_val v) <= list_max (map (fun '(_, x) => depth x) fs))%nat.
Proof.
  induction fs as [|[f x] fs IH]; cbn [collectStruct map]; intros I; [set_solver|].
  rewrite list_max_cons.
  destruct (collectField ro f x) as [[n u]|] eqn:C; [|specialize (IH I); lia].
  apply elem_of_cons in I as [[= -> ->]|I]; [|specialize (IH I); lia].
  assert (H : (depth (v_val u) <= depth x)%nat); [|lia].
  unfold collectField in C. cbv zeta in C.
  destruct (unpackVal _) as [v'|] eqn:U; repeat (case_match; try discriminate); simplify_eq;
    apply unpackVal_depth in U; exact U.
Qed.

Lemma collectPairs_depth v ps name x :
  collectPairs v = Ok ps -> (name, x) ∈ ps -> (depth (v_val x) < depth (v_val v))%nat.
Proof.
  unfold collectPairs. destruct (v_val v) as [| | | | | |nm kt t [kvs|]|nm fs| | |] eqn:E;
    intros H I; try discriminate.
  - pose proof (collectMap_depth _ _ _ _ _ _ H I). cbn [depth]. lia.
  - cbn in H. simplify_eq. set_solver.
  - simplify_eq. apply collectStruct_depth in I. cbn [depth]. lia.
Qed.

(** ** Parts of plain values *)

(** A conjunction of booleans whose parts are in the context. *)
Ltac conj_true := repeat (apply andb_true_iff; split); try apply negb_true_iff; assumption.

Lemma unpackVal_plain v v' : unpackVal v = Some v' -> plain_value v = true -> plain_value v' = true.
Proof.
  destruct v as [ro x]. unfold unpackVal, plain_value. cbn [v_val v_ro].
  destruct x as [| | | | | |? ? ? []| |nm t [y|]|nm [y|]|]; intros H P; simplify_eq; try done.
  destruct y as [| | | | | |? ? ? []| |nm' t' [z|]|nm' [z|]|]; simplify_eq; exact P.
Qed.

Lemma collectMap_plain ro kt kvs ps name v :
  collectMap ro kt kvs = Ok ps -> (name, v) ∈ ps ->
  negb ro && forallb (fun '(_, x) => plain x) kvs = true -> plain_value v = true.
Proof.
  revert ps. induction kvs as [|[k x] kvs IH]; cbn [collectMap forallb]; intros ps H I P;
    [simplify_eq; set_solver|]. destruct (negb (bool_decide _)); [discriminate|].
  destruct (collectMap ro kt kvs) as [l| | |]; try discriminate. cbn in H. injection H as <-.
  bool_to_prop. specialize (IH l eq_refl).
  destruct (unpackVal (MkValue ro x)) as [u|] eqn:U; [|apply IH; [done|conj_true]].
  apply elem_of_cons in I as [[= -> ->]|I]; [|apply IH; [done|conj_true]].
  eapply unpackVal_plain; [exact U|]. unfold plain_value. cbn. conj_true.
Qed.

Lemma collectStruct_plain ro fs name v :
  (name, v) ∈ collectStruct ro fs ->
  negb ro && forallb (fun '(f, x) => exported (f_Name f) && plain x) fs = true ->
  plain_value v = true.
Proof.
  induction fs as [|[f x] fs IH]; cbn [collectStruct forallb]; intros I P; [set_solver|].
  bool_to_prop. destruct (collectField ro f x) as [[n u]|] eqn:C; [|apply IH; [done|conj_true]].
  apply elem_of_cons in I as [[= -> ->]|I]; [|apply IH; [done|conj_true]].
  assert (E : exists v', unpackVal (MkValue (ro || negb (exported (f_Name f))) x) = Some v' /\ u = v').
  { unfold collectField in C. cbv zeta in C.
    destruct (unpackVal _) as [v'|]; repeat (case_match; try discriminate); simplify_eq; eauto. }
  destruct E as (v' & U & ->). eapply unpackVal_plain; [exact U|].
  unfold plain_value. cbn [v_ro v_val]. apply andb_true_iff. split; [|done].
  apply negb_true_iff, orb_false_iff. split; [done|]. now apply negb_false_iff.
Qed.

Lemma collectPairs_plain v ps name x :
  collectPairs v = Ok ps -> (name, x) ∈ ps -> plain_value v = true -> plain_value x = true.
Proof.
  unfold collectPairs, plain_value at 1.
  destruct (v_val v) as [| | | | | |nm kt t [kvs|]|nm fs| | |] eqn:E;
    intros H I P; try discriminate; cbn [plain] in P.
  - now apply (collectMap_plain _ _ _ _ _ _ H I).
  - cbn in H. simplify_eq. set_solver.
  - simplify_eq. now apply (collectStruct_plain _ _ _ _ I).
Qed.

(** ** The loop *)

(** Recursive calls on values no deeper than [d] are tame. *)
Definition rec_tame (d : nat) (rec : option Value -> go nvlistWriter unit) : Prop :=
  forall x, (depth (v_val x) <= d)%nat -> (q = true -> plain_value x = true) ->
    tame ready (rec (Some x)) ready.

Lemma tame_Interface v :
  (q = true -> v_ro v = false) -> tame wopen (glift (Value_Interface v)) wopen.
Proof.
  intros N. apply tame_lift; [apply wopen_ready|]. unfold Value_Interface.
  destruct (v_ro v); [|done]. split; [done|]. destruct q; [now specialize (N eq_refl)|done].
Qed.

Lemma tame_Bool x ro :
  (q = true -> kind x = Bool) -> tame wopen (glift (Value_Bool (unpackVal (MkValue ro x)))) wopen.
Proof.
  intros N. apply tame_lift; [apply wopen_ready|]. destruct q.
  - specialize (N eq_refl). destruct x as [| |? []| | | | | | | |]; try discriminate N. done.
  - unfold Value_Bool. destruct (unpackVal _) as [[ro' []]|]; done.
Qed.

(** An integer value or element. *)
Lemma tame_int v :
  (q = true -> v_ro v = false /\ no_ptr (v_val v) = true) ->
  tame wopen (x <- glift (Value_Interface v) ;; writeInt x) wopen.
Proof.
  intros N w I. pose proof (tame_Interface v (fun e => proj1 (N e)) w I) as T.
  unfold gbind, glift in *. unfold Value_Interface in *. destruct (v_ro v); [exact T|].
  apply tame_writeInt; [|done]. intros e. apply (N e).
Qed.

Lemma tame_finish name_sz n ty :
  nvtype_code ty <> 0 ->
  tame wopen (endNvPair (NvPair 0 name_sz 0 n (nvtype_code ty)) ;;; gret Continue) ready.
Proof. intros H. eapply tame_bind; [now apply tame_end|]. intros _. apply tame_ret. Qed.

#[local] Hint Resolve tame_skipN tame_ignore_writeString
  tame_writeNvlistHeader tame_finish tame_skipToAlign : gozfs.

(** The elements of an array or slice of type [t]. *)
Definition plain_elems (ro : bool) (t : gtype) (vs : list gval) : Prop :=
  ro = false /\ plain (VSlice None t vs) = true.

Lemma plain_elem ro t vs x :
  plain_elems ro t vs -> x ∈ vs ->
  ro = false /\ kind x = kind_of_type t /\ plain_value (MkValue ro x) = true /\
  kind_of_type t <> Ptr /\ kind_of_type t <> Interface.
Proof.
  intros [-> P] I. cbn [plain] in P. bool_to_prop.
  match goal with H : forallb _ vs = true |- _ =>
    rewrite forallb_forall in H; apply list_elem_of_In in I; specialize (H x I) end.
  bool_to_prop. repeat match goal with
  | H : bool_decide _ = true |- _ => apply bool_decide_eq_true in H
  | H : bool_decide _ = false |- _ => apply bool_decide_eq_false in H
  end. repeat split; done.
Qed.

Lemma plain_elem_kind ro t et vs x :
  unpackType t = Ok et -> plain_elems ro t vs -> x ∈ vs ->
  ro = false /\ kind x = kind_of_type et /\ no_ptr x = true.
Proof.
  intros U P I. destruct (plain_elem _ _ _ _ P I) as (-> & K & _ & N1 & N2).
  assert (et = t) as -> by (destruct t; cbn in *; congruence).
  repeat split; [done|]. destruct x; try done; now rewrite <- K in N1.
Qed.

(** The embedded lists of an array, after its frame is closed. *)
Lemma tame_elements d rec ro t vs :
  rec_tame d rec -> (list_max (map depth vs) <= d)%nat -> (q = true -> plain_elems ro t vs) ->
  tame ready (gforeach (fun x => rec (Some (MkValue ro x))) vs ;;; gret Continue) ready.
Proof.
  intros R D P. eapply tame_bind; [|intros; apply tame_ret]. apply tame_foreach.
  intros x I. apply R; [cbn; pose proof (list_max_in depth x vs I); lia|].
  intros e. apply (plain_elem _ _ _ _ (P e) I).
Qed.

Lemma tame_list_array d rec name_sz ro t vs :
  rec_tame d rec -> (list_max (map depth vs) <= d)%nat -> (q = true -> plain_elems ro t vs) ->
  tame wopen (skipN (8 * length vs) ;;; gforeach (fun _ => writeNvlistHeader) vs ;;;
    endNvPair (NvPair 0 name_sz 0 (blen vs) (nvtype_code typeNvlistArray)) ;;;
    gforeach (fun x => rec (Some (MkValue ro x))) vs ;;; gret Continue) ready.
Proof.
  intros R D P. eapply tame_bind; [apply tame_skipN|]. intros _.
  eapply tame_bind; [apply tame_foreach; eauto with gozfs|]. intros _.
  eapply tame_bind; [now apply tame_end|]. intros _. now apply tame_elements with d t.
Qed.

Lemma tame_unpackType ro t vs :
  (q = true -> plain_elems ro t vs) ->
  match unpackType t with Panic p => enc_panic p = true /\ q = false | OutOfFuel => False | _ => True end.
Proof.
  intros P. destruct (unpackType t) as [| |p|] eqn:U; try done.
  - assert (p = PReflect) as -> by (destruct t as [| | | | | | | |nm []| | |]; cbn in U; congruence).
    split; [done|]. destruct q; [|done]. destruct (P eq_refl) as [_ Pt]. cbn [plain] in Pt.
    destruct t as [| | | | | | | |nm []| | |]; try discriminate U; discriminate Pt.
  - destruct t as [| | | | | | | |nm []| | |]; discriminate U.
Qed.

Lemma tame_writeArray d rec name_sz ro t vs :
  rec_tame d rec -> (list_max (map depth vs) <= d)%nat -> (q = true -> plain_elems ro t vs) ->
  tame wopen (writeArray rec (NvPair 0 name_sz 0 1 0) ro t vs) ready.
Proof.
  intros R D P. unfold writeArray. cbn [nvp_Size nvp_Name_sz nvp_Reserve].
  destruct (2147483647 <=? blen vs); [apply tame_err, wopen_ready|].
  pose proof (tame_unpackType ro t vs P) as T.
  intros w I. unfold gbind at 1, glift at 1.
  destruct (unpackType t) as [et|e|p|] eqn:U;
    [|split; [done|now apply wopen_ready]|split; [done|exact T]|done].
  revert w I. refine (_ : tame wopen _ ready).
  destruct (kind_of_type et) as [| |k| | | | | | | | | |] eqn:K;
    try apply tame_err, wopen_ready; try (now apply tame_list_array with d t).
  - eapply tame_bind; [apply tame_foreach|intros; now apply tame_finish].
    intros x I. eapply tame_bind; [apply tame_Bool|intros; apply tame_writeInt; done].
    intros e. rewrite <- K. apply (plain_elem_kind _ _ _ _ _ U (P e) I).
  - destruct (fixed_int k) eqn:F; [|apply tame_err, wopen_ready].
    eapply tame_bind; [apply tame_foreach|intros; apply tame_finish; now destruct k].
    intros x I. apply tame_int. intros e. destruct (plain_elem_kind _ _ _ _ _ U (P e) I). tauto.
  - eapply tame_bind; [apply tame_skipN|]. intros _.
    eapply tame_bind; [apply tame_foreach|intros; now apply tame_finish]. eauto with gozfs.
Qed.

Lemma tame_list d rec name_sz val :
  rec_tame d rec -> (depth (v_val val) <= d)%nat -> (q = true -> plain_value val = true) ->
  tame wopen (writeNvlistHeader ;;;
    endNvPair (NvPair 0 name_sz 0 1 (nvtype_code typeNvlist)) ;;;
    (fun w => match rec (Some val) w with
              | (Ok _, w') => (Ok Continue, w')
              | (Err _, w') => (Ok ReturnNil, w')
              | (Panic p, w') => (Panic p, w')
              | (OutOfFuel, w') => (OutOfFuel, w')
              end)) ready.
Proof.
  intros R D P. eapply tame_bind; [apply tame_writeNvlistHeader|]. intros _.
  eapply tame_bind; [now apply tame_end|]. intros _ w I. specialize (R val D P w I).
  destruct (rec (Some val) w) as [[| | |] w']; exact R.
Qed.

Lemma tame_writePair rec name val :
  rec_tame (depth (v_val val)) rec -> (q = true -> plain_value val = true) ->
  tame ready (writePair rec name val) ready.
Proof.
  intros R P. unfold writePair. destruct (32767 <=? _); [now apply tame_err|].
  destruct val as [ro v]. cbn [v_val v_ro] in *.
  assert (Open : forall c : go nvlistWriter flow, tame wopen c ready ->
    tame ready (startNvPair ;;; gignore (writeString name) ;;; skipToAlign ;;; c) ready).
  { intros c C. eapply tame_bind; [apply tame_start|]. intros _.
    eapply tame_bind; [apply tame_ignore_writeString|]. intros _.
    eapply tame_bind; [apply tame_skipToAlign|]. intros _. exact C. }
  assert (Ro : q = true -> ro = false).
  { intros e. specialize (P e). unfold plain_value in P. cbn in P. now bool_to_prop. }
  assert (Scalar : forall ty, nvtype_code ty <> 0 -> no_ptr v = true ->
    tame wopen (x <- glift (Value_Interface (MkValue ro v)) ;; writeInt x ;;;
      endNvPair (NvPair 0 (wrap_signed 2 (blen name + 1)) 0 1 (nvtype_code ty)) ;;; gret Continue) ready).
  { intros ty Ht Hn w I. pose proof (tame_Interface (MkValue ro v) Ro w I) as T.
    unfold gbind at 1, glift at 1. unfold glift, Value_Interface in *. cbn [v_ro v_val] in *.
    destruct ro; [exact T|]. clear T. revert w I. refine (_ : tame wopen _ ready).
    eapply tame_bind; [now apply tame_writeInt|]. intros _. now apply tame_finish. }
  destruct v as [nm []|nm k z|nm [] bits|nm s|nm t vs|nm t vs|nm kt t kvs|nm fs|nm t p|nm o|nm i];
    try (apply tame_ret); apply Open; try apply tame_err, wopen_ready.
  - now apply tame_finish.
  - destruct (fixed_int k) eqn:F; [|apply tame_err, wopen_ready]. apply Scalar; [now destruct k|done].
  - now apply Scalar.
  - eapply tame_bind; [apply tame_ignore_writeString|]. intros _. now apply tame_finish.
  - apply tame_writeArray with (depth (VArray nm t vs)); [done|cbn [depth]; lia|].
    intros e. specialize (P e). unfold plain_value in P. cbn in P. bool_to_prop. split; [auto|conj_true].
  - apply tame_writeArray with (depth (VSlice nm t vs)); [done|cbn [depth]; lia|].
    intros e. specialize (P e). unfold plain_value in P. cbn in P. bool_to_prop. split; [auto|conj_true].
  - now apply tame_list with (depth (VMap nm kt t kvs)).
  - now apply tame_list with (depth (VStruct nm fs)).
Qed.

Lemma tame_writeLoop rec ps :
  (forall name x, (name, x) ∈ ps ->
     rec_tame (depth (v_val x)) rec /\ (q = true -> plain_value x = true)) ->
  tame ready (writeLoop rec ps) ready.
Proof.
  induction ps as [|[name v] ps IH]; intros H; cbn [writeLoop].
  - eapply tame_append; [eauto with gozfs|]. intros. apply skipN_spec.
  - destruct (H name v ltac:(set_solver)) as [R P].
    eapply tame_bind; [now apply tame_writePair|].
    intros []; [apply IH; set_solver|apply tame_ret].
Qed.

Lemma collectPairs_outcome v :
  match collectPairs v with Ok _ | Err _ => True | _ => False end.
Proof.
  unfold collectPairs. destruct (v_val v); try done.
  generalize (match kvs with Some kvs => kvs | None => [] end). clear kvs. intros l.
  induction l as [|[k x] l IH]; cbn; [done|]. destruct (negb _); [done|].
  now destruct (collectMap _ _ l).
Qed.

(** Enough fuel: the nesting depth. *)
Lemma writeNvPairs_tame fuel v :
  (depth (v_val v) < fuel)%nat -> (q = true -> plain_value v = true) ->
  tame ready (writeNvPairs fuel (Some v)) ready.
Proof.
  revert v. induction fuel as [|fuel IH]; intros v D P; [lia|]. cbn [writeNvPairs].
  change (Some v ≫= unpackVal) with (unpackVal v).
  destruct (unpackVal v) as [v'|] eqn:U; [|apply tame_ret].
  pose proof (unpackVal_depth _ _ U). pose proof (collectPairs_outcome v') as O.
  destruct (collectPairs v') as [ps| | |] eqn:C; try done.
  intros w R. unfold gbind, glift. apply tame_writeLoop; [|exact R].
  intros name x I. pose proof (collectPairs_depth _ _ _ _ C I). split.
  - intros y Hy Py. apply IH; [lia|done].
  - intros e. eapply collectPairs_plain; [exact C|exact I|]. eapply unpackVal_plain; [exact U|auto].
Qed.
End tame.

(** The outcomes of [Marshal]; [None] is the nil interface. *)
Definition plain_arg (val : option gval) : bool := match val with Some v => plain v | None => true end.

Lemma Marshal_total val :
  match Marshal val with
  | Ok bs => 12 <= blen bs
  | Err _ => True
  | Panic p => enc_panic p = true /\ plain_arg val = false
  | OutOfFuel => False
  end.
Proof.
  unfold Marshal. rewrite (gbind_ok _ _ _ _ _ writeNvHeader_spec).
  set (w0 := NvlistWriter (stream_header LittleEndian) _ _ _ _ _).
  destruct val as [v|]; [|vm_compute; discriminate].
  pose proof (writeNvPairs_tame (plain v) (S (depth v)) (MkValue false v) ltac:(cbn; lia) ltac:(done) w0
    ltac:(repeat split; reflexivity)) as H.
  cbn [fmap option_fmap option_map].
  destruct (writeNvPairs (S (depth v)) (Some (MkValue false v)) w0) as [[u| | |] w]; try apply H.
  now destruct H as [H _].
Qed.
