(* ===== verification/NvRoundtrip.v ===== *)
(** * Encoder and decoder together

    The dynamic Go values that survive [Marshal] followed by [Unmarshal]
    unchanged: those built from [map[string]interface{}] out of [true],
    fixed-width integers, strings, slices of these and nested maps, with
    distinct zero-free names. *)

From Stdlib Require Import ZArith Lia Strings.Byte Strings.String.
From stdpp Require Import base list gmap.
From S2P Require Import Prelude GoValue NvConsts NvEncode NvWire NvEncodeSpec.
From S2P Require Import NvEncodeTotal.

(** Values the encoder produces and the decoder keeps. *)
Fixpoint canonical (v : nvval) : bool :=
  let pairs := fix pairs (l : nvs) : bool :=
    match l with
    | [] => true
    | (name, x) :: r =>
        nul_free name && (blen name + 1 <? 32767) && negb (bool_decide (name ∈ map fst r))
        && canonical x && pairs r
    end in
  match v with
  | NBoolean => true
  | NByte z => in_range KUint8 z
  | NInt k z => fixed_int k && negb (bool_decide (k = KUint8)) && in_range k z
  | NString s => nul_free s
  | NByteArray bs => blen bs <? 2147483647
  | NIntArray k zs =>
      fixed_int k && negb (bool_decide (k = KUint8)) && forallb (in_range k) zs
      && (blen zs <? 2147483647)
  | NStringArray ss => forallb nul_free ss && (blen ss <? 2147483647)
  | NBooleanArray bs => blen bs <? 2147483647
  | NNvlist l => pairs l
  | NNvlistArray ls => forallb pairs ls && (blen ls <? 2147483647)
  | NBooleanValue _ | NHrtime _ | NDouble _ => false
  end.

Definition canonical_list (l : nvs) : bool := canonical (NNvlist l).

Lemma canonical_cons name x r :
  canonical_list ((name, x) :: r) =
  nul_free name && (blen name + 1 <? 32767) && negb (bool_decide (name ∈ map fst r))
  && canonical x && canonical_list r.
Proof. reflexivity. Qed.

(** The Go value of a canonical abstract value. *)
Definition go_value (v : nvval) : gval :=
  match nv_value v with Some g => g | None => VBool None false end.

Definition entry (p : gostring * nvval) : gostring * gval :=
  (fst p, VIface None (Some (go_value (snd p)))).

Lemma nv_value_canonical v : canonical v = true -> nv_value v = Some (go_value v).
Proof. unfold go_value. destruct v; cbn; try done. Qed.

Lemma nvs_into_canonical m l :
  canonical_list l = true -> (forall n, n ∈ map fst l -> n ∉ m.*1) ->
  nvs_into m l = m ++ map entry l.
Proof.
  revert m. induction l as [|[name x] l IH]; intros m C D; cbn; [now rewrite app_nil_r|].
  rewrite canonical_cons in C. bool_to_prop.
  unfold store at 2. cbn [fst snd]. rewrite nv_value_canonical by done.
  rewrite map_set_fresh by (apply D; cbn; set_solver).
  fold (nvs_into (m ++ [(name, VIface None (Some (go_value x)))]) l).
  rewrite IH; [now rewrite <- app_assoc|done|].
  intros n I. rewrite fmap_app. cbn.
  assert (n <> name).
  { intros ->. match goal with H : bool_decide _ = false |- _ => apply bool_decide_eq_false in H; done end. }
  apply not_elem_of_app. split; [apply D; cbn; apply elem_of_cons; auto|].
  now rewrite list_elem_of_singleton.
Qed.

Lemma nvs_value_canonical l : canonical_list l = true -> nvs_value l = vAnyMap (map entry l).
Proof. intros C. unfold nvs_value. rewrite nvs_into_canonical; [done|done|]. set_solver. Qed.

Lemma collect_entries l :
  collectPairs (MkValue false (vAnyMap (map entry l)))
  = Ok (map (fun p => (fst p, MkValue false (go_value (snd p)))) l).
Proof.
  unfold collectPairs. cbn [v_val vAnyMap v_ro].
  induction l as [|[name x] l IH]; cbn; [done|]. now rewrite IH.
Qed.

(** ** Elements *)

Lemma mapM_map {A B} (f : B -> option A) (g : A -> B) l :
  (forall x, x ∈ l -> f (g x) = Some x) -> mapM f (map g l) = Some l.
Proof.
  intros H. apply mapM_Some. induction l as [|x l IH]; cbn; constructor.
  - apply H. set_solver.
  - apply IH. intros. apply H. set_solver.
Qed.

Lemma int_elem_VInt k z : in_range k z = true -> int_elem k (VInt None k z) = Some z.
Proof. intros H. cbn. now rewrite bool_decide_eq_true_2, H. Qed.

Lemma string_elem_VString s : nul_free s = true -> string_elem (VString None s) = Some s.
Proof. intros H. unfold string_elem. cbn. now rewrite H. Qed.

Lemma forallb_elem {A} (f : A -> bool) l x : forallb f l = true -> x ∈ l -> f x = true.
Proof. intros H I. rewrite forallb_forall in H. apply H. now apply list_elem_of_In. Qed.

Lemma byte_in_range b : in_range KUint8 (byte_to_Z b) = true.
Proof.
  pose proof (byte_to_Z_range b). unfold in_range. cbn [isigned isize].
  change (2 ^ (8 * Z.of_nat 1)) with 256. bool_solver.
Qed.

(** The recursive call inverts [nvs_value] on lists no deeper than [d]. *)
Definition rec_inverts (d : nat) (rec : Value -> option nvs) : Prop :=
  forall l, canonical_list l = true -> (depth (nvs_value l) <= d)%nat ->
    rec (MkValue false (nvs_value l)) = Some l.

Lemma abs_value_canonical rec v :
  canonical v = true -> rec_inverts (depth (go_value v)) rec ->
  abs_value rec (MkValue false (go_value v)) = Some (Some v).
Proof.
  intros C HR. unfold abs_value. cbn [v_ro v_val].
  destruct v as [|z|k z|s|b|bs|k zs|ss|bs|l|ls|z|bits]; try discriminate;
    cbn [canonical] in C; bool_to_prop; unfold go_value; cbn [nv_value].
  - done.
  - cbn [fixed_int andb]. now rewrite C.
  - match goal with H : fixed_int k = true |- _ => rewrite H end.
    match goal with H : in_range k z = true |- _ => rewrite H end.
    match goal with H : bool_decide _ = false |- _ => rewrite H end. done.
  - now rewrite C.
  - unfold abs_array. rewrite blen_map. decide_false (2147483647 <=? blen bs).
    cbn [unpackType kind_of_type].
    assert (M : mapM (int_elem KUint8) (map (fun b => VInt None KUint8 (byte_to_Z b)) bs)
                = Some (map byte_to_Z bs)).
    { rewrite <- (map_map byte_to_Z (VInt None KUint8)). apply mapM_map.
      intros z (b & -> & _)%list_elem_of_fmap. apply int_elem_VInt, byte_in_range. }
    rewrite M. cbn. do 3 f_equal. rewrite map_map. rewrite <- (map_id bs) at 2.
    apply map_ext, byte_of_to_Z.
  - unfold abs_array. rewrite blen_map. decide_false (2147483647 <=? blen zs).
    cbn [unpackType kind_of_type].
    rewrite (mapM_map (int_elem k)) by (intros; apply int_elem_VInt; eauto using forallb_elem).
    match goal with H : bool_decide _ = false |- _ => apply bool_decide_eq_false in H end.
    now destruct k.
  - unfold abs_array. rewrite blen_map. decide_false (2147483647 <=? blen ss).
    cbn [unpackType kind_of_type tString].
    rewrite (mapM_map string_elem) by (intros; apply string_elem_VString; eauto using forallb_elem).
    done.
  - unfold abs_array. rewrite blen_map. decide_false (2147483647 <=? blen bs).
    cbn [unpackType kind_of_type]. now rewrite (mapM_map bool_elem).
  - change (vAnyMap (fold_left _ l [])) with (nvs_value l). cbn [nvs_value vAnyMap].
    fold (vAnyMap (nvs_into [] l)). fold (nvs_value l). now rewrite HR.
  - change (map (fun l => vAnyMap _) ls) with (map nvs_value ls).
    unfold abs_array. rewrite blen_map. decide_false (2147483647 <=? blen ls).
    cbn [unpackType kind_of_type tAnyMap].
    rewrite (mapM_map (fun x => rec (MkValue false x)) nvs_value); [done|].
    intros l I. apply HR.
    + eapply (forallb_elem canonical_list); eauto.
    + unfold go_value. cbn [nv_value].
      change (map (fun l => vAnyMap _) ls) with (map nvs_value ls). cbn [depth].
      pose proof (list_max_in depth (nvs_value l) (map nvs_value ls)
        ltac:(apply list_elem_of_fmap; eauto)). lia.
Qed.

Lemma abs_pairs_canonical fuel l :
  canonical_list l = true -> (depth (nvs_value l) < fuel)%nat ->
  abs_pairs fuel (MkValue false (nvs_value l)) = Some l.
Proof.
  revert l. induction fuel as [|fuel IH]; intros l C D; [lia|].
  rewrite nvs_value_canonical in * by done. cbn [abs_pairs].
  change (unpackVal _) with (Some (MkValue false (vAnyMap (map entry l)))).
  cbv iota. rewrite collect_entries.
  assert (HD : forall p, p ∈ l -> (depth (go_value (snd p)) < fuel)%nat).
  { intros p I. unfold vAnyMap in D. cbn [depth] in D.
    pose proof (list_max_in (fun '(_, x) => depth x) (entry p) (map entry l)
      ltac:(apply list_elem_of_fmap; eauto)) as H. cbn in H. lia. }
  clear D. induction l as [|[name x] l IHl]; [done|]. cbn [map abs_list fst snd].
  rewrite canonical_cons in C. bool_to_prop.
  decide_true (blen name + 1 <? 32767).
  match goal with H : nul_free name = true |- _ => rewrite H end. cbn [andb].
  rewrite abs_value_canonical; [|done|].
  - rewrite IHl; [done|done|]. intros p I. apply HD. set_solver.
  - intros l' C' D'. apply IH; [done|]. specialize (HD (name, x) ltac:(set_solver)). cbn in HD. lia.
Qed.

Lemma abstract_canonical l : canonical_list l = true -> abstract (nvs_value l) = Some l.
Proof. intros C. apply abs_pairs_canonical; [done|lia]. Qed.
