(* ===== verification/NvTarget.v ===== *)
(** * Decoding into structs and other fixed targets

    What [readPairs] does to a struct target: which fields it sets, what it
    leaves alone, and how an unknown embedded list is treated. *)

From Stdlib Require Import ZArith Lia Strings.Byte Strings.String.
From stdpp Require Import base list gmap.
From S2P Require Import Prelude GoValue NvConsts NvDecode NvWire NvDecodeSpec NvSafety.

(** ** Values passed by copy *)

(** No field of an unaddressable struct is settable. *)
Lemma settable_unaddressable idx name fs : settableField false idx name fs = None.
Proof. unfold settableField. now repeat case_match. Qed.

(** [c] leaves the target as it is. *)
Definition keeps (v : gval) (c : go rstate unit) : Prop :=
  forall r, fst (snd (c (v, r))) = v.

Lemma keeps_store rp idx name pv nm fs :
  keeps (VStruct nm fs) (storePair rp false idx name pv).
Proof.
  intros r. destruct pv; cbn [storePair].
  - unfold on_value, setPrimitive. cbn [fst]. now rewrite settable_unaddressable.
  - unfold readNvlist, gbind, gget. cbn [fst]. now rewrite settable_unaddressable.
  - done.
  - done.
Qed.

Lemma keeps_loop fuel idx nm fs : keeps (VStruct nm fs) (readLoop fuel false idx).
Proof.
  induction fuel as [|fuel IH]; intros r; [done|]. cbn [readLoop].
  unfold gbind at 1, on_reader. cbn [fst snd].
  destruct (nextPair r) as [[[p|]| | |] r']; try done.
  unfold gbind at 1, gget. cbn [snd]. unfold gbind at 1, glift.
  destruct (readPair r' p) as [[name pv]| | |]; try done. cbn [fst snd].
  unfold gbind. pose proof (keeps_store (enter (readLoop fuel)) idx name pv nm fs r') as K.
  destruct (storePair _ _ _ _ _ _) as [[u| | |] [v'' r'']]; cbn in K; subst; done.
Qed.

Lemma Unmarshal_by_value data nm fs : snd (Unmarshal data (VStruct nm fs)) = VStruct nm fs.
Proof.
  unfold Unmarshal, gbind, on_reader. cbn [fst snd].
  destruct (nvlistReader.readNvHeader _) as [[u| | |] r]; try done.
  unfold readPairs, enter. cbn [fst resolveTarget]. unfold on_target. cbn [fst snd].
  pose proof (keeps_loop (S (length data)) (structFieldByName (VStruct nm fs)) nm fs r) as K.
  destruct (readLoop _ _ _ _) as [out [v' r']]. exact K.
Qed.

(** ** A pointer to a pointer *)

Lemma Unmarshal_ptr_ptr data nm t nm' t' o :
  match fst (Unmarshal data (VPtr nm t (Some (VPtr nm' t' o)))) with Err _ => True | _ => False end.
Proof.
  unfold Unmarshal, gbind, on_reader. cbn [fst snd].
  pose proof (readNvHeader_safe data) as H.
  now destruct (nvlistReader.readNvHeader _) as [[u| | |] r].
Qed.

(** ** Flat lists into structs *)

(** The effect of a list without embedded lists on a struct or map. *)
Fixpoint store_flat (addr : bool) (idx : gmap gostring nat) (l : nvs) (v : gval) : outcome gval :=
  match l with
  | [] => Ok v
  | (name, x) :: r =>
      match nv_value x with
      | Some g => obind (setPrimitive addr idx name g v) (store_flat addr idx r)
      | None => store_flat addr idx r v
      end
  end.

Definition flat (v : nvval) : bool :=
  match v with NNvlist _ | NNvlistArray _ => false | _ => true end.

Lemma flat_trailer o x : flat x = true -> trailer o x = [].
Proof. now destruct x. Qed.

Lemma flat_pv x : flat x = true ->
  pv_of x = match nv_value x with Some g => PVPrimitive g | None => PVNothing end.
Proof. now destruct x. Qed.

Section flat.
Context (data : list byte) (o : ByteOrder) (fl ver : Z).
Abbreviation R := (rd data o fl ver).

Lemma readLoop_flat fuel addr idx v cur l :
  has_at data cur (wire o l) -> nvs_ok l = true -> forallb (flat ∘ snd) l = true ->
  (length l < fuel)%nat ->
  match store_flat addr idx l v with
  | Ok v' => readLoop fuel addr idx (v, R cur) = (Ok tt, (v', R (cur + blen (wire o l))))
  | Err e => fst (readLoop fuel addr idx (v, R cur)) = Err e
  | Panic p => fst (readLoop fuel addr idx (v, R cur)) = Panic p
  | OutOfFuel => True
  end.
Proof.
  revert v cur fuel. induction l as [|[name x] l IH]; intros v cur fuel H K Fl F;
    destruct fuel as [|fuel]; cbn [length] in F; try lia.
  - cbn [store_flat readLoop].
    erewrite gbind_ok by (unfold on_reader; cbn [snd fst]; rewrite nextPair_end by done; done).
    reflexivity.
  - cbn [forallb compose snd store_flat] in *. apply andb_true_iff in Fl as [Fx Fl].
    rewrite nvs_ok_cons in K. bool_to_prop. rewrite wire_cons in *.
    rewrite (flat_trailer o x Fx) in *. cbn [app] in *.
    rewrite (readLoop_step data o fl ver fuel addr idx v cur name x (wire o l)); [|done|apply blen_wire_ge|done|done].
    apply has_at_split in H as [_ H]. rewrite blen_app, Z.add_assoc.
    rewrite blen_pair_frame, <- (frame_size_data name _ _ (blen_payload o x)) in *.
    rewrite (flat_pv x Fx).
    destruct (nv_value x) as [g|].
    + cbn [storePair].
      destruct (setPrimitive addr idx name g v) as [v'|e|p|] eqn:S; cbn [obind];
        [|unfold gbind, on_value; cbn [fst]; now rewrite S..|done].
      unfold gbind, on_value. cbn [fst snd]. rewrite S. apply IH; [done|done|done|lia].
    + cbn [storePair]. apply IH; [done|done|done|lia].
Qed.
End flat.

Lemma length_le_wire o l : Z.of_nat (length l) <= blen (wire o l).
Proof.
  induction l as [|[name x] l IH]; [cbn; blen_lia|]. rewrite wire_cons, !blen_app, blen_pair_frame.
  pose proof (frame_size_bounds name (payload LittleEndian x)). pose proof (blen_nonneg (trailer o x)).
  cbn [length]. lia.
Qed.

(** Decoding a flat list into a struct through a pointer. *)
Lemma Unmarshal_struct o l rest nm t sn fs :
  nvs_ok l = true -> forallb (flat ∘ snd) l = true ->
  let v := VStruct sn fs in
  match store_flat true (structFieldByName v) l v with
  | Ok v' => Unmarshal (packed o l ++ rest) (VPtr nm t (Some v)) = (Ok tt, VPtr nm t (Some v'))
  | Panic p => fst (Unmarshal (packed o l ++ rest) (VPtr nm t (Some v))) = Panic p
  | Err e => fst (Unmarshal (packed o l ++ rest) (VPtr nm t (Some v))) = Err e
  | OutOfFuel => True
  end.
Proof.
  intros K Fl v. unfold Unmarshal. set (data := packed o l ++ rest).
  assert (H : has_at data 0 (packed o l)) by apply has_at_app_r, has_at_self.
  unfold packed in H. apply has_at_split in H as [Hh Hw]. rewrite blen_stream_header in Hw.
  rewrite (gbind_ok _ _ (VPtr nm t (Some v), _) tt (VPtr nm t (Some v), rd data o uniqueNameFlag 0 12)).
  2: { unfold on_reader. cbn [snd fst]. now rewrite (readNvHeader_spec o). }
  unfold readPairs, enter. cbn [fst resolveTarget v]. unfold on_target. cbn [snd fst].
  pose proof (has_at_bound _ _ _ Hw) as [_ B]. pose proof (length_le_wire o l).
  pose proof (readLoop_flat data o uniqueNameFlag 0 (S (length data)) true (structFieldByName v) v
    12 l Hw K Fl ltac:(unfold blen in *; lia)) as L. fold v.
  destruct (store_flat _ _ _ _) as [v'|e|p|]; [rewrite L; done| | |done];
    destruct (readLoop _ _ _ _) as [out [v' r']]; exact L.
Qed.
