(* ===== verification/NvStruct.v ===== *)
(** * Decoding into structs: a specification of its own

    What a list does to a struct, stated without the index map, the reflection
    calls and the loop of decode.go: a pair goes to the last field of its name
    if that field is exported, its type has to be the field's, and all other
    pairs are skipped. Maps whose values are structs are built on it. *)

From Stdlib Require Import ZArith Lia Strings.Byte Strings.String.
From stdpp Require Import base list gmap.
From S2P Require Import Prelude GoValue NvConsts NvDecode NvWire NvDecodeSpec NvTarget.

(** ** Tags *)

Fixpoint before_comma (s : gostring) : gostring :=
  match s with
  | [] => []
  | c :: s' => if bool_decide (c = ","%byte) then [] else c :: before_comma s'
  end.

(** What follows the first comma. *)
Fixpoint after_comma (s : gostring) : option gostring :=
  match s with
  | [] => None
  | c :: s' => if bool_decide (c = ","%byte) then Some s' else after_comma s'
  end.

(** The name of a field on the wire: the tag up to its first comma, or the name
    in Go when that is empty. *)
Definition tag_name (f : sfield) : gostring :=
  match before_comma (f_Tag f) with [] => f_Name f | t => t end.

Lemma split_comma_eq s :
  split_comma s = before_comma s :: match after_comma s with Some r => split_comma r | None => [] end.
Proof.
  induction s as [|c s IH]; cbn [split_comma before_comma after_comma]; [done|].
  destruct (bool_decide _); [done|]. now rewrite IH.
Qed.

Lemma fieldName_tag f : fieldName f = tag_name f.
Proof.
  unfold fieldName, tag_name. rewrite split_comma_eq.
  destruct (before_comma (f_Tag f)); case_bool_decide; done.
Qed.

(** ** Storing one value *)

(** Which decoded values a variable takes: an interface everything, otherwise
    only its own predeclared type or, for slices, its element type. *)
Definition same_elem (t t' : gtype) : bool :=
  match t, t' with
  | TBool None, TBool None | TString None, TString None => true
  | TInt None k, TInt None k' => bool_decide (k = k')
  | _, _ => false
  end.

Definition accepts (cur g : gval) : bool :=
  match cur, g with
  | VIface _ _, _ => true
  | VBool None _, VBool None _ | VString None _, VString None _ => true
  | VInt None k _, VInt None k' _ => bool_decide (k = k')
  | VSlice _ t _, VSlice _ t' _ => same_elem t t'
  | _, _ => false
  end.

(** The variable afterwards; it keeps its declared type. *)
Definition put (cur g : gval) : gval :=
  match cur, g with
  | VIface nm _, _ => VIface nm (Some g)
  | VSlice nm _ _, VSlice _ t vs => VSlice nm t vs
  | _, _ => g
  end.

(** The last field of that name gets the value; [None] if there is none. *)
Fixpoint set_named (name : gostring) (g : gval) (fs : list (sfield * gval)) :
    option (outcome (list (sfield * gval))) :=
  match fs with
  | [] => None
  | (f, cur) :: r =>
      match set_named name g r with
      | Some out => Some (obind out (fun r' => Ok ((f, cur) :: r')))
      | None =>
          if bool_decide (tag_name f = name) then
            Some (if exported (f_Name f)
                  then if accepts cur g then Ok ((f, put cur g) :: r) else Panic PAssign
                  else Ok fs)
          else None
      end
  end.

(** The fields after the pairs of [l] were stored one after the other. *)
Fixpoint store_struct (l : nvs) (fs : list (sfield * gval)) : outcome (list (sfield * gval)) :=
  match l with
  | [] => Ok fs
  | (name, x) :: r =>
      match nv_value x ≫= fun g => set_named name g fs with
      | Some out => obind out (store_struct r)
      | None => store_struct r fs
      end
  end.

(** ** Agreement with the decoder *)

(** Values of the types the decoder makes of flat data. *)
Definition primitive (g : gval) : bool :=
  match g with
  | VBool None _ | VInt None _ _ | VString None _ => true
  | VSlice None (TBool None | TInt None _ | TString None) _ => true
  | _ => false
  end.

Lemma flat_primitive x g : flat x = true -> nv_value x = Some g -> primitive g = true.
Proof. destruct x; intros F H; try discriminate; cbn in H; injection H as <-; done. Qed.

Lemma type_eqb_elem t t' :
  match t' with TBool None | TInt None _ | TString None => True | _ => False end ->
  type_eqb t t' = same_elem t t'.
Proof.
  destruct t' as [[]|[] k'| |[]| | | | | | | |]; try done; intros _;
    destruct t as [[]|[] k|[]|[]|[]|[]|[]|[]|[]|[]|[]|]; done.
Qed.

Lemma assign_primitive cur g :
  primitive g = true ->
  assign (typeOf cur) g = if accepts cur g then Ok (put cur g) else Panic PAssign.
Proof.
  intros P.
  destruct g as [[]| [] k z| |[]|nm t vs|[] t vs| | | | |]; try discriminate.
  1-3: destruct cur as [[]|[] k'|[]|[]|[]|[]|[]|[]|[]|[]|[]]; try done;
    cbn; unfold assignable; cbn; case_bool_decide; done.
  assert (T : match t with TBool None | TInt None _ | TString None => True | _ => False end)
    by (destruct t as [[]|[]| |[]| | | | | | | |]; done).
  destruct cur as [[]|[] k'|[]|[]|[]|nm' t' vs'|[]|[]|[]|[]|[]]; try done.
  cbn. unfold assignable. destruct nm'; cbn; rewrite type_eqb_elem by done;
    destruct (same_elem t' t); done.
Qed.

(** The last field of a name, as a position. *)
Fixpoint last_field (name : gostring) (fs : list sfield) : option nat :=
  match fs with
  | [] => None
  | f :: r =>
      match last_field name r with
      | Some i => Some (S i)
      | None => if bool_decide (tag_name f = name) then Some 0%nat else None
      end
  end.

Lemma structFieldByName_lookup nm fs name :
  structFieldByName (VStruct nm fs) !! name = last_field name (map fst fs).
Proof.
  cbn [structFieldByName].
  assert (H : forall h : nat -> nat,
    (list_to_map (rev (imap (fun i (e : sfield * gval) => (fieldName (fst e), h i)) fs)) : gmap gostring nat)
      !! name = h <$> last_field name (map fst fs)).
  { induction fs as [|[f x] fs IH]; intros h; [done|]. cbn [map fst last_field imap rev].
    rewrite list_to_map_app, lookup_union. specialize (IH (h ∘ S)).
    match goal with |- context [?m !! name ∪ _] => change (m !! name) with
      ((list_to_map (rev (imap (fun i (e : sfield * gval) => (fieldName (fst e), (h ∘ S) i)) fs))
        : gmap gostring nat) !! name) end.
    rewrite IH, fieldName_tag. cbn [list_to_map foldr].
    destruct (last_field name (map fst fs)) as [j|]; cbn [fmap option_fmap option_map].
    { match goal with |- _ ∪ ?y = _ => now destruct y end. }
    rewrite (left_id_L None _).
    case_bool_decide as E; [subst; now rewrite lookup_insert_eq|].
    now rewrite lookup_insert_ne, lookup_empty. }
  specialize (H id). cbn [id] in H. rewrite H. now destruct (last_field _ _).
Qed.

Lemma set_named_spec name g fs :
  match last_field name (map fst fs) with
  | None => set_named name g fs = None
  | Some i => exists f cur, fs !! i = Some (f, cur) /\
      set_named name g fs =
        Some (if exported (f_Name f)
              then if accepts cur g then Ok (<[i := (f, put cur g)]> fs) else Panic PAssign
              else Ok fs)
  end.
Proof.
  induction fs as [|[f x] fs IH]; [done|]. cbn [map fst last_field set_named].
  destruct (last_field name (map fst fs)) as [i|].
  - destruct IH as (f' & cur & L & ->). exists f', cur. split; [done|]. f_equal.
    destruct (exported _); [|done]. now destruct (accepts cur g).
  - rewrite IH. case_bool_decide; [|done]. now exists f, x.
Qed.

Lemma set_named_fields name g fs fs' :
  set_named name g fs = Some (Ok fs') -> map fst fs' = map fst fs.
Proof.
  intros H. pose proof (set_named_spec name g fs) as S.
  destruct (last_field name (map fst fs)) as [i|]; [|congruence].
  destruct S as (f & cur & L & E). rewrite E in H.
  destruct (exported _); [|congruence]. destruct (accepts cur g); [|discriminate].
  injection H as <-. change (map fst) with (fmap (M:=list) (@fst sfield gval)).
  rewrite list_fmap_insert. cbn [fst]. apply list_insert_id. rewrite list_lookup_fmap, L. done.
Qed.

Lemma setPrimitive_struct idx name g nm fs :
  (forall n, idx !! n = last_field n (map fst fs)) -> primitive g = true ->
  setPrimitive true idx name g (VStruct nm fs) =
  match set_named name g fs with
  | Some out => obind out (fun fs' => Ok (VStruct nm fs'))
  | None => Ok (VStruct nm fs)
  end.
Proof.
  intros I P. unfold setPrimitive, settableField. rewrite I.
  pose proof (set_named_spec name g fs) as S.
  destruct (last_field name (map fst fs)) as [i|]; [|now rewrite S].
  destruct S as (f & cur & L & ->). rewrite L. cbn [andb].
  destruct (exported (f_Name f)); [|done]. rewrite assign_primitive by done.
  destruct (accepts cur g); [|done]. cbn [obind setField]. now rewrite L.
Qed.

Lemma store_flat_struct l nm fs idx :
  (forall n, idx !! n = last_field n (map fst fs)) -> forallb (flat ∘ snd) l = true ->
  store_flat true idx l (VStruct nm fs) = obind (store_struct l fs) (fun fs' => Ok (VStruct nm fs')).
Proof.
  revert fs. induction l as [|[name x] l IH]; intros fs I F; [done|].
  cbn [forallb compose snd] in F. apply andb_true_iff in F as [Fx F].
  cbn [store_flat store_struct]. destruct (nv_value x) as [g|] eqn:G; [|now apply IH].
  rewrite setPrimitive_struct; [|done|now apply flat_primitive with x].
  cbn [mbind option_bind]. destruct (set_named name g fs) as [[fs'|e|p|]|] eqn:S; try done; [|now apply IH].
  cbn [obind]. apply IH; [|done]. now rewrite (set_named_fields _ _ _ _ S).
Qed.

(** Storing either succeeds or ends in the panic of [Value.Set]. *)
Lemma store_struct_outcome l fs :
  match store_struct l fs with Ok _ => True | Panic p => p = PAssign | _ => False end.
Proof.
  revert fs. induction l as [|[name x] l IH]; intros fs; [done|]. cbn [store_struct].
  destruct (nv_value x) as [g|]; cbn [mbind option_bind]; [|apply IH].
  pose proof (set_named_spec name g fs) as S.
  destruct (last_field name (map fst fs)) as [i|]; [|rewrite S; apply IH].
  destruct S as (f & cur & _ & ->). destruct (exported _); [|apply IH].
  destruct (accepts cur g); [apply IH|done].
Qed.

Lemma Unmarshal_struct_spec o l rest nm t sn fs :
  nvs_ok l = true -> forallb (flat ∘ snd) l = true ->
  match store_struct l fs with
  | Ok fs' => Unmarshal (packed o l ++ rest) (VPtr nm t (Some (VStruct sn fs)))
              = (Ok tt, VPtr nm t (Some (VStruct sn fs')))
  | Panic p => fst (Unmarshal (packed o l ++ rest) (VPtr nm t (Some (VStruct sn fs)))) = Panic p
  | _ => False
  end.
Proof.
  intros K F. pose proof (Unmarshal_struct o l rest nm t sn fs K F) as U. cbv zeta in U.
  rewrite store_flat_struct in U; [|intros; apply structFieldByName_lookup|done].
  pose proof (store_struct_outcome l fs). now destruct (store_struct l fs).
Qed.

(** ** Flat pairs before other pairs *)

Section prefix.
Context (data : list byte) (o : ByteOrder) (fl ver : Z).
Abbreviation R := (rd data o fl ver).

(** The loop gets past the flat pairs [pre] and goes on with the rest. *)
Lemma readLoop_prefix fuel idx nm fs fs' cur pre rest :
  has_at data cur (wire o (pre ++ rest)) -> nvs_ok (pre ++ rest) = true ->
  forallb (flat ∘ snd) pre = true -> (forall n, idx !! n = last_field n (map fst fs)) ->
  store_struct pre fs = Ok fs' ->
  exists cur', has_at data cur' (wire o rest) /\ map fst fs' = map fst fs /\
    readLoop (length pre + fuel) true idx (VStruct nm fs, R cur) =
    readLoop fuel true idx (VStruct nm fs', R cur').
Proof.
  revert fs cur. induction pre as [|[name x] pre IH]; intros fs cur H K F I S.
  { cbn in S. simplify_eq. now exists cur. }
  cbn [app forallb compose snd length Nat.add] in *. apply andb_true_iff in F as [Fx F].
  rewrite nvs_ok_cons in K. bool_to_prop. rewrite wire_cons, (flat_trailer o x Fx) in H. cbn [app] in H.
  rewrite (readLoop_step data o fl ver _ true idx (VStruct nm fs) cur name x (wire o (pre ++ rest)));
    [|done|apply blen_wire_ge|done|done].
  apply has_at_split in H as [_ H].
  rewrite blen_pair_frame, <- (frame_size_data name _ _ (blen_payload o x)) in H.
  rewrite (flat_pv x Fx). cbn [store_struct] in S.
  destruct (nv_value x) as [g|] eqn:G; cbn [mbind option_bind storePair] in *; [|now apply IH].
  unfold gbind, on_value. cbn [fst snd].
  rewrite setPrimitive_struct; [|done|now apply flat_primitive with x].
  destruct (set_named name g fs) as [[fs1|e|p|]|] eqn:N; try discriminate S; cbn [obind] in *;
    [|now apply IH].
  pose proof (set_named_fields _ _ _ _ N) as E. rewrite <- E. apply IH; try done. now rewrite E.
Qed.
End prefix.

(** ** Maps of structs *)

(** The struct a list of flat pairs makes of the zero value of [t]. *)
Definition struct_of (t : gtype) (inner : nvs) (v : gval) : Prop :=
  exists sn fs fs', zero t = VStruct (Some sn) fs /\ tname t = Some sn /\
    store_struct inner fs = Ok fs' /\ v = VStruct (Some sn) fs'.

Section struct_map.
Context (data : list byte) (o : ByteOrder) (fl ver : Z).
Abbreviation R := (rd data o fl ver).

(** One embedded list, read into a fresh struct. *)
Lemma on_fresh_struct fuel cur t inner v w :
  struct_of t inner v -> has_at data cur (wire o inner) -> nvs_ok inner = true ->
  forallb (flat ∘ snd) inner = true -> (length inner < fuel)%nat ->
  on_fresh (VPtr None t (Some (zero t))) (enter (readLoop fuel) false) (w, R cur)
  = (Ok (VPtr None t (Some v)), (w, R (cur + blen (wire o inner)))).
Proof.
  intros (sn & fs & fs' & Z & _ & S & ->) H K F L. unfold on_fresh. cbn [fst snd].
  unfold enter. cbn [fst resolveTarget]. rewrite Z. unfold on_target. cbn [fst snd].
  pose proof (readLoop_flat data o fl ver fuel true (structFieldByName (VStruct (Some sn) fs))
    (VStruct (Some sn) fs) cur inner H K F L) as X.
  rewrite store_flat_struct, S in X; [|intros; apply structFieldByName_lookup|done].
  cbn [obind] in X. now rewrite X.
Qed.

Lemma readLoop_struct_map fuel addr idx nm t cur l vs kvs :
  kind_of_type t = Struct ->
  has_at data cur (wire o (map (fun '(k, inner) => (k, NNvlist inner)) l)) ->
  nvs_ok (map (fun '(k, inner) => (k, NNvlist inner)) l) = true ->
  forallb (fun p => forallb (flat ∘ snd) (snd p)) l = true ->
  Forall2 (fun p v => struct_of t (snd p) v) l vs ->
  (Z.to_nat (blen data - cur) < fuel)%nat ->
  exists r, readLoop fuel addr idx (VMap nm tString t (Some kvs), R cur) =
    (Ok tt, (VMap nm tString t (Some (fold_left (fun m '(k, v) => map_set k v m) (zip (map fst l) vs) kvs)), r)).
Proof.
  intros T. assert (exists tn ts, t = TStruct tn ts) as (tn & ts & ->)
    by (destruct t as [| |? []| | | | | | | | |]; try discriminate T; eauto).
  clear T. revert cur vs kvs fuel.
  induction l as [|[k inner] l IH]; intros cur vs kvs fuel H K F S L;
    inversion S as [|? v ? vs' Sv Sr]; subst; (destruct fuel as [|fuel]; [lia|]).
  - cbn [map readLoop].
    erewrite gbind_ok by (unfold on_reader; cbn [snd fst]; rewrite nextPair_end by done; done).
    eexists. reflexivity.
  - cbn [map forallb snd fst zip zip_with fold_left] in *. apply andb_true_iff in F as [Fi F].
    rewrite nvs_ok_cons in K. bool_to_prop. rewrite wire_cons in H.
    pose proof (has_at_bound _ _ _ H) as [C B]. change (trailer o (NNvlist inner)) with (wire o inner) in *.
    rewrite (readLoop_step data o fl ver fuel addr idx _ cur k (NNvlist inner)
      (wire o inner ++ wire o (map (fun '(k, inner) => (k, NNvlist inner)) l)));
      [|done|pose proof (blen_wire_ge o inner);
         pose proof (blen_nonneg (wire o (map (fun '(k, inner) => (k, NNvlist inner)) l))); blen_lia|done|done].
    apply has_at_split in H as [_ H]. rewrite !blen_app in B.
    rewrite blen_pair_frame, <- (frame_size_data k _ _ (blen_payload o (NNvlist inner))) in *.
    set (size := frame_size k (payload o (NNvlist inner))) in *.
    pose proof (frame_size_bounds k (payload o (NNvlist inner))) as [Hs _]. fold size in Hs.
    apply has_at_split in H as [Hi Hl].
    pose proof (length_le_wire o inner). pose proof (blen_wire_ge o inner).
    pose proof (blen_wire_ge o (map (fun '(k, inner) => (k, NNvlist inner)) l)).
    pose proof Sv as (sn & fs & fs' & _ & Tn & _ & Ev).
    assert (Sp : storePair (enter (readLoop fuel)) addr idx k (pv_of (NNvlist inner))
        (VMap nm tString (TStruct tn ts) (Some kvs), R (cur + size)) =
      (Ok tt, (VMap nm tString (TStruct tn ts) (Some (map_set k v kvs)), R (cur + size + blen (wire o inner))))).
    { cbn [pv_of storePair]. unfold readNvlist, gbind at 1, gget. cbn [fst].
      erewrite gbind_ok by (unfold glift; reflexivity).
      erewrite gbind_ok by (eapply on_fresh_struct; [exact Sv|exact Hi|done|done|unfold blen in *; lia]).
      unfold on_value. cbn [fst snd]. unfold setMapIndex.
      change (assign tString (VString None k)) with (@Ok gval (VString None k)).
      assert (A : assign (TStruct tn ts) v = Ok v).
      { subst v. cbn in Tn. subst tn. unfold assign, assignable. cbn.
        now rewrite bool_decide_eq_true_2. }
      cbn [obind]. rewrite A. reflexivity. }
    rewrite (gbind_ok _ _ _ _ _ Sp). apply IH; try done. unfold blen in *. lia.
Qed.
End struct_map.

(** A list of embedded flat lists into a map of structs. *)
Lemma Unmarshal_struct_map o rest nm t l vs :
  kind_of_type t = Struct -> nvs_ok (map (fun '(k, inner) => (k, NNvlist inner)) l) = true ->
  forallb (fun p => forallb (flat ∘ snd) (snd p)) l = true ->
  Forall2 (fun p v => struct_of t (snd p) v) l vs ->
  Unmarshal (packed o (map (fun '(k, inner) => (k, NNvlist inner)) l) ++ rest)
    (VMap nm tString t (Some [])) =
  (Ok tt, VMap nm tString t (Some (fold_left (fun m '(k, v) => map_set k v m) (zip (map fst l) vs) []))).
Proof.
  intros T K F S. unfold Unmarshal. set (data := packed o _ ++ rest).
  assert (H : has_at data 0 (packed o (map (fun '(k, inner) => (k, NNvlist inner)) l)))
    by apply has_at_app_r, has_at_self.
  unfold packed in H. apply has_at_split in H as [Hh Hw]. rewrite blen_stream_header in Hw.
  erewrite gbind_ok by (unfold on_reader; cbn [snd fst]; rewrite (readNvHeader_spec o) by done; done).
  unfold readPairs, enter. cbn [fst resolveTarget]. unfold on_target. cbn [snd fst].
  destruct (readLoop_struct_map data o uniqueNameFlag 0 (Datatypes.S (length data)) false
    (structFieldByName (VMap nm tString t (Some []))) nm t 12 l vs [] T Hw K F S
    ltac:(unfold blen; lia)) as [r E].
  now rewrite E.
Qed.

(** ** Lists into fields that hold a nil map *)

(** A field that takes no flat value survives the storing of flat pairs. *)
Lemma store_struct_keeps l fs fs' i f cur :
  store_struct l fs = Ok fs' -> fs !! i = Some (f, cur) -> (forall g, accepts cur g = false) ->
  fs' !! i = Some (f, cur).
Proof.
  revert fs. induction l as [|[name x] l IH]; intros fs S L A; [cbn in S; congruence|].
  cbn [store_struct] in S. destruct (nv_value x) as [g|]; cbn [mbind option_bind] in S; [|now apply (IH fs)].
  pose proof (set_named_spec name g fs) as N.
  destruct (last_field name (map fst fs)) as [j|]; [|rewrite N in S; now apply (IH fs)].
  destruct N as (f' & cur' & L' & E). rewrite E in S.
  destruct (exported (f_Name f')); [|now apply (IH fs)].
  destruct (accepts cur' g) eqn:Ac; [|discriminate S]. apply (IH (<[j := (f', put cur' g)]> fs)); [done| |done].
  rewrite list_lookup_insert_ne; [done|]. intros ->. rewrite L in L'. injection L' as <- <-. now rewrite A in Ac.
Qed.

(** The map of an embedded list is not made: its first entry panics. *)
Lemma Unmarshal_nil_map o pre name k ik z more after rest nm t sn fs fs' i f mn :
  nvs_ok (pre ++ (name, NNvlist ((k, NInt ik z) :: more)) :: after) = true ->
  forallb (flat ∘ snd) pre = true -> store_struct pre fs = Ok fs' ->
  last_field name (map fst fs) = Some i -> exported (f_Name f) = true ->
  fs !! i = Some (f, VMap mn tString (TInt None ik) None) ->
  fst (Unmarshal (packed o (pre ++ (name, NNvlist ((k, NInt ik z) :: more)) :: after) ++ rest)
         (VPtr nm t (Some (VStruct sn fs)))) = Panic PNilMap.
Proof.
  intros K F S N X L. set (l := (k, NInt ik z) :: more) in *.
  unfold Unmarshal. set (data := packed o _ ++ rest).
  assert (H : has_at data 0 (packed o (pre ++ (name, NNvlist l) :: after))) by apply has_at_app_r, has_at_self.
  unfold packed in H. apply has_at_split in H as [Hh Hw]. rewrite blen_stream_header in Hw.
  change (0 + 12) with 12 in Hw.
  erewrite gbind_ok by (unfold on_reader; cbn [snd fst]; rewrite (readNvHeader_spec o) by done; done).
  unfold readPairs, enter. cbn [fst resolveTarget]. unfold on_target. cbn [snd fst].
  assert (Fuel : exists fuel, Datatypes.S (length data) = (length pre + Datatypes.S (Datatypes.S fuel))%nat).
  { pose proof (has_at_bound _ _ _ Hw) as [_ B]. pose proof (length_le_wire o (pre ++ (name, NNvlist l) :: after)).
    rewrite length_app in *. cbn [length] in *. exists (length data - length pre - 1)%nat. unfold blen in *. lia. }
  destruct Fuel as [fuel ->].
  destruct (readLoop_prefix data o uniqueNameFlag 0 (Datatypes.S (Datatypes.S fuel))
    (structFieldByName (VStruct sn fs)) sn fs fs' _ pre _ Hw K F
    ltac:(intros; apply structFieldByName_lookup) S) as (cur & Hc & _ & ->).
  pose proof (store_struct_keeps _ _ _ _ _ _ S L ltac:(done)) as L'.
  assert (K' : nvs_ok ((name, NNvlist l) :: after) = true).
  { clear - K. induction pre as [|[n x] pre IH]; [exact K|]. cbn [app] in K. rewrite nvs_ok_cons in K.
    bool_to_prop. auto. }
  rewrite nvs_ok_cons in K'. bool_to_prop. rewrite wire_cons in Hc.
  change (trailer o (NNvlist l)) with (wire o l) in Hc.
  rewrite (readLoop_step data o uniqueNameFlag 0 (Datatypes.S fuel) true _ (VStruct sn fs') cur name (NNvlist l)
    (wire o l ++ wire o after)); [|done|pose proof (blen_wire_ge o l); pose proof (blen_nonneg (wire o after));
      blen_lia|done|done].
  apply has_at_split in Hc as [_ Hc]. apply has_at_split in Hc as [Hc _].
  rewrite blen_pair_frame, <- (frame_size_data name _ _ (blen_payload o (NNvlist l))) in Hc.
  match goal with Y : nv_ok (NNvlist l) = true |- _ => change (nvs_ok l = true) in Y; unfold l in Y;
    rewrite nvs_ok_cons in Y; bool_to_prop end.
  unfold l in Hc. rewrite wire_cons in Hc. change (trailer o (NInt ik z)) with (@nil byte) in Hc. cbn [app] in Hc.
  unfold gbind at 1. cbn [pv_of storePair]. unfold readNvlist, gbind at 1, gget. cbn [fst snd].
  unfold settableField. rewrite structFieldByName_lookup, N, L', X. cbn [andb].
  unfold on_target. cbn [snd fst]. unfold enter. cbn [fst resolveTarget]. unfold on_target. cbn [snd fst].
  rewrite (readLoop_step data o uniqueNameFlag 0 fuel true _ _ _ k (NInt ik z) (wire o more) Hc);
    [|apply blen_wire_ge|done|done].
  unfold gbind at 1, on_value. cbn [pv_of storePair nv_value fst snd setPrimitive setMapIndex].
  unfold on_value. cbn [fst setPrimitive setMapIndex]. unfold assign, assignable. cbn.
  now rewrite bool_decide_eq_true_2.
Qed.
