(* ===== verification/NvEdge.v ===== *)
(** * Edges of the codec

    What happens outside the round trip: damaged headers, nil arguments,
    nested lists that fail to encode, which struct fields are encoded, lists
    for which a target struct has no field. *)

From Stdlib Require Import ZArith Lia Strings.Byte Strings.String.
From stdpp Require Import base list gmap.
From S2P Require Import Prelude GoValue NvConsts NvEncode NvDecode NvWire NvEncodeSpec.
From S2P Require Import NvDecodeSpec NvSafety NvEncodeTotal NvRoundtrip NvTarget.

(** ** Damaged stream headers *)

(** The error for the first twelve bytes, [None] if they are a valid header. *)
Definition header_error (data : list byte) : option goerr :=
  match data with
  | [] => Some ErrInvalidData
  | enc :: rest =>
      if negb ((byte_to_Z enc =? encoding_byte EncodingNative)
               || (byte_to_Z enc =? encoding_byte EncodingXDR)) then Some ErrInvalidEncoding
      else match rest with
      | [] => Some ErrInvalidData
      | order :: _ =>
          if negb ((byte_to_Z order =? bigEndian) || (byte_to_Z order =? littleEndian))
          then Some ErrInvalidEndianess
          else if (blen data <=? 4) || (blen data =? 8) then Some EOF
          else if blen data <? 12 then Some ErrUnexpectedEOF
          else None
      end
  end.

(** A four byte read near the end of the buffer. *)
Lemma list_readInt_short data cur o enc fl ver k :
  isize k = 4%nat -> 0 <= cur ->
  let out := nvlistReader.readInt k (NvlistReader data cur (Some o) enc fl ver) in
  if blen data <=? cur then fst out = Err EOF
  else if blen data <? cur + 4 then fst out = Err ErrUnexpectedEOF
  else exists z, out = (Ok z, NvlistReader data (cur + 4) (Some o) enc fl ver).
Proof.
  intros K C out.
  assert (G : forall n, 0 <= cur -> cur + Z.of_nat n <= blen data ->
    exists bs, copy_bytes data cur n = Ok bs).
  { intros n. generalize cur. induction n as [|n IH]; intros c Hc Hn; [now exists []|].
    cbn [copy_bytes]. destruct (go_index_ok data c) as [b ->]; [lia|].
    destruct (IH (c + 1)) as [bs ->]; [lia|lia|]. now eexists. }
  unfold out, nvlistReader.readInt, binary_Read, io_ReadFull, nvlistReader.Read.
  unfold gbind, gget, glift, gput, gret, gerr. cbn [r_endianness r_currentByte r_nvlist].
  rewrite K. change (Z.of_nat 4) with 4. cbn [Z.eqb]. cbv beta iota.
  cbn [r_endianness r_currentByte r_nvlist].
  destruct (Z.leb_spec (blen data) cur) as [H1|H1].
  - decide_false (cur + 4 <? blen data).
    replace (Z.to_nat (blen data - cur)) with 0%nat by lia. cbn [copy_bytes].
    decide_false (4 <=? blen data - cur). decide_false (0 <? blen data - cur). done.
  - destruct (Z.ltb_spec (blen data) (cur + 4)) as [H2|H2].
    + decide_false (cur + 4 <? blen data).
      destruct (G (Z.to_nat (blen data - cur))) as [bs ->]; [lia|lia|].
      decide_false (4 <=? blen data - cur). now decide_true (0 <? blen data - cur).
    + destruct (Z.ltb_spec (cur + 4) (blen data)) as [H3|H3].
      * destruct (G (Z.to_nat 4)) as [bs ->]; [lia|lia|]. now eexists.
      * assert (E : blen data - cur = 4) by lia. rewrite E.
        destruct (G (Z.to_nat 4)) as [bs ->]; [lia|lia|]. now eexists.
Qed.

Lemma header_tail_error data o enc :
  2 <= blen data ->
  match (if (blen data <=? 4) || (blen data =? 8) then Some EOF
         else if blen data <? 12 then Some ErrUnexpectedEOF else None) with
  | Some e =>
      fst ((nvlistReader.skipN 2 ;;;
       version <- nvlistReader.readInt KInt32 ;;
       gmodify (set_r_version version) ;;;
       flags <- nvlistReader.readInt KUint32 ;;
       gmodify (set_r_flags flags)) (NvlistReader data 2 (Some o) enc 0 0)) = Err e
  | None => True
  end.
Proof.
  intros L. unfold gbind at 1, nvlistReader.skipN, gmodify at 1.
  change (set_r_currentByte _ _) with (NvlistReader data 4 (Some o) enc 0 0).
  pose proof (list_readInt_short data 4 o enc 0 0 KInt32 eq_refl ltac:(lia)) as A.
  cbv zeta in A. destruct (Z.leb_spec (blen data) 4) as [H|H]; cbn [orb].
  { unfold gbind. destruct (nvlistReader.readInt KInt32 _) as [[] ?]; cbn in *; congruence. }
  destruct (Z.ltb_spec (blen data) (4 + 4)) as [H1|H1].
  { decide_false (blen data =? 8). decide_true (blen data <? 12).
    unfold gbind. destruct (nvlistReader.readInt KInt32 _) as [[] ?]; cbn in *; congruence. }
  destruct A as [z A]. unfold gbind at 1.
  rewrite A. unfold gbind at 1, gmodify at 1.
  change (set_r_version _ _) with (NvlistReader data 8 (Some o) enc 0 z).
  pose proof (list_readInt_short data 8 o enc 0 z KUint32 eq_refl ltac:(lia)) as B.
  cbv zeta in B. destruct (Z.leb_spec (blen data) 8).
  { decide_true (blen data =? 8). unfold gbind.
    destruct (nvlistReader.readInt KUint32 _) as [[] ?]; cbn in *; congruence. }
  decide_false (blen data =? 8). change (8 + 4) with 12 in *.
  destruct (blen data <? 12); [|done]. unfold gbind.
  destruct (nvlistReader.readInt KUint32 _) as [[] ?]; cbn in *; congruence.
Qed.

Lemma readNvHeader_error data :
  match header_error data with
  | Some e => fst (nvlistReader.readNvHeader (NvlistReader data 0 None EncodingNative 0 0)) = Err e
  | None => True
  end.
Proof.
  destruct data as [|enc [|order rest]]; [done| |].
  - unfold header_error, nvlistReader.readNvHeader.
    rewrite (gbind_ok _ _ (NvlistReader [enc] 0 None EncodingNative 0 0) enc
      (NvlistReader [enc] 1 None EncodingNative 0 0)) by reflexivity.
    destruct (byte_to_Z enc =? encoding_byte EncodingNative); [done|].
    now destruct (byte_to_Z enc =? encoding_byte EncodingXDR).
  - set (data := enc :: order :: rest). assert (L : 2 <= blen data) by (unfold data; blen_lia).
    unfold header_error, data at 1.
    assert (R : forall e, nvlistReader.ReadByte (NvlistReader data 1 None e 0 0)
      = (Ok order, NvlistReader data 2 None e 0 0)).
    { intros e. unfold nvlistReader.ReadByte, gbind, gget, glift, gput, gret, go_index.
      cbn [r_currentByte r_nvlist].
      assert (1 < blen data) by lia. decide_true (1 <? blen data). reflexivity. }
    assert (R0 : nvlistReader.ReadByte (NvlistReader data 0 None EncodingNative 0 0)
      = (Ok enc, NvlistReader data 1 None EncodingNative 0 0)).
    { unfold nvlistReader.ReadByte, gbind, gget, glift, gput, gret, go_index.
      cbn [r_currentByte r_nvlist].
      assert (0 < blen data) by lia. decide_true (0 <? blen data). reflexivity. }
    unfold nvlistReader.readNvHeader. rewrite (gbind_ok _ _ _ _ _ R0).
    destruct (byte_to_Z enc =? encoding_byte EncodingNative);
      [|destruct (byte_to_Z enc =? encoding_byte EncodingXDR); [|done]]; cbn [orb negb].
    1: rewrite (gbind_ok _ _ _ tt (NvlistReader data 1 None EncodingNative 0 0)) by reflexivity.
    2: rewrite (gbind_ok _ _ _ tt (NvlistReader data 1 None EncodingXDR 0 0)) by reflexivity.
    all: rewrite (gbind_ok _ _ _ _ _ (R _)).
    all: destruct (byte_to_Z order =? bigEndian);
      [exact (header_tail_error data BigEndian _ L)|cbn [orb]].
    all: destruct (byte_to_Z order =? littleEndian);
      [exact (header_tail_error data LittleEndian _ L)|done].
Qed.

Lemma Unmarshal_header_error data val e :
  header_error data = Some e -> Unmarshal data val = (Err e, val).
Proof.
  intros H. pose proof (readNvHeader_error data) as R. rewrite H in R.
  unfold Unmarshal, gbind, on_reader. cbn [fst snd].
  destruct (nvlistReader.readNvHeader _) as [out r]. cbn in R. now subst.
Qed.

(** ** Errors of nested lists *)

Definition no_err {A} (c : go nvlistWriter A) : Prop := forall w e, fst (c w) <> Err e.

Lemma no_err_bind {A B} (c : go nvlistWriter A) (k : A -> go nvlistWriter B) :
  no_err c -> (forall a, no_err (k a)) -> no_err (gbind c k).
Proof.
  intros Hc Hk w e. unfold gbind. specialize (Hc w).
  destruct (c w) as [[a|x|p|] w']; try done; [apply Hk|]. now specialize (Hc x).
Qed.

Lemma no_err_ret {A} (a : A) : no_err (gret a).
Proof. done. Qed.

Lemma no_err_modify f : no_err (gmodify f).
Proof. done. Qed.

Lemma no_err_ignore c : no_err (gignore c).
Proof. intros w e. unfold gignore. now destruct (c w) as [[] ?]. Qed.

Lemma no_err_foreach bs : no_err (gforeach WriteByte bs).
Proof. intros w e. now rewrite gforeach_WriteByte. Qed.

#[local] Hint Resolve no_err_bind no_err_ret no_err_modify no_err_ignore no_err_foreach : gozfs.

Lemma no_err_skipToAlign : no_err skipToAlign.
Proof. apply no_err_bind; [done|]. intros w. apply no_err_foreach. Qed.

Lemma no_err_endNvPair nvp : no_err (endNvPair nvp).
Proof.
  unfold endNvPair. destruct (_ =? _); [done|]. apply no_err_bind; [done|]. intros w.
  destruct (_ =? _); [done|].
  repeat (apply no_err_bind; [first [apply no_err_skipToAlign | apply no_err_ignore
    | apply no_err_modify | done]|intros]). apply no_err_modify.
Qed.

(** A map or struct as the value of a pair. *)
Definition is_list (v : gval) : bool :=
  match v with VMap _ _ _ _ | VStruct _ _ => true | _ => false end.

Lemma no_err_writePair_list rec name val :
  blen name + 1 < 32767 -> is_list (v_val val) = true -> no_err (writePair rec name val).
Proof.
  intros L K. unfold writePair. decide_false (32767 <=? blen name + 1).
  assert (T : forall nvp, no_err (startNvPair ;;; gignore (writeString name) ;;; skipToAlign ;;;
    writeNvlistHeader ;;; endNvPair nvp ;;;
    (fun w => match rec (Some val) w with
              | (Ok _, w') => (Ok Continue, w')
              | (Err _, w') => (Ok ReturnNil, w')
              | (Panic p, w') => (Panic p, w')
              | (OutOfFuel, w') => (OutOfFuel, w')
              end))).
  { intros nvp. apply no_err_bind; [apply no_err_bind; [done|]; intros; apply no_err_foreach|]. intros _.
    apply no_err_bind; [apply no_err_ignore|]. intros _.
    apply no_err_bind; [apply no_err_skipToAlign|]. intros _.
    apply no_err_bind; [repeat (apply no_err_bind; [apply no_err_ignore|intros]); apply no_err_ignore|].
    intros _. apply no_err_bind; [apply no_err_endNvPair|]. intros _ w e.
    now destruct (rec (Some val) w) as [[] ?]. }
  destruct (v_val val); try discriminate; apply T.
Qed.

Lemma no_err_writeLoop_lists rec ps :
  Forall (fun p => blen p.1 + 1 < 32767 /\ is_list (v_val p.2) = true) ps -> no_err (writeLoop rec ps).
Proof.
  induction 1 as [|[name val] ps [L K] F IH]; cbn [writeLoop].
  - unfold skipN. apply no_err_foreach.
  - apply no_err_bind; [now apply no_err_writePair_list|]. intros []; [exact IH|done].
Qed.

(** The pairs of a map whose values are all lists. *)
Lemma collect_lists (kvs : list (gostring * gval)) :
  collectMap false tString (map (fun '(k, x) => (k, VIface None (Some x))) kvs) =
  Ok (map (fun '(k, x) => (k, MkValue false x)) kvs).
Proof. induction kvs as [|[k x] kvs IH]; [done|]. cbn. now rewrite IH. Qed.

Lemma Marshal_lists_no_err kvs :
  Forall (fun p => blen p.1 + 1 < 32767 /\ is_list p.2 = true) kvs ->
  forall e, Marshal (Some (vAnyMap (map (fun '(k, x) => (k, VIface None (Some x))) kvs))) <> Err e.
Proof.
  intros F e. unfold Marshal. rewrite (gbind_ok _ _ _ _ _ writeNvHeader_spec).
  cbn [fmap option_fmap option_map writeNvPairs mbind option_bind].
  change (unpackVal (MkValue false (vAnyMap ?m))) with (Some (MkValue false (vAnyMap m))).
  cbv iota. unfold collectPairs. cbn [v_val v_ro vAnyMap]. rewrite collect_lists.
  unfold gbind, glift.
  pose proof (no_err_writeLoop_lists (writeNvPairs (depth (vAnyMap (map (fun '(k, x) => (k, VIface None (Some x))) kvs))))
    (map (fun '(k, x) => (k, MkValue false x)) kvs)) as W.
  specialize (W ltac:(apply Forall_map; eapply Forall_impl; [exact F|]; now intros [k x])).
  specialize (W (NvlistWriter (stream_header LittleEndian) 0 false (Some LittleEndian) uniqueNameFlag 0)).
  unfold vAnyMap in W. destruct (writeLoop _ _ _) as [[] ?]; try done. intros [= ->]. now apply (W e).
Qed.

(** ** Struct fields that are encoded *)

(** The option after the name in a field's tag. *)
Definition tagOption (f : sfield) : gostring :=
  match split_comma (f_Tag f) with _ :: o :: _ => o | _ => [] end.

(** A field is encoded iff it is not nil, not marked [ro], and not empty when
    marked [omitempty]; under the name the decoder looks for. *)
Lemma collectField_spec ro f x :
  collectField ro f x =
  match unpackVal (MkValue (ro || negb (exported (f_Name f))) x) with
  | Some v =>
      if bool_decide (tagOption f = str "ro")
         || (bool_decide (tagOption f = str "omitempty") && isEmptyValue (Some v))
      then None else Some (fieldName f, v)
  | None => None
  end.
Proof.
  unfold collectField, tagOption, fieldName.
  set (val := unpackVal _). destruct (split_comma (f_Tag f)) as [|name [|opt tl]].
  - destruct val; reflexivity.
  - destruct val; reflexivity.
  - destruct (bool_decide_reflect (opt = str "omitempty")) as [->|N].
    + rewrite (bool_decide_eq_false_2 (str "omitempty" = str "ro")) by done. cbn [orb andb].
      destruct val as [v|]; [|now destruct (isEmptyValue None)].
      now destruct (isEmptyValue (Some v)).
    + destruct val as [v|]; cbn [andb]; destruct (bool_decide _); reflexivity.
Qed.

(** ** Lists without a field *)

Lemma Unmarshal_unknown_list o x l after rest nm t sn fs v' :
  nvs_ok ((x, NNvlist l) :: after) = true -> forallb (flat ∘ snd) l = true ->
  structFieldByName (VStruct sn fs) !! x = None ->
  store_flat true (structFieldByName (VStruct sn fs)) l (VStruct sn fs) = Ok v' ->
  Unmarshal (packed o ((x, NNvlist l) :: after) ++ rest) (VPtr nm t (Some (VStruct sn fs)))
  = (Ok tt, VPtr nm t (Some v')).
Proof.
  intros K Fl N S. set (v := VStruct sn fs) in *. unfold Unmarshal.
  set (data := packed o _ ++ rest).
  assert (H : has_at data 0 (packed o ((x, NNvlist l) :: after))) by apply has_at_app_r, has_at_self.
  unfold packed in H. apply has_at_split in H as [Hh Hw]. rewrite blen_stream_header in Hw.
  rewrite (gbind_ok _ _ (VPtr nm t (Some v), _) tt (VPtr nm t (Some v), rd data o uniqueNameFlag 0 12)).
  2: { unfold on_reader. cbn [snd fst]. now rewrite (readNvHeader_spec o). }
  unfold readPairs, enter. cbn [fst resolveTarget v]. fold v. unfold on_target. cbn [snd fst].
  rewrite nvs_ok_cons in K. bool_to_prop. change (0 + 12) with 12 in *.
  rewrite wire_cons in Hw. pose proof (has_at_bound _ _ _ Hw) as [_ B].
  rewrite (readLoop_step data o uniqueNameFlag 0 (length data) true (structFieldByName v) v 12 x
    (NNvlist l) (trailer o (NNvlist l) ++ wire o after));
    [|done|pose proof (blen_wire_ge o l); change (trailer o (NNvlist l)) with (wire o l); blen_lia|done|done].
  cbn [pv_of storePair]. unfold gbind at 1, readNvlist, gbind at 1, gget. cbn [fst snd v].
  unfold settableField. fold v. rewrite N. unfold gret.
  apply has_at_split in Hw as [_ Hw]. rewrite blen_pair_frame in Hw.
  rewrite <- (frame_size_data x _ _ (blen_payload o (NNvlist l))) in Hw.
  apply has_at_split in Hw as [Hw _].
  assert (F : (length l < length data)%nat).
  { pose proof (length_le_wire o l). rewrite !blen_app in B.
    change (trailer o (NNvlist l)) with (wire o l) in B.
    pose proof (blen_nonneg (wire o after)). pose proof (blen_nonneg (pair_frame o x (NNvlist l))).
    unfold blen in *. lia. }
  pose proof (readLoop_flat data o uniqueNameFlag 0 (length data) true (structFieldByName v) v
    _ l Hw ltac:(done) Fl F) as L.
  rewrite S in L. now rewrite L.
Qed.

(** ** Strings with zero bytes *)

(** A map with one string entry, any string. *)
Lemma Marshal_string name s :
  nul_free name = true -> blen name + 1 < 32767 ->
  Marshal (Some (vAnyMap [(name, VIface None (Some (VString None s)))])) =
  Ok (stream_header LittleEndian ++ frame LittleEndian name typeString 1 (written s) ++ zeros 4).
Proof.
  intros N L. unfold Marshal. rewrite (gbind_ok _ _ _ _ _ writeNvHeader_spec).
  set (w := NvlistWriter (stream_header LittleEndian) 0 false (Some LittleEndian) uniqueNameFlag 0).
  cbn [fmap option_fmap option_map writeNvPairs mbind option_bind unpackVal v_val vAnyMap
    collectPairs v_ro collectMap].
  unfold glift, gbind at 1. cbn [writeLoop kind_of_type tString bool_decide obind].
  rewrite bool_decide_eq_true_2 by done. cbn [negb obind writeLoop].
  assert (W : writePair (writeNvPairs (depth (vAnyMap [(name, VIface None (Some (VString None s)))])))
    name (MkValue false (VString None s)) w
    = (Ok Continue, w_app (frame LittleEndian name typeString 1 (written s)) (set_w_start 0 w))).
  { unfold writePair. decide_false (32767 <=? blen name + 1). cbn [v_val].
    rewrite wrap_signed_small by (pose proof (blen_nonneg name); lia).
    rewrite open_pair by done. erewrite gbind_ok by apply ignore_writeString_written.
    erewrite gbind_ok by (apply close_pair; [repeat split; done|done]). reflexivity. }
  unfold vAnyMap in W. rewrite (gbind_ok _ _ _ _ _ W). rewrite skipN_spec.
  cbn [w_nvlist w_app set_w_nvlist set_w_start w]. now rewrite <- app_assoc.
Qed.

(** ** Map iteration order *)

Lemma map_get_elem {A} k (v : A) m : map_get k m = Some v -> (k, v) ∈ m.
Proof. induction m as [|[k' v'] m IH]; cbn; [done|]. case_bool_decide; intros; simplify_eq; set_solver. Qed.

Lemma map_get_NoDup {A} k (v : A) m : NoDup m.*1 -> (k, v) ∈ m -> map_get k m = Some v.
Proof.
  induction m as [|[k' v'] m IH]; cbn; intros N I; [set_solver|].
  apply NoDup_cons in N as [N1 N2]. apply elem_of_cons in I as [[= -> ->]|I].
  - now rewrite bool_decide_eq_true_2.
  - rewrite bool_decide_eq_false_2; [eauto|]. intros ->. apply N1. apply list_elem_of_fmap.
    now exists (k, v).
Qed.

Lemma map_get_perm {A} k (m m' : list (gostring * A)) :
  NoDup m.*1 -> m ≡ₚ m' -> map_get k m = map_get k m'.
Proof.
  intros N P. assert (N' : NoDup m'.*1) by now rewrite <- P.
  destruct (map_get k m) as [v|] eqn:E.
  - apply map_get_elem in E. symmetry. apply map_get_NoDup; [done|]. now rewrite <- P.
  - destruct (map_get k m') as [v'|] eqn:E'; [|done]. apply map_get_elem in E'.
    rewrite <- P in E'. apply map_get_NoDup in E'; congruence.
Qed.

Lemma canonical_NoDup l : canonical_list l = true -> NoDup (map fst l).
Proof.
  induction l as [|[name x] l IH]; [constructor|]. rewrite canonical_cons. intros C. bool_to_prop.
  cbn. constructor; [|now apply IH].
  match goal with H : bool_decide _ = false |- _ => now apply bool_decide_eq_false in H end.
Qed.

Lemma canonical_perm l l' : l ≡ₚ l' -> canonical_list l = true -> canonical_list l' = true.
Proof.
  intros P. induction P as [|[n x] l l' P IH|[n x] [n' x'] l|l l' l'' P1 IH1 P2 IH2]; intros C; auto.
  - rewrite canonical_cons in *. bool_to_prop. rewrite IH by done.
    replace (bool_decide (n ∈ map fst l')) with (bool_decide (n ∈ map fst l))
      by (apply bool_decide_ext; now rewrite P).
    rewrite !andb_true_iff. repeat split; try done; [bool_solver|].
    match goal with H : bool_decide _ = false |- _ => now rewrite H end.
  - rewrite !canonical_cons in *. cbn [map fst] in *. bool_to_prop.
    repeat match goal with H : bool_decide _ = false |- _ => apply bool_decide_eq_false in H end.
    rewrite !andb_true_iff, !negb_true_iff, !bool_decide_eq_false. repeat split; try done; try bool_solver;
      set_solver.
Qed.

Lemma nvs_ok_perm l l' : l ≡ₚ l' -> nvs_ok l = true -> nvs_ok l' = true.
Proof.
  intros P. induction P as [|[n x] l l' P IH|[n x] [n' x'] l|l l' l'' P1 IH1 P2 IH2]; intros C; auto.
  - rewrite nvs_ok_cons in *. bool_to_prop. rewrite IH by done. now rewrite !andb_true_iff.
  - rewrite !nvs_ok_cons in *. bool_to_prop. now rewrite !andb_true_iff.
Qed.

(** Two Go maps with the same entries in different iteration order. *)
Lemma nvs_into_perm l l' k :
  canonical_list l = true -> l ≡ₚ l' -> map_get k (nvs_into [] l) = map_get k (nvs_into [] l').
Proof.
  intros C P. pose proof (canonical_perm _ _ P C) as C'.
  rewrite !nvs_into_canonical by (done || set_solver). cbn [app].
  apply map_get_perm; [|now rewrite P].
  replace ((map entry l).*1) with (map fst l); [now apply canonical_NoDup|].
  clear. induction l; cbn; congruence.
Qed.
