(* ===== verification/NvFields.v ===== *)
(** * Encoding structs: a specification of its own

    Which fields of a struct reach the wire, under which name and with which
    value, stated without the reflection calls of encoder.go: from the tags and
    from what the fields hold. Together with NvStruct it gives the round trip of
    structs. *)

From Stdlib Require Import ZArith Lia Strings.Byte Strings.String.
From stdpp Require Import base list gmap.
From S2P Require Import Prelude GoValue NvConsts NvEncode NvDecode NvWire NvEncodeSpec.
From S2P Require Import NvEncodeTotal NvRoundtrip NvDecodeSpec NvTarget NvStruct NvEdge.

(** ** Abstracting structs field by field *)

Lemma abs_list_app f ps qs :
  abs_list f (ps ++ qs) =
  match abs_list f ps, abs_list f qs with Some a, Some b => Some (a ++ b) | _, _ => None end.
Proof.
  induction ps as [|[name v] ps IH]; cbn [app abs_list]; [now destruct (abs_list f qs)|].
  destruct (_ && _); [|done]. rewrite IH.
  destruct (f v) as [[x|]|]; [..|done]; destruct (abs_list f ps), (abs_list f qs); done.
Qed.

Definition field_pairs (p : sfield * gval) : list (gostring * Value) :=
  match collectField false p.1 p.2 with Some q => [q] | None => [] end.

Lemma collectStruct_fields fs : collectStruct false fs = concat (map field_pairs fs).
Proof.
  induction fs as [|[f x] fs IH]; [done|]. cbn [collectStruct map concat]. unfold field_pairs at 1.
  cbn [fst snd]. destruct (collectField false f x); cbn [app]; now rewrite IH.
Qed.

(** The abstract pairs of a struct are those of its fields. *)
Lemma abs_struct fuel nm fs ls :
  Forall2 (fun p l => abs_list (abs_value (abs_pairs fuel)) (field_pairs p) = Some l) fs ls ->
  abs_pairs (S fuel) (MkValue false (VStruct nm fs)) = Some (concat ls).
Proof.
  intros F. cbn [abs_pairs]. change (unpackVal _) with (Some (MkValue false (VStruct nm fs))).
  cbn [collectPairs v_val v_ro]. rewrite collectStruct_fields.
  induction F as [|p l fs ls H F IH]; [done|]. cbn [map concat]. now rewrite abs_list_app, H, IH.
Qed.

(** ** What a field holds *)

(** A nil pointer or interface, [false], or a value of the wire format: stored
    in the field itself (as a declared type [nm]), behind a pointer or in an
    interface. *)
Inductive fval :=
| FNil (t : gtype)
| FNilIface
| FFalse (nm : option gostring)
| FVal (nm : option gostring) (v : nvval)
| FPtr (nm : option gostring) (v : nvval)
| FIface (v : nvval).

(** The Go value of the field. *)
Definition fgo (c : fval) : gval :=
  match c with
  | FNil t => VPtr None t None
  | FNilIface => VIface None None
  | FFalse nm => VBool nm false
  | FVal nm v => set_vname nm (go_value v)
  | FPtr nm v => VPtr None (typeOf (set_vname nm (go_value v))) (Some (set_vname nm (go_value v)))
  | FIface v => VIface None (Some (go_value v))
  end.

Definition content (c : fval) : option nvval :=
  match c with FVal _ v | FPtr _ v | FIface v => Some v | _ => None end.

(** Zero numbers, empty strings, slices and maps. *)
Definition nv_empty (v : nvval) : bool :=
  match v with
  | NByte z | NInt _ z => z =? 0
  | NString s => bool_decide (s = [])
  | NByteArray l => bool_decide (l = [])
  | NIntArray _ l => bool_decide (l = [])
  | NStringArray l => bool_decide (l = [])
  | NBooleanArray l => bool_decide (l = [])
  | NNvlist l => bool_decide (length l = 0%nat)
  | NNvlistArray l => bool_decide (length l = 0%nat)
  | _ => false
  end.

(** The word after the name in a tag. *)
Definition tag_option (f : sfield) : gostring :=
  match after_comma (f_Tag f) with Some r => before_comma r | None => [] end.

(** The pair a field contributes. *)
Definition emitted (f : sfield) (c : fval) : nvs :=
  match content c with
  | Some v =>
      if bool_decide (tag_option f = str "ro") then []
      else if bool_decide (tag_option f = str "omitempty") && nv_empty v then []
      else [(tag_name f, v)]
  | None => []
  end.

Abbreviation fields := (list (sfield * fval)).

Definition struct_nvs (fs : fields) : nvs := concat (map (fun '(f, c) => emitted f c) fs).
Definition struct_go (nm : option gostring) (fs : fields) : gval :=
  VStruct nm (map (fun '(f, c) => (f, fgo c)) fs).

(** Exported, with a name that fits, and holding a value the format has. *)
Definition field_ok (f : sfield) (c : fval) : bool :=
  exported (f_Name f) && nul_free (tag_name f) && (blen (tag_name f) + 1 <? 32767)
  && match content c with Some v => canonical v | None => true end.

(** ** Agreement with the encoder *)

Lemma tagOption_tag f : tagOption f = tag_option f.
Proof.
  unfold tagOption, tag_option. rewrite split_comma_eq.
  destruct (after_comma (f_Tag f)) as [r|]; [|done]. now rewrite split_comma_eq.
Qed.

Lemma unpackVal_name ro nm x :
  match unpackVal (MkValue ro x), unpackVal (MkValue ro (set_vname nm x)) with
  | Some v, Some v' => v' = v \/ v = MkValue ro x /\ v' = MkValue ro (set_vname nm x)
  | None, None => True
  | _, _ => False
  end.
Proof.
  destruct x as [| | | | | | | |? ? [y|]|? [y|]|]; cbn; try done; try (now right); try (now left).
  destruct y as [| | | | | | | |? ? [z|]|? [z|]|]; cbn; done || now left.
Qed.

(** The declared name of a type makes no difference. *)
Lemma abs_pairs_name fuel nm x :
  abs_pairs fuel (MkValue false (set_vname nm x)) = abs_pairs fuel (MkValue false x).
Proof.
  destruct fuel as [|fuel]; [done|]. cbn [abs_pairs]. pose proof (unpackVal_name false nm x) as U.
  destruct (unpackVal (MkValue false x)) as [v|], (unpackVal (MkValue false (set_vname nm x))) as [v'|]; try done.
  destruct U as [->|[-> ->]]; [done|]. now destruct x.
Qed.

Lemma abs_value_name fuel nm x :
  abs_value (abs_pairs fuel) (MkValue false (set_vname nm x)) =
  abs_value (abs_pairs fuel) (MkValue false x).
Proof.
  pose proof (abs_pairs_name fuel nm x) as E.
  destruct x; try done; unfold abs_value; cbn [v_ro v_val set_vname] in *; now rewrite E.
Qed.

Lemma isEmptyValue_go ro nm v :
  canonical v = true -> isEmptyValue (Some (MkValue ro (set_vname nm (go_value v)))) = nv_empty v.
Proof.
  intros C. assert (L : forall {A} (l : list A) (P : Prop) `{Decision P}, (l = [] <-> P) ->
    (blen l =? 0) = bool_decide P).
  { intros A l P D H. destruct (bool_decide_reflect P) as [HP|HP].
    - apply H in HP as ->. done.
    - apply Z.eqb_neq. unfold blen. destruct l; [tauto|cbn; lia]. }
  assert (Nil : forall {A} (l : list A), length l = 0%nat <-> l = []).
  { intros A l. split; [apply nil_length_inv|now intros ->]. }
  destruct v as [| | |s| |bs|k zs|ss|bs|l|ls| |]; try discriminate C; unfold go_value; cbn [nv_value set_vname
    isEmptyValue v_val nv_empty]; try done; rewrite ?blen_map; try (apply L; done).
  change (fold_left _ l []) with (nvs_into [] l).
    rewrite nvs_into_canonical by (done || set_solver). cbn [app vAnyMap set_vname]. rewrite blen_map. apply L. symmetry. apply Nil.
Qed.

Lemma go_value_scalar v : canonical v = true ->
  forall nm ro, unpackVal (MkValue ro (set_vname nm (go_value v))) = Some (MkValue ro (set_vname nm (go_value v))).
Proof. intros C nm ro. now destruct v. Qed.

(** The field [c] unpacked. *)
Lemma unpackVal_fgo ro c :
  match content c with Some v => canonical v = true | None => True end ->
  unpackVal (MkValue ro (fgo c)) =
  match c with
  | FNil _ | FNilIface => None
  | FFalse nm => Some (MkValue ro (VBool nm false))
  | FVal nm v | FPtr nm v => Some (MkValue ro (set_vname nm (go_value v)))
  | FIface v => Some (MkValue ro (go_value v))
  end.
Proof.
  destruct c as [t| |nm|nm v|nm v|v]; intros C; try done; cbn [content fgo] in *.
  - now apply go_value_scalar.
  - now destruct v.
Qed.

Lemma abs_field fuel f c :
  field_ok f c = true -> (depth (fgo c) < fuel)%nat ->
  abs_list (abs_value (abs_pairs fuel)) (field_pairs (f, fgo c)) = Some (emitted f c).
Proof.
  unfold field_ok. intros K D. bool_to_prop. unfold field_pairs, emitted. cbn [fst snd].
  rewrite collectField_spec, fieldName_tag, tagOption_tag.
  match goal with H : exported _ = true |- _ => rewrite H end. cbn [negb orb].
  rewrite unpackVal_fgo by now destruct (content c).
  assert (V : forall nm v, canonical v = true -> (depth (set_vname nm (go_value v)) < fuel)%nat ->
    abs_list (abs_value (abs_pairs fuel))
      match (if bool_decide (tag_option f = str "ro") || bool_decide (tag_option f = str "omitempty") &&
                  isEmptyValue (Some (MkValue false (set_vname nm (go_value v))))
             then None else Some (tag_name f, MkValue false (set_vname nm (go_value v)))) with
      | Some q => [q] | None => [] end =
    Some (if bool_decide (tag_option f = str "ro") then []
          else if bool_decide (tag_option f = str "omitempty") && nv_empty v then []
          else [(tag_name f, v)])).
  { intros nm v C Dv. rewrite isEmptyValue_go by done.
    destruct (bool_decide (tag_option f = str "ro")); [done|]. cbn [orb].
    destruct (_ && nv_empty v); [done|]. cbn [abs_list].
    match goal with H : nul_free (tag_name f) = true |- _ => rewrite H end.
    decide_true (blen (tag_name f) + 1 <? 32767). cbn [andb].
    rewrite abs_value_name, abs_value_canonical; [done|done|].
    intros l Cl Dl. apply abs_pairs_canonical; [done|].
    assert (depth (set_vname nm (go_value v)) = depth (go_value v)) by now destruct (go_value v). lia. }
  destruct c as [t| |nm|nm v|nm v|v]; cbn [content fgo] in *; try done.
  - cbn [abs_list]. destruct (_ || _); [done|]. cbn [abs_list].
    match goal with H : nul_free (tag_name f) = true |- _ => rewrite H end.
    now decide_true (blen (tag_name f) + 1 <? 32767).
  - now apply V.
  - apply V; [done|]. cbn [depth] in D. lia.
  - assert (E : set_vname None (go_value v) = go_value v) by now destruct v.
    specialize (V None v). rewrite E in V. apply V; [done|]. cbn [depth] in D. lia.
Qed.

(** A field tagged [ro] contributes nothing, whatever it holds. *)
Lemma abs_ro fuel f x :
  tag_option f = str "ro" -> abs_list (abs_value (abs_pairs fuel)) (field_pairs (f, x)) = Some [].
Proof.
  intros T. unfold field_pairs. cbn [fst snd]. rewrite collectField_spec, tagOption_tag, T.
  rewrite bool_decide_eq_true_2 by done. now destruct (unpackVal _).
Qed.

Lemma Marshal_fields nm fs :
  forallb (fun '(f, c) => field_ok f c) fs = true ->
  Marshal (Some (struct_go nm fs)) = Ok (packed LittleEndian (struct_nvs fs)).
Proof.
  intros K. apply Marshal_spec. unfold abstract, struct_go.
  rewrite (abs_struct _ _ _ (map (fun '(f, c) => emitted f c) fs)); [done|].
  cbn [depth].
  assert (D : forall f c, (f, c) ∈ fs ->
    (depth (fgo c) < S (list_max (map (fun '(_, x) => depth x) (map (fun '(f, c) => (f, fgo c)) fs))))%nat).
  { intros f c I. pose proof (list_max_in (fun '(_, x) => depth x) (f, fgo c)
      (map (fun '(f, c) => (f, fgo c)) fs)) as M. cbn in M.
    specialize (M ltac:(apply list_elem_of_fmap; now exists (f, c))). lia. }
  revert D. generalize (S (list_max (map (fun '(_, x) => depth x) (map (fun '(f, c) => (f, fgo c)) fs)))).
  intros fuel D. induction fs as [|[f c] fs IH]; cbn [map]; constructor.
  - cbn [forallb] in K. apply andb_true_iff in K as [K _]. apply abs_field; [done|]. apply (D f). set_solver.
  - cbn [forallb] in K. apply andb_true_iff in K as [_ K]. apply IH; [done|]. intros. apply (D f0). set_solver.
Qed.

(** ** The round trip of structs *)

(** Fields that come back: unnamed types, no embedded lists; an interface must
    not hold something its tag leaves out. *)
Definition typed (f : sfield) (c : fval) : bool :=
  negb (bool_decide (tag_option f = str "ro")) &&
  match c with
  | FVal None v => flat v
  | FFalse None | FNilIface => true
  | FIface v => flat v && negb (bool_decide (tag_option f = str "omitempty") && nv_empty v)
  | _ => false
  end.

(** The zero value of the field's type takes the value back, and is the value
    itself when the field was left out. *)
Lemma zero_takes env f c :
  typed f c = true -> match content c with Some v => canonical v | None => true end = true ->
  match emitted f c with
  | [] => zero_in env (typeOf (fgo c)) = fgo c
  | _ => exists v, content c = Some v /\ emitted f c = [(tag_name f, v)] /\
         accepts (zero_in env (typeOf (fgo c))) (go_value v) = true /\
         put (zero_in env (typeOf (fgo c))) (go_value v) = fgo c
  end.
Proof.
  unfold typed, emitted. intros T C. apply andb_true_iff in T as [T1 T]. apply negb_true_iff in T1.
  destruct c as [t| |[]|[] v|[] v|v]; try discriminate T; cbn [content] in *; rewrite ?T1; try done.
  - destruct (bool_decide _ && nv_empty v) eqn:E.
    + apply andb_true_iff in E as [_ E]. destruct v as [|z|k z|[]| |[]|k []|[]|[]|l|ls| |]; try discriminate;
        cbn in E; try done; apply Z.eqb_eq in E; now subst.
    + exists v. split; [done|]. split; [done|].
      destruct v as [|z|k z|s| |l|k l|l|l|l|ls| |]; try discriminate; cbn; try done.
      all: split; [now apply bool_decide_eq_true_2|done].
  - apply andb_true_iff in T as [_ T]. apply negb_true_iff in T. rewrite T. exists v.
    split; [done|]. split; [done|]. now destruct v.
Qed.

(** A name that no later field has goes to its field. *)
Lemma set_named_at name g pre f z post :
  tag_name f = name -> name ∉ map tag_name (map fst post) -> exported (f_Name f) = true ->
  accepts z g = true ->
  set_named name g (pre ++ (f, z) :: post) = Some (Ok (pre ++ (f, put z g) :: post)).
Proof.
  intros N Fresh X A. induction pre as [|[f' z'] pre IH]; cbn [app set_named].
  - assert (E : set_named name g post = None).
    { clear - Fresh. induction post as [|[f' z'] post IH]; [done|]. cbn [map fst] in Fresh.
      apply not_elem_of_cons in Fresh as [F1 F2]. cbn [set_named]. rewrite IH by done.
      now rewrite bool_decide_eq_false_2. }
    rewrite E, bool_decide_eq_true_2, X, A by done. done.
  - now rewrite IH.
Qed.

Lemma store_fields env pre fs :
  forallb (fun '(f, c) => field_ok f c && typed f c) fs = true -> NoDup (map (tag_name ∘ fst) fs) ->
  store_struct (struct_nvs fs) (pre ++ map (fun '(f, c) => (f, zero_in env (typeOf (fgo c)))) fs)
  = Ok (pre ++ map (fun '(f, c) => (f, fgo c)) fs).
Proof.
  revert pre. induction fs as [|[f c] fs IH]; intros pre K N; [done|].
  cbn [forallb map] in K, N. bool_to_prop. apply NoDup_cons in N as [N1 N].
  unfold field_ok in *. bool_to_prop. unfold struct_nvs. cbn [map concat].
  pose proof (zero_takes env f c ltac:(done) ltac:(done)) as Z.
  destruct (emitted f c) as [|p r] eqn:E.
  - rewrite Z. cbn [app]. specialize (IH (pre ++ [(f, fgo c)])). rewrite <- !app_assoc in IH. now apply IH.
  - destruct Z as (v & Cv & Ev & A & P). injection Ev as -> ->. cbn [app store_struct].
    rewrite Cv in *. rewrite nv_value_canonical by done. cbn [mbind option_bind].
    rewrite set_named_at; [|done| |done|done].
    + cbn [obind]. rewrite P. specialize (IH (pre ++ [(f, fgo c)])). rewrite <- !app_assoc in IH. now apply IH.
    + rewrite !map_map. intros I. apply N1. apply list_elem_of_fmap in I as ([f1 c1] & E1 & I).
      apply list_elem_of_fmap. now exists (f1, c1).
Qed.

Lemma struct_nvs_flat fs :
  forallb (fun '(f, c) => field_ok f c && typed f c) fs = true ->
  forallb (flat ∘ snd) (struct_nvs fs) = true.
Proof.
  intros K. induction fs as [|[f c] fs IH]; [done|]. cbn [forallb] in K. bool_to_prop.
  unfold struct_nvs. cbn [map concat]. rewrite forallb_app. apply andb_true_iff. split; [|now apply IH].
  unfold emitted, typed in *. bool_to_prop.
  destruct c as [t| |nm|[] v|nm v|v]; try discriminate; cbn [content]; try done;
    repeat (case_match; try done); cbn; bool_to_prop; rewrite andb_true_r; done.
Qed.

(** The zero value of a struct type. *)
Lemma zero_struct sn fs :
  zero (typeOf (struct_go sn fs)) =
  VStruct sn (map (fun '(f, c) => (f, zero_in
    (match sn with
     | Some n => [(n, tsubst [] (typeOf (struct_go sn fs)))]
     | None => []
     end) (typeOf (fgo c)))) fs).
Proof.
  unfold zero, struct_go. cbn [typeOf zero_in tname]. f_equal. rewrite !map_map.
  apply map_ext. intros [f c]. now destruct sn.
Qed.

Lemma struct_roundtrip sn fs rest nm t :
  forallb (fun '(f, c) => field_ok f c && typed f c) fs = true -> NoDup (map (tag_name ∘ fst) fs) ->
  nvs_ok (struct_nvs fs) = true ->
  Unmarshal (packed LittleEndian (struct_nvs fs) ++ rest) (VPtr nm t (Some (zero (typeOf (struct_go sn fs)))))
  = (Ok tt, VPtr nm t (Some (struct_go sn fs))).
Proof.
  intros K N O. rewrite zero_struct.
  pose proof (Unmarshal_struct_spec LittleEndian (struct_nvs fs) rest nm t sn
    (map (fun '(f, c) => (f, zero_in (match sn with
       | Some n => [(n, tsubst [] (typeOf (struct_go sn fs)))]
       | None => [] end) (typeOf (fgo c)))) fs) O (struct_nvs_flat fs K)) as U.
  pose proof (store_fields (match sn with
    | Some n => [(n, tsubst [] (typeOf (struct_go sn fs)))]
    | None => [] end) [] fs K N) as S. cbn [app] in S. rewrite S in U. exact U.
Qed.
