(* ===== verification/NvTruncate.v ===== *)
(** * Truncated input

    A packed list that lost any number of bytes at its end is rejected: every
    missing byte belongs to the header, to a frame, whose size field the reader
    checks against the buffer, or to the zero size that ends a list. *)

From Stdlib Require Import ZArith Lia Strings.Byte Strings.String.
From stdpp Require Import base list gmap.
From S2P Require Import Prelude GoValue NvConsts NvDecode NvWire NvDecodeSpec NvEdge.

Definition is_err {A} (o : outcome A) : Prop := match o with Err _ => True | _ => False end.

Lemma is_err_bind {S A B} (c : go S A) (k : A -> go S B) s :
  is_err (fst (c s)) -> is_err (fst (gbind c k s)).
Proof. unfold gbind. now destruct (c s) as [[] ?]. Qed.

Lemma has_at_prefix data lost p bs :
  has_at (data ++ lost) p bs -> p + blen bs <= blen data -> has_at data p bs.
Proof.
  intros (pre & post & E & ->) L. exists pre, (drop (length (pre ++ bs)) data). split; [|done].
  rewrite app_assoc. rewrite <- (take_drop (length (pre ++ bs)) data) at 1. f_equal.
  rewrite app_assoc in E. apply (f_equal (take (length (pre ++ bs)))) in E.
  rewrite take_app_length in E. rewrite take_app_le in E; [done|].
  unfold blen in L. rewrite length_app. lia.
Qed.

Section cut.
Context (data lost : list byte) (o : ByteOrder) (fl ver : Z).
Abbreviation R := (rd data o fl ver).
Abbreviation full := (data ++ lost).

Lemma nextPair_short cur : 0 <= cur -> blen data < cur + 4 -> is_err (fst (nextPair (R cur))).
Proof.
  intros C L. unfold nextPair, gbind at 1, gget. apply is_err_bind.
  pose proof (list_readInt_short data cur o EncodingNative fl ver KInt32 eq_refl C) as H. cbv zeta in H.
  unfold rd. destruct (blen data <=? cur); [now rewrite H|].
  destruct (Z.ltb_spec (blen data) (cur + 4)); [now rewrite H|lia].
Qed.

(** The size check of the reader: a frame and the four bytes after it. *)
Lemma nextPair_cut cur name ty n d :
  has_at full cur (frame o name ty n d) -> frame_size name d < 2 ^ 31 ->
  blen data < cur + frame_size name d + 4 -> is_err (fst (nextPair (R cur))).
Proof.
  intros H B L. pose proof (has_at_bound _ _ _ H) as [C _].
  destruct (Z.ltb_spec (blen data) (cur + 4)); [now apply nextPair_short|].
  pose proof (frame_size_bounds name d) as [S _].
  unfold frame, pair_header in H. rewrite <- !app_assoc in H. apply has_at_split in H as [H _].
  apply has_at_prefix in H; [|rewrite blen_put_int; cbn [isize]; lia].
  unfold nextPair, gbind at 1, gget.
  erewrite gbind_ok by (apply list_readInt; [exact H|apply size_in_range; lia]).
  decide_false (frame_size name d <? 0). decide_false (frame_size name d =? 0).
  unfold gbind at 1. cbn [r_nvlist r_currentByte rd]. change (Z.of_nat (isize KInt32)) with 4.
  now decide_true (blen data <? frame_size name d + (cur + 4)).
Qed.

(** [loop] fails on every list at or after [lo] that is cut off. *)
Definition cut (loop : bool -> gmap gostring nat -> go rstate unit) (lo : Z) : Prop :=
  forall cur l m addr idx,
    has_at full cur (wire o l) -> nvs_ok l = true -> lo <= cur <= blen data ->
    blen data < cur + blen (wire o l) -> is_err (fst (loop addr idx (vAnyMap m, R cur))).

Lemma on_fresh_cut loop lo cur l v addr :
  cut loop lo -> has_at full cur (wire o l) -> nvs_ok l = true -> lo <= cur <= blen data ->
  blen data < cur + blen (wire o l) ->
  is_err (fst (on_fresh (vAnyMap []) (enter loop addr) (v, R cur))).
Proof.
  intros D H K L B. unfold on_fresh. cbn [snd fst]. rewrite enter_map.
  specialize (D cur l [] addr ∅ H K L B).
  now destruct (loop addr ∅ _) as [[] [? ?]].
Qed.

Lemma readElems_cut loop lo cur ls v :
  cut loop lo -> decodes data o fl ver loop lo ->
  has_at full cur (concat (map (wire o) ls)) -> forallb nvs_ok ls = true -> lo <= cur <= blen data ->
  blen data < cur + blen (concat (map (wire o) ls)) ->
  is_err (fst (readElems (enter loop) (length ls) (v, R cur))).
Proof.
  intros C D. revert cur. induction ls as [|l ls IH]; intros cur H K L B;
    cbn [length readElems map concat forallb] in *; [rewrite blen_nil in B; lia|].
  apply has_at_split in H as [H1 H2]. apply andb_true_iff in K as [K1 K2].
  pose proof (blen_nonneg (wire o l)). rewrite blen_app in B.
  destruct (Z.ltb_spec (blen data) (cur + blen (wire o l))) as [T|T].
  - apply is_err_bind. now apply on_fresh_cut with lo l.
  - pose proof (has_at_prefix _ _ _ _ H1 T) as H1'.
    erewrite gbind_ok by (eapply on_fresh_decodes; [exact D|exact H1'|done|lia]).
    apply is_err_bind. apply IH; [done|done|lia|lia].
Qed.

Lemma storePair_cut loop lo cur name v m addr idx :
  cut loop lo -> decodes data o fl ver loop lo ->
  has_at full cur (trailer o v) -> nv_ok v = true -> lo <= cur <= blen data ->
  blen data < cur + blen (trailer o v) ->
  is_err (fst (storePair (enter loop) addr idx name (pv_of v) (vAnyMap m, R cur))).
Proof.
  intros C D H K L B.
  destruct v; cbn [trailer] in B; try (rewrite blen_nil in B; lia).
  - change (trailer o (NNvlist l)) with (wire o l) in *.
    unfold pv_of, storePair. rewrite readNvlist_any. apply is_err_bind.
    now apply on_fresh_cut with lo l.
  - rewrite trailer_array in H. rewrite nv_ok_array in K.
    unfold pv_of, storePair, readNvlistArray, gbind at 1, gget. cbn [fst vAnyMap].
    replace (Z.to_nat (blen ls)) with (length ls) by (unfold blen; lia).
    apply is_err_bind. now apply readElems_cut with lo.
Qed.

Lemma readLoop_cut fuel : forall lo, blen data - lo < Z.of_nat fuel -> cut (readLoop fuel) lo.
Proof.
  induction fuel as [|fuel IH]; intros lo F cur l m addr idx H K L B; [lia|].
  pose proof (has_at_bound _ _ _ H) as [C _].
  destruct l as [|[name v] l].
  - cbn [readLoop]. apply is_err_bind. unfold on_reader. cbn [snd fst].
    pose proof (nextPair_short cur C ltac:(rewrite wire_nil, blen_zeros in B; lia)) as N.
    now destruct (nextPair (R cur)) as [[] ?].
  - rewrite wire_cons in *. rewrite nvs_ok_cons in K. bool_to_prop.
    match goal with X : frame_fits name v = true |- _ => pose proof X as FF end.
    unfold frame_fits in FF. bool_to_prop.
    pose proof (frame_size_data name _ _ (blen_payload o v)) as FS.
    apply has_at_split in H as [Hf H]. rewrite !blen_app in B.
    rewrite blen_pair_frame, <- FS in *. set (size := frame_size name (payload o v)) in *.
    pose proof (frame_size_bounds name (payload o v)) as [Hs _]. fold size in Hs.
    destruct (Z.ltb_spec (blen data) (cur + size + 4)) as [T|T].
    { cbn [readLoop]. apply is_err_bind. unfold on_reader. cbn [snd fst].
      pose proof (nextPair_cut cur name _ _ _ Hf ltac:(fold size; lia) T) as N.
      now destruct (nextPair (R cur)) as [[] ?]. }
    assert (Hd : exists post, has_at data cur (pair_frame o name v ++ post) /\ 4 <= blen post).
    { apply has_at_prefix in Hf as (pre & post & E & P); [|rewrite blen_pair_frame, <- FS; fold size; lia].
      exists post. split; [exists pre, []; now rewrite app_nil_r|].
      apply (f_equal blen) in E. rewrite !blen_app, blen_pair_frame, <- FS in E. fold size in E. lia. }
    destruct Hd as (post & Hd & Lp).
    rewrite (readLoop_step data o fl ver fuel addr idx (vAnyMap m) cur name v post Hd Lp);
      [fold size|done|done].
    pose proof (has_at_split _ _ _ _ H) as [Ht Hw].
    assert (Dc : decodes data o fl ver (readLoop fuel) (cur + size)) by (apply readLoop_decodes; lia).
    destruct (Z.ltb_spec (blen data) (cur + size + blen (trailer o v))) as [T2|T2].
    + apply is_err_bind. apply storePair_cut with (cur + size); [apply IH; lia|done|done|done|lia|done].
    + pose proof (has_at_prefix _ _ _ _ Ht T2) as Ht'.
      erewrite gbind_ok by (apply storePair_decodes with (cur + size); [done|exact Ht'|done|lia]).
      pose proof (blen_nonneg (trailer o v)).
      apply (IH (cur + size)) with l; [lia|exact Hw|done|lia|lia].
Qed.
End cut.

Lemma header_error_short o l n :
  (n < 12)%nat -> is_Some (header_error (take n (packed o l))).
Proof.
  intros N. unfold packed, stream_header.
  destruct o; do 12 (destruct n as [|n]; [eexists; reflexivity|]); lia.
Qed.

(** The loop on a cut list, after the header: from here on an empty map behind
    an interface and a map of the caller's behave alike. *)
Lemma cut_loop o l n m addr idx :
  nvs_ok l = true -> Z.of_nat n < blen (packed o l) -> (12 <= n)%nat ->
  let data := take n (packed o l) in
  nvlistReader.readNvHeader (NvlistReader data 0 None EncodingNative 0 0)
    = (Ok tt, rd data o uniqueNameFlag 0 12) /\
  is_err (fst (readLoop (S (length data)) addr idx (vAnyMap m, rd data o uniqueNameFlag 0 12))).
Proof.
  intros K B N data. set (lost := drop n (packed o l)).
  assert (E : data ++ lost = packed o l) by apply take_drop.
  assert (Ld : blen data = Z.of_nat n) by (unfold data, blen in *; rewrite length_take; lia).
  assert (H : has_at (data ++ lost) 0 (packed o l)).
  { exists [], []. rewrite E. now rewrite app_nil_r. }
  unfold packed in H at 1. apply has_at_split in H as [Hh Hw]. rewrite blen_stream_header in *.
  apply has_at_prefix in Hh; [|rewrite blen_stream_header; lia].
  split; [now rewrite (readNvHeader_spec o)|].
  unfold packed in B. rewrite blen_app, blen_stream_header in B.
  exact (readLoop_cut data lost o uniqueNameFlag 0 (S (length data)) 12 ltac:(unfold blen; lia)
    12 l m addr idx Hw K ltac:(lia) ltac:(lia)).
Qed.

(** Truncation into an [interface{}] variable and into a made map. *)
Lemma Unmarshal_cut o l n v :
  nvs_ok l = true -> Z.of_nat n < blen (packed o l) ->
  (exists old, v = vIfacePtr old) \/ (exists m, v = vAnyMap m) ->
  is_err (fst (Unmarshal (take n (packed o l)) v)).
Proof.
  intros K B T. destruct (Nat.lt_ge_cases n 12) as [N|N].
  { destruct (header_error_short o l n N) as [e E]. now rewrite (Unmarshal_header_error _ _ e E). }
  unfold Unmarshal. destruct T as [[old ->]|[m ->]].
  - destruct (cut_loop o l n [] false (structFieldByName (vAnyMap [])) K B N) as [Hh C].
    erewrite gbind_ok by (unfold on_reader; cbn [snd fst]; now rewrite Hh).
    unfold readPairs, enter. cbn [fst resolveTarget vIfacePtr]. unfold on_target. cbn [snd].
    now destruct (readLoop _ _ _ _) as [[] [? ?]].
  - destruct (cut_loop o l n m false ∅ K B N) as [Hh C].
    erewrite gbind_ok by (unfold on_reader; cbn [snd fst]; now rewrite Hh).
    unfold readPairs. rewrite enter_map. now destruct (readLoop _ _ _ _) as [[] [? ?]].
Qed.
