(* ===== verification/IoctlTypes.v ===== *)
(** * ioctl/types.go, types_most.go, types_freebsd.go: the command structure

    [Cmd] and the structures inside it field by field, the ioctl numbers and
    the small enumerations. Fixed-size byte arrays are byte lists whose
    length the zero value fixes. *)

From Stdlib Require Import ZArith Lia Strings.Byte Strings.String.
From stdpp Require Import base list gmap.
From S2P Require Import Prelude GoValue.

(** The zero value of a [[n]byte] and of an array of [n] integers. *)
Definition zero_bytes (n : Z) : list byte := replicate (Z.to_nat n) x00.
Definition zero_ints (n : Z) : list Z := replicate (Z.to_nat n) 0.

(** [struct DMUObjectSetStats] *)
Record DMUObjectSetStats := MkDMUObjectSetStats {
  dds_Num_clones : Z; (* uint64 *)
  dds_Creation_txg : Z; (* uint64 *)
  dds_Guid : Z; (* uint64 *)
  dds_Type : Z; (* uint32 *)
  dds_Is_snapshot : Z; (* uint8 *)
  dds_Inconsistent : Z; (* uint8 *)
  dds_Origin : list byte; (* [256]byte *)
  dds_Pad_cgo_0 : list byte (* [2]byte *)
}.

Definition zeroDMUObjectSetStats : DMUObjectSetStats :=
  MkDMUObjectSetStats 0 0 0 0 0 0 (zero_bytes 256) (zero_bytes 2).

(** [struct ZInjectRecord] *)
Record ZInjectRecord := MkZInjectRecord {
  zi_Objset : Z; (* uint64 *)
  zi_Object : Z; (* uint64 *)
  zi_Start : Z; (* uint64 *)
  zi_End : Z; (* uint64 *)
  zi_Guid : Z; (* uint64 *)
  zi_Level : Z; (* uint32 *)
  zi_Error : Z; (* uint32 *)
  zi_Type : Z; (* uint64 *)
  zi_Freq : Z; (* uint32 *)
  zi_Failfast : Z; (* uint32 *)
  zi_Func : list Z; (* [255]int8 *)
  zi_Pad_cgo_0 : list byte; (* [1]byte *)
  zi_Iotype : Z; (* uint32 *)
  zi_Duration : Z; (* int32 *)
  zi_Timer : Z; (* uint64 *)
  zi_Nlanes : Z; (* uint64 *)
  zi_Cmd : Z; (* uint32 *)
  zi_Pad : Z (* uint32 *)
}.

Definition zeroZInjectRecord : ZInjectRecord :=
  MkZInjectRecord 0 0 0 0 0 0 0 0 0 0 (zero_ints 255) (zero_bytes 1) 0 0 0 0 0 0.

(** [struct Share] *)
Record Share := MkShare {
  sh_Exportdata : Z; (* uint64 *)
  sh_Sharedata : Z; (* uint64 *)
  sh_Sharetype : Z; (* uint64 *)
  sh_Sharemax : Z (* uint64 *)
}.

Definition zeroShare : Share :=
  MkShare 0 0 0 0.

(** [struct Stat] *)
Record Stat := MkStat {
  zs_Gen : Z; (* uint64 *)
  zs_Mode : Z; (* uint64 *)
  zs_Links : Z; (* uint64 *)
  zs_Ctime : list Z (* [2]uint64 *)
}.

Definition zeroStat : Stat :=
  MkStat 0 0 0 (zero_ints 2).

(** [struct DRRBegin] *)
Record DRRBegin := MkDRRBegin {
  drr_Magic : Z; (* uint64 *)
  drr_Versioninfo : Z; (* uint64 *)
  drr_Creation_time : Z; (* uint64 *)
  drr_Type : Z; (* uint32 *)
  drr_Flags : Z; (* uint32 *)
  drr_Toguid : Z; (* uint64 *)
  drr_Fromguid : Z; (* uint64 *)
  drr_Toname : list Z; (* [255]int8 *)
  drr_Pad_cgo_0 : list byte (* [1]byte *)
}.

Definition zeroDRRBegin : DRRBegin :=
  MkDRRBegin 0 0 0 0 0 0 0 (zero_ints 255) (zero_bytes 1).

(** [struct Cmd] *)
Record Cmd := MkCmd {
  zc_Name : list byte; (* [4096]byte *)
  zc_Nvlist_src : Z; (* uint64 *)
  zc_Nvlist_src_size : Z; (* uint64 *)
  zc_Nvlist_dst : Z; (* uint64 *)
  zc_Nvlist_dst_size : Z; (* uint64 *)
  zc_Nvlist_dst_filled : bool;
  zc_Pad_cgo_0 : list byte; (* [3]byte *)
  zc_Pad2 : Z; (* int32 *)
  zc_History : Z; (* uint64 *)
  zc_Value : list byte; (* [8192]byte *)
  zc_String : list byte; (* [256]byte *)
  zc_Guid : Z; (* uint64 *)
  zc_Nvlist_conf : Z; (* uint64 *)
  zc_Nvlist_conf_size : Z; (* uint64 *)
  zc_Cookie : Z; (* uint64 *)
  zc_Objset_type : Z; (* uint64 *)
  zc_Perm_action : Z; (* uint64 *)
  zc_History_len : Z; (* uint64 *)
  zc_History_offset : Z; (* uint64 *)
  zc_Obj : Z; (* uint64 *)
  zc_Iflags : Z; (* uint64 *)
  zc_Share : Share;
  zc_Objset_stats : DMUObjectSetStats;
  zc_Begin_record : DRRBegin;
  zc_Inject_record : ZInjectRecord;
  zc_Defer_destroy : Z; (* uint32 *)
  zc_Flags : Z; (* uint32 *)
  zc_Action_handle : Z; (* uint64 *)
  zc_Cleanup_fd : Z; (* int32 *)
  zc_Simple : Z; (* uint8 *)
  zc_Pad : list byte; (* [3]uint8 *)
  zc_Sendobj : Z; (* uint64 *)
  zc_Fromobj : Z; (* uint64 *)
  zc_Createtxg : Z; (* uint64 *)
  zc_Stat : Stat
}.

Definition zeroCmd : Cmd :=
  MkCmd (zero_bytes 4096) 0 0 0 0 false (zero_bytes 3) 0 0 (zero_bytes 8192) (zero_bytes 256) 0 0 0 0 0 0 0 0 0 0 zeroShare zeroDMUObjectSetStats zeroDRRBegin zeroZInjectRecord 0 0 0 0 0 (zero_bytes 3) 0 0 0 zeroStat.

Definition set_Name (x : list byte) (c : Cmd) : Cmd :=
  MkCmd x (zc_Nvlist_src c) (zc_Nvlist_src_size c) (zc_Nvlist_dst c) (zc_Nvlist_dst_size c) (zc_Nvlist_dst_filled c) (zc_Pad_cgo_0 c) (zc_Pad2 c) (zc_History c) (zc_Value c) (zc_String c) (zc_Guid c) (zc_Nvlist_conf c) (zc_Nvlist_conf_size c) (zc_Cookie c) (zc_Objset_type c) (zc_Perm_action c) (zc_History_len c) (zc_History_offset c) (zc_Obj c) (zc_Iflags c) (zc_Share c) (zc_Objset_stats c) (zc_Begin_record c) (zc_Inject_record c) (zc_Defer_destroy c) (zc_Flags c) (zc_Action_handle c) (zc_Cleanup_fd c) (zc_Simple c) (zc_Pad c) (zc_Sendobj c) (zc_Fromobj c) (zc_Createtxg c) (zc_Stat c).
Definition set_Nvlist_src (x : Z) (c : Cmd) : Cmd :=
  MkCmd (zc_Name c) x (zc_Nvlist_src_size c) (zc_Nvlist_dst c) (zc_Nvlist_dst_size c) (zc_Nvlist_dst_filled c) (zc_Pad_cgo_0 c) (zc_Pad2 c) (zc_History c) (zc_Value c) (zc_String c) (zc_Guid c) (zc_Nvlist_conf c) (zc_Nvlist_conf_size c) (zc_Cookie c) (zc_Objset_type c) (zc_Perm_action c) (zc_History_len c) (zc_History_offset c) (zc_Obj c) (zc_Iflags c) (zc_Share c) (zc_Objset_stats c) (zc_Begin_record c) (zc_Inject_record c) (zc_Defer_destroy c) (zc_Flags c) (zc_Action_handle c) (zc_Cleanup_fd c) (zc_Simple c) (zc_Pad c) (zc_Sendobj c) (zc_Fromobj c) (zc_Createtxg c) (zc_Stat c).
Definition set_Nvlist_src_size (x : Z) (c : Cmd) : Cmd :=
  MkCmd (zc_Name c) (zc_Nvlist_src c) x (zc_Nvlist_dst c) (zc_Nvlist_dst_size c) (zc_Nvlist_dst_filled c) (zc_Pad_cgo_0 c) (zc_Pad2 c) (zc_History c) (zc_Value c) (zc_String c) (zc_Guid c) (zc_Nvlist_conf c) (zc_Nvlist_conf_size c) (zc_Cookie c) (zc_Objset_type c) (zc_Perm_action c) (zc_History_len c) (zc_History_offset c) (zc_Obj c) (zc_Iflags c) (zc_Share c) (zc_Objset_stats c) (zc_Begin_record c) (zc_Inject_record c) (zc_Defer_destroy c) (zc_Flags c) (zc_Action_handle c) (zc_Cleanup_fd c) (zc_Simple c) (zc_Pad c) (zc_Sendobj c) (zc_Fromobj c) (zc_Createtxg c) (zc_Stat c).
Definition set_Nvlist_dst (x : Z) (c : Cmd) : Cmd :=
  MkCmd (zc_Name c) (zc_Nvlist_src c) (zc_Nvlist_src_size c) x (zc_Nvlist_dst_size c) (zc_Nvlist_dst_filled c) (zc_Pad_cgo_0 c) (zc_Pad2 c) (zc_History c) (zc_Value c) (zc_String c) (zc_Guid c) (zc_Nvlist_conf c) (zc_Nvlist_conf_size c) (zc_Cookie c) (zc_Objset_type c) (zc_Perm_action c) (zc_History_len c) (zc_History_offset c) (zc_Obj c) (zc_Iflags c) (zc_Share c) (zc_Objset_stats c) (zc_Begin_record c) (zc_Inject_record c) (zc_Defer_destroy c) (zc_Flags c) (zc_Action_handle c) (zc_Cleanup_fd c) (zc_Simple c) (zc_Pad c) (zc_Sendobj c) (zc_Fromobj c) (zc_Createtxg c) (zc_Stat c).
Definition set_Nvlist_dst_size (x : Z) (c : Cmd) : Cmd :=
  MkCmd (zc_Name c) (zc_Nvlist_src c) (zc_Nvlist_src_size c) (zc_Nvlist_dst c) x (zc_Nvlist_dst_filled c) (zc_Pad_cgo_0 c) (zc_Pad2 c) (zc_History c) (zc_Value c) (zc_String c) (zc_Guid c) (zc_Nvlist_conf c) (zc_Nvlist_conf_size c) (zc_Cookie c) (zc_Objset_type c) (zc_Perm_action c) (zc_History_len c) (zc_History_offset c) (zc_Obj c) (zc_Iflags c) (zc_Share c) (zc_Objset_stats c) (zc_Begin_record c) (zc_Inject_record c) (zc_Defer_destroy c) (zc_Flags c) (zc_Action_handle c) (zc_Cleanup_fd c) (zc_Simple c) (zc_Pad c) (zc_Sendobj c) (zc_Fromobj c) (zc_Createtxg c) (zc_Stat c).
Definition set_Nvlist_conf (x : Z) (c : Cmd) : Cmd :=
  MkCmd (zc_Name c) (zc_Nvlist_src c) (zc_Nvlist_src_size c) (zc_Nvlist_dst c) (zc_Nvlist_dst_size c) (zc_Nvlist_dst_filled c) (zc_Pad_cgo_0 c) (zc_Pad2 c) (zc_History c) (zc_Value c) (zc_String c) (zc_Guid c) x (zc_Nvlist_conf_size c) (zc_Cookie c) (zc_Objset_type c) (zc_Perm_action c) (zc_History_len c) (zc_History_offset c) (zc_Obj c) (zc_Iflags c) (zc_Share c) (zc_Objset_stats c) (zc_Begin_record c) (zc_Inject_record c) (zc_Defer_destroy c) (zc_Flags c) (zc_Action_handle c) (zc_Cleanup_fd c) (zc_Simple c) (zc_Pad c) (zc_Sendobj c) (zc_Fromobj c) (zc_Createtxg c) (zc_Stat c).
Definition set_Nvlist_conf_size (x : Z) (c : Cmd) : Cmd :=
  MkCmd (zc_Name c) (zc_Nvlist_src c) (zc_Nvlist_src_size c) (zc_Nvlist_dst c) (zc_Nvlist_dst_size c) (zc_Nvlist_dst_filled c) (zc_Pad_cgo_0 c) (zc_Pad2 c) (zc_History c) (zc_Value c) (zc_String c) (zc_Guid c) (zc_Nvlist_conf c) x (zc_Cookie c) (zc_Objset_type c) (zc_Perm_action c) (zc_History_len c) (zc_History_offset c) (zc_Obj c) (zc_Iflags c) (zc_Share c) (zc_Objset_stats c) (zc_Begin_record c) (zc_Inject_record c) (zc_Defer_destroy c) (zc_Flags c) (zc_Action_handle c) (zc_Cleanup_fd c) (zc_Simple c) (zc_Pad c) (zc_Sendobj c) (zc_Fromobj c) (zc_Createtxg c) (zc_Stat c).
Definition set_Cookie (x : Z) (c : Cmd) : Cmd :=
  MkCmd (zc_Name c) (zc_Nvlist_src c) (zc_Nvlist_src_size c) (zc_Nvlist_dst c) (zc_Nvlist_dst_size c) (zc_Nvlist_dst_filled c) (zc_Pad_cgo_0 c) (zc_Pad2 c) (zc_History c) (zc_Value c) (zc_String c) (zc_Guid c) (zc_Nvlist_conf c) (zc_Nvlist_conf_size c) x (zc_Objset_type c) (zc_Perm_action c) (zc_History_len c) (zc_History_offset c) (zc_Obj c) (zc_Iflags c) (zc_Share c) (zc_Objset_stats c) (zc_Begin_record c) (zc_Inject_record c) (zc_Defer_destroy c) (zc_Flags c) (zc_Action_handle c) (zc_Cleanup_fd c) (zc_Simple c) (zc_Pad c) (zc_Sendobj c) (zc_Fromobj c) (zc_Createtxg c) (zc_Stat c).
Definition set_Value (x : list byte) (c : Cmd) : Cmd :=
  MkCmd (zc_Name c) (zc_Nvlist_src c) (zc_Nvlist_src_size c) (zc_Nvlist_dst c) (zc_Nvlist_dst_size c) (zc_Nvlist_dst_filled c) (zc_Pad_cgo_0 c) (zc_Pad2 c) (zc_History c) x (zc_String c) (zc_Guid c) (zc_Nvlist_conf c) (zc_Nvlist_conf_size c) (zc_Cookie c) (zc_Objset_type c) (zc_Perm_action c) (zc_History_len c) (zc_History_offset c) (zc_Obj c) (zc_Iflags c) (zc_Share c) (zc_Objset_stats c) (zc_Begin_record c) (zc_Inject_record c) (zc_Defer_destroy c) (zc_Flags c) (zc_Action_handle c) (zc_Cleanup_fd c) (zc_Simple c) (zc_Pad c) (zc_Sendobj c) (zc_Fromobj c) (zc_Createtxg c) (zc_Stat c).
Definition set_Guid (x : Z) (c : Cmd) : Cmd :=
  MkCmd (zc_Name c) (zc_Nvlist_src c) (zc_Nvlist_src_size c) (zc_Nvlist_dst c) (zc_Nvlist_dst_size c) (zc_Nvlist_dst_filled c) (zc_Pad_cgo_0 c) (zc_Pad2 c) (zc_History c) (zc_Value c) (zc_String c) x (zc_Nvlist_conf c) (zc_Nvlist_conf_size c) (zc_Cookie c) (zc_Objset_type c) (zc_Perm_action c) (zc_History_len c) (zc_History_offset c) (zc_Obj c) (zc_Iflags c) (zc_Share c) (zc_Objset_stats c) (zc_Begin_record c) (zc_Inject_record c) (zc_Defer_destroy c) (zc_Flags c) (zc_Action_handle c) (zc_Cleanup_fd c) (zc_Simple c) (zc_Pad c) (zc_Sendobj c) (zc_Fromobj c) (zc_Createtxg c) (zc_Stat c).
Definition set_Objset_type (x : Z) (c : Cmd) : Cmd :=
  MkCmd (zc_Name c) (zc_Nvlist_src c) (zc_Nvlist_src_size c) (zc_Nvlist_dst c) (zc_Nvlist_dst_size c) (zc_Nvlist_dst_filled c) (zc_Pad_cgo_0 c) (zc_Pad2 c) (zc_History c) (zc_Value c) (zc_String c) (zc_Guid c) (zc_Nvlist_conf c) (zc_Nvlist_conf_size c) (zc_Cookie c) x (zc_Perm_action c) (zc_History_len c) (zc_History_offset c) (zc_Obj c) (zc_Iflags c) (zc_Share c) (zc_Objset_stats c) (zc_Begin_record c) (zc_Inject_record c) (zc_Defer_destroy c) (zc_Flags c) (zc_Action_handle c) (zc_Cleanup_fd c) (zc_Simple c) (zc_Pad c) (zc_Sendobj c) (zc_Fromobj c) (zc_Createtxg c) (zc_Stat c).
Definition set_Flags (x : Z) (c : Cmd) : Cmd :=
  MkCmd (zc_Name c) (zc_Nvlist_src c) (zc_Nvlist_src_size c) (zc_Nvlist_dst c) (zc_Nvlist_dst_size c) (zc_Nvlist_dst_filled c) (zc_Pad_cgo_0 c) (zc_Pad2 c) (zc_History c) (zc_Value c) (zc_String c) (zc_Guid c) (zc_Nvlist_conf c) (zc_Nvlist_conf_size c) (zc_Cookie c) (zc_Objset_type c) (zc_Perm_action c) (zc_History_len c) (zc_History_offset c) (zc_Obj c) (zc_Iflags c) (zc_Share c) (zc_Objset_stats c) (zc_Begin_record c) (zc_Inject_record c) (zc_Defer_destroy c) x (zc_Action_handle c) (zc_Cleanup_fd c) (zc_Simple c) (zc_Pad c) (zc_Sendobj c) (zc_Fromobj c) (zc_Createtxg c) (zc_Stat c).

(** [Ioctl]: the command constants, in declaration order. *)
Inductive Ioctl :=
| ZFS_IOC_POOL_CREATE | ZFS_IOC_POOL_DESTROY | ZFS_IOC_POOL_IMPORT |
  ZFS_IOC_POOL_EXPORT | ZFS_IOC_POOL_CONFIGS | ZFS_IOC_POOL_STATS |
  ZFS_IOC_POOL_TRYIMPORT | ZFS_IOC_POOL_SCAN | ZFS_IOC_POOL_FREEZE |
  ZFS_IOC_POOL_UPGRADE | ZFS_IOC_POOL_GET_HISTORY | ZFS_IOC_VDEV_ADD |
  ZFS_IOC_VDEV_REMOVE | ZFS_IOC_VDEV_SET_STATE | ZFS_IOC_VDEV_ATTACH |
  ZFS_IOC_VDEV_DETACH | ZFS_IOC_VDEV_SETPATH | ZFS_IOC_VDEV_SETFRU |
  ZFS_IOC_OBJSET_STATS | ZFS_IOC_OBJSET_ZPLPROPS | ZFS_IOC_DATASET_LIST_NEXT |
  ZFS_IOC_SNAPSHOT_LIST_NEXT | ZFS_IOC_SET_PROP | ZFS_IOC_CREATE | ZFS_IOC_DESTROY |
  ZFS_IOC_ROLLBACK | ZFS_IOC_RENAME | ZFS_IOC_RECV | ZFS_IOC_SEND |
  ZFS_IOC_INJECT_FAULT | ZFS_IOC_CLEAR_FAULT | ZFS_IOC_INJECT_LIST_NEXT |
  ZFS_IOC_ERROR_LOG | ZFS_IOC_CLEAR | ZFS_IOC_PROMOTE | ZFS_IOC_SNAPSHOT |
  ZFS_IOC_DSOBJ_TO_DSNAME | ZFS_IOC_OBJ_TO_PATH | ZFS_IOC_POOL_SET_PROPS |
  ZFS_IOC_POOL_GET_PROPS | ZFS_IOC_SET_FSACL | ZFS_IOC_GET_FSACL | ZFS_IOC_SHARE |
  ZFS_IOC_INHERIT_PROP | ZFS_IOC_SMB_ACL | ZFS_IOC_USERSPACE_ONE |
  ZFS_IOC_USERSPACE_MANY | ZFS_IOC_USERSPACE_UPGRADE | ZFS_IOC_HOLD | ZFS_IOC_RELEASE |
  ZFS_IOC_GET_HOLDS | ZFS_IOC_OBJSET_RECVD_PROPS | ZFS_IOC_VDEV_SPLIT |
  ZFS_IOC_NEXT_OBJ | ZFS_IOC_DIFF | ZFS_IOC_TMP_SNAPSHOT | ZFS_IOC_OBJ_TO_STATS |
  ZFS_IOC_SPACE_WRITTEN | ZFS_IOC_SPACE_SNAPS | ZFS_IOC_DESTROY_SNAPS |
  ZFS_IOC_POOL_REGUID | ZFS_IOC_POOL_REOPEN | ZFS_IOC_SEND_PROGRESS |
  ZFS_IOC_LOG_HISTORY | ZFS_IOC_SEND_NEW | ZFS_IOC_SEND_SPACE | ZFS_IOC_CLONE |
  ZFS_IOC_BOOKMARK | ZFS_IOC_GET_BOOKMARKS | ZFS_IOC_DESTROY_BOOKMARKS |
  ZFS_IOC_RECV_NEW | ZFS_IOC_POOL_SYNC.

#[global] Instance Ioctl_eq_dec : EqDecision Ioctl.
Proof. solve_decision. Defined.

Definition ioctls : list Ioctl :=
  [ZFS_IOC_POOL_CREATE; ZFS_IOC_POOL_DESTROY; ZFS_IOC_POOL_IMPORT; ZFS_IOC_POOL_EXPORT;
  ZFS_IOC_POOL_CONFIGS; ZFS_IOC_POOL_STATS; ZFS_IOC_POOL_TRYIMPORT; ZFS_IOC_POOL_SCAN;
  ZFS_IOC_POOL_FREEZE; ZFS_IOC_POOL_UPGRADE; ZFS_IOC_POOL_GET_HISTORY; ZFS_IOC_VDEV_ADD;
  ZFS_IOC_VDEV_REMOVE; ZFS_IOC_VDEV_SET_STATE; ZFS_IOC_VDEV_ATTACH; ZFS_IOC_VDEV_DETACH;
  ZFS_IOC_VDEV_SETPATH; ZFS_IOC_VDEV_SETFRU; ZFS_IOC_OBJSET_STATS;
  ZFS_IOC_OBJSET_ZPLPROPS; ZFS_IOC_DATASET_LIST_NEXT; ZFS_IOC_SNAPSHOT_LIST_NEXT;
  ZFS_IOC_SET_PROP; ZFS_IOC_CREATE; ZFS_IOC_DESTROY; ZFS_IOC_ROLLBACK; ZFS_IOC_RENAME;
  ZFS_IOC_RECV; ZFS_IOC_SEND; ZFS_IOC_INJECT_FAULT; ZFS_IOC_CLEAR_FAULT;
  ZFS_IOC_INJECT_LIST_NEXT; ZFS_IOC_ERROR_LOG; ZFS_IOC_CLEAR; ZFS_IOC_PROMOTE;
  ZFS_IOC_SNAPSHOT; ZFS_IOC_DSOBJ_TO_DSNAME; ZFS_IOC_OBJ_TO_PATH; ZFS_IOC_POOL_SET_PROPS;
  ZFS_IOC_POOL_GET_PROPS; ZFS_IOC_SET_FSACL; ZFS_IOC_GET_FSACL; ZFS_IOC_SHARE;
  ZFS_IOC_INHERIT_PROP; ZFS_IOC_SMB_ACL; ZFS_IOC_USERSPACE_ONE; ZFS_IOC_USERSPACE_MANY;
  ZFS_IOC_USERSPACE_UPGRADE; ZFS_IOC_HOLD; ZFS_IOC_RELEASE; ZFS_IOC_GET_HOLDS;
  ZFS_IOC_OBJSET_RECVD_PROPS; ZFS_IOC_VDEV_SPLIT; ZFS_IOC_NEXT_OBJ; ZFS_IOC_DIFF;
  ZFS_IOC_TMP_SNAPSHOT; ZFS_IOC_OBJ_TO_STATS; ZFS_IOC_SPACE_WRITTEN; ZFS_IOC_SPACE_SNAPS;
  ZFS_IOC_DESTROY_SNAPS; ZFS_IOC_POOL_REGUID; ZFS_IOC_POOL_REOPEN; ZFS_IOC_SEND_PROGRESS;
  ZFS_IOC_LOG_HISTORY; ZFS_IOC_SEND_NEW; ZFS_IOC_SEND_SPACE; ZFS_IOC_CLONE;
  ZFS_IOC_BOOKMARK; ZFS_IOC_GET_BOOKMARKS; ZFS_IOC_DESTROY_BOOKMARKS; ZFS_IOC_RECV_NEW;
  ZFS_IOC_POOL_SYNC].

(** The per-platform block, numbered from 0x80. *)
Inductive PlatformIoctl :=
| ZFS_IOC_PLATFORM | ZFS_IOC_EVENTS_NEXT | ZFS_IOC_EVENTS_CLEAR | ZFS_IOC_EVENTS_SEEK |
  ZFS_IOC_NEXTBOOT | ZFS_IOC_JAIL | ZFS_IOC_UNJAIL | ZFS_IOC_SET_BOOTENV |
  ZFS_IOC_GET_BOOTENV | ZFS_IOC_LAST.

Definition platform_ioctls : list PlatformIoctl :=
  [ZFS_IOC_PLATFORM; ZFS_IOC_EVENTS_NEXT; ZFS_IOC_EVENTS_CLEAR; ZFS_IOC_EVENTS_SEEK;
  ZFS_IOC_NEXTBOOT; ZFS_IOC_JAIL; ZFS_IOC_UNJAIL; ZFS_IOC_SET_BOOTENV;
  ZFS_IOC_GET_BOOTENV; ZFS_IOC_LAST].


(** [ZFS_IOC_FIRST], chosen by the build constraint. *)
Inductive platform := freebsd | not_freebsd.

Definition ZFS_IOC_FIRST (p : platform) : Z :=
  match p with freebsd => 0 | not_freebsd => Z.shiftl 90 8 (* 'Z' << 8 *) end.

(** Position in a list of constants ([iota]). *)
Fixpoint iota_of `{EqDecision A} (x : A) (l : list A) : Z :=
  match l with
  | [] => 0
  | y :: r => if bool_decide (x = y) then 0 else 1 + iota_of x r
  end.

#[global] Instance PlatformIoctl_eq_dec : EqDecision PlatformIoctl.
Proof. solve_decision. Defined.

(** The number passed to the kernel. *)
Definition ioctl_number (p : platform) (i : Ioctl) : Z := ZFS_IOC_FIRST p + iota_of i ioctls.

Definition platform_ioctl_number (p : platform) (i : PlatformIoctl) : Z :=
  ZFS_IOC_FIRST p + 128 + iota_of i platform_ioctls.

(** [ObjectType] *)
Inductive ObjectType :=
| ObjectTypeNone | ObjectTypeMeta | ObjectTypeZFS | ObjectTypeZvol | ObjectTypeOther
| ObjectTypeAny | ObjectTypeNumtypes.

Definition object_type (t : ObjectType) : Z :=
  match t with
  | ObjectTypeNone => 0 | ObjectTypeMeta => 1 | ObjectTypeZFS => 2 | ObjectTypeZvol => 3
  | ObjectTypeOther => 4 | ObjectTypeAny => 5 | ObjectTypeNumtypes => 6
  end.

(** [ScanType] and [PropSource] of wrappers.go *)
Inductive ScanType := ScanTypeNone | ScanTypeScrub | ScanTypeResilver.

Definition scan_type (t : ScanType) : Z :=
  match t with ScanTypeNone => 0 | ScanTypeScrub => 1 | ScanTypeResilver => 2 end.

Inductive PropSource :=
| PropSourceNone | PropSourceDefault | PropSourceTemporary | PropSourceLocal
| PropSourceInherited | PropSourceReceived.

(** [1 << iota] *)
Definition prop_source (s : PropSource) : Z :=
  match s with
  | PropSourceNone => Z.shiftl 1 0 | PropSourceDefault => Z.shiftl 1 1
  | PropSourceTemporary => Z.shiftl 1 2 | PropSourceLocal => Z.shiftl 1 3
  | PropSourceInherited => Z.shiftl 1 4 | PropSourceReceived => Z.shiftl 1 5
  end.

(** ** Lemmas *)

