(* ===== verification/Ioctl.v ===== *)
(** * ioctl/ioctl.go: the system call wrapper

    [NvlistIoctl] marshals the request, calls the kernel with a private copy
    of the command, retries with a larger return buffer on ENOMEM, and
    unmarshals the reply.

    The kernel is a parameter: a function from its state and one request to an
    error number, the command structure it leaves behind, the bytes it wrote
    to the return buffer, and its new state. The nvlist codec is used through
    the class [NvCodec], which [nvlist_codec] implements with [Marshal] and
    [Unmarshal]. *)

From Stdlib Require Import ZArith Lia Strings.Byte Strings.String.
From stdpp Require Import base list gmap.
From S2P Require Import Prelude GoValue NvEncode NvDecode NvEncodeTotal NvSafety.
From S2P Require Import IoctlTypes.

(** ** Names in fixed buffers (wrappers.go) *)

Fixpoint delimitedBufToString (buf : list byte) : gostring :=
  match buf with
  | [] => []
  | b :: r => if bool_decide (b = x00) then [] else b :: delimitedBufToString r
  end.

(** The lengths in the message are left out. *)
Definition errStringLonger : goerr := ErrText (str "String longer than target buffer").
Definition errStringNull : goerr :=
  ErrText (str "String contains null byte, this is unsupported by ZFS").

(** The copy loop: characters up to a zero byte go into the buffer. *)
Fixpoint copyString (s : gostring) (buf : list byte) : outcome unit * list byte :=
  match s, buf with
  | [], _ => (Ok tt, buf)
  | c :: s', b :: buf' =>
      if bool_decide (c = x00) then (Err errStringNull, buf)
      else let '(out, buf'') := copyString s' buf' in (out, c :: buf'')
  | _ :: _, [] => (Panic PIndex, [])
  end.

Definition stringToDelimitedBuf (s : gostring) (buf : list byte) : outcome unit * list byte :=
  if blen buf - 1 <? blen s then (Err errStringLonger, buf) else copyString s buf.

(** ** The contract between this package and nvlist *)

Class NvCodec := {
  codec_Marshal : option gval -> outcome (list byte);
  codec_Unmarshal : list byte -> gval -> outcome unit * gval;
  (** [&src[0]] is always defined *)
  codec_nonempty : forall v bs, codec_Marshal v = Ok bs -> bs <> [];
  codec_marshal_ends : forall v, codec_Marshal v <> OutOfFuel;
  codec_unmarshal_ends : forall bs v, fst (codec_Unmarshal bs v) <> OutOfFuel
}.

#[export] Program Instance nvlist_codec : NvCodec :=
  {| codec_Marshal := Marshal; codec_Unmarshal := Unmarshal |}.
Next Obligation.
  intros v bs H ->. pose proof (Marshal_total v) as T. rewrite H, blen_nil in T. lia.
Qed.
Next Obligation.
  intros v H. pose proof (Marshal_total v) as T. now rewrite H in T.
Qed.
Next Obligation.
  intros bs v. apply Unmarshal_ends.
Qed.

(** ** The kernel *)

(** One ioctl system call as the kernel sees it: the buffers behind the
    pointers of the command, when they were set. *)
Record kcall := KCall {
  k_fd : Z;
  k_ioctl : Z;
  k_cmd : Cmd;
  k_src : option (list byte);
  k_dst_size : option Z;
  k_conf : option (list byte)
}.

Record kreply := KReply {
  k_errno : Z;
  k_cmd' : Cmd;
  k_dst : list byte        (* what was written at the start of the return buffer *)
}.

Definition kernel (W : Type) : Type := W -> kcall -> kreply * W.

(** Addresses the Go allocator gives to the buffers of the [n]-th attempt. *)
Inductive buffer := BufSrc | BufDst | BufConf.

Definition ENOMEM : Z := 12.
Definition errTooBig : goerr :=
  ErrText (str "return buffer is bigger than 16MiB, something probably went wrong").

(** The contents of a return buffer of [size] bytes after the kernel wrote. *)
Definition filled (size : Z) (out : list byte) : list byte :=
  take (Z.to_nat size) (out ++ replicate (Z.to_nat size) x00).

Section ioctl.
Context `{NvCodec} {W : Type} (sys : kernel W) (addr : buffer -> nat -> Z).

(** The state a call can change: the caller's command, the response value and
    the kernel. *)
Record iostate := IoState { io_cmd : Cmd; io_response : option gval; io_world : W }.

Definition initial_dst : Z := 8 * 1024.
Definition max_dst : Z := 16 * 1024 * 1024.

(** [uint64(uintptr(unsafe.Pointer(&b[0])))]: panics on an empty buffer. *)
Definition pointer (b : buffer) (n : nat) (contents : list byte) : outcome Z :=
  match contents with [] => Panic PIndex | _ => Ok (addr b n) end.

(** The private command of one attempt, and the config bytes sent with it. *)
Definition prepare (name : gostring) (cmd : Cmd) (src : option (list byte)) (has_response : bool)
    (config : option gval) (attempt : nat) (dst_size : Z) : outcome (Cmd * option (list byte)) :=
  let c := if has_response
           then set_Nvlist_dst_size dst_size (set_Nvlist_dst (addr BufDst attempt) cmd) else cmd in
  obind (match src with
         | Some s => obind (pointer BufSrc 0 s) (fun p =>
             Ok (set_Nvlist_src_size (blen s) (set_Nvlist_src p c)))
         | None => Ok c
         end) (fun c =>
  obind (match config with
         | Some v => obind (codec_Marshal (Some v)) (fun raw =>
             obind (pointer BufConf attempt raw) (fun p =>
             Ok (set_Nvlist_conf_size (blen raw) (set_Nvlist_conf p c), Some raw)))
         | None => Ok (c, None)
         end) (fun '(c, raw) =>
  let '(out, name_buf) := stringToDelimitedBuf name (zc_Name c) in
  match out with
  | Panic p => Panic p
  | _ => Ok (set_Name name_buf c, raw)     (* the error is not looked at *)
  end)).

(** The retry loop; returns the filled return buffer. *)
Fixpoint ioctlLoop (fuel : nat) (fd ioctl : Z) (name : gostring) (src : option (list byte))
    (has_response : bool) (config : option gval) (attempt : nat) (dst_size : Z) :
    go iostate (list byte) :=
  match fuel with
  | O => glift OutOfFuel
  | S fuel' =>
      s <- gget ;;
      c <- glift (prepare name (io_cmd s) src has_response config attempt dst_size) ;;
      let '(reply, w) := sys (io_world s)
        (KCall fd ioctl (fst c) src (if has_response then Some dst_size else None) (snd c)) in
      gput (IoState (io_cmd s) (io_response s) w) ;;;
      if k_errno reply =? ENOMEM then
        if max_dst <=? dst_size then gerr errTooBig
        else ioctlLoop fuel' fd ioctl name src has_response config (S attempt) (dst_size * 8)
      else
        gput (IoState (k_cmd' reply) (io_response s) w) ;;;
        if negb (k_errno reply =? 0) then gerr (Errno (k_errno reply))
        else gret (filled dst_size (k_dst reply))
  end.

(** The buffer grows from 8 KiB to 32 MiB in four steps: five attempts. *)
Definition attempts : nat := 5.

Definition NvlistIoctl (fd ioctl : Z) (name : gostring) (request config : option gval) :
    go iostate unit :=
  s0 <- gget ;;
  let has_response := match io_response s0 with Some _ => true | None => false end in
  src <- glift (match request with
                | Some v => obind (codec_Marshal (Some v)) (fun b => Ok (Some b))
                | None => Ok None
                end) ;;
  dst <- ioctlLoop attempts fd ioctl name src has_response config 0 initial_dst ;;
  s <- gget ;;
  match io_response s with
  | Some v =>
      let '(out, v') := codec_Unmarshal dst v in
      gput (IoState (io_cmd s) (Some v') (io_world s)) ;;;
      glift out
  | None => gret tt
  end.
End ioctl.

#[global] Arguments iostate W : clear implicits.

(** ** Lemmas on fixed buffers *)

Lemma delimited_prefix s rest :
  Forall (fun c => c <> x00) s -> delimitedBufToString (s ++ x00 :: rest) = s.
Proof.
  induction 1 as [|c s Hc N IH]; cbn; [done|].
  rewrite bool_decide_eq_false_2 by done. now rewrite IH.
Qed.

Lemma stringToDelimitedBuf_no_panic s buf :
  match fst (stringToDelimitedBuf s buf) with Ok _ | Err _ => True | _ => False end.
Proof.
  unfold stringToDelimitedBuf. destruct (Z.ltb_spec (blen buf - 1) (blen s)); [done|].
  assert (L : (length s <= length buf)%nat) by (unfold blen in *; lia). clear H.
  revert buf L. induction s as [|c s IH]; intros [|b buf] L; cbn in *; try lia; try done.
  case_bool_decide; [done|]. specialize (IH buf ltac:(lia)).
  now destruct (copyString s buf).
Qed.

