(* ===== verification/IoctlSpec.v ===== *)
(** * What NvlistIoctl promises

    The retry loop of ioctl.go against a reference: at most five attempts, the
    [n]-th one with a return buffer of 8 KiB times [8^n], every attempt made
    from the caller's unchanged command. [ioctl_spec] states the whole call
    without the loop; [NvlistIoctl_refines] is the refinement. *)

From Stdlib Require Import ZArith Lia Strings.Byte Strings.String.
From stdpp Require Import base list gmap.
From S2P Require Import Prelude GoValue NvEncode NvDecode IoctlTypes Ioctl.

(** Size of the return buffer in the [n]-th attempt. *)
Definition dst_size (n : nat) : Z := initial_dst * 8 ^ Z.of_nat n.

Lemma dst_size_S n : dst_size (S n) = dst_size n * 8.
Proof. unfold dst_size. rewrite Nat2Z.inj_succ, Z.pow_succ_r by lia. lia. Qed.

Lemma dst_size_mono n m : (n <= m)%nat -> dst_size n <= dst_size m.
Proof.
  intros H. unfold dst_size. apply Z.mul_le_mono_nonneg_l; [discriminate|].
  apply Z.pow_le_mono_r; lia.
Qed.

(** The loop gives up exactly at the fifth attempt. *)
Lemma dst_size_limit n : (max_dst <=? dst_size n) = (4 <=? n)%nat.
Proof.
  destruct (Nat.leb_spec 4 n) as [H|H].
  - apply Z.leb_le. transitivity (dst_size 4); [discriminate|now apply dst_size_mono].
  - apply Z.leb_gt. apply Z.le_lt_trans with (dst_size 3); [apply dst_size_mono; lia|reflexivity].
Qed.

Section spec.
Context `{NvCodec} {W : Type} (sys : kernel W) (addr : buffer -> nat -> Z).
Context (fd ioctl : Z) (name : gostring) (cmd : Cmd) (src : option (list byte))
  (has_response : bool) (conf : option (list byte)).

(** The command structure the kernel sees in the [n]-th attempt. *)
Definition sentCmd (n : nat) : Cmd :=
  let c := if has_response
           then set_Nvlist_dst_size (dst_size n) (set_Nvlist_dst (addr BufDst n) cmd) else cmd in
  let c := match src with
           | Some s => set_Nvlist_src_size (blen s) (set_Nvlist_src (addr BufSrc 0) c)
           | None => c
           end in
  let c := match conf with
           | Some r => set_Nvlist_conf_size (blen r) (set_Nvlist_conf (addr BufConf n) c)
           | None => c
           end in
  set_Name (snd (stringToDelimitedBuf name (zc_Name cmd))) c.

Definition sent (n : nat) : kcall :=
  KCall fd ioctl (sentCmd n) src (if has_response then Some (dst_size n) else None) conf.

(** The first answer that is not ENOMEM among [k] attempts from number [n] on. *)
Fixpoint first_reply (k n : nat) (w : W) : option (nat * kreply) * W :=
  match k with
  | O => (None, w)
  | S k' =>
      let '(reply, w') := sys w (sent n) in
      if k_errno reply =? ENOMEM then first_reply k' (S n) w' else (Some (n, reply), w')
  end.

(** The result of the loop. *)
Definition loop_result (s : iostate W) (a : option (nat * kreply) * W) : outcome (list byte) * iostate W :=
  match a with
  | (None, w) => (Err errTooBig, IoState (io_cmd s) (io_response s) w)
  | (Some (n, reply), w) =>
      (if k_errno reply =? 0 then Ok (filled (dst_size n) (k_dst reply)) else Err (Errno (k_errno reply)),
       IoState (k_cmd' reply) (io_response s) w)
  end.

Lemma pointer_ok b n s : s <> [] -> pointer addr b n s = Ok (addr b n).
Proof. now destruct s. Qed.

Lemma set_Name_same c c' (cf : option (list byte)) : zc_Name c = zc_Name c' ->
  (let '(out, name_buf) := stringToDelimitedBuf name (zc_Name c) in
   match out with Panic p => Panic p | _ => Ok (set_Name name_buf c, cf) end) =
  Ok (set_Name (snd (stringToDelimitedBuf name (zc_Name c'))) c, cf).
Proof.
  intros ->. pose proof (stringToDelimitedBuf_no_panic name (zc_Name c')) as N.
  now destruct (stringToDelimitedBuf name (zc_Name c')) as [[]].
Qed.

(** Given the marshalled arguments, preparing an attempt cannot fail. *)
Lemma prepare_sent config n :
  (forall s, src = Some s -> s <> []) ->
  match config with
  | Some v => exists r, codec_Marshal (Some v) = Ok r /\ conf = Some r
  | None => conf = None
  end ->
  prepare addr name cmd src has_response config n (dst_size n) = Ok (sentCmd n, conf).
Proof.
  intros Hs Hc. unfold prepare, sentCmd.
  assert (S : forall c, match src with
     | Some s => obind (pointer addr BufSrc 0 s) (fun p => Ok (set_Nvlist_src_size (blen s) (set_Nvlist_src p c)))
     | None => Ok c end = Ok (match src with
     | Some s => set_Nvlist_src_size (blen s) (set_Nvlist_src (addr BufSrc 0) c) | None => c end)).
  { intros c. destruct src as [s|]; [|done]. now rewrite pointer_ok by now apply Hs. }
  rewrite S. cbn [obind]. destruct config as [v|].
  - destruct Hc as (r & E & ->). rewrite E. cbn [obind].
    rewrite pointer_ok by (eapply codec_nonempty, E). cbn [obind].
    apply set_Name_same. destruct src, has_response; reflexivity.
  - subst. cbn [obind]. apply set_Name_same. destruct src, has_response; reflexivity.
Qed.

Lemma ioctlLoop_spec config k n s :
  (forall m, prepare addr name cmd src has_response config m (dst_size m) = Ok (sentCmd m, conf)) ->
  (k + n = attempts)%nat -> (0 < k)%nat -> io_cmd s = cmd ->
  ioctlLoop sys addr k fd ioctl name src has_response config n (dst_size n) s =
  loop_result s (first_reply k n (io_world s)).
Proof.
  intros P. revert n s. induction k as [|k IH]; intros n s A K C; [lia|].
  cbn [ioctlLoop first_reply]. unfold gbind at 1, gget. unfold gbind at 1, glift.
  rewrite C, P. cbn [fst snd]. unfold sent at 1.
  destruct (sys (io_world s) _) as [reply w]. cbn [fst snd].
  unfold gbind at 1, gput. destruct (k_errno reply =? ENOMEM).
  - rewrite dst_size_limit. destruct (Nat.leb_spec 4 n) as [L|L].
    + assert (k = 0%nat) by (unfold attempts in A; lia). subst k. cbn. now rewrite C.
    + rewrite <- dst_size_S, IH by (cbn; unfold attempts in *; lia || done).
      cbn [io_world]. unfold loop_result. cbn. rewrite C. reflexivity.
  - unfold gbind. cbn. unfold loop_result.
    destruct (k_errno reply =? 0); reflexivity.
Qed.
End spec.

(** ** The call *)

Definition marshal_opt `{NvCodec} (v : option gval) : outcome (option (list byte)) :=
  match v with
  | Some x => obind (codec_Marshal (Some x)) (fun b => Ok (Some b))
  | None => Ok None
  end.

Section call.
Context `{NvCodec} {W : Type} (sys : kernel W) (addr : buffer -> nat -> Z).

(** The reply stored into the response value. *)
Definition finish (s : iostate W) (dst : list byte) : outcome unit * iostate W :=
  match io_response s with
  | Some v => let '(out, v') := codec_Unmarshal dst v in
              (out, IoState (io_cmd s) (Some v') (io_world s))
  | None => (Ok tt, s)
  end.

(** The call without a loop: marshal both arguments, take the first answer
    other than ENOMEM, store its command, decode its buffer. *)
Definition ioctl_spec (fd ioctl : Z) (name : gostring) (request config : option gval)
    (s : iostate W) : outcome unit * iostate W :=
  match marshal_opt request, marshal_opt config with
  | Ok src, Ok conf =>
      let '(out, s') := loop_result s
        (first_reply sys addr fd ioctl name (io_cmd s) src (bool_decide (is_Some (io_response s)))
           conf attempts 0 (io_world s)) in
      match out with
      | Ok dst => finish s' dst
      | Err e => (Err e, s')
      | Panic p => (Panic p, s')
      | OutOfFuel => (OutOfFuel, s')
      end
  | Ok _, Err e | Err e, _ => (Err e, s)
  | Ok _, Panic p | Panic p, _ => (Panic p, s)
  | Ok _, OutOfFuel | OutOfFuel, _ => (OutOfFuel, s)
  end.

Lemma marshal_opt_src v src s : marshal_opt v = Ok src -> src = Some s -> s <> [].
Proof.
  destruct v as [v|]; cbn; [|congruence]. destruct (codec_Marshal _) eqn:E; cbn; try discriminate.
  intros [= <-] [= <-]. eapply codec_nonempty, E.
Qed.

Lemma prepare_fails name cmd src b config n d :
  (forall s, src = Some s -> s <> []) ->
  match marshal_opt config with
  | Ok _ => True
  | Err e => prepare addr name cmd src b config n d = Err e
  | Panic p => prepare addr name cmd src b config n d = Panic p
  | OutOfFuel => False
  end.
Proof.
  intros Hs. unfold prepare. destruct config as [v|]; cbn; [|done].
  assert (S : forall c k, obind (match src with
     | Some s => obind (pointer addr BufSrc 0 s) (fun p => Ok (set_Nvlist_src_size (blen s) (set_Nvlist_src p c)))
     | None => Ok c end) k = (k (match src with
     | Some s => set_Nvlist_src_size (blen s) (set_Nvlist_src (addr BufSrc 0) c) | None => c end)
       : outcome (Cmd * option (list byte)))).
  { intros c k. destruct src as [s|]; [|done]. now rewrite pointer_ok by now apply Hs. }
  pose proof (codec_marshal_ends (Some v)).
  destruct (codec_Marshal (Some v)) as [r|e|p|]; cbn; rewrite ?S; done.
Qed.

Lemma NvlistIoctl_refines fd ioctl name request config s :
  NvlistIoctl sys addr fd ioctl name request config s =
  ioctl_spec fd ioctl name request config s.
Proof.
  unfold NvlistIoctl, ioctl_spec. unfold gbind at 1, gget at 1. unfold gbind at 1, glift at 1.
  fold (marshal_opt request). destruct (marshal_opt request) as [src|e|p|] eqn:R; try done.
  pose proof (marshal_opt_src request src) as Hs.
  set (b := match io_response s with Some _ => true | None => false end).
  replace (bool_decide (is_Some (io_response s))) with b
    by (unfold b; destruct (io_response s); reflexivity).
  pose proof (prepare_fails name (io_cmd s) src b config 0 initial_dst
    (fun x => Hs x R)) as PF.
  unfold gbind at 1. destruct (marshal_opt config) as [conf|e|p|] eqn:C; [|..|done].
  - change initial_dst with (dst_size 0).
    rewrite (ioctlLoop_spec sys addr fd ioctl name (io_cmd s) src b conf);
      [|intros m; apply prepare_sent; [intros x; now apply Hs|]|done|unfold attempts; lia|done].
    2: { destruct config as [v|]; cbn in C; [|congruence].
         destruct (codec_Marshal (Some v)); cbn in C; try discriminate. exists a. split; congruence. }
    destruct (loop_result s _) as [[dst|e|p|] s'] eqn:L; try done.
    unfold gbind, gget, finish. destruct (io_response s'); [|done].
    destruct (codec_Unmarshal dst g) as [out v']. reflexivity.
  - unfold attempts. cbn [ioctlLoop]. unfold gbind at 1, gget. unfold gbind at 1, glift.
    now rewrite PF.
  - unfold attempts. cbn [ioctlLoop]. unfold gbind at 1, gget. unfold gbind at 1, glift.
    now rewrite PF.
Qed.
End call.

(** ** The system calls made *)

(** A kernel that also records the calls it gets. *)
Definition logged {W} (sys : kernel W) : kernel (W * list kcall) :=
  fun '(w, log) c => let '(reply, w') := sys w c in (reply, (w', log ++ [c])).

Section trace.
Context `{NvCodec} {W : Type} (sys : kernel W) (addr : buffer -> nat -> Z).
Context (fd ioctl : Z) (name : gostring) (cmd : Cmd) (src : option (list byte))
  (has_response : bool) (conf : option (list byte)).
Abbreviation Sent := (sent addr fd ioctl name cmd src has_response conf).
Abbreviation First := (first_reply (logged sys) addr fd ioctl name cmd src has_response conf).

(** The calls are the attempts [n], [n+1], ... up to the one answered. *)
Lemma first_reply_log k n w log :
  exists m w', (m <= k)%nat /\ (0 < k -> 0 < m)%nat /\
    snd (First k n (w, log)) = (w', log ++ map Sent (seq n m)) /\
    match fst (First k n (w, log)) with
    | Some (a, _) => a = (n + m - 1)%nat
    | None => m = k
    end.
Proof.
  revert n w log. induction k as [|k IH]; intros n w log.
  { exists 0%nat, w. cbn. rewrite app_nil_r. repeat split; lia. }
  cbn [first_reply logged]. destruct (sys w (Sent n)) as [reply w1].
  destruct (k_errno reply =? ENOMEM).
  - destruct (IH (S n) w1 (log ++ [Sent n])) as (m & w' & Lm & Pm & E & A).
    exists (S m), w'. repeat split; [lia|lia| |].
    + rewrite E. cbn [seq map]. now rewrite <- app_assoc.
    + destruct (fst _) as [[a r]|] eqn:F; [|lia].
      destruct k; [|lia]. cbn in F. discriminate.
  - exists 1%nat, w1. cbn. repeat split; lia.
Qed.
End trace.

(** ** Termination *)

Lemma marshal_opt_ends `{NvCodec} v : marshal_opt v <> OutOfFuel.
Proof.
  destruct v as [v|]; cbn; [|done]. pose proof (codec_marshal_ends (Some v)).
  now destruct (codec_Marshal (Some v)).
Qed.

Lemma ioctl_spec_ends `{NvCodec} {W} (sys : kernel W) addr fd ioctl name request config s :
  fst (ioctl_spec sys addr fd ioctl name request config s) <> OutOfFuel.
Proof.
  unfold ioctl_spec. pose proof (marshal_opt_ends request). pose proof (marshal_opt_ends config).
  destruct (marshal_opt request), (marshal_opt config); try done.
  destruct (first_reply _ _ _ _ _ _ _ _ _ _ _ _) as [[[n r]|] w]; cbn [loop_result]; [|done].
  destruct (k_errno r =? 0); [|done]. unfold finish. cbn [io_response].
  destruct (io_response s) as [v|]; [|done].
  pose proof (codec_unmarshal_ends (filled (dst_size n) (k_dst r)) v).
  now destruct (codec_Unmarshal _ v).
Qed.
