(* ===== verification/WrapTypes.v ===== *)
(** * ioctl/wrappers.go: the structures sent to and received from the kernel

    Each Go struct with its [nvlist] tags: as a reflection type where only the
    type matters, as a record with its Go value where the wrappers build one. *)

From Stdlib Require Import ZArith Lia Strings.Byte Strings.String.
From stdpp Require Import base list gmap.
From S2P Require Import Prelude GoValue.

#[local] Set Warnings "-register-all".

(** A struct field: name, tag and type or value. *)
Definition fld {A} (name tag : string) (x : A) : sfield * A := (SField (str name) (str tag), x).

Definition tBool : gtype := TBool None.
Definition tUint64 : gtype := TInt None KUint64.
Definition tInt32 : gtype := TInt None KInt32.

(** ** Property types *)

Definition tPropWithSource : gtype :=
  TStruct (Some (str "PropWithSource"))
    [fld "Value" "value" tIface; fld "Source" "source" tString].

Definition tDatasetPropsWithSource : gtype :=
  TMap (Some (str "DatasetPropsWithSource")) tString tPropWithSource.

(** [make(DatasetPropsWithSource)] *)
Definition newDatasetPropsWithSource : gval :=
  VMap (Some (str "DatasetPropsWithSource")) tString tPropWithSource (Some []).

Definition tDatasetProps : gtype := TMap (Some (str "DatasetProps")) tString tIface.

(** [map[string]interface{}] as an argument: nil, or its entries in iteration
    order, each nil or a value. *)
Abbreviation anymap := (option (list (gostring * option gval))).

Definition anyEntries (m : anymap) : option (list (gostring * gval)) :=
  option_map (map (fun '(k, o) => (k, VIface None o))) m.

(** [DatasetProps] and [*DatasetProps]. *)
Definition vDatasetProps (m : anymap) : gval :=
  VMap (Some (str "DatasetProps")) tString tIface (anyEntries m).
Definition vDatasetPropsPtr (p : option anymap) : gval :=
  VPtr None tDatasetProps (option_map vDatasetProps p).
(** A plain [map[string]interface{}]. *)
Definition vAnyMapArg (m : anymap) : gval := VMap None tString tIface (anyEntries m).

Definition tACLInheritancePolicy : gtype := TInt (Some (str "ACLInheritancePolicy")) KUint64.
Definition tDNodeSize : gtype := TInt (Some (str "DNodeSize")) KUint64.
Definition tCanMount : gtype := TInt (Some (str "CanMount")) KUint64.
Definition tState : gtype := TInt (Some (str "State")) KUint64.
Definition tFailMode : gtype := TInt (Some (str "FailMode")) KUint64.

Definition tFilesystemProps : gtype :=
  TStruct (Some (str "FilesystemProps"))
    [fld "SnapshotDirectoryEnabled" "snapdir,asuint64" tBool;
     fld "ACLInheritancePolicy" "aclinherit,omitempty,default=4" tACLInheritancePolicy;
     fld "DNodeSize" "dnodesize,omitempty" tDNodeSize;
     fld "Atime" "atime,default=true" tBool;
     fld "RelativeAtime" "relatime" tBool;
     fld "Zoned" "zoned" tBool;
     fld "VirusScan" "vscan" tBool;
     fld "Overlay" "overlay" tBool;
     fld "CanMount" "canmount,default=true" tCanMount;
     fld "Mounted" "mounted" tBool;
     fld "Mountpoint" "mountpoint" tString].

Definition tVolumeProps : gtype := TStruct (Some (str "VolumeProps")) [].

(** The settable part of [PoolProps], and its read-only part. *)
Definition poolPropsSettable : list (sfield * gtype) :=
  [fld "Name" "name,omitempty" tString;
   fld "Version" "version,omitempty" tUint64;
   fld "Comment" "comment,omitempty" tString;
   fld "AlternativeRoot" "altroot,omitempty" tString;
   fld "TemporaryName" "tname,omitempty" tString;
   fld "BootFS" "bootfs,omitempty" tString;
   fld "CacheFile" "cachefile,omitempty" tString;
   fld "ReadOnly" "readonly,omitempty" tBool;
   fld "Multihost" "multihost,omitempty" tBool;
   fld "Failmode" "failmode,omitempty" tFailMode;
   fld "DedupDitto" "dedupditto,omitempty" tUint64;
   fld "AlignmentShift" "ashift,omitempty" tUint64;
   fld "Delegation" "delegation,omitempty" tBool;
   fld "Autoreplace" "autoreplace,omitempty" tBool;
   fld "ListSnapshots" "listsnapshots,omitempty" tBool;
   fld "Autoexpand" "autoexpand,omitempty" tBool;
   fld "MaxBlockSize" "maxblocksize,omitempty" tUint64;
   fld "MaxDnodeSize" "maxdnodesize,omitempty" tUint64;
   fld "RootProps" "root-props-nvl,omitempty" (TPtr None tDatasetProps);
   fld "User" "-,extra,omitempty" (TMap None tString tString)].

Definition poolPropsReadOnly : list (sfield * gtype) :=
  [fld "Size" "size,ro" tUint64;
   fld "Free" "free,ro" tUint64;
   fld "Freeing" "freeing,ro" tUint64;
   fld "Leaked" "leaked,ro" tUint64;
   fld "Allocated" "allocated,ro" tUint64;
   fld "ExpandSize" "expandsize,ro" tUint64;
   fld "Fragmentation" "fragmentation,ro" tUint64;
   fld "Capacity" "capacity,ro" tUint64;
   fld "GUID" "guid,ro" tUint64;
   fld "Health" "health,ro" tState;
   fld "DedupRatio" "dedupratio,ro" tUint64].

Definition tPoolProps : gtype :=
  TStruct (Some (str "PoolProps")) (poolPropsSettable ++ poolPropsReadOnly).

(** ** Virtual devices and pool configurations *)

Inductive VDev := MkVDev {
  IsLog : Z; DTL : Z; AlignmentShift : Z; AllocatableCapacity : Z; GUID : Z; ID : Z;
  Path : gostring; VType : gostring;
  Children : list VDev; L2CacheChildren : list VDev; SparesChildren : list VDev
}.

Definition tVDev : gtype :=
  let children := TSlice None (TRef (str "VDev")) in
  TStruct (Some (str "VDev"))
    [fld "IsLog" "is_log" tUint64;
     fld "DTL" "DTL,omitempty" tUint64;
     fld "AlignmentShift" "ashift,omitempty" tUint64;
     fld "AllocatableCapacity" "asize,omitempty" tUint64;
     fld "GUID" "guid,omitempty" tUint64;
     fld "ID" "id,omitempty" tUint64;
     fld "Path" "path" tString;
     fld "Type" "type" tString;
     fld "Children" "children,omitempty" children;
     fld "L2CacheChildren" "l2cache,omitempty" children;
     fld "SparesChildren" "spares,omitempty" children].

Definition vUint64 (z : Z) : gval := VInt None KUint64 z.
Definition vString (s : gostring) : gval := VString None s.
Definition vBool (b : bool) : gval := VBool None b.

Fixpoint vVDev (d : VDev) : gval :=
  VStruct (Some (str "VDev"))
    [fld "IsLog" "is_log" (vUint64 (IsLog d));
     fld "DTL" "DTL,omitempty" (vUint64 (DTL d));
     fld "AlignmentShift" "ashift,omitempty" (vUint64 (AlignmentShift d));
     fld "AllocatableCapacity" "asize,omitempty" (vUint64 (AllocatableCapacity d));
     fld "GUID" "guid,omitempty" (vUint64 (GUID d));
     fld "ID" "id,omitempty" (vUint64 (ID d));
     fld "Path" "path" (vString (Path d));
     fld "Type" "type" (vString (VType d));
     fld "Children" "children,omitempty" (VSlice None tVDev (map vVDev (Children d)));
     fld "L2CacheChildren" "l2cache,omitempty" (VSlice None tVDev (map vVDev (L2CacheChildren d)));
     fld "SparesChildren" "spares,omitempty" (VSlice None tVDev (map vVDev (SparesChildren d)))].

Definition tPoolConfig : gtype :=
  TStruct (Some (str "PoolConfig"))
    [fld "Version" "version,omitempty" tUint64;
     fld "Name" "name,omitempty" tString;
     fld "State" "state,omitempty" tUint64;
     fld "TXG" "txg,omitempty" tUint64;
     fld "GUID" "pool_guid,omitempty" tUint64;
     fld "Errata" "errata,omitempty" tUint64;
     fld "Hostname" "hostname,omitempty" tString;
     fld "NumberOfChildren" "vdev_children" tUint64;
     fld "VDevTree" "vdev_tree" (TPtr None tVDev);
     fld "HostID" "hostid,omitempty" tUint64;
     fld "FeaturesForRead" "features_for_read" (TMap None tString tBool)].

(** ** Requests and replies of single calls *)

Definition vCloneReq (origin : gostring) (props : option anymap) : gval :=
  VStruct None
    [fld "Origin" "origin" (vString origin); fld "Props" "props" (vDatasetPropsPtr props)].

(** [ObjectType] is an [int32]. *)
Definition vCreateReq (t : Z) (props : option anymap) : gval :=
  VStruct None
    [fld "Type" "type" (VInt (Some (str "ObjectType")) KInt32 t);
     fld "Props" "props" (vDatasetPropsPtr props)].

Definition vBoolMap (m : list (gostring * bool)) : gval :=
  VMap None tString tBool (Some (map (fun '(k, b) => (k, vBool b)) m)).

Definition vSnapReq (snaps : list (gostring * bool)) (props : option anymap) : gval :=
  VStruct None
    [fld "Snaps" "snaps" (vBoolMap snaps); fld "Props" "props" (vDatasetPropsPtr props)].

Definition vDestroySnapReq (snaps : list (gostring * bool)) (defer : bool) : gval :=
  VStruct None
    [fld "Snaps" "snaps" (vBoolMap snaps); fld "Defer" "defer" (vBool defer)].

Definition vRollbackReq (target : gostring) : gval :=
  VStruct None [fld "Target" "target,omitempty" (vString target)].
Definition vRollbackRes (target : gostring) : gval :=
  VStruct None [fld "Target" "target" (vString target)].

(** [make(map[string]int32)] and [make(map[string]int64)] *)
Definition newErrList (k : ikind) : gval := VMap None tString (TInt None k) (Some []).

Record SendSpaceOptions := MkSendSpaceOptions {
  sso_From : gostring; sso_LargeBlocks : bool; sso_Embed : bool; sso_Compress : bool
}.

Definition vSendSpaceOptions (o : SendSpaceOptions) : gval :=
  VStruct (Some (str "SendSpaceOptions"))
    [fld "From" "from,omitempty" (vString (sso_From o));
     fld "LargeBlocks" "largeblockok" (vBool (sso_LargeBlocks o));
     fld "Embed" "embedok" (vBool (sso_Embed o));
     fld "Compress" "compressok" (vBool (sso_Compress o))].

Definition vSpaceRes (space : Z) : gval := VStruct None [fld "Space" "space" (vUint64 space)].

Record SendOptions := MkSendOptions {
  so_Fd : Z; so_From : gostring; so_FromBookmark : gostring;
  so_LargeBlocks : bool; so_Embed : bool; so_Compress : bool; so_Raw : bool; so_Saved : bool;
  so_ResumeObject : Z; so_ResumeOffset : Z
}.

Definition set_so_Fd (fd : Z) (o : SendOptions) : SendOptions :=
  MkSendOptions fd (so_From o) (so_FromBookmark o) (so_LargeBlocks o) (so_Embed o)
    (so_Compress o) (so_Raw o) (so_Saved o) (so_ResumeObject o) (so_ResumeOffset o).

Definition vSendOptions (o : SendOptions) : gval :=
  VStruct (Some (str "SendOptions"))
    [fld "Fd" "fd" (VInt None KInt32 (so_Fd o));
     fld "From" "fromsnap,omitempty" (vString (so_From o));
     fld "FromBookmark" "redactbook,omitempty" (vString (so_FromBookmark o));
     fld "LargeBlocks" "largeblockok" (vBool (so_LargeBlocks o));
     fld "Embed" "embedok" (vBool (so_Embed o));
     fld "Compress" "compress" (vBool (so_Compress o));
     fld "Raw" "rawok" (vBool (so_Raw o));
     fld "Saved" "savedok" (vBool (so_Saved o));
     fld "ResumeObject" "resume_object,omitempty" (vUint64 (so_ResumeObject o));
     fld "ResumeOffset" "resume_offset,omitempty" (vUint64 (so_ResumeOffset o))].

Record ReceiveOpts := MkReceiveOpts {
  ro_Origin : gostring; ro_SnapshotName : gostring;
  ro_ReceivedProps : option anymap; ro_LocalProps : option anymap;
  ro_HiddenArgs : bool;     (* whether the *struct{} is set *)
  ro_Fd : Z; ro_BeginRecord : list byte; ro_CleanupFd : Z;
  ro_Force : bool; ro_Resumable : bool
}.

Definition set_ro_Fd (fd : Z) (o : ReceiveOpts) : ReceiveOpts :=
  MkReceiveOpts (ro_Origin o) (ro_SnapshotName o) (ro_ReceivedProps o) (ro_LocalProps o)
    (ro_HiddenArgs o) fd (ro_BeginRecord o) (ro_CleanupFd o) (ro_Force o) (ro_Resumable o).
Definition set_ro_BeginRecord (b : list byte) (o : ReceiveOpts) : ReceiveOpts :=
  MkReceiveOpts (ro_Origin o) (ro_SnapshotName o) (ro_ReceivedProps o) (ro_LocalProps o)
    (ro_HiddenArgs o) (ro_Fd o) b (ro_CleanupFd o) (ro_Force o) (ro_Resumable o).

(** A [[]byte] value. *)
Definition vBytes (bs : list byte) : gval :=
  VSlice None (TInt None KUint8) (map (fun b => VInt None KUint8 (byte_to_Z b)) bs).

Definition vReceiveOpts (o : ReceiveOpts) : gval :=
  VStruct (Some (str "ReceiveOpts"))
    [fld "Origin" "origin,omitempty" (vString (ro_Origin o));
     fld "SnapshotName" "snapname" (vString (ro_SnapshotName o));
     fld "ReceivedProps" "props" (vDatasetPropsPtr (ro_ReceivedProps o));
     fld "LocalProps" "localprops" (vDatasetPropsPtr (ro_LocalProps o));
     fld "HiddenArgs" "hidden_args"
       (VPtr None (TStruct None []) (if ro_HiddenArgs o then Some (VStruct None []) else None));
     fld "Fd" "input_fd" (VInt None KInt32 (ro_Fd o));
     fld "BeginRecord" "begin_record" (vBytes (ro_BeginRecord o));
     fld "CleanupFd" "cleanup_fd,omitempty" (VInt None KInt32 (ro_CleanupFd o));
     fld "Force" "force" (vBool (ro_Force o));
     fld "Resumable" "resumable" (vBool (ro_Resumable o))].

Definition tReceiveError : gtype :=
  TStruct (Some (str "ReceiveError"))
    [fld "ReadBytes" "read_bytes" tUint64;
     fld "ErrorFlags" "error_flags" tUint64;
     fld "ErrorList" "errors" (TMap None tString tInt32)].

(** [new(ReceiveError)] *)
Definition newReceiveError : gval := VPtr None tReceiveError (Some (zero tReceiveError)).

(** Field [i] of the struct [v] (or of the struct it points to). *)
Definition fieldAt (i : nat) (v : gval) : option gval :=
  match v with
  | VStruct _ fs | VPtr _ _ (Some (VStruct _ fs)) => snd <$> (fs !! i)
  | _ => None
  end.

Definition fieldString (i : nat) (v : gval) : gostring :=
  match fieldAt i v with Some (VString _ s) => s | _ => [] end.
Definition fieldInt (i : nat) (v : gval) : Z :=
  match fieldAt i v with Some (VInt _ _ z) => z | _ => 0 end.
