(* ===== verification/Wrappers.v ===== *)
(** * ioctl/wrappers.go: one function per ZFS operation

    Every wrapper builds a command and a request, calls [NvlistIoctl] with its
    ioctl number and turns the command and the response into its results. A
    Go function with several results returns a tuple, its error last; an error
    is a result here, not an exception, since some wrappers use the other
    results beside it.

    The package variable [zfsHandle] and the kernel make up the state. Send and
    receive, which run the call in a goroutine, are in Streams.v. *)

From Stdlib Require Import ZArith Lia Strings.Byte Strings.String.
From stdpp Require Import base list gmap.
From S2P Require Import Prelude GoValue NvEncode NvDecode IoctlTypes Ioctl WrapTypes.

(** [zfsHandle] holds an open file, here its descriptor, or nil. *)
Record env (W : Type) := Env { zfsHandle : option Z; world : W }.
Arguments Env {W}.
Arguments zfsHandle {W}.
Arguments world {W}.

(** The method [Fd] of [*os.File]: all ones for a nil file. *)
Definition Fd (f : option Z) : Z := match f with Some fd => fd | None => 2 ^ 64 - 1 end.

(** The results of [NvlistIoctl]: its error, [*cmd] and the response. *)
Record reply := Reply { err : option goerr; cmd_after : Cmd; response_after : option gval }.

Definition error_of {A} (o : outcome A) : outcome (option goerr) :=
  match o with
  | Ok _ => Ok None
  | Err e => Ok (Some e)
  | Panic p => Panic p
  | OutOfFuel => OutOfFuel
  end.

(** The effect of storing a string in a buffer when its error is not looked at. *)
Definition stored (s : gostring) (buf : list byte) : list byte := snd (stringToDelimitedBuf s buf).

Section init.
(** The operating system calls of [Init]: the results of package os and of
    x/sys/unix are parameters. *)
Context {W : Type} (os_Open : gostring -> W -> (Z + goerr) * W)
  (os_IsNotExist : goerr -> bool)
  (unix_Mknod : gostring -> Z -> Z -> W -> W) (unix_Mkdev : Z -> Z -> Z).

Definition errInit : goerr := ErrText (str "Failed to open or create ZFS device node").

Definition Init (nodePath : gostring) : go (env W) (option goerr) :=
  let nodePath := if bool_decide (nodePath = []) then str "/dev/zfs" else nodePath in
  let open : go (env W) (option goerr) := fun e =>
    let '(r, w) := os_Open nodePath (world e) in
    match r with
    | inl fd => (Ok None, Env (Some fd) w)
    | inr er => (Ok (Some er), Env None w)
    end in
  er <- open ;;
  (if match er with Some x => os_IsNotExist x | None => false end
   then gmodify (fun e => Env (zfsHandle e) (unix_Mknod nodePath 666 (unix_Mkdev 10 54) (world e)))
   else gret tt) ;;;
  er <- open ;;
  gret (match er with Some _ => Some errInit | None => None end).
End init.

Section wrappers.
Context `{NvCodec} {W : Type} (sys : kernel W) (addr : buffer -> nat -> Z) (plat : platform).

(** [NvlistIoctl(zfsHandle.Fd(), i, name, &cmd, request, response, config)] *)
Definition nvlistIoctl (i : Ioctl) (name : gostring) (cmd : Cmd)
    (request response config : option gval) : go (env W) reply :=
  fun e =>
    let '(out, s) := NvlistIoctl sys addr (Fd (zfsHandle e)) (ioctl_number plat i) name
                       request config (IoState cmd response (world e)) in
    let e' := Env (zfsHandle e) (io_world s) in
    match error_of out with
    | Ok er => (Ok (Reply er (io_cmd s) (io_response s)), e')
    | Err x => (Err x, e')
    | Panic p => (Panic p, e')
    | OutOfFuel => (OutOfFuel, e')
    end.

(** A wrapper that returns the error of the call and nothing else. *)
Definition justError (c : go (env W) reply) : go (env W) (option goerr) :=
  r <- c ;; gret (err r).

Definition DatasetListNext (name : gostring) (cursor : Z) :
    go (env W) (gostring * Z * DMUObjectSetStats * option gval * option goerr) :=
  r <- nvlistIoctl ZFS_IOC_DATASET_LIST_NEXT name (set_Cookie cursor zeroCmd) None
         (Some newDatasetPropsWithSource) None ;;
  match err r with
  | Some e => gret ([], 0, zeroDMUObjectSetStats, response_after r, Some e)
  | None => gret (delimitedBufToString (zc_Name (cmd_after r)), zc_Cookie (cmd_after r),
                  zc_Objset_stats (cmd_after r), response_after r, None)
  end.

(** The caller's [props] is filled in place; it is returned as a further result. *)
Definition SnapshotListNext (name : gostring) (cursor : Z) (props : option gval) :
    go (env W) (gostring * Z * DMUObjectSetStats * option goerr * option gval) :=
  r <- nvlistIoctl ZFS_IOC_SNAPSHOT_LIST_NEXT name (set_Cookie cursor zeroCmd) None props None ;;
  match err r with
  | Some e => gret ([], 0, zeroDMUObjectSetStats, Some e, response_after r)
  | None => gret (delimitedBufToString (zc_Name (cmd_after r)), zc_Cookie (cmd_after r),
                  zc_Objset_stats (cmd_after r), None, response_after r)
  end.

(** [features] is a [map[string]uint64]; nil or its entries. *)
Definition PoolCreate (name : gostring) (features : option (list (gostring * Z))) (config : VDev) :
    go (env W) (option goerr) :=
  justError (nvlistIoctl ZFS_IOC_POOL_CREATE name zeroCmd
    (Some (VMap None tString tUint64 (option_map (map (fun '(k, z) => (k, vUint64 z))) features)))
    None (Some (vVDev config))).

Definition PoolDestroy (name : gostring) : go (env W) (option goerr) :=
  justError (nvlistIoctl ZFS_IOC_POOL_DESTROY name zeroCmd None None None).

Definition PoolConfigs : go (env W) (option gval * option goerr) :=
  r <- nvlistIoctl ZFS_IOC_POOL_CONFIGS [] zeroCmd None (Some (vAnyMap [])) None ;;
  gret (response_after r, err r).

Definition PoolStats (name : gostring) : go (env W) (option gval * option goerr) :=
  r <- nvlistIoctl ZFS_IOC_POOL_STATS name zeroCmd None (Some (vAnyMap [])) None ;;
  match err r with
  | Some e => gret (None, Some e)
  | None =>
      if negb (zc_Cookie (cmd_after r) =? 0)
      then gret (None, Some (Errno (zc_Cookie (cmd_after r))))
      else gret (response_after r, None)
  end.

(** [config["pool_guid"].(uint64)] *)
Definition poolGuid (config : anymap) : outcome Z :=
  match map_get (str "pool_guid") (match config with Some m => m | None => [] end) with
  | Some (Some (VInt None KUint64 z)) => Ok z
  | _ => Panic PTypeAssert
  end.

Definition PoolImport (name : gostring) (config props : anymap) :
    go (env W) (option gval * option goerr) :=
  guid <- glift (poolGuid config) ;;
  r <- nvlistIoctl ZFS_IOC_POOL_IMPORT name (set_Guid guid zeroCmd) (Some (vAnyMapArg props))
         (Some (vAnyMap [])) (Some (vAnyMapArg config)) ;;
  if negb (zc_Cookie (cmd_after r) =? 0)
  then gret (None, Some (Errno (zc_Cookie (cmd_after r))))
  else gret (response_after r, err r).

Definition PoolExport (name : gostring) (force hardForce : bool) : go (env W) (option goerr) :=
  let cmd := zeroCmd in
  let cmd := if force then set_Cookie 1 cmd else cmd in
  let cmd := if hardForce then set_Guid 1 cmd else cmd in
  justError (nvlistIoctl ZFS_IOC_POOL_EXPORT name cmd None None None).

Definition Promote (name : gostring) : go (env W) (gostring * option goerr) :=
  r <- nvlistIoctl ZFS_IOC_PROMOTE name zeroCmd None None None ;;
  gret (delimitedBufToString (zc_String (cmd_after r)), err r).

Definition Clone (origin name : gostring) (props : option anymap) : go (env W) (option goerr) :=
  justError (nvlistIoctl ZFS_IOC_CLONE name zeroCmd (Some (vCloneReq origin props))
    (Some (newErrList KInt32)) None).

Definition Create (name : gostring) (t : Z) (props : option anymap) : go (env W) (option goerr) :=
  justError (nvlistIoctl ZFS_IOC_CREATE name zeroCmd (Some (vCreateReq t props))
    (Some (newErrList KInt32)) None).

(** The loop over the snapshot names: [None] when a name comes up again. *)
Fixpoint addNames (names : list gostring) (snaps : list (gostring * bool)) :
    option (list (gostring * bool)) :=
  match names with
  | [] => Some snaps
  | name :: r =>
      match map_get name snaps with
      | Some _ => None
      | None => addNames r (map_set name true snaps)
      end
  end.

Definition errDuplicate : goerr := ErrText (str "duplicate snapshot name").

(** The order in which [MapKeys] lists the keys of the map that was built. Go
    leaves it open: nothing is assumed of it here, and the theorems only use
    that it is a permutation. *)
Context (mapKeys : list (gostring * bool) -> list (gostring * bool)).

Definition Snapshot (names : list gostring) (pool : gostring) (props : option anymap) :
    go (env W) (option goerr) :=
  match addNames names [] with
  | None => gret (Some errDuplicate)
  | Some snaps =>
      justError (nvlistIoctl ZFS_IOC_SNAPSHOT pool zeroCmd (Some (vSnapReq (mapKeys snaps) props))
        (Some (newErrList KInt32)) None)
  end.

Definition DestroySnapshots (names : list gostring) (pool : gostring) (defer : bool) :
    go (env W) (option goerr) :=
  match addNames names [] with
  | None => gret (Some errDuplicate)
  | Some snaps =>
      justError (nvlistIoctl ZFS_IOC_CLONE pool zeroCmd (Some (vDestroySnapReq (mapKeys snaps) defer))
        (Some (newErrList KInt32)) None)
  end.

Definition Bookmark (snapshotsToBookmarks : option (list (gostring * gostring))) :
    go (env W) (option goerr) :=
  justError (nvlistIoctl ZFS_IOC_BOOKMARK [] zeroCmd
    (Some (VMap None tString tString
       (option_map (map (fun '(k, s) => (k, vString s))) snapshotsToBookmarks)))
    (Some (newErrList KInt32)) None).

Definition Rollback (name target : gostring) : go (env W) (gostring * option goerr) :=
  r <- nvlistIoctl ZFS_IOC_ROLLBACK name zeroCmd (Some (vRollbackReq target))
         (Some (vRollbackRes [])) None ;;
  gret (match response_after r with Some v => fieldString 0 v | None => [] end, err r).

Definition SetProp (name : gostring) (props : anymap) (source : Z) : go (env W) (option goerr) :=
  justError (nvlistIoctl ZFS_IOC_SET_PROP name (set_Cookie source zeroCmd)
    (Some (vAnyMapArg props)) (Some (newErrList KInt64)) None).

Definition InheritProp (name propName : gostring) (revertToReceived : bool) :
    go (env W) (option goerr) :=
  let cmd := set_Cookie (if revertToReceived then 1 else 0) zeroCmd in
  match stringToDelimitedBuf propName (zc_Value cmd) with
  | (Ok _, value) =>
      justError (nvlistIoctl ZFS_IOC_INHERIT_PROP name (set_Value value cmd) None None None)
  | (Err e, _) => gret (Some e)
  | (Panic p, _) => gpanic p
  | (OutOfFuel, _) => glift OutOfFuel
  end.

Definition GetSpaceWritten (dataset snapshot : gostring) : go (env W) (Z * option goerr) :=
  let cmd := set_Value (stored snapshot (zc_Value zeroCmd)) zeroCmd in
  r <- nvlistIoctl ZFS_IOC_SPACE_WRITTEN dataset cmd None None None ;;
  match err r with
  | Some e => gret (0, Some e)
  | None => gret (zc_Cookie (cmd_after r), None)
  end.

Definition Rename (oldName newName : gostring) (recursive : bool) : go (env W) (option goerr) :=
  let cmd := set_Cookie (if recursive then 1 else 0) zeroCmd in
  let cmd := set_Value (stored newName (zc_Value cmd)) cmd in
  justError (nvlistIoctl ZFS_IOC_RENAME oldName cmd None None None).

(** [uint64(t)] of an [int32]: sign extension. *)
Definition Destroy (name : gostring) (t : Z) (deferred : bool) : go (env W) (option goerr) :=
  justError (nvlistIoctl ZFS_IOC_DESTROY name (set_Objset_type (t mod 2 ^ 64) zeroCmd)
    None None None).

Definition SendSpace (name : gostring) (options : SendSpaceOptions) : go (env W) (Z * option goerr) :=
  r <- nvlistIoctl ZFS_IOC_SEND_SPACE name zeroCmd (Some (vSendSpaceOptions options))
         (Some (VPtr None (typeOf (vSpaceRes 0)) (Some (vSpaceRes 0)))) None ;;
  match err r with
  | Some e => gret (0, Some e)
  | None => gret (match response_after r with Some v => fieldInt 0 v | None => 0 end, None)
  end.

(** [new(interface{})] as the response; the pointer is the first result. *)
Definition PoolGetProps (name : gostring) : go (env W) (option gval * option goerr) :=
  r <- nvlistIoctl ZFS_IOC_POOL_GET_PROPS name zeroCmd None (Some (vIfacePtr None)) None ;;
  gret (response_after r, err r).

Definition ObjsetZPLProps (name : gostring) : go (env W) (option gval * option goerr) :=
  r <- nvlistIoctl ZFS_IOC_OBJSET_ZPLPROPS name zeroCmd None (Some (vIfacePtr None)) None ;;
  gret (response_after r, err r).

Definition ObjsetStats (name : gostring) : go (env W) (option gval * option goerr) :=
  r <- nvlistIoctl ZFS_IOC_OBJSET_STATS name zeroCmd None (Some newDatasetPropsWithSource) None ;;
  gret (response_after r, err r).

Definition PauseScan (pool : gostring) : go (env W) (option goerr) :=
  justError (nvlistIoctl ZFS_IOC_POOL_SCAN pool (set_Flags 1 zeroCmd) None None None).

Definition StartStopScan (pool : gostring) (t : Z) : go (env W) (option goerr) :=
  justError (nvlistIoctl ZFS_IOC_POOL_SCAN pool (set_Cookie t zeroCmd) None None None).

Definition RegenerateGUID (pool : gostring) : go (env W) (option goerr) :=
  justError (nvlistIoctl ZFS_IOC_POOL_REGUID pool zeroCmd None None None).
End wrappers.
