(* ===== verification/WrapSpec.v ===== *)
(** * What the wrappers send and return

    The abstract nvlists behind the request structures, the calls a wrapper
    makes as seen by the kernel, and the results it computes from a reply. *)

From Stdlib Require Import ZArith Lia Strings.Byte Strings.String.
From stdpp Require Import base list gmap.
From S2P Require Import Prelude GoValue NvConsts NvEncode NvDecode NvWire NvEncodeSpec.
From S2P Require Import NvDecodeSpec NvEncodeTotal NvSafety NvRoundtrip NvTarget NvStruct NvEdge NvFields.
From S2P Require Import IoctlTypes Ioctl IoctlSpec WrapTypes Wrappers.

(** ** Virtual device trees *)

Definition opt_int (name : string) (z : Z) : nvs :=
  if z =? 0 then [] else [(str name, NInt KUint64 z)].
Definition opt_lists (name : string) (ls : list nvs) : nvs :=
  if blen ls =? 0 then [] else [(str name, NNvlistArray ls)].

(** The nvlist of a device: zero numbers and empty child lists are left out. *)
Fixpoint vdev_nvs (d : VDev) : nvs :=
  [(str "is_log", NInt KUint64 (IsLog d))] ++ opt_int "DTL" (DTL d)
  ++ opt_int "ashift" (AlignmentShift d) ++ opt_int "asize" (AllocatableCapacity d)
  ++ opt_int "guid" (GUID d) ++ opt_int "id" (ID d)
  ++ [(str "path", NString (Path d)); (str "type", NString (VType d))]
  ++ opt_lists "children" (map vdev_nvs (Children d))
  ++ opt_lists "l2cache" (map vdev_nvs (L2CacheChildren d))
  ++ opt_lists "spares" (map vdev_nvs (SparesChildren d)).

Definition uint64_ok (z : Z) : bool := in_range KUint64 z.

(** Numbers of the Go types, strings without zero bytes. *)
Fixpoint vdev_ok (d : VDev) : bool :=
  let kids l := (blen l <? 2147483647) && forallb vdev_ok l in
  forallb uint64_ok [IsLog d; DTL d; AlignmentShift d; AllocatableCapacity d; GUID d; ID d]
  && nul_free (Path d) && nul_free (VType d)
  && kids (Children d) && kids (L2CacheChildren d) && kids (SparesChildren d).

(** One field of a struct: a number, a number that may be left out, a string,
    a list of devices that may be left out. *)
Lemma abs_uint64 fuel name tag z :
  let f := SField name tag in
  exported name = true -> nul_free (fieldName f) = true -> blen (fieldName f) + 1 < 32767 ->
  tagOption f = [] -> uint64_ok z = true ->
  abs_list (abs_value (abs_pairs fuel)) (field_pairs (f, vUint64 z)) =
  Some [(fieldName f, NInt KUint64 z)].
Proof.
  intros f E N L T R. unfold field_pairs. cbn [fst snd]. rewrite collectField_spec.
  cbn [orb f_Name f]. rewrite E. cbn [negb]. fold f. rewrite T.
  cbn [vUint64 unpackVal v_val v_ro]. rewrite !bool_decide_eq_false_2 by done. cbn [orb andb abs_list].
  rewrite N. decide_true (blen (fieldName f) + 1 <? 32767). cbn [andb abs_value v_ro v_val fixed_int vUint64].
  unfold uint64_ok in R. now rewrite R.
Qed.

Lemma abs_uint64_opt fuel name tag z :
  let f := SField name tag in
  exported name = true -> nul_free (fieldName f) = true -> blen (fieldName f) + 1 < 32767 ->
  tagOption f = str "omitempty" -> uint64_ok z = true ->
  abs_list (abs_value (abs_pairs fuel)) (field_pairs (f, vUint64 z)) =
  Some (if z =? 0 then [] else [(fieldName f, NInt KUint64 z)]).
Proof.
  intros f E N L T R. unfold field_pairs. cbn [fst snd]. rewrite collectField_spec.
  cbn [orb f_Name f]. rewrite E. cbn [negb]. fold f. rewrite T.
  cbn [vUint64 unpackVal v_val v_ro]. rewrite (bool_decide_eq_false_2 (str "omitempty" = str "ro")) by done.
  rewrite bool_decide_eq_true_2 by done. cbn [orb andb isEmptyValue v_val vUint64].
  destruct (z =? 0); [done|]. cbn [abs_list].
  rewrite N. decide_true (blen (fieldName f) + 1 <? 32767). cbn [andb abs_value v_ro v_val fixed_int vUint64].
  unfold uint64_ok in R. now rewrite R.
Qed.

Lemma abs_string fuel name tag s :
  let f := SField name tag in
  exported name = true -> nul_free (fieldName f) = true -> blen (fieldName f) + 1 < 32767 ->
  tagOption f = [] -> nul_free s = true ->
  abs_list (abs_value (abs_pairs fuel)) (field_pairs (f, vString s)) =
  Some [(fieldName f, NString s)].
Proof.
  intros f E N L T R. unfold field_pairs. cbn [fst snd]. rewrite collectField_spec.
  cbn [orb f_Name f]. rewrite E. cbn [negb]. fold f. rewrite T.
  cbn [vString unpackVal v_val v_ro]. rewrite !bool_decide_eq_false_2 by done. cbn [orb andb abs_list].
  rewrite N. decide_true (blen (fieldName f) + 1 <? 32767). cbn [andb abs_value v_ro v_val vString].
  now rewrite R.
Qed.

Lemma abs_devices_opt fuel name tag (ds : list VDev) :
  let f := SField name tag in
  exported name = true -> nul_free (fieldName f) = true -> blen (fieldName f) + 1 < 32767 ->
  tagOption f = str "omitempty" -> blen ds < 2147483647 ->
  (forall d, d ∈ ds -> abs_pairs fuel (MkValue false (vVDev d)) = Some (vdev_nvs d)) ->
  abs_list (abs_value (abs_pairs fuel)) (field_pairs (f, VSlice None tVDev (map vVDev ds))) =
  Some (if blen (map vdev_nvs ds) =? 0 then [] else [(fieldName f, NNvlistArray (map vdev_nvs ds))]).
Proof.
  intros f E N L T Ld R. unfold field_pairs. cbn [fst snd]. rewrite collectField_spec.
  cbn [orb f_Name f]. rewrite E. cbn [negb]. fold f. rewrite T.
  cbn [unpackVal v_val v_ro]. rewrite (bool_decide_eq_false_2 (str "omitempty" = str "ro")) by done.
  rewrite bool_decide_eq_true_2 by done. cbn [orb andb isEmptyValue v_val].
  rewrite !blen_map. destruct (blen ds =? 0); [done|]. cbn [abs_list].
  rewrite N. decide_true (blen (fieldName f) + 1 <? 32767). cbn [andb abs_value v_ro v_val].
  unfold abs_array. rewrite blen_map. decide_false (2147483647 <=? blen ds).
  cbn [unpackType tVDev kind_of_type].
  assert (M : mapM (fun x => abs_pairs fuel (MkValue false x)) (map vVDev ds) = Some (map vdev_nvs ds)).
  { clear - R. apply mapM_Some. induction ds as [|d ds IH]; cbn; constructor.
    - apply R. set_solver.
    - apply IH. intros. apply R. set_solver. }
  rewrite M. done.
Qed.

Lemma abs_vdev fuel d :
  vdev_ok d = true -> (depth (vVDev d) < fuel)%nat ->
  abs_pairs fuel (MkValue false (vVDev d)) = Some (vdev_nvs d).
Proof.
  revert d. induction fuel as [|fuel IH]; intros d K D; [lia|].
  assert (Kid : forall l i, (i, VSlice None tVDev (map vVDev l)) ∈
      match vVDev d with VStruct _ fs => fs | _ => [] end -> forallb vdev_ok l = true ->
    forall c, c ∈ l -> abs_pairs fuel (MkValue false (vVDev c)) = Some (vdev_nvs c)).
  { intros l i Hi Hl c Hc. apply IH; [eapply forallb_elem; eassumption|].
    destruct d. cbn [vVDev depth] in D. cbn [vVDev] in Hi.
    pose proof (list_max_in (fun '(_, x) => depth x) _ _ Hi) as M. cbn [depth] in M.
    pose proof (list_max_in depth (vVDev c) (map vVDev l) ltac:(apply list_elem_of_fmap; eauto)).
    lia. }
  destruct d as [il dtl ash asz gu idn pa ty ch l2 sp]. cbn [vVDev vdev_ok forallb IsLog DTL AlignmentShift AllocatableCapacity GUID ID Path VType
    Children L2CacheChildren SparesChildren] in *. bool_to_prop.
  rewrite (abs_struct fuel _ _
    [[(str "is_log", NInt KUint64 il)]; opt_int "DTL" dtl; opt_int "ashift" ash; opt_int "asize" asz;
     opt_int "guid" gu; opt_int "id" idn; [(str "path", NString pa)]; [(str "type", NString ty)];
     opt_lists "children" (map vdev_nvs ch); opt_lists "l2cache" (map vdev_nvs l2);
     opt_lists "spares" (map vdev_nvs sp)]).
  - cbn [concat]. now rewrite app_nil_r.
  - repeat apply Forall2_cons_2; [..|apply Forall2_nil_2].
    all: first
      [ apply abs_uint64; solve [done | vm_compute; reflexivity]
      | apply abs_uint64_opt; solve [done | vm_compute; reflexivity]
      | apply abs_string; solve [done | vm_compute; reflexivity]
      | apply abs_devices_opt; [vm_compute; reflexivity..|lia|eapply Kid; [|eassumption];
          unfold fld; repeat first [apply list_elem_of_here | apply list_elem_of_further]] ].
Qed.

Lemma Marshal_vdev d :
  vdev_ok d = true -> Marshal (Some (vVDev d)) = Ok (packed LittleEndian (vdev_nvs d)).
Proof. intros K. apply Marshal_spec. apply abs_vdev; [done|lia]. Qed.

(** ** Calls as the kernel sees them *)

Section calls.
Context {W : Type} (sys : kernel W) (addr : buffer -> nat -> Z) (plat : platform).

Definition has_value (v : option gval) : bool := bool_decide (is_Some v).

(** The first answer to a wrapper's call that is not ENOMEM. *)
Definition answer (h : option Z) (i : Ioctl) (name : gostring) (cmd : Cmd)
    (src : option (list byte)) (response : option gval) (conf : option (list byte)) (w : W) :
    option (nat * kreply) * W :=
  first_reply sys addr (Fd h) (ioctl_number plat i) name cmd src (has_value response) conf attempts 0 w.

(** The result of a call in terms of the kernel's answer. *)
Definition reply_of (cmd : Cmd) (response : option gval) (a : option (nat * kreply)) : outcome reply :=
  match a with
  | None => Ok (Reply (Some errTooBig) cmd response)
  | Some (n, r) =>
      if k_errno r =? 0 then
        match response with
        | None => Ok (Reply None (k_cmd' r) None)
        | Some v =>
            let '(out, v') := Unmarshal (filled (dst_size n) (k_dst r)) v in
            obind (error_of out) (fun e => Ok (Reply e (k_cmd' r) (Some v')))
        end
      else Ok (Reply (Some (Errno (k_errno r))) (k_cmd' r) response)
  end.

Lemma nvlistIoctl_answer i name cmd req resp conf h w src cf :
  marshal_opt req = Ok src -> marshal_opt conf = Ok cf ->
  nvlistIoctl sys addr plat i name cmd req resp conf (Env h w) =
  (reply_of cmd resp (answer h i name cmd src resp cf w).1,
   Env h (answer h i name cmd src resp cf w).2).
Proof.
  intros R C. unfold nvlistIoctl. cbn [zfsHandle world]. rewrite NvlistIoctl_refines.
  unfold ioctl_spec. rewrite R, C. cbn [io_cmd io_response io_world].
  unfold answer, has_value.
  destruct (first_reply _ _ _ _ _ _ _ _ _ _ _ _) as [[[n r]|] w'] eqn:A; cbn [loop_result fst snd reply_of].
  - destruct (k_errno r =? 0); [|done]. unfold finish. cbn [io_response io_cmd io_world].
    destruct resp as [v|]; [|done]. cbn [codec_Unmarshal nvlist_codec].
    destruct (Unmarshal _ v) as [[] v']; reflexivity.
  - reflexivity.
Qed.

Lemma filled_prefix size bs : blen bs <= size -> exists z, filled size bs = bs ++ z.
Proof.
  intros L. unfold filled. pose proof (blen_nonneg bs). rewrite take_app_ge by (unfold blen in L; lia).
  now eexists.
Qed.
End calls.

(** The calls recorded for one use of [nvlistIoctl]: between one and five,
    equal up to the return buffer. *)
Lemma nvlistIoctl_log {W} (sys : kernel W) addr plat i name cmd req resp conf h w log src cf :
  marshal_opt req = Ok src -> marshal_opt conf = Ok cf ->
  exists m w', (1 <= m <= 5)%nat /\
    world (snd (nvlistIoctl (logged sys) addr plat i name cmd req resp conf (Env h (w, log)))) =
    (w', log ++ map (sent addr (Fd h) (ioctl_number plat i) name cmd src (has_value resp) cf) (seq 0 m)).
Proof.
  intros R C. rewrite (nvlistIoctl_answer _ _ _ _ _ _ _ _ _ _ _ src cf R C). cbn [snd world].
  destruct (first_reply_log sys addr (Fd h) (ioctl_number plat i) name cmd src (has_value resp) cf
    attempts 0 w log) as (m & w' & L & P & E & _).
  exists m, w'. split; [unfold attempts in *; lia|]. exact E.
Qed.

(** The same for a wrapper that only returns the error, with a property of the
    calls. *)
Lemma justError_log {W} (sys : kernel W) addr plat i name cmd req resp conf h w log src cf (Q : kcall -> Prop) :
  marshal_opt req = Ok src -> marshal_opt conf = Ok cf ->
  (forall k, Q (sent addr (Fd h) (ioctl_number plat i) name cmd src (has_value resp) cf k)) ->
  exists calls w', (1 <= length calls <= 5)%nat /\
    world (snd (justError (nvlistIoctl (logged sys) addr plat i name cmd req resp conf) (Env h (w, log)))) =
    (w', log ++ calls) /\ Forall Q calls.
Proof.
  intros R C HQ. destruct (nvlistIoctl_log sys addr plat i name cmd req resp conf h w log src cf R C)
    as (m & w' & L & E). eexists _, w'. split; [|split].
  - rewrite length_map, length_seq. exact L.
  - rewrite <- E. unfold justError, gbind. now destruct (nvlistIoctl _ _ _ _ _ _ _ _ _ _) as [[] ?].
  - apply Forall_map, Forall_forall. intros k _. apply HQ.
Qed.

(** ** The name the kernel reads *)

Lemma sent_name addr fd i name cmd src b cf n :
  zc_Name (k_cmd (sent addr fd i name cmd src b cf n)) = stored name (zc_Name cmd).
Proof. reflexivity. Qed.

Lemma copyString_cut s buf :
  (length s <= length buf)%nat ->
  snd (copyString s buf) = before_nul s ++ drop (length (before_nul s)) buf.
Proof.
  revert buf. induction s as [|c s IH]; intros [|b buf] L; cbn in *; try lia; try done.
  case_bool_decide; [done|]. specialize (IH buf ltac:(lia)).
  destruct (copyString s buf). cbn in *. now rewrite IH.
Qed.

Lemma before_nul_free s : Forall (fun c => c <> x00) (before_nul s).
Proof. induction s as [|c s IH]; cbn; [constructor|]. case_bool_decide; constructor; done. Qed.

Lemma length_before_nul s : (length (before_nul s) <= length s)%nat.
Proof. induction s as [|c s IH]; cbn; [lia|]. case_bool_decide; cbn; lia. Qed.

Lemma before_nul_id s : nul_free s = true -> before_nul s = s.
Proof.
  induction s as [|c s IH]; cbn; [done|]. intros H. apply andb_true_iff in H as [H1 H2].
  case_bool_decide; [done|]. now rewrite IH.
Qed.

(** What a zeroed buffer of [n] bytes holds after a string was stored in it: the
    string up to its first zero byte, nothing if it is too long. *)
Definition seen (n : Z) (s : gostring) : gostring := if blen s <? n then before_nul s else [].

Lemma stored_seen s n :
  0 <= n -> delimitedBufToString (stored s (zero_bytes n)) = seen n s.
Proof.
  intros N. unfold seen, stored, stringToDelimitedBuf, zero_bytes. rewrite blen_replicate.
  destruct (Z.ltb_spec (blen s) n).
  - pose proof (length_before_nul s). decide_false (Z.of_nat (Z.to_nat n) - 1 <? blen s).
    rewrite copyString_cut by (rewrite length_replicate; unfold blen in *; lia).
    rewrite drop_replicate.
    destruct (Z.to_nat n - length (before_nul s))%nat as [|k] eqn:E; [unfold blen in *; lia|].
    cbn [replicate]. apply delimited_prefix, before_nul_free.
  - decide_true (Z.of_nat (Z.to_nat n) - 1 <? blen s). cbn [snd]. now destruct (Z.to_nat n).
Qed.

(** ** Which calls an operation makes *)

(** Whether results report an error. *)
Class Fallible (A : Type) := is_error : A -> bool.
#[export] Instance fallible_option E : Fallible (option E) := fun e => bool_decide (is_Some e).
#[export] Instance fallible_pair A : Fallible (A * option goerr) := fun r => bool_decide (is_Some r.2).
#[export] Instance fallible_in_place A B : Fallible (A * option goerr * option B) :=
  fun r => bool_decide (is_Some r.1.2).
#[export] Instance fallible_reply : Fallible reply := fun r => bool_decide (is_Some (err r)).

Definition failed `{Fallible A} (out : outcome A) : Prop :=
  match out with Ok a => is_error a = true | Panic _ => True | _ => False end.

(** Whatever the state, [c] makes at most five calls, all with the number [n],
    to the open handle and with the dataset [name]; if it makes none it reports
    an error or panics. *)
Definition issues `{Fallible A} {W} (c : go (env (W * list kcall)) A) (n : Z) (name : gostring) : Prop :=
  forall h w log, exists calls w', world (snd (c (Env h (w, log)))) = (w', log ++ calls) /\
    (length calls <= 5)%nat /\
    Forall (fun k => k_ioctl k = n /\ k_fd k = Fd h /\
      delimitedBufToString (zc_Name (k_cmd k)) = seen 4096 name) calls /\
    (calls = [] -> failed (fst (c (Env h (w, log))))).

Lemma issues_nothing `{Fallible A} {W} (c : go (env (W * list kcall)) A) n name :
  (forall e, snd (c e) = e /\ failed (fst (c e))) -> issues c n name.
Proof.
  intros H0 h w log. destruct (H0 (Env h (w, log))) as [E F]. exists [], w. rewrite E, app_nil_r.
  split; [done|]. split; [cbn; lia|]. now split.
Qed.

Lemma issues_then `{Fallible A, Fallible B} {W} (c : go (env (W * list kcall)) A)
    (k : A -> go (env (W * list kcall)) B) n name :
  issues c n name ->
  (forall a e, snd (k a e) = e /\ (is_error a = true -> failed (fst (k a e)))) -> issues (gbind c k) n name.
Proof.
  intros I K h w log. destruct (I h w log) as (calls & w' & E & L & F & N). exists calls, w'.
  unfold gbind. destruct (c (Env h (w, log))) as [[a| | |] e]; cbn in E, N |- *;
    [destruct (K a e) as [Ke Kf]; rewrite Ke|..]; repeat split; auto.
Qed.

(** A call whose arguments cannot be marshalled is not made. *)
Lemma nvlistIoctl_unsent {W} (sys : kernel W) addr plat i name cmd req resp conf e :
  (forall src cf, marshal_opt req = Ok src -> marshal_opt conf = Ok cf -> False) ->
  snd (nvlistIoctl sys addr plat i name cmd req resp conf e) = e /\
  failed (fst (nvlistIoctl sys addr plat i name cmd req resp conf e)).
Proof.
  intros N. unfold nvlistIoctl. set (s := IoState cmd resp (world e)).
  pose proof (NvlistIoctl_refines sys addr (Fd (zfsHandle e)) (ioctl_number plat i) name req conf s) as R.
  pose proof (ioctl_spec_ends sys addr (Fd (zfsHandle e)) (ioctl_number plat i) name req conf s) as T.
  unfold ioctl_spec in T, R. rewrite R.
  destruct e as [h w]. destruct (marshal_opt req) as [src|x|p|] eqn:Er; [|done..].
  destruct (marshal_opt conf) as [cf|x|p|] eqn:Ec; [now destruct (N src cf)|done..].
Qed.

Lemma issues_call {W} (sys : kernel W) addr plat i name cmd req resp conf n :
  ioctl_number plat i = n -> zc_Name cmd = zero_bytes 4096 ->
  issues (nvlistIoctl (logged sys) addr plat i name cmd req resp conf) n name.
Proof.
  intros <- Z h w log. pose proof (nvlistIoctl_unsent (logged sys) addr plat i name cmd req resp conf) as U.
  destruct (marshal_opt req) as [src|e|p|] eqn:R; [|now apply issues_nothing; intros; apply U..].
  destruct (marshal_opt conf) as [cf|e|p|] eqn:C; [|now apply issues_nothing; intros; apply U..].
  destruct (nvlistIoctl_log sys addr plat i name cmd req resp conf h w log src cf R C)
    as (m & w' & Lm & E). eexists _, w'. split; [exact E|]. rewrite length_map, length_seq. split; [lia|].
  split; [|destruct m; [lia|done]].
  apply Forall_map, Forall_forall. intros k _. split; [done|]. split; [done|].
  rewrite sent_name, Z. now apply stored_seen.
Qed.

Lemma issues_justError {W} (sys : kernel W) addr plat i name cmd req resp conf n :
  ioctl_number plat i = n -> zc_Name cmd = zero_bytes 4096 ->
  issues (justError (nvlistIoctl (logged sys) addr plat i name cmd req resp conf)) n name.
Proof. intros E Z. apply issues_then; [now apply issues_call|]. intros r e. now split. Qed.

(** A wrapper that computes its results from the reply. *)
Ltac solve_issues :=
  first
    [ apply issues_justError; reflexivity
    | eapply issues_then;
      [ apply issues_call; reflexivity
      | let r := fresh "r" in let e := fresh "e" in
        intros r e; unfold is_error, fallible_reply; cbv beta;
        destruct (err r); repeat case_match; (split; [done|done]) ] ].

(** The two helpers that are not total end in a value, an error or a panic. *)
Lemma poolGuid_outcome cfg : match poolGuid cfg with Ok _ | Panic _ => True | _ => False end.
Proof. unfold poolGuid. repeat case_match; done. Qed.

Lemma copyString_ends s buf : fst (copyString s buf) <> OutOfFuel.
Proof.
  revert buf. induction s as [|c s IH]; intros [|b buf]; cbn; try done. case_bool_decide; [done|].
  specialize (IH buf). now destruct (copyString s buf).
Qed.

Lemma stringToDelimitedBuf_ends s buf : fst (stringToDelimitedBuf s buf) <> OutOfFuel.
Proof. unfold stringToDelimitedBuf. case_match; [done|apply copyString_ends]. Qed.

(** ** Snapshot names *)

Lemma map_get_None {A} k (m : list (gostring * A)) : map_get k m = None <-> k ∉ m.*1.
Proof.
  induction m as [|[k' v] m IH]; cbn; [set_solver|].
  case_bool_decide as E; [subst; split; [done|set_solver]|]. rewrite IH. set_solver.
Qed.

Lemma addNames_spec names snaps :
  NoDup names -> (forall n, n ∈ names -> n ∉ snaps.*1) ->
  addNames names snaps = Some (snaps ++ map (fun n => (n, true)) names).
Proof.
  revert snaps. induction names as [|n names IH]; intros snaps N F; cbn; [now rewrite app_nil_r|].
  apply NoDup_cons in N as [N1 N2].
  assert (Fn : n ∉ snaps.*1) by (apply F; set_solver).
  rewrite (proj2 (map_get_None n snaps) Fn), (map_set_fresh n true snaps Fn).
  rewrite IH; [now rewrite <- app_assoc|done|].
  intros k Hk. rewrite fmap_app. apply not_elem_of_app. split; [apply F; set_solver|].
  cbn. set_solver.
Qed.

Lemma addNames_dup names snaps :
  (~ NoDup names \/ exists n, n ∈ names /\ n ∈ snaps.*1) -> addNames names snaps = None.
Proof.
  revert snaps. induction names as [|n names IH]; intros snaps H; cbn.
  - destruct H as [H|(? & ? & _)]; [destruct H; constructor|set_solver].
  - destruct (map_get n snaps) as [b|] eqn:G; [done|]. apply map_get_None in G as Fn.
    rewrite (map_set_fresh n true snaps Fn). apply IH.
    destruct (decide (n ∈ names)) as [I|I].
    { right. exists n. split; [done|]. rewrite fmap_app. cbn. set_solver. }
    destruct H as [H|(k & Hk & Hs)].
    + left. intros X. apply H. now constructor.
    + right. exists k. rewrite fmap_app. set_solver.
Qed.

(** The entries in whatever order they are listed. *)
Lemma all_true_perm m names :
  m ≡ₚ map (fun n => (n, true)) names ->
  exists names', names' ≡ₚ names /\ m = map (fun n : gostring => (n, true)) names'.
Proof.
  intros P. exists (map fst m). split.
  - apply (Permutation_map fst) in P. rewrite map_map in P. cbn in P. now rewrite map_id in P.
  - rewrite map_map. rewrite <- (map_id m) at 1. apply map_ext_in. intros [k b] I. cbn.
    apply (Permutation_in _ P), in_map_iff in I as (n & [= <- <-] & _). done.
Qed.

Lemma forallb_perm {A} (f : A -> bool) l l' : l ≡ₚ l' -> forallb f l = forallb f l'.
Proof.
  induction 1 as [|x l l' _ IH|x y l|]; cbn; [done|now rewrite IH| |congruence].
  rewrite !andb_assoc. now rewrite (andb_comm (f x)).
Qed.

(** Names ZFS accepts in a request: short, without zero bytes. *)
Definition name_ok (n : gostring) : bool := nul_free n && (blen n + 1 <? 32767).

Definition snaps_nvs (names : list gostring) : nvs :=
  [(str "snaps", NNvlist (map (fun n => (n, NBoolean)) names))].

Definition all_true (names : list gostring) : list (gostring * bool) :=
  map (fun n => (n, true)) names.

Lemma abs_bool_map fuel names :
  forallb name_ok names = true ->
  abs_pairs (S fuel) (MkValue false (vBoolMap (all_true names))) =
  Some (map (fun n => (n, NBoolean)) names).
Proof.
  intros K. cbn [abs_pairs]. change (unpackVal _) with (Some (MkValue false (vBoolMap (all_true names)))).
  cbn [collectPairs v_val v_ro vBoolMap].
  assert (C : collectMap false tString (map (fun '(k, b) => (k, vBool b)) (all_true names)) =
    Ok (map (fun n => (n, MkValue false (vBool true))) names)).
  { clear K. induction names as [|n names IH]; [done|]. cbn. unfold all_true in IH. now rewrite IH. }
  rewrite C. clear C. induction names as [|n names IH]; [done|]. cbn [forallb] in K.
  apply andb_true_iff in K as [Kn K]. unfold name_ok in Kn. cbn [map abs_list].
  rewrite Kn, (IH K). reflexivity.
Qed.

Lemma abs_snaps_field fuel names :
  forallb name_ok names = true ->
  abs_list (abs_value (abs_pairs (S fuel))) (field_pairs (fld "Snaps" "snaps" (vBoolMap (all_true names)))) =
  Some (snaps_nvs names).
Proof.
  intros K.
  change (field_pairs _) with [(str "snaps", MkValue false (vBoolMap (all_true names)))].
  cbn [abs_list]. change (nul_free (str "snaps") && _) with true. cbv iota.
  unfold abs_value. cbn [v_ro v_val vBoolMap]. fold (vBoolMap (all_true names)).
  rewrite abs_bool_map by done. reflexivity.
Qed.

(** Properties given to an operation: a [*DatasetProps] with the values [l]. *)
Definition props_of (pl : option nvs) : option anymap :=
  option_map (fun l => Some (map (fun '(k, v) => (k, Some (go_value v))) l)) pl.
Definition props_nvs (pl : option nvs) : nvs :=
  match pl with Some l => [(str "props", NNvlist l)] | None => [] end.
Definition props_ok (pl : option nvs) : bool :=
  match pl with Some l => canonical_list l | None => true end.

Lemma vDatasetPropsPtr_fgo pl :
  props_ok pl = true ->
  vDatasetPropsPtr (props_of pl) =
  fgo (match pl with Some l => FPtr (Some (str "DatasetProps")) (NNvlist l) | None => FNil tDatasetProps end).
Proof.
  destruct pl as [l|]; [|done]. intros C. cbn [fgo]. unfold go_value. rewrite nv_value_nvlist.
  rewrite nvs_value_canonical by exact C. unfold vDatasetPropsPtr, vDatasetProps, props_of. cbn.
  rewrite map_map. do 4 f_equal. apply map_ext. now intros [].
Qed.

Lemma abs_props_field fuel pl :
  props_ok pl = true -> (depth (vDatasetPropsPtr (props_of pl)) < fuel)%nat ->
  abs_list (abs_value (abs_pairs fuel)) (field_pairs (fld "Props" "props" (vDatasetPropsPtr (props_of pl)))) =
  Some (props_nvs pl).
Proof.
  intros C D. rewrite vDatasetPropsPtr_fgo in * by done. unfold fld.
  rewrite abs_field; [now destruct pl| |done]. now destruct pl.
Qed.

Lemma Marshal_snapReq names pl :
  forallb name_ok names = true -> props_ok pl = true ->
  Marshal (Some (vSnapReq (all_true names) (props_of pl))) =
  Ok (packed LittleEndian (snaps_nvs names ++ props_nvs pl)).
Proof.
  intros K C. apply Marshal_spec. unfold abstract, vSnapReq. cbn [depth].
  rewrite (abs_struct _ _ _ [snaps_nvs names; props_nvs pl]); [cbn [concat]; now rewrite app_nil_r|].
  repeat apply Forall2_cons_2; [apply abs_snaps_field, K|apply abs_props_field; [done|]|apply Forall2_nil_2].
  cbn [map fld list_max foldr]. lia.
Qed.

Definition destroy_nvs (names : list gostring) (defer : bool) : nvs :=
  snaps_nvs names ++ (if defer then [(str "defer", NBoolean)] else []).

Lemma Marshal_destroySnapReq names defer :
  forallb name_ok names = true ->
  Marshal (Some (vDestroySnapReq (all_true names) defer)) =
  Ok (packed LittleEndian (destroy_nvs names defer)).
Proof.
  intros K. apply Marshal_spec. unfold abstract, vDestroySnapReq. cbn [depth].
  rewrite (abs_struct _ _ _ [snaps_nvs names; if defer then [(str "defer", NBoolean)] else []]);
    [cbn [concat]; now rewrite app_nil_r|].
  repeat apply Forall2_cons_2; [apply abs_snaps_field, K|now destruct defer|apply Forall2_nil_2].
Qed.

(** ** Strings stored in the value field *)

Lemma copyString_nul s buf :
  nul_free s = false -> (length s <= length buf)%nat -> fst (copyString s buf) = Err errStringNull.
Proof.
  revert buf. induction s as [|c s IH]; intros [|b buf] N L; cbn in *; try done; try lia.
  destruct (bool_decide (c = x00)); cbn in *; [done|].
  specialize (IH buf N ltac:(lia)). destruct (copyString s buf). exact IH.
Qed.

(** Which strings [stringToDelimitedBuf] refuses. *)
Lemma stringToDelimitedBuf_error s buf :
  (blen buf <= blen s -> fst (stringToDelimitedBuf s buf) = Err errStringLonger) /\
  (blen s < blen buf -> nul_free s = false -> fst (stringToDelimitedBuf s buf) = Err errStringNull).
Proof.
  unfold stringToDelimitedBuf. split.
  - intros L. now decide_true (blen buf - 1 <? blen s).
  - intros L N. decide_false (blen buf - 1 <? blen s). apply copyString_nul; [done|].
    unfold blen in L. lia.
Qed.

(** ** Dataset properties with their sources *)

(** One property as the kernel sends it: its value and, if it has one, its
    source. *)
Abbreviation ksprop := (gostring * (nvval * option gostring))%type.

Definition ksprop_inner (p : ksprop) : gostring * nvs :=
  let '(k, (v, s)) := p in
  (k, (str "value", v) :: match s with Some s => [(str "source", NString s)] | None => [] end).

(** The [PropWithSource] it becomes. *)
Definition ksprop_value (p : ksprop) : gostring * gval :=
  let '(k, (v, s)) := p in
  (k, VStruct (Some (str "PropWithSource"))
        [fld "Value" "value" (VIface None (nv_value v));
         fld "Source" "source" (vString (default [] s))]).

(** The list the kernel returns, and the map it becomes. *)
Definition ksprops_nvs (ps : list ksprop) : nvs :=
  map (fun '(k, inner) => (k, NNvlist inner)) (map ksprop_inner ps).
Definition ksprops_map (ps : list ksprop) : gval :=
  VMap (Some (str "DatasetPropsWithSource")) tString tPropWithSource
    (Some (fold_left (fun m '(k, v) => map_set k v m) (map ksprop_value ps) [])).

Lemma ksprop_struct p :
  flat (fst (snd p)) = true -> struct_of tPropWithSource (snd (ksprop_inner p)) (snd (ksprop_value p)).
Proof.
  destruct p as [k [v s]]. intros F. cbn [fst snd ksprop_inner ksprop_value].
  exists (str "PropWithSource"), [fld "Value" "value" (VIface None None); fld "Source" "source" (vString [])].
  eexists. split; [reflexivity|]. split; [reflexivity|]. split; [|reflexivity].
  cbn [store_struct]. destruct (nv_value v) as [g|]; cbn [mbind option_bind].
  - change (set_named (str "value") g _) with (Some (Ok [fld "Value" "value" (VIface None (Some g));
      fld "Source" "source" (vString [])])). cbn [obind]. now destruct s.
  - now destruct s.
Qed.

Lemma Unmarshal_ksprops o ps rest :
  nvs_ok (ksprops_nvs ps) = true -> forallb (fun p => flat (fst (snd p))) ps = true ->
  Unmarshal (packed o (ksprops_nvs ps) ++ rest) newDatasetPropsWithSource = (Ok tt, ksprops_map ps).
Proof.
  intros K F. unfold ksprops_nvs, newDatasetPropsWithSource.
  rewrite (Unmarshal_struct_map o rest (Some (str "DatasetPropsWithSource")) tPropWithSource
    (map ksprop_inner ps) (map (snd ∘ ksprop_value) ps) eq_refl K).
  - unfold ksprops_map. do 5 f_equal. clear K F. induction ps as [|[k [v s]] ps IH]; [done|].
    cbn [map zip zip_with fst ksprop_inner ksprop_value compose snd]. f_equal. exact IH.
  - clear K. induction ps as [|[k [v s]] ps IH]; [done|]. cbn [forallb map] in *.
    apply andb_true_iff in F as [Fv F]. rewrite IH by done.
    cbn [ksprop_inner snd forallb compose fst] in *. rewrite Fv. now destruct s.
  - clear K. induction ps as [|p ps IH]; cbn [map]; constructor.
    + apply ksprop_struct. cbn [forallb] in F. now apply andb_true_iff in F as [? _].
    + apply IH. cbn [forallb] in F. now apply andb_true_iff in F as [_ ?].
Qed.

(** ** Pool properties *)

(** The settable properties but [User], by their names in the kernel. *)
Definition poolPropNames : list gostring :=
  map str ["name"; "version"; "comment"; "altroot"; "tname"; "bootfs"; "cachefile"; "readonly";
           "multihost"; "failmode"; "dedupditto"; "ashift"; "delegation"; "autoreplace";
           "listsnapshots"; "autoexpand"; "maxblocksize"; "maxdnodesize"; "root-props-nvl"]%string.

(** A [PoolProps] value with the given field values, and its user properties:
    nil or a [map[string]string]. *)
Definition vPoolProps (vals : list gval) : gval :=
  VStruct (Some (str "PoolProps")) (zip (map fst (poolPropsSettable ++ poolPropsReadOnly)) vals).
Definition vUser (user : option (list (gostring * gostring))) : gval :=
  VMap None tString tString (option_map (map (fun '(k, s) => (k, vString s))) user).

(** A settable property is sent when it is set to something not empty. *)
Definition poolProp (name : gostring) (c : fval) : nvs :=
  match content c with
  | Some v => if nv_empty v then [] else [(name, v)]
  | None => []
  end.

Definition user_ok (p : gostring * gostring) : bool := name_ok (fst p) && nul_free (snd p).

Lemma abs_user fuel user :
  forallb user_ok (default [] user) = true ->
  abs_list (abs_value (abs_pairs (S fuel))) (field_pairs (fld "User" "-,extra,omitempty" (vUser user))) =
  Some [(str "-", NNvlist (map (fun '(k, s) => (k, NString s)) (default [] user)))].
Proof.
  intros K. unfold vUser. set (m := VMap None tString tString _).
  change (field_pairs _) with [(str "-", MkValue false m)].
  cbn [abs_list]. change (nul_free (str "-") && _) with true. cbv iota.
  unfold abs_value. cbn [v_ro v_val m]. fold m.
  assert (E : abs_pairs (S fuel) (MkValue false m) =
    Some (map (fun '(k, s) => (k, NString s)) (default [] user))); [|now rewrite E].
  cbn [abs_pairs]. change (unpackVal _) with (Some (MkValue false m)). cbn [collectPairs v_val v_ro m].
  assert (C : collectMap false tString (match option_map (map (fun '(k, s) => (k, vString s))) user with
      | Some kvs => kvs | None => [] end) =
    Ok (map (fun '(k, s) => (k, MkValue false (vString s))) (default [] user))).
  { clear. destruct user as [l|]; [|done]. cbn [option_map default]. induction l as [|[k s] l IH]; [done|].
    cbn [map collectMap]. rewrite IH. reflexivity. }
  rewrite C. clear C m. induction (default [] user) as [|[k s] l IH]; [done|]. cbn [forallb map abs_list] in *.
  apply andb_true_iff in K as [Ku K]. unfold user_ok, name_ok in Ku. cbn [fst snd] in Ku.
  apply andb_true_iff in Ku as [Ku Ks]. rewrite Ku, IH by done. unfold abs_value. cbn [v_ro v_val vString].
  now rewrite Ks.
Qed.

Lemma Forall2_zip_fields (names : list gostring) (fs : list sfield) (cs : list fval) fuel :
  Forall2 (fun n f => tag_name f = n /\ tag_option f = str "omitempty" /\ exported (f_Name f) = true /\
    nul_free n && (blen n + 1 <? 32767) = true) names fs ->
  forallb (fun c => match content c with Some v => canonical v | None => true end) cs = true ->
  (forall c, c ∈ cs -> (depth (fgo c) < fuel)%nat) ->
  Forall2 (fun p l => abs_list (abs_value (abs_pairs fuel)) (field_pairs p) = Some l)
    (zip fs (map fgo cs)) (zip_with poolProp names cs).
Proof.
  intros F. revert cs. induction F as [|n f names fs (N & O & X & K) F IH]; intros [|c cs] C D;
    cbn [map zip zip_with]; try constructor.
  - cbn [forallb] in C. apply andb_true_iff in C as [Cc C].
    rewrite abs_field.
    + unfold emitted, poolProp. rewrite O, N. destruct (content c) as [v|]; [|done].
      rewrite (bool_decide_eq_false_2 (str "omitempty" = str "ro")) by done.
      rewrite bool_decide_eq_true_2 by done. cbn [andb]. now destruct (nv_empty v).
    + unfold field_ok. rewrite X, N, Cc. bool_to_prop. rewrite andb_true_r. cbn [andb].
      match goal with H : nul_free n = true |- _ => rewrite H end. cbn [andb]. apply Z.ltb_lt. lia.
    + apply D. set_solver.
  - cbn [forallb] in C. apply andb_true_iff in C as [_ C]. apply IH; [done|]. intros. apply D. set_solver.
Qed.

Lemma Marshal_poolProps cs user ros :
  forallb (fun c => match content c with Some v => canonical v | None => true end) cs = true ->
  length cs = 19%nat -> forallb user_ok (default [] user) = true ->
  Marshal (Some (vPoolProps (map fgo cs ++ vUser user :: ros))) =
  Ok (packed LittleEndian (concat (zip_with poolProp poolPropNames cs)
        ++ [(str "-", NNvlist (map (fun '(k, s) => (k, NString s)) (default [] user)))])).
Proof.
  intros C L U. apply Marshal_spec.
  assert (Z : vPoolProps (map fgo cs ++ vUser user :: ros) = VStruct (Some (str "PoolProps"))
    (zip (map fst (take 19 poolPropsSettable)) (map fgo cs) ++ [fld "User" "-,extra,omitempty" (vUser user)]
     ++ zip (map fst poolPropsReadOnly) ros)).
  { unfold vPoolProps. f_equal.
    change (map fst (poolPropsSettable ++ poolPropsReadOnly)) with
      (map fst (take 19 poolPropsSettable) ++ SField (str "User") (str "-,extra,omitempty")
         :: map fst poolPropsReadOnly).
    now rewrite zip_with_app by (rewrite (length_map fgo), L; reflexivity). }
  rewrite Z. clear Z. unfold abstract. set (fs := _ ++ _ ++ _).
  assert (D : forall c, c ∈ cs -> (depth (fgo c) < depth (VStruct (Some (str "PoolProps")) fs))%nat).
  { intros c I. apply list_elem_of_lookup in I as [i I].
    assert (i < 19)%nat by (apply lookup_lt_Some in I; lia).
    assert (exists f, map fst (take 19 poolPropsSettable) !! i = Some f) as [f Ef]
      by (apply lookup_lt_is_Some; cbn; lia).
    pose proof (list_max_in (fun '(_, x) => depth x) (f, fgo c) fs) as M. cbn [depth].
    specialize (M ltac:(apply elem_of_app; left; apply list_elem_of_lookup; exists i;
      rewrite lookup_zip_with, Ef; change (map fgo cs) with (fgo <$> cs);
      rewrite list_lookup_fmap, I; reflexivity)). lia. }
  destruct (depth (VStruct (Some (str "PoolProps")) fs)) as [|fuel] eqn:E; [discriminate E|].
  rewrite (abs_struct (S fuel) _ fs (zip_with poolProp poolPropNames cs
    ++ [[(str "-", NNvlist (map (fun '(k, s) => (k, NString s)) (default [] user)))]]
    ++ map (fun _ => []) (zip (map fst poolPropsReadOnly) ros))).
  { assert (N : forall {A B} (l : list A), concat (map (fun _ => @nil B) l) = []) by (intros ? ? l; now induction l).
    now rewrite !concat_app, N, !app_nil_r. }
  apply Forall2_app; [|apply Forall2_cons_2; [now apply abs_user|]].
  - apply Forall2_zip_fields; [|done|done].
    repeat (apply Forall2_cons_2; [vm_compute; repeat split; reflexivity|]). apply Forall2_nil_2.
  - clear. assert (R : Forall (fun f => tag_option f = str "ro") (map fst poolPropsReadOnly))
      by (vm_compute; repeat constructor).
    revert ros. induction R as [|f l Hf R IH]; intros [|x ros]; cbn [zip zip_with map]; constructor;
      [now apply abs_ro|apply IH].
Qed.
