(* ===== verification/Streams.v ===== *)
(** * ioctl/wrappers.go: send and receive streams

    [Send] and [Receive] run the ioctl in a goroutine and connect the caller
    to the kernel with a pipe and buffered channels. The shared objects (pipe,
    channels, stream) are one state record per stream; the methods of the
    caller are functions on it that block ([None]) or return; the goroutine,
    the kernel and the caller interleave through the step relations
    [send_step] and [recv_step]. *)

From Stdlib Require Import ZArith Lia Strings.Byte Strings.String.
From stdpp Require Import base list gmap.
From S2P Require Import Prelude GoValue NvEncode NvDecode IoctlTypes Ioctl WrapTypes.
From S2P Require Import Wrappers.

(** ** Channels and pipes *)

Record chan (A : Type) := Chan { ch_buf : list A; ch_cap : nat; ch_closed : bool }.
Arguments Chan {A}.
Arguments ch_buf {A}.
Arguments ch_cap {A}.
Arguments ch_closed {A}.

Definition make_chan {A} (cap : nat) : chan A := Chan [] cap false.

(** [c <- x]; [None]: blocks. *)
Definition chan_send {A} (x : A) (c : chan A) : option (outcome (chan A)) :=
  if ch_closed c then Some (Panic PClosed)
  else if (length (ch_buf c) <? ch_cap c)%nat
  then Some (Ok (Chan (ch_buf c ++ [x]) (ch_cap c) false)) else None.

(** [<-c], the zero value once the channel is closed and drained. *)
Definition chan_recv {A} (zero : A) (c : chan A) : option (A * chan A) :=
  match ch_buf c with
  | x :: r => Some (x, Chan r (ch_cap c) (ch_closed c))
  | [] => if ch_closed c then Some (zero, c) else None
  end.

Definition chan_close {A} (c : chan A) : outcome (chan A) :=
  if ch_closed c then Panic PClosed else Ok (Chan (ch_buf c) (ch_cap c) true).

Record pipe := Pipe { p_data : list byte; p_wopen : bool; p_ropen : bool }.

Definition errClosed : goerr := ErrText (str "file already closed").

(** [r.Read(buf)] with [len(buf) = len]: the bytes read and the error. The
    system chooses with [give] how many of the available bytes it hands out,
    at least one; on an empty pipe it blocks while the write end is open. *)
Definition pipe_Read (len give : nat) (p : pipe) : option (list byte * option goerr * pipe) :=
  if negb (p_ropen p) then Some ([], Some errClosed, p)
  else if (len =? 0)%nat then Some ([], None, p)
  else match p_data p with
       | [] => if p_wopen p then None else Some ([], Some EOF, p)
       | data =>
           let n := Nat.min len (Nat.max 1 give) in
           Some (take n data, None, Pipe (drop n data) (p_wopen p) (p_ropen p))
       end.

Definition close_r (p : pipe) : pipe := Pipe (p_data p) (p_wopen p) false.
Definition close_w (p : pipe) : pipe := Pipe (p_data p) false (p_ropen p).
Definition pipe_append (bs : list byte) (p : pipe) : pipe :=
  Pipe (p_data p ++ bs) (p_wopen p) (p_ropen p).

(** The error of [w.Write]: a path error with an errno, or something else. *)
Inductive wrError := WErrno (n : Z) | WOther (e : goerr).

Definition EPIPE : Z := 32.

(** [w.Write(data)]: [fail] is the error the system reports, if any, and the
    number of bytes it took before. *)
Definition pipe_Write (data : list byte) (fail : option (nat * wrError)) (p : pipe) :
    Z * option wrError * pipe :=
  if negb (p_wopen p) then (0, Some (WOther errClosed), p)
  else if negb (p_ropen p) then (0, Some (WErrno EPIPE), p)
  else match fail with
       | None => (blen data, None, pipe_append data p)
       | Some (n, e) => (blen (take n data), Some e, pipe_append (take n data) p)
       end.

(** ** sendStream *)

Record sendStream := SendStream {
  peekBuf : list byte;
  errorChan : chan (option goerr);
  lastError : option goerr;
  isEOF : bool;
  s_r : pipe
}.

Definition set_pipe (p : pipe) (s : sendStream) : sendStream :=
  SendStream (peekBuf s) (errorChan s) (lastError s) (isEOF s) p.
Definition set_peekBuf (b : list byte) (s : sendStream) : sendStream :=
  SendStream b (errorChan s) (lastError s) (isEOF s) (s_r s).

(** The end of both methods: at [io.EOF] the result of the ioctl is fetched. *)
Definition afterRead (bs : list byte) (e : option goerr) (s : sendStream) :
    option (list byte * option goerr * sendStream) :=
  if bool_decide (e = Some EOF) then
    match chan_recv None (errorChan s) with
    | None => None
    | Some (le, ch) =>
        let le := match le with None => Some EOF | Some x => Some x end in
        Some (bs, le, SendStream (peekBuf s) ch le true (s_r s))
    end
  else Some (bs, e, s).

Module sendStream.
Definition Read (len give : nat) (s : sendStream) : option (list byte * option goerr * sendStream) :=
  if isEOF s then Some ([], lastError s, s)
  else if (0 <? length (peekBuf s))%nat then
    Some (take len (peekBuf s), None, set_peekBuf (drop len (peekBuf s)) s)
  else match pipe_Read len give (s_r s) with
       | None => None
       | Some (bs, e, p) => afterRead bs e (set_pipe p s)
       end.

Definition peek (len give : nat) (s : sendStream) : option (list byte * option goerr * sendStream) :=
  if isEOF s then Some ([], lastError s, s)
  else match pipe_Read len give (s_r s) with
       | None => None
       | Some (bs, e, p) => afterRead bs e (set_peekBuf (peekBuf s ++ bs) (set_pipe p s))
       end.

Definition Close (s : sendStream) : option goerr * sendStream :=
  (if p_ropen (s_r s) then None else Some errClosed, set_pipe (close_r (s_r s)) s).
End sendStream.

(** *** Send *)

(** The goroutine: in the ioctl, about to send its result, about to close the
    pipe, finished. *)
Inductive sender := SCalling | SSending (e : option goerr) | SClosing | SDone.

(** The caller: inside [Send] waiting for the first byte, with a stream, or
    with the error [Send] returned. *)
Inductive sendMain := MPeeking | MStream | MFailed (e : goerr).

(** [ss_written] and [ss_read] are history: the bytes the kernel put into the
    pipe and the bytes [Read] returned. *)
Record sendSys := SendSys {
  ss_stream : sendStream;
  ss_go : sender;
  ss_main : sendMain;
  ss_written : list byte;
  ss_read : list byte
}.

(** [Send] up to the start of the goroutine; the argument is the error of
    [os.Pipe]. *)
Definition send_init (pipeErr : option goerr) : outcome sendSys :=
  match pipeErr with
  | Some e => Err e
  | None =>
      Ok (SendSys (SendStream [] (make_chan 1) None false (Pipe [] true true))
            SCalling MPeeking [] [])
  end.

Section send.
(** Which results the ioctl can have. *)
Context (result : option goerr -> Prop).

Inductive send_step : sendSys -> sendSys -> Prop :=
| step_kernel_write s m wr rd bs :
    p_ropen (s_r s) = true ->
    send_step (SendSys s SCalling m wr rd)
      (SendSys (set_pipe (pipe_append bs (s_r s)) s) SCalling m (wr ++ bs) rd)
| step_return s m wr rd e :
    result e ->
    send_step (SendSys s SCalling m wr rd) (SendSys s (SSending e) m wr rd)
| step_send_error s m wr rd e ch :
    chan_send e (errorChan s) = Some (Ok ch) ->
    send_step (SendSys s (SSending e) m wr rd)
      (SendSys (SendStream (peekBuf s) ch (lastError s) (isEOF s) (s_r s)) SClosing m wr rd)
| step_close_w s m wr rd :
    send_step (SendSys s SClosing m wr rd) (SendSys (set_pipe (close_w (s_r s)) s) SDone m wr rd)
| step_peek_ok s g wr rd give bs s' :
    sendStream.peek 1 give s = Some (bs, None, s') ->
    send_step (SendSys s g MPeeking wr rd) (SendSys s' g MStream wr rd)
| step_peek_err s g wr rd give bs e s' :
    sendStream.peek 1 give s = Some (bs, Some e, s') ->
    send_step (SendSys s g MPeeking wr rd)
      (SendSys (set_pipe (close_w (close_r (s_r s'))) s') g (MFailed e) wr rd)
| step_read s g wr rd len give bs e s' :
    sendStream.Read len give s = Some (bs, e, s') ->
    send_step (SendSys s g MStream wr rd) (SendSys s' g MStream wr (rd ++ bs))
| step_close s g wr rd :
    send_step (SendSys s g MStream wr rd) (SendSys (snd (sendStream.Close s)) g MStream wr rd).
End send.

(** The ioctl of [Send], with [fd] the write end of the pipe. *)
Definition sendCall `{NvCodec} {W} (sys : kernel W) addr plat (name : gostring)
    (options : SendOptions) (fd : Z) : go (env W) reply :=
  nvlistIoctl sys addr plat ZFS_IOC_SEND_NEW name zeroCmd
    (Some (vSendOptions (set_so_Fd (wrap_signed 4 fd) options)))
    (Some (VPtr None (TStruct None []) (Some (VStruct None [])))) None.

(** The errors this call can return, the [result] of [send_step]. *)
Definition sendResult `{NvCodec} {W} (sys : kernel W) addr plat (name : gostring)
    (options : SendOptions) (fd : Z) (e : option goerr) : Prop :=
  exists en r en', sendCall sys addr plat name options fd en = (Ok r, en') /\ err r = e.

(** ** ReceiveStream *)

(** An error of [Receive]: a plain one, or a [*ReceiveError]. *)
Inductive recvError := RErr (e : goerr) | RReceive (res : gval).

(** The method [Error] of [ReceiveError]. *)
Definition Error (e : gval) : gostring := str "Failed to apply props".

Record ReceiveStream := MkReceiveStream {
  r_w : pipe;
  r_errorChan : chan (option recvError);
  r_lastError : option goerr;
  beginRecord : list byte;
  beginRecordPointer : Z;
  beginRecordChan : chan (list byte)
}.

Definition set_r_pipe (p : pipe) (s : ReceiveStream) : ReceiveStream :=
  MkReceiveStream p (r_errorChan s) (r_lastError s) (beginRecord s) (beginRecordPointer s)
    (beginRecordChan s).
Definition set_r_lastError (e : option goerr) (s : ReceiveStream) : ReceiveStream :=
  MkReceiveStream (r_w s) (r_errorChan s) e (beginRecord s) (beginRecordPointer s)
    (beginRecordChan s).
Definition set_record (b : list byte) (ptr : Z) (s : ReceiveStream) : ReceiveStream :=
  MkReceiveStream (r_w s) (r_errorChan s) (r_lastError s) b ptr (beginRecordChan s).
Definition set_recordChan (c : chan (list byte)) (s : ReceiveStream) : ReceiveStream :=
  MkReceiveStream (r_w s) (r_errorChan s) (r_lastError s) (beginRecord s) (beginRecordPointer s) c.
Definition set_errChan (c : chan (option recvError)) (s : ReceiveStream) : ReceiveStream :=
  MkReceiveStream (r_w s) c (r_lastError s) (beginRecord s) (beginRecordPointer s)
    (beginRecordChan s).

Definition errReceiving : goerr := ErrText (str "receiving stream failed").
Definition errUnexpected : goerr :=
  ErrText (str "unexpected error when sending into ZFS receive pipe").

Module ReceiveStream.
(** The part of [Write] that fills the begin record; returns how many bytes of
    [buf] went there. *)
Definition fillRecord (buf : list byte) (s : ReceiveStream) : option (outcome Z * ReceiveStream) :=
  let beginRecordBytes := blen (beginRecord s) - beginRecordPointer s in
  if 0 <? beginRecordBytes then
    let n := if blen buf <? beginRecordBytes then blen buf else beginRecordBytes in
    match overwrite (beginRecord s) (beginRecordPointer s) (take (Z.to_nat n) buf) with
    | Ok record =>
        let s := set_record record (beginRecordPointer s + n) s in
        if blen (beginRecord s) - beginRecordPointer s =? 0 then
          match chan_send (beginRecord s) (beginRecordChan s) with
          | None => None
          | Some (Ok c) => Some (Ok n, set_recordChan c s)
          | Some (Panic p) => Some (Panic p, s)
          | Some _ => Some (Panic PClosed, s)
          end
        else Some (Ok n, s)
    | Panic p => Some (Panic p, s)
    | _ => Some (Panic PIndex, s)
    end
  else Some (Ok beginRecordBytes, s).

(** [Write(buf)]: the count and the error. *)
Definition Write (buf : list byte) (fail : option (nat * wrError)) (s : ReceiveStream) :
    option (outcome (Z * option goerr) * ReceiveStream) :=
  match r_lastError s with
  | Some e => Some (Ok (0, Some e), s)
  | None =>
      match fillRecord buf s with
      | None => None
      | Some (Ok n, s) =>
          if blen buf - n =? 0 then Some (Ok (blen buf, None), s)
          else match go_slice buf n (blen buf) with
               | Ok rest =>
                   let '(m, e, p) := pipe_Write rest fail (r_w s) in
                   let s := set_r_pipe p s in
                   match e with
                   | Some (WErrno no) =>
                       let e := if no =? EPIPE then errReceiving else errUnexpected in
                       Some (Ok (m + n, Some e), set_r_lastError (Some e) s)
                   | Some (WOther _) =>
                       Some (Ok (m + n, Some errUnexpected), set_r_lastError (Some errUnexpected) s)
                   | None => Some (Ok (m + n, None), s)
                   end
               | Panic p => Some (Panic p, s)
               | _ => Some (Panic PSlice, s)
               end
      | Some (Err e, s) => Some (Err e, s)
      | Some (Panic p, s) => Some (Panic p, s)
      | Some (OutOfFuel, s) => Some (OutOfFuel, s)
      end
  end.

(** [WaitAndClose] up to the receive from the error channel. *)
Definition waitBegin (s : ReceiveStream) : option (outcome unit * ReceiveStream) :=
  match chan_send [] (beginRecordChan s) with
  | None => None
  | Some (Ok c) =>
      match chan_close c with
      | Ok c' => Some (Ok tt, set_recordChan c' s)
      | Panic p => Some (Panic p, s)
      | _ => Some (Panic PClosed, s)
      end
  | Some (Panic p) => Some (Panic p, s)
  | Some _ => Some (Panic PClosed, s)
  end.

(** [WaitAndClose] from the receive on; blocks until there is a result. *)
Definition waitEnd (s : ReceiveStream) : option (outcome (option recvError) * ReceiveStream) :=
  match chan_recv None (r_errorChan s) with
  | None => None
  | Some (e, c) =>
      match chan_close c with
      | Ok c' => Some (Ok e, set_r_pipe (close_w (r_w s)) (set_errChan c' s))
      | Panic p => Some (Panic p, set_errChan c s)
      | _ => Some (Panic PClosed, s)
      end
  end.
End ReceiveStream.

(** *** Receive *)

Definition errBeginRecord : goerr :=
  ErrText (str "BeginRecord is neither 312 bytes nor empty").
Definition errNotEnough : goerr :=
  ErrText (str "Not enough data received for BeginRecord").

(** The goroutine: waiting for the begin record, in the ioctl with it, about to
    send a result, about to run its deferred [r.Close()], finished. *)
Inductive receiver :=
| RWaiting | RCalling (record : list byte) | RSending (e : option recvError) | RClosing | RDone.

(** The caller: writing, inside [WaitAndClose], past it. *)
Inductive recvMain := RWriting | RInWait | RFinished (e : option recvError).

(** History: the bytes [Write] accepted, the bytes the kernel took out of the
    pipe, and the begin records of the ioctls made. *)
Record recvSys := RecvSys {
  rs_stream : ReceiveStream;
  rs_go : receiver;
  rs_main : recvMain;
  rs_accepted : list byte;
  rs_kernel : list byte;
  rs_calls : list (list byte)
}.

(** The checks of [Receive] and the state it returns with; [pipeErr] is the
    error of [os.Pipe]. *)
Definition recv_init (beginRecordOpt : list byte) (pipeErr : option goerr) : outcome recvSys :=
  let start n :=
    match pipeErr with
    | Some e => Err e
    | None =>
        Ok (RecvSys (MkReceiveStream (Pipe [] true true) (make_chan 1) None
              (replicate n x00) 0 (make_chan 2)) RWaiting RWriting [] [] [])
    end in
  if blen beginRecordOpt =? 312 then start 0%nat
  else if blen beginRecordOpt =? 0 then start 312%nat
  else Err errBeginRecord.

Section receive.
(** Which results the ioctl can have for a begin record. *)
Context (result : list byte -> option recvError -> Prop).

Inductive recv_step : recvSys -> recvSys -> Prop :=
| recv_write s g acc ker calls buf fail n e s' :
    ReceiveStream.Write buf fail s = Some (Ok (n, e), s') ->
    recv_step (RecvSys s g RWriting acc ker calls)
      (RecvSys s' g RWriting (acc ++ take (Z.to_nat n) buf) ker calls)
| recv_wait s g acc ker calls s' :
    ReceiveStream.waitBegin s = Some (Ok tt, s') ->
    recv_step (RecvSys s g RWriting acc ker calls) (RecvSys s' g RInWait acc ker calls)
| recv_finish s g acc ker calls e s' :
    ReceiveStream.waitEnd s = Some (Ok e, s') ->
    recv_step (RecvSys s g RInWait acc ker calls) (RecvSys s' g (RFinished e) acc ker calls)
| recv_record s m acc ker calls record c :
    chan_recv [] (beginRecordChan s) = Some (record, c) -> blen record = 312 ->
    recv_step (RecvSys s RWaiting m acc ker calls)
      (RecvSys (set_recordChan c s) (RCalling record) m acc ker (calls ++ [record]))
| recv_short s m acc ker calls record c :
    chan_recv [] (beginRecordChan s) = Some (record, c) -> blen record <> 312 ->
    recv_step (RecvSys s RWaiting m acc ker calls)
      (RecvSys (set_recordChan c s) (RSending (Some (RErr errNotEnough))) m acc ker calls)
| recv_kernel_read s record m acc ker calls n :
    recv_step (RecvSys s (RCalling record) m acc ker calls)
      (RecvSys (set_r_pipe (Pipe (drop n (p_data (r_w s))) (p_wopen (r_w s)) (p_ropen (r_w s))) s)
         (RCalling record) m acc (ker ++ take n (p_data (r_w s))) calls)
| recv_return s record m acc ker calls e :
    result record e ->
    recv_step (RecvSys s (RCalling record) m acc ker calls) (RecvSys s (RSending e) m acc ker calls)
| recv_send s e m acc ker calls c :
    chan_send e (r_errorChan s) = Some (Ok c) ->
    recv_step (RecvSys s (RSending e) m acc ker calls)
      (RecvSys (set_errChan c s) RClosing m acc ker calls)
| recv_close s m acc ker calls :
    recv_step (RecvSys s RClosing m acc ker calls)
      (RecvSys (set_r_pipe (close_r (r_w s)) s) RDone m acc ker calls).
End receive.

(** The ioctl of [Receive] for a begin record, and the value it sends on. *)
Definition receiveCall `{NvCodec} {W} (sys : kernel W) addr plat (name : gostring)
    (opts : ReceiveOpts) (fd : Z) (record : list byte) : go (env W) (option recvError) :=
  r <- nvlistIoctl sys addr plat ZFS_IOC_RECV_NEW name zeroCmd
    (Some (vReceiveOpts (set_ro_BeginRecord record (set_ro_Fd (wrap_signed 4 fd) opts))))
    (Some newReceiveError) None ;;
  match err r with
  | Some e => gret (Some (RErr e))
  | None =>
      match response_after r with
      | Some res => if negb (fieldInt 1 res =? 0) then gret (Some (RReceive res)) else gret None
      | None => gret None
      end
  end.

(** The values it can send on, the [result] of [recv_step]. *)
Definition receiveResult `{NvCodec} {W} (sys : kernel W) addr plat (name : gostring)
    (opts : ReceiveOpts) (fd : Z) (record : list byte) (e : option recvError) : Prop :=
  exists en en', receiveCall sys addr plat name opts fd record en = (Ok e, en').
