(* ===== verification/StreamsSpec.v ===== *)
(** * Invariants of the send and receive streams

    Proved by rule induction over the interleavings of Streams.v. *)

From Stdlib Require Import ZArith Lia Strings.Byte Strings.String.
From stdpp Require Import base list gmap relations.
From S2P Require Import Prelude GoValue NvEncode NvEncodeSpec IoctlTypes Ioctl WrapTypes.
From S2P Require Import Wrappers Streams.

(** ** Send *)

(** What the caller of [Read] gets at the end of the stream for the ioctl
    result [e]. *)
Definition final_error (e : option goerr) : goerr := match e with Some x => x | None => EOF end.

Section send.
Context (result : option goerr -> Prop).

(** Progress of the goroutine, the error channel and the end of the stream. *)
Definition go_inv (g : sender) (s : sendStream) : Prop :=
  match g with
  | SCalling => errorChan s = make_chan 1 /\ isEOF s = false /\ p_wopen (s_r s) = true
  | SSending e => result e /\ errorChan s = make_chan 1 /\ isEOF s = false /\ p_wopen (s_r s) = true
  | SClosing => exists e, result e /\ errorChan s = Chan [e] 1 false /\ isEOF s = false
                 /\ p_wopen (s_r s) = true
  | SDone => p_wopen (s_r s) = false /\ exists e, result e /\
      (errorChan s = Chan [e] 1 false /\ isEOF s = false
       \/ errorChan s = make_chan 1 /\ isEOF s = true /\ lastError s = Some (final_error e)
          /\ peekBuf s = [] /\ p_data (s_r s) = [])
  end.

Definition main_inv (st : sendSys) : Prop :=
  let s := ss_stream st in
  match ss_main st with
  | MPeeking => ss_read st = [] /\ peekBuf s = [] /\ isEOF s = false /\ p_ropen (s_r s) = true
  | MStream => ss_written st <> []
  | MFailed e => ss_written st = [] /\ isEOF s = true /\ lastError s = Some e /\ ss_go st = SDone
  end.

Record send_inv (st : sendSys) : Prop := {
  inv_bytes : ss_read st ++ peekBuf (ss_stream st) ++ p_data (s_r (ss_stream st)) = ss_written st;
  inv_go : go_inv (ss_go st) (ss_stream st);
  inv_main : main_inv st
}.

(** [afterRead] at the end of the stream takes the one queued result. *)
Lemma afterRead_inv bs e s bs' e' s' :
  afterRead bs e s = Some (bs', e', s') ->
  bs' = bs /\ peekBuf s' = peekBuf s /\ s_r s' = s_r s /\
  (e <> Some EOF /\ e' = e /\ s' = s \/
   e = Some EOF /\ exists le ch, chan_recv None (errorChan s) = Some (le, ch) /\
     errorChan s' = ch /\ e' = Some (final_error le) /\ lastError s' = e' /\ isEOF s' = true).
Proof.
  unfold afterRead. case_bool_decide as E; [|intros [= <- <- <-]; tauto].
  destruct (chan_recv None (errorChan s)) as [[le ch]|]; intros [= <- <- <-].
  repeat split. right. split; [done|]. exists le, ch. destruct le; repeat split.
Qed.

Lemma pipe_Read_inv len give p bs e p' :
  pipe_Read len give p = Some (bs, e, p') ->
  bs ++ p_data p' = p_data p /\ p_wopen p' = p_wopen p /\ p_ropen p' = p_ropen p /\
  (e = Some EOF -> bs = [] /\ p_data p = [] /\ p_wopen p = false) /\
  (e = None -> len <> 0%nat -> bs <> []) /\ (e <> None -> e <> Some EOF -> p_ropen p = false).
Proof.
  unfold pipe_Read. destruct (p_ropen p) eqn:R; cbn [negb].
  - destruct (Nat.eqb_spec len 0); [intros [= <- <- <-]; repeat split; done|].
    destruct (p_data p) as [|d data] eqn:D.
    + destruct (p_wopen p) eqn:Wo; [done|]. intros [= <- <- <-]. rewrite D. repeat split; done.
    + intros [= <- <- <-]. cbn [p_data p_wopen p_ropen]. rewrite take_drop.
      repeat split; try done. intros _ _.
      destruct (Nat.min len (Nat.max 1 give)) eqn:N; [lia|]. done.
  - intros [= <- <- <-]. repeat split; done.
Qed.

Lemma go_inv_pipe g s p :
  p_wopen p = p_wopen (s_r s) -> (isEOF s = true -> p_data p = p_data (s_r s)) ->
  go_inv g s -> go_inv g (set_pipe p s).
Proof.
  intros Wo D. destruct g; cbn; rewrite ?Wo; try done.
  intros (H & e & Re & [A|(A & B & C & P & Q)]); split; try done; exists e; split; try done; [now left|].
  right. rewrite D by done. done.
Qed.

(** Reading from the pipe, the common part of [Read] and [peek]. *)
Lemma stream_read_inv g s len give bs0 e0 p pk bs e s' :
  go_inv g s -> isEOF s = false -> (pk = [] \/ e0 <> Some EOF) ->
  pipe_Read len give (s_r s) = Some (bs0, e0, p) ->
  afterRead bs0 e0 (set_peekBuf pk (set_pipe p s)) = Some (bs, e, s') ->
  go_inv g s' /\ bs = bs0 /\ peekBuf s' = pk /\ bs0 ++ p_data (s_r s') = p_data (s_r s) /\
  (e = None -> e0 = None) /\ (e0 = Some EOF -> g = SDone /\ isEOF s' = true /\ lastError s' = e /\ pk = []).
Proof.
  intros G E Pk R A. apply pipe_Read_inv in R as (B & Wo & Ro & Eof & _ & _).
  apply afterRead_inv in A as (-> & P & Sr & [(N & -> & ->)|(-> & le & ch & C & Ch & -> & L & Is)]).
  - split; [|repeat split; try done; now intros ->].
    apply (go_inv_pipe g (set_peekBuf pk s) p); [done|cbn; congruence|].
    destruct g; cbn in *; try done. destruct G as (? & x & ? & [?|(_ & ? & _)]); [|congruence].
    split; [done|]. exists x. split; [done|]. now left.
  - destruct (Eof eq_refl) as (-> & Dn & Wc). destruct Pk as [->|]; [|done].
    destruct g; cbn in G, C; [destr_ctx; congruence..|].
    destruct G as (Wd & x & Rx & [(Cx & _)|(_ & ? & _)]); [|congruence].
    rewrite Cx in C. cbn in C. simplify_eq. rewrite P, Sr. cbn [s_r set_peekBuf set_pipe peekBuf].
    split; [|repeat split; congruence || done].
    unfold go_inv. rewrite Sr. cbn. split; [congruence|]. exists le. split; [done|]. right.
    repeat split; done || (cbn in *; congruence).
Qed.

Lemma send_inv_init st : send_init None = Ok st -> send_inv st.
Proof. intros [= <-]. repeat split; done. Qed.

Lemma send_inv_peek s g wr rd give bs e s' :
  send_inv (SendSys s g MPeeking wr rd) -> sendStream.peek 1 give s = Some (bs, e, s') ->
  rd = [] /\ go_inv g s' /\ peekBuf s' ++ p_data (s_r s') = wr /\
  (e = None -> peekBuf s' <> []) /\
  (forall x, e = Some x -> wr = [] /\ isEOF s' = true /\ lastError s' = e /\ g = SDone).
Proof.
  intros [B G M]. cbn in *. destruct M as (-> & Pk & E & Ro). unfold sendStream.peek. rewrite E.
  destruct (pipe_Read 1 give (s_r s)) as [[[bs0 e0] p]|] eqn:R; [|done]. intros A.
  pose proof (pipe_Read_inv _ _ _ _ _ _ R) as (D & Wo & _ & Eof & Ne & Nc).
  rewrite Pk in *. cbn in B, A.
  assert (Ep : bs0 = [] \/ e0 <> Some EOF).
  { destruct (decide (e0 = Some EOF)) as [->|]; [left; now apply Eof|now right]. }
  destruct (stream_read_inv g s 1 give bs0 e0 p bs0 bs e s' G E Ep R A)
    as (G' & -> & P & D' & N & F). rewrite P.
  repeat split; try done; [now rewrite D'|intros X; apply Ne; [now apply N|done]|..];
    destruct (decide (e0 = Some EOF)) as [->|X]; try (now apply F); try (now apply Eof).
  all: try (destruct (Eof eq_refl) as (-> & ? & ?); congruence).
  all: exfalso; apply afterRead_inv in A as (_ & _ & _ & [(_ & -> & _)|(-> & _)]); [|done];
    rewrite Nc in Ro; congruence.
Qed.

Lemma send_inv_read s g wr rd len give bs e s' :
  send_inv (SendSys s g MStream wr rd) -> sendStream.Read len give s = Some (bs, e, s') ->
  send_inv (SendSys s' g MStream wr (rd ++ bs)).
Proof.
  intros [B G M]. cbn in *. unfold sendStream.Read. destruct (isEOF s) eqn:E.
  { intros [= <- <- <-]. rewrite app_nil_r. now split. }
  destruct (Nat.ltb_spec 0 (length (peekBuf s))) as [L|L].
  { intros [= <- <- <-]. split; cbn; [|destruct g; cbn in *; try done|done].
    - rewrite <- app_assoc, (app_assoc (take len _)), take_drop. exact B.
    - destruct G as (? & x & ? & [?|(_ & ? & _)]); [|congruence]. split; [done|]. exists x. tauto. }
  assert (Pk : peekBuf s = []) by (destruct (peekBuf s); cbn in L; [done|lia]).
  destruct (pipe_Read len give (s_r s)) as [[[bs0 e0] p]|] eqn:R; [|done]. intros A.
  rewrite <- (app_nil_l (p_data _)) in B.
  destruct (stream_read_inv g s len give bs0 e0 p [] bs e s' G E (or_introl eq_refl) R)
    as (G' & -> & P & D' & _).
  { replace (set_peekBuf [] (set_pipe p s)) with (set_pipe p s); [done|].
    destruct s; cbn in *; now subst. }
  split; cbn; [|done|done]. rewrite P, <- app_assoc. cbn. rewrite D'. rewrite Pk in B. exact B.
Qed.

Lemma send_inv_step st st' : send_inv st -> send_step result st st' -> send_inv st'.
Proof.
  intros I S. destruct S as [s m wr rd bs Ro|s m wr rd e Re|s m wr rd e ch C|s m wr rd
    |s g wr rd give bs s' P|s g wr rd give bs e s' P|s g wr rd len give bs e s' P|s g wr rd].
  - destruct I as [B G M]. cbn in *. destr_ctx. split; cbn; [|done|].
    + rewrite !app_assoc in *. now rewrite B.
    + destruct m; cbn in *; [done| |destr_ctx; congruence].
      intros [? ?]%app_eq_nil. now apply M.
  - destruct I as [B G M]. split; cbn in *; [done|tauto|].
    destruct m; cbn in *; [done|done|destr_ctx; congruence].
  - destruct I as [B G M]. cbn in *. destruct G as (Re & Ec & E & Wo).
    rewrite Ec in C. cbn in C. simplify_eq. split; cbn; [done|eauto 10|].
    destruct m; cbn in *; [done|done|destr_ctx; congruence].
  - destruct I as [B G M]. cbn in *. destruct G as (e & Re & Ec & E & Wo).
    split; cbn; [done|eauto 10|]. destruct m; cbn in *; [done|done|destr_ctx; congruence].
  - destruct (send_inv_peek _ _ _ _ _ _ _ _ I P) as (-> & G & B & N & _).
    split; cbn; [done|done|]. rewrite <- B. intros [X _]%app_eq_nil. now apply N.
  - destruct (send_inv_peek _ _ _ _ _ _ _ _ I P) as (-> & G & B & _ & F).
    destruct (F e eq_refl) as (-> & E & L & ->). split; cbn; [done| |done].
    cbn in G. destruct G as (Wo & x & Rx & [[_ ?]|G]); [congruence|]. split; [done|].
    exists x. tauto.
  - now apply (send_inv_read s g wr rd len give bs e).
  - destruct I as [B G M]. split; cbn in *; [done| |done].
    apply go_inv_pipe; done.
Qed.

Lemma send_reachable_inv st0 st :
  send_init None = Ok st0 -> rtc (send_step result) st0 st -> send_inv st.
Proof.
  intros I R. apply send_inv_init in I. induction R as [|x y z Sxy R IH]; [done|].
  eauto using send_inv_step.
Qed.

(** Once the goroutine is done, neither method can block. *)
Lemma send_done_no_block st len give :
  send_inv st -> ss_go st = SDone ->
  is_Some (sendStream.Read len give (ss_stream st)) /\
  is_Some (sendStream.peek len give (ss_stream st)).
Proof.
  intros [_ G _] D. rewrite D in G. set (s := ss_stream st) in *. clearbody s.
  destruct G as (Wo & e & _ & X).
  assert (Y : isEOF s = false -> errorChan s = Chan [e] 1 false).
  { destruct X as [[? ?]|(_ & ? & _)]; congruence. }
  assert (Z : forall bs e0 p pk, isEOF s = false ->
    is_Some (afterRead bs e0 (set_peekBuf pk (set_pipe p s)))).
  { intros bs e0 p pk E. unfold afterRead. cbn. rewrite Y by done. cbn.
    case_bool_decide; eauto. }
  assert (Pr : is_Some (pipe_Read len give (s_r s))).
  { unfold pipe_Read. rewrite Wo. destruct (negb _), (len =? 0)%nat, (p_data (s_r s)); eauto. }
  destruct Pr as [[[bs e0] p] Pr]. unfold sendStream.Read, sendStream.peek. rewrite Pr.
  destruct (isEOF s) eqn:E; [eauto|]. split; [|apply Z; done].
  destruct (0 <? length (peekBuf s))%nat; [eauto|]. apply (Z bs e0 p (peekBuf s) eq_refl).
Qed.
End send.

(** ** Receive *)

(** [holds s got rest]: the begin record is filled up to [got]. *)
Definition holds (s : ReceiveStream) (got rest : list byte) : Prop :=
  beginRecord s = got ++ rest /\ beginRecordPointer s = blen got.

Lemma fillRecord_full buf s got : holds s got [] -> ReceiveStream.fillRecord buf s = Some (Ok 0, s).
Proof.
  intros [R P]. unfold ReceiveStream.fillRecord. rewrite R, P, app_nil_r, Z.sub_diag. reflexivity.
Qed.

Lemma fillRecord_overwrite buf s got rest :
  holds s got rest -> rest <> [] ->
  let k := Nat.min (length buf) (length rest) in
  (if blen buf <? blen (beginRecord s) - beginRecordPointer s then blen buf
   else blen (beginRecord s) - beginRecordPointer s) = Z.of_nat k /\
  overwrite (beginRecord s) (beginRecordPointer s) (take k buf) =
    Ok (got ++ take k buf ++ drop k rest).
Proof.
  intros [R P] N k. rewrite R, P, blen_app. replace (blen got + blen rest - blen got) with (blen rest) by lia.
  split. { unfold k, blen. destruct (Z.ltb_spec (Z.of_nat (length buf)) (Z.of_nat (length rest))); lia. }
  rewrite <- (take_drop k rest) at 1. apply overwrite_spec.
  rewrite !length_take. lia.
Qed.

Lemma fillRecord_partial buf s got rest :
  holds s got rest -> (length buf < length rest)%nat ->
  exists s', ReceiveStream.fillRecord buf s = Some (Ok (blen buf), s') /\
    holds s' (got ++ buf) (drop (length buf) rest) /\ beginRecordChan s' = beginRecordChan s /\
    r_w s' = r_w s /\ r_errorChan s' = r_errorChan s /\ r_lastError s' = r_lastError s.
Proof.
  intros [R P] L. assert (N : rest <> []) by (intros ->; cbn in L; lia).
  destruct (fillRecord_overwrite buf s got rest (conj R P) N) as [K O].
  rewrite Nat.min_l in K, O by lia. unfold ReceiveStream.fillRecord.
  assert (E : blen (beginRecord s) - beginRecordPointer s = blen rest) by (rewrite R, P; blen_lia).
  rewrite E in *. assert (0 < blen rest) by (unfold blen; lia).
  decide_true (0 <? blen rest).
  rewrite K, Nat2Z.id, O. cbn [beginRecord beginRecordPointer set_record].
  rewrite firstn_all.
  replace (blen (got ++ buf ++ drop (length buf) rest) - (beginRecordPointer s + Z.of_nat (length buf)))
    with (blen (drop (length buf) rest)) by (rewrite P, !blen_app; unfold blen; lia).
  assert (blen (drop (length buf) rest) <> 0) by (unfold blen; rewrite length_drop; lia).
  decide_false (blen (drop (length buf) rest) =? 0).
  eexists. split; [reflexivity|]. cbn. repeat split.
  - now rewrite app_assoc.
  - cbn. rewrite P, blen_app. reflexivity.
Qed.

Lemma fillRecord_completes buf s got rest :
  holds s got rest -> rest <> [] -> (length rest <= length buf)%nat ->
  beginRecordChan s = Chan [] 2 false ->
  exists s', ReceiveStream.fillRecord buf s = Some (Ok (blen rest), s') /\
    holds s' (got ++ take (length rest) buf) [] /\
    beginRecordChan s' = Chan [got ++ take (length rest) buf] 2 false /\
    r_w s' = r_w s /\ r_errorChan s' = r_errorChan s /\ r_lastError s' = r_lastError s.
Proof.
  intros [R P] N L C.
  destruct (fillRecord_overwrite buf s got rest (conj R P) N) as [K O].
  rewrite Nat.min_r in K, O by lia. unfold ReceiveStream.fillRecord.
  assert (E : blen (beginRecord s) - beginRecordPointer s = blen rest) by (rewrite R, P; blen_lia).
  rewrite E in *. assert (0 < blen rest) by (destruct rest; [done|blen_lia]).
  decide_true (0 <? blen rest). rewrite K, Nat2Z.id, O.
  cbn [beginRecord beginRecordPointer set_record beginRecordChan].
  rewrite drop_all, app_nil_r.
  replace (blen (got ++ take (length rest) buf) - (beginRecordPointer s + Z.of_nat (length rest)))
    with 0 by (rewrite P, blen_app; unfold blen; rewrite length_take; lia).
  cbn [Z.eqb]. rewrite C. cbn.
  eexists. split; [reflexivity|]. cbn. repeat split.
  - now rewrite app_nil_r.
  - cbn. rewrite P, blen_app. unfold blen. rewrite length_take. lia.
Qed.

(** The tail of [Write]: what is left of the buffer goes into the pipe. *)
Lemma pipe_Write_inv data fail p n e p' :
  pipe_Write data fail p = (n, e, p') ->
  exists piped, p_data p' = p_data p ++ piped /\ n = blen piped /\ piped = take (length piped) data /\
    p_wopen p' = p_wopen p /\ p_ropen p' = p_ropen p.
Proof.
  unfold pipe_Write. destruct (negb (p_wopen p)); [intros [= <- <- <-]; exists []; rewrite app_nil_r; done|].
  destruct (negb (p_ropen p)); [intros [= <- <- <-]; exists []; rewrite app_nil_r; done|].
  destruct fail as [[k x]|]; intros [= <- <- <-].
  - exists (take k data). cbn. repeat split. rewrite length_take.
    destruct (Nat.le_ge_cases k (length data)); [now rewrite Nat.min_l|].
    now rewrite Nat.min_r, !take_ge by lia.
  - exists data. cbn. repeat split. now rewrite firstn_all.
Qed.

(** Everything of the stream but the pipe contents and the sticky error. *)
Definition same_stream (s s' : ReceiveStream) : Prop :=
  r_errorChan s' = r_errorChan s /\ beginRecord s' = beginRecord s /\
  beginRecordPointer s' = beginRecordPointer s /\ beginRecordChan s' = beginRecordChan s /\
  p_wopen (r_w s') = p_wopen (r_w s) /\ p_ropen (r_w s') = p_ropen (r_w s).

(** [Write] after the begin record took [added], a prefix of [buf]. *)
Lemma Write_after buf fail s added s1 :
  r_lastError s = None -> ReceiveStream.fillRecord buf s = Some (Ok (blen added), s1) ->
  added = take (length added) buf ->
  exists m e s' piped, ReceiveStream.Write buf fail s = Some (Ok (m, e), s') /\
    take (Z.to_nat m) buf = added ++ piped /\ p_data (r_w s') = p_data (r_w s1) ++ piped /\
    (piped <> [] -> (length added < length buf)%nat) /\ same_stream s1 s' /\
    m = blen added + blen piped.
Proof.
  intros E F A. unfold ReceiveStream.Write. rewrite E, F.
  assert (L : (length added <= length buf)%nat) by (rewrite A, length_take; lia).
  destruct (Z.eqb_spec (blen buf - blen added) 0) as [D|D].
  { exists (blen buf), None, s1, []. assert (length added = length buf) by (unfold blen in D; lia).
    rewrite !app_nil_r. replace (Z.to_nat (blen buf)) with (length buf) by (unfold blen; lia).
    rewrite firstn_all.
    repeat split; try done; [rewrite A, H, firstn_all; done|unfold blen in *; cbn; lia]. }
  assert (S : go_slice buf (blen added) (blen buf) = Ok (drop (length added) buf)).
  { unfold go_slice, blen.
    decide_true ((0 <=? Z.of_nat (length added)) && (Z.of_nat (length added) <=? Z.of_nat (length buf))
      && (Z.of_nat (length buf) <=? Z.of_nat (length buf))).
    rewrite Nat2Z.id, take_ge; [done|]. rewrite length_drop. lia. }
  rewrite S. destruct (pipe_Write (drop (length added) buf) fail (r_w s1)) as [[m e] p] eqn:Pw.
  destruct (pipe_Write_inv _ _ _ _ _ _ Pw) as (piped & Dp & -> & Pp & Wo & Ro).
  assert (T : take (Z.to_nat (blen piped + blen added)) buf = added ++ piped).
  { rewrite <- (take_drop (length added) buf), <- A. unfold blen.
    replace (Z.to_nat (Z.of_nat (length piped) + Z.of_nat (length added)))
      with (length added + length piped)%nat by lia.
    rewrite take_app_add. now rewrite <- Pp. }
  assert (Pl : piped <> [] -> (length added < length buf)%nat) by (unfold blen in D; lia).
  destruct e as [[no|er]|]; eexists _, _, _, piped; (split; [reflexivity|]);
    (split; [exact T|]); repeat split; cbn; done || lia.
Qed.

Lemma Write_spec buf fail s got rest q :
  r_lastError s = None -> holds s got rest -> beginRecordChan s = Chan q 2 false ->
  (rest <> [] -> q = []) ->
  exists m e s' added piped rest', ReceiveStream.Write buf fail s = Some (Ok (m, e), s') /\
    holds s' (got ++ added) rest' /\ (length added + length rest' = length rest)%nat /\
    take (Z.to_nat m) buf = added ++ piped /\ p_data (r_w s') = p_data (r_w s) ++ piped /\
    (piped <> [] -> rest' = []) /\ r_errorChan s' = r_errorChan s /\
    p_wopen (r_w s') = p_wopen (r_w s) /\ p_ropen (r_w s') = p_ropen (r_w s) /\
    beginRecordChan s' =
      Chan (if bool_decide (rest <> [] /\ rest' = []) then [got ++ added] else q) 2 false.
Proof.
  intros E H C Q. destruct (decide (rest = [])) as [->|N].
  - destruct (Write_after buf fail s [] s E (fillRecord_full buf s got H) eq_refl)
      as (m & e & s' & piped & W & T & D & _ & (Ec & R & P & Bc & Wo & Ro) & _).
    exists m, e, s', [], piped, []. rewrite bool_decide_eq_false_2 by tauto.
    repeat split; try done; rewrite ?app_nil_r; try congruence.
    + rewrite R. destruct H as [-> _]. now rewrite app_nil_r.
    + rewrite P. now destruct H as [_ ->].
  - rewrite (Q N) in *. destruct (Nat.lt_ge_cases (length buf) (length rest)) as [L|L].
    + destruct (fillRecord_partial buf s got rest H L) as (s1 & F & H1 & C1 & W1 & E1 & _).
      destruct (Write_after buf fail s buf s1 E F) as
        (m & e & s' & piped & W & T & D & Pl & (Ec & R & P & Bc & Wo & Ro) & _); [now rewrite firstn_all|].
      assert (Np : piped = []) by (destruct piped; [done|]; specialize (Pl ltac:(done)); lia).
      exists m, e, s', buf, piped, (drop (length buf) rest).
      rewrite bool_decide_eq_false_2.
      2: { intros [_ X]. apply (f_equal length) in X. rewrite length_drop in X. cbn in X. lia. }
      repeat split; try congruence.
      * now rewrite R; destruct H1.
      * now rewrite P; destruct H1.
      * rewrite length_drop. lia.
    + destruct (fillRecord_completes buf s got rest H N L C) as (s1 & F & H1 & C1 & W1 & E1 & _).
      assert (Lr : length (take (length rest) buf) = length rest) by (rewrite length_take; lia).
      destruct (Write_after buf fail s (take (length rest) buf) s1 E) as
        (m & e & s' & piped & W & T & D & Pl & (Ec & R & P & Bc & Wo & Ro) & _).
      { rewrite F. unfold blen. now rewrite Lr. }
      { now rewrite Lr. }
      exists m, e, s', (take (length rest) buf), piped, [].
      rewrite bool_decide_eq_true_2 by tauto.
      repeat split; try congruence.
      * now rewrite R; destruct H1.
      * now rewrite P; destruct H1.
      * cbn. lia.
Qed.

Section receive.
(** [total] is the length of the begin record that is still to come. *)
Context (result : list byte -> option recvError -> Prop) (total : nat).

Definition waited (m : recvMain) : bool := match m with RWriting => false | _ => true end.
Definition finished (m : recvMain) : bool := match m with RFinished _ => true | _ => false end.
(** The 312 bytes are complete. *)
Definition full (rest : list byte) : bool := bool_decide (rest = [] /\ total = 312%nat).

(** Everything sent on the record channel so far: the complete record, then
    the empty one of [WaitAndClose]; the goroutine takes the first. *)
Definition queue (record rest : list byte) (m : recvMain) : list (list byte) :=
  (if full rest then [record] else []) ++ (if waited m then [[]] else []).
Definition pending (g : receiver) (q : list (list byte)) : list (list byte) :=
  match g with RWaiting => q | _ => tl q end.

(** Why the goroutine may report [e]. *)
Definition justified (m : recvMain) (record rest : list byte) (calls : list (list byte))
    (e : option recvError) : Prop :=
  calls = [] /\ full rest = false /\ waited m = true /\ e = Some (RErr errNotEnough) \/
  calls = [record] /\ full rest = true /\ result record e.

Definition recv_go_inv (g : receiver) (m : recvMain) (record rest : list byte)
    (calls : list (list byte)) (errc : chan (option recvError)) : Prop :=
  match g with
  | RWaiting => calls = [] /\ errc = make_chan 1 /\ finished m = false
  | RCalling r => r = record /\ full rest = true /\ calls = [record] /\ errc = make_chan 1
                  /\ finished m = false
  | RSending e => justified m record rest calls e /\ errc = make_chan 1 /\ finished m = false
  | RClosing | RDone => exists e, justified m record rest calls e /\
      match m with RFinished e' => e' = e | _ => errc = Chan [e] 1 false end
  end.

Definition pipe_inv (g : receiver) (m : recvMain) (p : pipe) : Prop :=
  p_wopen p = negb (finished m) /\ p_ropen p = match g with RDone => false | _ => true end.

Record recv_inv_at (st : recvSys) (got rest : list byte) : Prop := {
  ri_holds : holds (rs_stream st) got rest;
  ri_total : (length got + length rest = total)%nat /\ (total = 0%nat \/ total = 312%nat);
  ri_bytes : rs_accepted st = got ++ rs_kernel st ++ p_data (r_w (rs_stream st));
  ri_order : rest <> [] -> rs_kernel st ++ p_data (r_w (rs_stream st)) = [];
  ri_chan : beginRecordChan (rs_stream st) =
    Chan (pending (rs_go st) (queue (got ++ rest) rest (rs_main st))) 2 (waited (rs_main st));
  ri_go : recv_go_inv (rs_go st) (rs_main st) (got ++ rest) rest (rs_calls st)
            (r_errorChan (rs_stream st));
  ri_pipe : pipe_inv (rs_go st) (rs_main st) (r_w (rs_stream st))
}.

Definition recv_inv (st : recvSys) : Prop := exists got rest, recv_inv_at st got rest.

(** While the caller still writes, only a complete record moves the goroutine. *)
Lemma writing_full g record rest calls errc :
  recv_go_inv g RWriting record rest calls errc -> full rest = false -> g = RWaiting.
Proof.
  intros G F. destruct g; [done|..]; cbn in G; unfold justified in G; cbn in G;
    destr_ctx; try congruence; destruct_or?; destr_ctx; congruence.
Qed.

Lemma recv_inv_write s g acc ker calls buf fail n e s' :
  recv_inv (RecvSys s g RWriting acc ker calls) ->
  ReceiveStream.Write buf fail s = Some (Ok (n, e), s') ->
  recv_inv (RecvSys s' g RWriting (acc ++ take (Z.to_nat n) buf) ker calls).
Proof.
  intros (got & rest & [H [T T'] B O C G [Pw Pr]]) W. cbn in *.
  destruct (r_lastError s) as [le|] eqn:E.
  { unfold ReceiveStream.Write in W. rewrite E in W. simplify_eq. cbn. rewrite app_nil_r.
    exists got, rest. now split. }
  assert (Q : rest <> [] -> full rest = false /\ g = RWaiting).
  { intros N. assert (full rest = false) by (unfold full; apply bool_decide_eq_false_2; tauto).
    eauto using writing_full. }
  destruct (Write_spec buf fail s got rest _ E H C) as
    (m & e' & s1 & added & piped & rest' & W' & H' & L & Tk & D & Pn & Ec & Wo & Ro & C').
  { intros N. destruct (Q N) as [F ->]. unfold queue. now rewrite F. }
  rewrite W in W'. injection W' as <- <- <-. exists (got ++ added), rest'.
  destruct (decide (rest = [])) as [->|N].
  - assert (added = [] /\ rest' = []) as [-> ->].
    { cbn in L. split; apply length_zero_iff_nil; lia. }
    rewrite !app_nil_r in *. rewrite bool_decide_eq_false_2 in C' by tauto.
    split; cbn; rewrite ?app_nil_r; try done; try congruence.
    + rewrite Tk, D, B. cbn. now rewrite <- !app_assoc.
    + split; cbn; congruence.
  - destruct (Q N) as [F ->]. specialize (O N). apply app_eq_nil in O as [-> D0].
    rewrite D0 in *. cbn in B, D, G.
    split; cbn; try done.
    + rewrite length_app. lia.
    + rewrite Tk, D, B, !app_nil_r. now rewrite !app_assoc.
    + intros N'. rewrite D. destruct piped; [done|]. exfalso. now apply N', Pn.
    + rewrite C'. unfold queue. cbn [waited]. rewrite app_nil_r. unfold queue in *. rewrite F.
      unfold full in *. destruct (decide (rest' = [])) as [->|N'].
      * destruct T' as [T0|T']; [exfalso; destruct rest; cbn in *; [done|lia]|].
        rewrite !bool_decide_eq_true_2 by tauto. cbn. now rewrite !app_nil_r.
      * rewrite !bool_decide_eq_false_2 by tauto. done.
    + rewrite Ec. tauto.
    + split; cbn; congruence.
Qed.

Lemma full_queue record rest m q :
  queue record rest m = q ->
  match q with
  | [] => full rest = false /\ waited m = false
  | x :: _ => full rest = true /\ x = record \/ full rest = false /\ waited m = true /\ x = []
  end.
Proof. unfold queue. intros <-. destruct (full rest), (waited m); cbn; tauto. Qed.

(** The goroutine takes the first element of the queue. *)
Lemma recv_inv_receive s m acc ker calls record c got rest :
  recv_inv_at (RecvSys s RWaiting m acc ker calls) got rest ->
  chan_recv [] (beginRecordChan s) = Some (record, c) ->
  calls = [] /\ c = Chan (tl (queue (got ++ rest) rest m)) 2 (waited m) /\
  (full rest = true /\ record = got ++ rest /\ blen record = 312 \/
   full rest = false /\ waited m = true /\ blen record = 0).
Proof.
  intros [H [T T'] B O C G P] R. cbn in *. destruct G as (-> & _ & _). split; [done|].
  rewrite C in R. unfold chan_recv in R. cbn in R.
  pose proof (full_queue (got ++ rest) rest m _ eq_refl) as F.
  destruct (queue (got ++ rest) rest m) as [|x q]; cbn in *.
  - destruct F as [F Wt]. rewrite Wt in R. discriminate.
  - simplify_eq. split; [done|]. destruct F as [[F ->]|(F & Wt & ->)]; [left|now right].
    pose proof F as F'. apply bool_decide_eq_true_1 in F' as [-> ?]. repeat split; [done|].
    unfold blen. rewrite length_app. lia.
Qed.

Lemma waitBegin_spec s q :
  beginRecordChan s = Chan q 2 false -> (length q <= 1)%nat ->
  ReceiveStream.waitBegin s = Some (Ok tt, set_recordChan (Chan (q ++ [[]]) 2 true) s).
Proof.
  intros C L. unfold ReceiveStream.waitBegin, chan_send. rewrite C. cbn [ch_closed ch_buf ch_cap].
  destruct (Nat.ltb_spec (length q) 2); [done|lia].
Qed.

Lemma pending_writing g record rest : (length (pending g (queue record rest RWriting)) <= 1)%nat.
Proof. unfold queue. cbn. rewrite app_nil_r. destruct (full rest), g; cbn; lia. Qed.

Lemma recv_inv_step st st' : recv_inv st -> recv_step result st st' -> recv_inv st'.
Proof.
  intros I S. destruct S as [s g acc ker calls buf fail n e s' W|s g acc ker calls s' W
    |s g acc ker calls e s' W|s m acc ker calls record c R Lr|s m acc ker calls record c R Lr
    |s record m acc ker calls n|s record m acc ker calls e Re|s e m acc ker calls c C0|s m acc ker calls].
  - eauto using recv_inv_write.
  - destruct I as (got & rest & [H T B O C G P]). cbn in *. exists got, rest.
    rewrite (waitBegin_spec s _ C (pending_writing _ _ _)) in W. injection W as <-.
    split; cbn; try done.
    + f_equal. unfold queue. cbn. rewrite app_nil_r.
      destruct (full rest) eqn:F, g; cbn; try done; try now rewrite app_nil_r.
      all: try (pose proof (writing_full _ _ _ _ _ G F); done).
    + destruct g; cbn in *; unfold justified in *; cbn; destr_ctx; eauto 10;
        destruct_or?; destr_ctx; try congruence; eauto 10.
  - destruct I as (got & rest & [H T B O C G P]). cbn in *. exists got, rest.
    unfold ReceiveStream.waitEnd in W.
    destruct (chan_recv None (r_errorChan s)) as [[e0 c]|] eqn:R; [|done].
    destruct g; cbn in G; try (destr_ctx;
      match goal with E : r_errorChan s = make_chan 1 |- _ => now rewrite E in R end).
    all: destruct G as (e1 & J & Ec); rewrite Ec in R; cbn in R; simplify_eq; cbn in W; simplify_eq;
      (split; cbn; try done; [eauto|]; destruct P as [P1 P2]; now split).
  - destruct I as (got & rest & I). destruct (recv_inv_receive _ _ _ _ _ _ _ _ _ I R)
      as (-> & -> & [(F & -> & _)|(_ & _ & ?)]); [|lia].
    destruct I as [H T B O C G P]. cbn in *. exists got, rest. split; cbn; try done. tauto.
  - destruct I as (got & rest & I). destruct (recv_inv_receive _ _ _ _ _ _ _ _ _ I R)
      as (-> & -> & [(_ & _ & ?)|(F & Wt & _)]); [lia|].
    destruct I as [H T B O C G P]. cbn in *. exists got, rest. split; cbn; try done.
    unfold justified. tauto.
  - destruct I as (got & rest & [H T B O C G P]). cbn in *. exists got, rest.
    split; cbn; try done.
    + rewrite B. rewrite <- (take_drop n (p_data (r_w s))) at 1. now rewrite <- !app_assoc.
    + intros N. apply O, app_eq_nil in N as [-> ->]. now rewrite take_nil, drop_nil.
  - destruct I as (got & rest & [H T B O C G P]). cbn in *. exists got, rest.
    destruct G as (-> & F & -> & Ec & Fin).
    split; cbn; try done. unfold justified. tauto.
  - destruct I as (got & rest & [H T B O C G P]). cbn in *. exists got, rest.
    destruct G as (J & Ec & Fin). rewrite Ec in C0. cbn in C0. simplify_eq.
    split; cbn; try done.
    exists e. split; [done|]. now destruct m.
  - destruct I as (got & rest & [H T B O C G [P1 P2]]). cbn in *. exists got, rest. split; cbn; try done.
Qed.
End receive.

(** The length of the begin record [Receive] still waits for. *)
Definition awaited (opt : list byte) : nat := if blen opt =? 312 then 0 else 312.

Lemma recv_inv_init result opt st :
  recv_init opt None = Ok st -> recv_inv result (awaited opt) st.
Proof.
  unfold recv_init, awaited. destruct (blen opt =? 312) eqn:E.
  - intros [= <-]. exists [], []. split; cbn; try done. split; [done|now left].
  - destruct (blen opt =? 0); [|done]. intros [= <-]. exists [], (replicate 312 x00).
    split; cbn; try done. split; [reflexivity|now right].
Qed.

Lemma recv_reachable_inv result opt st0 st :
  recv_init opt None = Ok st0 -> rtc (recv_step result) st0 st -> recv_inv result (awaited opt) st.
Proof.
  intros I R. apply (recv_inv_init result) in I.
  induction R as [|x y z Sxy R IH]; [done|]. eauto using recv_inv_step.
Qed.
