(* ===== verification/NvTheorems.v ===== *)
(** * Properties of package nvlist

    The statements the nvlist files establish, each with a witness where it
    has hypotheses. *)

From Stdlib Require Import ZArith Lia Strings.Byte Strings.String.
From stdpp Require Import base list gmap.
From S2P Require Import Prelude GoValue NvConsts NvEncode NvDecode NvWire NvEncodeSpec.
From S2P Require Import NvDecodeSpec NvSafety NvEncodeTotal NvRoundtrip NvTarget NvEdge.
From S2P Require Import NvTruncate NvStruct NvFields.

(** A nested list with every data type the encoder produces, for witnesses. *)
Definition sample : nvs :=
  [(str "flag", NBoolean);
   (str "b", NByte 255);
   (str "i", NInt KInt64 (- 2 ^ 63));
   (str "u", NInt KUint16 65535);
   (str "s", NString (str "tank/data"));
   (str "bytes", NByteArray [x01; x00; xff]);
   (str "ints", NIntArray KInt32 [-1; 0; 7]);
   (str "strs", NStringArray [str "a"; []; str "bc"]);
   (str "bools", NBooleanArray [true; false]);
   (str "list", NNvlist [(str "x", NInt KUint32 1); (str "e", NNvlist [])]);
   (str "lists", NNvlistArray [[(str "y", NBoolean)]; []])].

(** ** Round trip and refinement *)

(** C1: Round trip. For every list [l] in canonical form (the data types the
    encoder emits, values in range, distinct names without zero bytes, frames
    within the format's limits), [Marshal] of its Go map succeeds, and
    [Unmarshal] of the bytes, whatever follows them and whatever the target
    interface held before, succeeds and yields that same map. *)
Theorem marshal_unmarshal_roundtrip l :
  canonical_list l = true -> nvs_ok l = true ->
  exists bs, Marshal (Some (nvs_value l)) = Ok bs /\
    forall rest old,
      Unmarshal (bs ++ rest) (vIfacePtr old) = (Ok tt, vIfacePtr (Some (nvs_value l))).
Proof.
  intros C K. exists (packed LittleEndian l). split.
  - apply Marshal_spec, abstract_canonical, C.
  - intros. now apply Unmarshal_packed.
Qed.

Lemma marshal_unmarshal_roundtrip_witness :
  exists bs, Marshal (Some (nvs_value sample)) = Ok bs /\
    forall rest old,
      Unmarshal (bs ++ rest) (vIfacePtr old) = (Ok tt, vIfacePtr (Some (nvs_value sample))).
Proof. apply (marshal_unmarshal_roundtrip sample); vm_compute; reflexivity. Defined.

(** C2: Refinement of the wire format. Whenever a Go value (map, struct,
    pointers to them, nested in any way) stands for an abstract list [l],
    [Marshal] returns exactly the little-endian packed layout of [l]: the
    writer that reserves a header and patches it later agrees with the
    compositional definition of the format. *)
Theorem marshal_refines_wire v l :
  abstract v = Some l -> Marshal (Some v) = Ok (packed LittleEndian l).
Proof. apply Marshal_spec. Qed.

(** A struct with tags, a nil pointer and a pointer to a map. *)
Definition sampleStruct : gval :=
  VStruct None
    [(SField (str "Origin") (str "origin"), VString None (str "tank@a"));
     (SField (str "Skip") (str "skip,omitempty"), VInt None KUint64 0);
     (SField (str "RO") (str "size,ro"), VInt None KUint64 5);
     (SField (str "Nil") (str "nil"), VPtr None tString None);
     (SField (str "Plain") [], VPtr None tAnyMap
        (Some (vAnyMap [(str "k", VIface None (Some (VInt None KUint8 3)))])))].

Lemma marshal_refines_wire_witness :
  Marshal (Some sampleStruct) =
  Ok (packed LittleEndian
        [(str "origin", NString (str "tank@a")); (str "Plain", NNvlist [(str "k", NByte 3)])]).
Proof. apply (marshal_refines_wire sampleStruct). vm_compute. reflexivity. Defined.

(** C3: The decoder inverts the wire format in both byte orders. For every
    representable list, including the types only the kernel produces, the
    packed bytes followed by anything decode to the Go map of the list (times
    and doubles dropped, later duplicates winning). *)
Theorem unmarshal_inverts_wire o l rest old :
  nvs_ok l = true ->
  Unmarshal (packed o l ++ rest) (vIfacePtr old) = (Ok tt, vIfacePtr (Some (nvs_value l))).
Proof. apply Unmarshal_packed. Qed.

Lemma unmarshal_inverts_wire_witness :
  Unmarshal (packed BigEndian (sample ++ [(str "t", NHrtime 5); (str "v", NBooleanValue false)]) ++ [xff])
    (vIfacePtr None) =
  (Ok tt, vIfacePtr (Some (nvs_value (sample ++ [(str "t", NHrtime 5); (str "v", NBooleanValue false)])))).
Proof. apply unmarshal_inverts_wire. vm_compute. reflexivity. Defined.

(** ** Safety on arbitrary input *)

(** C4: Decoder safety. On every byte string and every target value,
    [Unmarshal] terminates within its fuel and never panics on an index, a slice
    bound or a nil pointer. The only panics are those of [target_panics]: a
    value assigned to a field, element or key of another type, an entry stored
    into a nil map, and two explicit panics of decode.go, for an embedded list
    in a map whose elements are neither maps, structs nor interfaces ("complex hybrid
    types") and for an array of lists in a struct. (The third alternative, a
    panic of reflect, is there because the model's argument may be of interface
    kind, which no Go call can pass.) *)
Theorem unmarshal_terminates_safely data val :
  match fst (Unmarshal data val) with
  | Panic p => p ∈ target_panics \/ p = PReflect /\ kind val = Interface
  | OutOfFuel => False
  | _ => True
  end.
Proof. apply Unmarshal_panics. Qed.

(** C9: No input can make the decoder panic when it decodes into an
    [interface{}] variable or into a made (non-nil) [map[string]interface{}]:
    the outcome is a value or an error, and the map stays a map. *)
Theorem unmarshal_dynamic_total data :
  (forall old, match fst (Unmarshal data (vIfacePtr old)) with Ok _ | Err _ => True | _ => False end) /\
  (forall m, match Unmarshal data (vAnyMap m) with
             | (Ok _, v) => exists m', v = vAnyMap m'
             | (Err _, _) => True
             | _ => False
             end).
Proof.
  split; [intros old; pose proof (Unmarshal_dynamic data old) as G; now destruct (fst (Unmarshal _ _))|].
  intros m. pose proof (Unmarshal_anymap data m) as G.
  now destruct (Unmarshal data (vAnyMap m)) as [[] v].
Qed.

(** C10: Encoder totality. For every argument [Marshal] terminates; on success
    there are at least the twelve header bytes (so [&src[0]] is defined). It
    never panics on a slice bound and never with the two internal panics of
    [endNvPair]. It panics only in reflection ([PReflect], [PNil]) and only when
    the argument is not [plain]: it has an unexported struct field somewhere, or
    a slice or array of pointers or interfaces such as [[]interface{}]. *)
Theorem marshal_total val :
  match Marshal val with
  | Ok bs => 12 <= blen bs
  | Err _ => True
  | Panic p => (p = PReflect \/ p = PNil) /\ plain_arg val = false
  | OutOfFuel => False
  end.
Proof.
  pose proof (Marshal_total val) as T. destruct (Marshal val) as [bs|e|p|]; try done.
  destruct T as [T ->]. split; [|done]. destruct p; try discriminate; tauto.
Qed.

(** ** Error paths *)

(** C28: Damaged stream headers. Each malformed header gives its error and
    leaves the target alone: no data, an unknown encoding byte, an unknown byte
    order, and truncation inside version or flags ([io.EOF] on a field
    boundary, [io.ErrUnexpectedEOF] within a field). *)
Theorem unmarshal_header_errors data val e :
  header_error data = Some e -> Unmarshal data val = (Err e, val).
Proof. apply Unmarshal_header_error. Qed.

Lemma unmarshal_header_errors_witness :
  Unmarshal [x01; x01; x00; x00; x00; x00] (vAnyMap []) = (Err ErrUnexpectedEOF, vAnyMap []) /\
  Unmarshal [x02; x01] (vAnyMap []) = (Err ErrInvalidEncoding, vAnyMap []).
Proof. split; apply unmarshal_header_errors; reflexivity. Defined.

(** C35: Errors inside nested lists are lost. A map whose values are maps or
    structs, under keys of at most 32765 bytes (a longer key is an error of the
    outer list), never makes [Marshal] return an error, whatever the values
    contain: the error of the nested call ends the list early and is reported as
    success. *)
Theorem marshal_nested_errors_lost kvs e :
  Forall (fun p => blen p.1 + 1 < 32767 /\ is_list p.2 = true) kvs ->
  Marshal (Some (vAnyMap (map (fun '(k, x) => (k, VIface None (Some x))) kvs))) <> Err e.
Proof. intros F. now apply Marshal_lists_no_err. Qed.

(** An [int] is refused at the top level. One level down the call succeeds,
    drops it and every later pair, and the output decodes without complaint. *)
Lemma marshal_nested_errors_lost_witness :
  let bad := vAnyMap [(str "n", VIface None (Some (VInt None KInt 1)))] in
  let outer := vAnyMap [(str "l", VIface None (Some bad)); (str "z", VIface None (Some (vAnyMap [])))] in
  Marshal (Some bad) = Err ErrInvalidValue /\ Marshal (Some outer) <> Err ErrInvalidValue /\
  exists bs, Marshal (Some outer) = Ok bs /\
    Unmarshal bs (vIfacePtr None) =
    (Ok tt, vIfacePtr (Some (vAnyMap [(str "l", VIface None (Some (vAnyMap [])))]))).
Proof.
  intros bad outer. split; [reflexivity|]. split.
  - apply (marshal_nested_errors_lost [(str "l", bad); (str "z", vAnyMap [])]). repeat constructor.
  - exists (match Marshal (Some outer) with Ok bs => bs | _ => [] end).
    split; vm_compute; reflexivity.
Defined.

(** ** Structs *)

(** C25: Struct encoding. For a struct of exported fields that hold nil
    pointers or interfaces, booleans or values of the format, directly, behind a
    pointer or in an interface, [Marshal] writes exactly one pair for each field
    that holds a value, under the name of its tag (the field's name when the tag
    has none), in the order of the fields. Left out are nil pointers and
    interfaces, false booleans, fields tagged [ro], and empty values of fields
    tagged [omitempty]. The names are free of zero bytes and have at most 32765
    bytes. *)
Theorem struct_fields_encoded nm fs :
  forallb (fun '(f, c) => field_ok f c) fs = true ->
  Marshal (Some (struct_go nm fs)) = Ok (packed LittleEndian (struct_nvs fs)).
Proof. apply Marshal_fields. Qed.

(** Every way to be left out, and the two sources of a name. *)
Lemma struct_fields_encoded_witness :
  Marshal (Some (VStruct (Some (str "Props"))
    [(SField (str "Nil") (str "nil"), VPtr None tString None);
     (SField (str "Any") [], VIface None None);
     (SField (str "Off") (str "off"), VBool None false);
     (SField (str "On") (str "on"), VBool None true);
     (SField (str "Size") (str "size,ro"), VInt None KUint64 5);
     (SField (str "Quota") (str "quota,omitempty"), VInt None KUint64 0);
     (SField (str "Zero") (str "zero"), VInt None KUint64 0);
     (SField (str "Origin") [], VPtr None (TString None) (Some (VString None (str "tank@a"))));
     (SField (str "State") (str ",omitempty"), VInt (Some (str "PoolState")) KUint64 3)])) =
  Ok (packed LittleEndian
    [(str "on", NBoolean); (str "zero", NInt KUint64 0); (str "Origin", NString (str "tank@a"));
     (str "State", NInt KUint64 3)]).
Proof.
  exact (struct_fields_encoded (Some (str "Props"))
    [(SField (str "Nil") (str "nil"), FNil tString); (SField (str "Any") [], FNilIface);
     (SField (str "Off") (str "off"), FFalse None); (SField (str "On") (str "on"), FVal None NBoolean);
     (SField (str "Size") (str "size,ro"), FVal None (NInt KUint64 5));
     (SField (str "Quota") (str "quota,omitempty"), FVal None (NInt KUint64 0));
     (SField (str "Zero") (str "zero"), FVal None (NInt KUint64 0));
     (SField (str "Origin") [], FPtr None (NString (str "tank@a")));
     (SField (str "State") (str ",omitempty"), FVal (Some (str "PoolState")) (NInt KUint64 3))] eq_refl).
Defined.



(** C24: Flat lists into structs. Through a pointer to a struct, a list without
    embedded lists, in either byte order, sets the fields as [store_struct] says,
    a definition by the tag names alone: pair after pair, the last field of that
    name takes the value if it is exported and the value is assignable to it (the
    same type, a slice of the same element type, or an interface); a value of
    another type panics; an unexported field and a name without a field are
    skipped, and so are times and doubles. *)
Theorem unmarshal_struct_flat o l rest nm t sn fs :
  nvs_ok l = true -> forallb (flat ∘ snd) l = true ->
  match store_struct l fs with
  | Ok fs' => Unmarshal (packed o l ++ rest) (VPtr nm t (Some (VStruct sn fs)))
              = (Ok tt, VPtr nm t (Some (VStruct sn fs')))
  | Panic p => fst (Unmarshal (packed o l ++ rest) (VPtr nm t (Some (VStruct sn fs)))) = Panic p
  | _ => False
  end.
Proof. apply Unmarshal_struct_spec. Qed.

(** Two fields named [space]: the last one gets the value. A string for an
    integer field: a panic. *)
Lemma unmarshal_struct_flat_witness :
  let fs z := [(SField (str "Old") (str "space"), VInt None KUint64 5);
               (SField (str "hidden") [], VInt None KUint64 6);
               (SField (str "Space") (str "space,omitempty"), VInt None KUint64 z)] in
  let l := [(str "other", NBoolean); (str "hidden", NString []); (str "space", NInt KUint64 77)] in
  let t := typeOf (VStruct None (fs 0)) in
  Unmarshal (packed BigEndian l ++ [x00]) (VPtr None t (Some (VStruct None (fs 0)))) =
  (Ok tt, VPtr None t (Some (VStruct None (fs 77)))) /\
  fst (Unmarshal (packed LittleEndian (l ++ [(str "space", NString (str "x"))]) ++ [])
         (VPtr None t (Some (VStruct None (fs 0))))) = Panic PAssign.
Proof.
  intros fs l t. split.
  - exact (unmarshal_struct_flat BigEndian l [x00] None t None (fs 0) eq_refl eq_refl).
  - exact (unmarshal_struct_flat LittleEndian (l ++ [(str "space", NString (str "x"))]) [] None t None (fs 0)
      eq_refl eq_refl).
Defined.

(** C39: A struct passed by value is never changed, whatever the data. *)
Theorem unmarshal_by_value_lost data nm fs :
  snd (Unmarshal data (VStruct nm fs)) = VStruct nm fs.
Proof. apply Unmarshal_by_value. Qed.

(** C34: An embedded list without a matching field is not skipped. Its pairs are
    stored as if they belonged to the outer list and its end is taken for the
    end of the outer list, so everything after it ([after]) is ignored. *)
Theorem unmarshal_unknown_list_leaks o x l after rest nm t sn fs v' :
  nvs_ok ((x, NNvlist l) :: after) = true -> forallb (flat ∘ snd) l = true ->
  structFieldByName (VStruct sn fs) !! x = None ->
  store_flat true (structFieldByName (VStruct sn fs)) l (VStruct sn fs) = Ok v' ->
  Unmarshal (packed o ((x, NNvlist l) :: after) ++ rest) (VPtr nm t (Some (VStruct sn fs)))
  = (Ok tt, VPtr nm t (Some v')).
Proof. apply Unmarshal_unknown_list. Qed.

(** The inner [space] wins and the outer one is lost. *)
Lemma unmarshal_unknown_list_leaks_witness :
  let f z := VStruct None [(SField (str "Space") (str "space"), VInt None KUint64 z)] in
  Unmarshal (packed LittleEndian [(str "stats", NNvlist [(str "space", NInt KUint64 1)]);
                                  (str "space", NInt KUint64 2)] ++ [])
    (VPtr None (typeOf (f 0)) (Some (f 0))) = (Ok tt, VPtr None (typeOf (f 0)) (Some (f 1))).
Proof. intros f. apply unmarshal_unknown_list_leaks; vm_compute; reflexivity. Defined.

(** C40: The fuzz entry point never decodes anything: it hands [Unmarshal] a
    pointer to a pointer, which every call refuses, so every input counts as
    uninteresting. *)
Theorem fuzz_always_zero data : Fuzz data = Ok 0.
Proof.
  unfold Fuzz. pose proof (Unmarshal_ptr_ptr data None (TPtr None tIface) None tIface
    (Some (VIface None None))) as H. fold (vIfacePtr None) in H.
  unfold vIfacePtr. now destruct (fst (Unmarshal _ _)).
Qed.

(** C5: Truncation is detected when decoding into an [interface{}] variable or
    into a made [map[string]interface{}]: every proper prefix of a packed list,
    in either byte order, makes [Unmarshal] return an error, wherever the cut
    is: in the stream header, in a frame, between nested lists or in the last
    zero size. (Into a struct it need not be: an embedded list without a field
    ends the outer list, so what comes after it is never read.) *)
Theorem unmarshal_detects_truncation o l n :
  nvs_ok l = true -> Z.of_nat n < blen (packed o l) ->
  (forall old, exists e, fst (Unmarshal (take n (packed o l)) (vIfacePtr old)) = Err e) /\
  (forall m, exists e, fst (Unmarshal (take n (packed o l)) (vAnyMap m)) = Err e).
Proof.
  intros K B. pose proof (fun v => Unmarshal_cut o l n v K B) as C.
  split; [intros old; specialize (C (vIfacePtr old) ltac:(left; eauto))
         |intros m; specialize (C (vAnyMap m) ltac:(right; eauto))];
    (destruct (fst (Unmarshal _ _)) as [|e| |]; try done; now exists e).
Qed.

Lemma unmarshal_detects_truncation_witness :
  (forall old, exists e, fst (Unmarshal (take 300 (packed BigEndian sample)) (vIfacePtr old)) = Err e) /\
  (forall m, exists e, fst (Unmarshal (take 300 (packed BigEndian sample)) (vAnyMap m)) = Err e).
Proof. apply unmarshal_detects_truncation; vm_compute; reflexivity. Defined.

(** C11: Map iteration order does not matter. If Go hands the entries of a map
    to the encoder in another order ([l'] a permutation of [l]), the bytes may
    differ but the map decoded from them has the same value at every key. *)
Theorem marshal_order_irrelevant l l' old :
  canonical_list l = true -> nvs_ok l = true -> l ≡ₚ l' ->
  exists bs bs' m m',
    Marshal (Some (nvs_value l)) = Ok bs /\ Marshal (Some (nvs_value l')) = Ok bs' /\
    Unmarshal bs (vIfacePtr old) = (Ok tt, vIfacePtr (Some (vAnyMap m))) /\
    Unmarshal bs' (vIfacePtr old) = (Ok tt, vIfacePtr (Some (vAnyMap m'))) /\
    forall k, map_get k m = map_get k m'.
Proof.
  intros C K P. exists (packed LittleEndian l), (packed LittleEndian l'), (nvs_into [] l), (nvs_into [] l').
  pose proof (canonical_perm _ _ P C) as C'. pose proof (nvs_ok_perm _ _ P K) as K'.
  rewrite <- (app_nil_r (packed LittleEndian l)), <- (app_nil_r (packed LittleEndian l')).
  rewrite !Unmarshal_packed by done. rewrite !app_nil_r.
  repeat split; try (now apply Marshal_spec, abstract_canonical).
  intros k. now apply nvs_into_perm.
Qed.

Lemma marshal_order_irrelevant_witness :
  exists bs bs' m m',
    Marshal (Some (nvs_value sample)) = Ok bs /\ Marshal (Some (nvs_value (rev sample))) = Ok bs' /\
    Unmarshal bs (vIfacePtr None) = (Ok tt, vIfacePtr (Some (vAnyMap m))) /\
    Unmarshal bs' (vIfacePtr None) = (Ok tt, vIfacePtr (Some (vAnyMap m'))) /\
    forall k, map_get k m = map_get k m'.
Proof.
  apply (marshal_order_irrelevant sample (rev sample)); [vm_compute; reflexivity..|].
  apply Permutation_rev.
Defined.

(** C36: Strings with zero bytes. A string value is written up to its first zero
    byte, without a terminator of its own when it has one, and [Marshal] still
    succeeds: the rest of the string is silently lost. *)
Theorem marshal_string_cut_at_nul name s :
  nul_free name = true -> blen name + 1 < 32767 ->
  Marshal (Some (vAnyMap [(name, VIface None (Some (VString None s)))])) =
  Ok (stream_header LittleEndian ++
      frame LittleEndian name typeString 1 (if nul_free s then s ++ [x00] else before_nul s) ++ zeros 4).
Proof. apply Marshal_string. Qed.

Lemma marshal_string_cut_at_nul_witness :
  Marshal (Some (vAnyMap [(str "k", VIface None (Some (VString None [x61; x00; x62])))])) =
  Ok (stream_header LittleEndian ++ frame LittleEndian (str "k") typeString 1 [x61] ++ zeros 4).
Proof. apply (marshal_string_cut_at_nul (str "k") [x61; x00; x62]); reflexivity. Defined.
