(* ===== verification/IoctlTheorems.v ===== *)
(** * Properties of package ioctl: the call and its wrappers *)

From Stdlib Require Import ZArith Lia Strings.Byte Strings.String.
From stdpp Require Import base list gmap.
From S2P Require Import Prelude GoValue NvConsts NvEncode NvDecode NvWire NvEncodeSpec.
From S2P Require Import NvDecodeSpec NvEncodeTotal NvSafety NvRoundtrip NvTarget NvStruct NvEdge NvFields.
From S2P Require Import IoctlTypes Ioctl IoctlSpec WrapTypes Wrappers WrapSpec.

(** A kernel for witnesses: it answers ENOMEM [n] times, then success with the
    given return buffer and the command it got, its cookie set. *)
Definition testKernel (dst : list byte) (cookie : Z) : kernel nat :=
  fun n c =>
    match n with
    | O => (KReply 0 (set_Cookie cookie (k_cmd c)) dst, O)
    | S n' => (KReply ENOMEM (set_Cookie 99 (k_cmd c)) [], n')
    end.

Definition testAddr (b : buffer) (n : nat) : Z :=
  match b with BufSrc => 4096 | BufDst => 8192 | BufConf => 12288 end + Z.of_nat n.

(** ** NvlistIoctl *)

(** C6: Functional correctness of the system call wrapper. For every kernel and
    every codec that meets the contract, [NvlistIoctl] with its retry loop is
    the loop-free specification: marshal both arguments (their errors are
    returned before any call), take the first answer other than ENOMEM among
    five attempts, store its command back, return its error number or decode
    its return buffer; the pointers of the command are never taken of an empty
    buffer, and the loop always ends. *)
Theorem nvlist_ioctl_refines `{NvCodec} {W} (sys : kernel W) addr fd ioctl name request config s :
  NvlistIoctl sys addr fd ioctl name request config s =
    ioctl_spec sys addr fd ioctl name request config s /\
  fst (NvlistIoctl sys addr fd ioctl name request config s) <> OutOfFuel.
Proof. rewrite NvlistIoctl_refines. split; [done|apply ioctl_spec_ends]. Qed.

(** C12: Bounded retries. A call whose arguments can be marshalled makes between
    one and five system calls, the [k]-th with the caller's own command (not
    what an earlier attempt left in it) and a return buffer of exactly 8 KiB
    times [8^k], at most 32 MiB. *)
Theorem nvlist_ioctl_attempts {W} (sys : kernel W) addr plat i name cmd req resp conf h w log src cf :
  marshal_opt req = Ok src -> marshal_opt conf = Ok cf ->
  exists m w', (1 <= m <= 5)%nat /\
    world (snd (nvlistIoctl (logged sys) addr plat i name cmd req resp conf (Env h (w, log)))) =
    (w', log ++ map (sent addr (Fd h) (ioctl_number plat i) name cmd src (has_value resp) cf) (seq 0 m)) /\
    Forall (fun k => 8192 <= dst_size k <= 32 * 1024 * 1024) (seq 0 m).
Proof.
  intros R C. destruct (nvlistIoctl_log sys addr plat i name cmd req resp conf h w log src cf R C)
    as (m & w' & L & E). exists m, w'. split; [done|]. split; [exact E|].
  apply Forall_forall. intros k Hk. apply elem_of_seq in Hk.
  split; [change 8192 with (dst_size 0)|change (32 * 1024 * 1024) with (dst_size 4)];
    apply dst_size_mono; lia.
Qed.

(** Two ENOMEM answers: three calls. *)
Lemma nvlist_ioctl_attempts_witness :
  exists m w', (1 <= m <= 5)%nat /\
    world (snd (nvlistIoctl (logged (testKernel (packed LittleEndian []) 7)) testAddr not_freebsd
      ZFS_IOC_POOL_STATS (str "tank") zeroCmd None (Some (vAnyMap [])) None (Env (Some 3) (2%nat, [])))) =
    (w', [] ++ map (sent testAddr (Fd (Some 3)) (ioctl_number not_freebsd ZFS_IOC_POOL_STATS) (str "tank")
       zeroCmd None (has_value (Some (vAnyMap []))) None) (seq 0 m)) /\
    Forall (fun k => 8192 <= dst_size k <= 32 * 1024 * 1024) (seq 0 m).
Proof. apply nvlist_ioctl_attempts; reflexivity. Defined.

(** C27: Exhausted retries. If the kernel answers ENOMEM five times, the wrapper
    reports the oversized buffer, and the caller's command and response are
    exactly as before, although each attempt's private command may have been
    changed by the kernel. *)
Theorem nvlist_ioctl_exhausted {W} (sys : kernel W) addr fd ioctl name request config s src conf w' :
  marshal_opt request = Ok src -> marshal_opt config = Ok conf ->
  first_reply sys addr fd ioctl name (io_cmd s) src (bool_decide (is_Some (io_response s)))
    conf attempts 0 (io_world s) = (None, w') ->
  NvlistIoctl sys addr fd ioctl name request config s =
  (Err errTooBig, IoState (io_cmd s) (io_response s) w').
Proof.
  intros R C F. rewrite NvlistIoctl_refines. unfold ioctl_spec. rewrite R, C, F. reflexivity.
Qed.

Lemma nvlist_ioctl_exhausted_witness :
  NvlistIoctl (testKernel [] 0) testAddr 3 23045 (str "tank") None None (IoState zeroCmd None 5%nat) =
  (Err errTooBig, IoState zeroCmd None 0%nat).
Proof.
  apply (nvlist_ioctl_exhausted (testKernel [] 0) testAddr 3 23045 (str "tank") None None
    (IoState zeroCmd None 5%nat) None None 0%nat); vm_compute; reflexivity.
Defined.

(** C26: The dataset name reaches the kernel. Every system call of a wrapper
    whose command starts with a zero name field shows the kernel exactly the
    name given, if it has no zero byte and at most 4095 bytes. A zero byte cuts
    the name short and a longer name is replaced by the empty one, both
    silently: the call is made all the same. *)
Theorem name_reaches_kernel {W} (sys : kernel W) addr plat i name cmd req resp conf h w log src cf :
  marshal_opt req = Ok src -> marshal_opt conf = Ok cf -> zc_Name cmd = zero_bytes 4096 ->
  exists calls w', (1 <= length calls <= 5)%nat /\
    world (snd (nvlistIoctl (logged sys) addr plat i name cmd req resp conf (Env h (w, log)))) =
      (w', log ++ calls) /\
    Forall (fun k => let read := delimitedBufToString (zc_Name (k_cmd k)) in
      (blen name < 4096 -> nul_free name = true -> read = name) /\
      (blen name < 4096 -> read = before_nul name) /\
      (4096 <= blen name -> read = [])) calls.
Proof.
  intros R C Z. destruct (nvlistIoctl_log sys addr plat i name cmd req resp conf h w log src cf R C)
    as (m & w' & L & E). eexists _, w'. split; [rewrite length_map, length_seq; exact L|].
  split; [exact E|]. apply Forall_map, Forall_forall. intros k _. cbv zeta.
  rewrite sent_name, Z, stored_seen by done. unfold seen. destruct (Z.ltb_spec (blen name) 4096).
  - split; [intros; now apply before_nul_id|]. split; intros; [done|lia].
  - split; [intros; lia|]. split; intros; [lia|done].
Qed.

(** A valid name, one with a zero byte and one of 4096 bytes. *)
Lemma name_reaches_kernel_witness :
  let run name := nvlistIoctl (logged (testKernel [] 0)) testAddr not_freebsd ZFS_IOC_POOL_DESTROY name zeroCmd
    None None None (Env (Some 3) (1%nat, [])) in
  let shows name s := exists calls w', (1 <= length calls <= 5)%nat /\
    world (snd (run name)) = (w', [] ++ calls) /\
    Forall (fun k => delimitedBufToString (zc_Name (k_cmd k)) = s) calls in
  shows (str "tank/a@b") (str "tank/a@b") /\ shows [x61; x00; x62] [x61] /\
  shows (replicate 4096 x61) [].
Proof.
  intros run shows.
  assert (H : forall name s, (forall k : kcall, let read := delimitedBufToString (zc_Name (k_cmd k)) in
      (blen name < 4096 -> nul_free name = true -> read = name) /\
      (blen name < 4096 -> read = before_nul name) /\ (4096 <= blen name -> read = []) -> read = s) ->
    shows name s).
  { intros name s Hs. destruct (name_reaches_kernel (testKernel [] 0) testAddr not_freebsd ZFS_IOC_POOL_DESTROY
      name zeroCmd None None None (Some 3) 1%nat [] None None eq_refl eq_refl eq_refl)
      as (calls & w' & L & E & F). exists calls, w'. split; [exact L|]. split; [exact E|].
    eapply Forall_impl; [exact F|]. exact Hs. }
  split; [|split]; apply H; intros k read (H1 & H2 & H3).
  - apply H1; reflexivity.
  - apply H2. reflexivity.
  - apply H3. vm_compute. discriminate.
Defined.

(** ** Reading results *)

(** C14: End to end for dynamic results. Whatever the number of ENOMEM answers
    before it, when the kernel's answer is success and its buffer starts with a
    packed list in either byte order that fits the buffer of that attempt, then
    [PoolConfigs] returns exactly the map of that list and no error. *)
Theorem pool_configs_decodes {W} (sys : kernel W) addr plat h w w' n r o l :
  answer sys addr plat h ZFS_IOC_POOL_CONFIGS [] zeroCmd None (Some (vAnyMap [])) None w
    = (Some (n, r), w') ->
  k_errno r = 0 -> k_dst r = packed o l -> blen (packed o l) <= dst_size n -> nvs_ok l = true ->
  PoolConfigs sys addr plat (Env h w) = (Ok (Some (nvs_value l), None), Env h w').
Proof.
  intros A E D B K. unfold PoolConfigs, gbind.
  rewrite (nvlistIoctl_answer _ _ _ _ _ _ None _ None _ _ None None eq_refl eq_refl), A.
  cbn [fst snd reply_of]. rewrite E, D. cbn [Z.eqb].
  destruct (filled_prefix (dst_size n) (packed o l) B) as [z ->].
  now rewrite Unmarshal_packed_map.
Qed.

Lemma pool_configs_decodes_witness :
  let l := [(str "tank", NNvlist [(str "version", NInt KUint64 5000)])] in
  PoolConfigs (testKernel (packed BigEndian l) 1) testAddr not_freebsd (Env (Some 3) 1%nat) =
  (Ok (Some (nvs_value l), None), Env (Some 3) 0%nat).
Proof.
  intros l.
  exact (pool_configs_decodes (testKernel (packed BigEndian l) 1) testAddr not_freebsd (Some 3) 1%nat 0%nat
    1%nat (snd (default (0%nat, KReply 1 zeroCmd [])
      (answer (testKernel (packed BigEndian l) 1) testAddr not_freebsd (Some 3) ZFS_IOC_POOL_CONFIGS []
         zeroCmd None (Some (vAnyMap [])) None 1%nat).1)) BigEndian l
    ltac:(vm_compute; reflexivity) ltac:(vm_compute; reflexivity) ltac:(vm_compute; reflexivity)
    ltac:(vm_compute; discriminate) ltac:(vm_compute; reflexivity)).
Defined.

(** C23: [SendSpace] returns the kernel's estimate: if the answer is success and
    the buffer starts with a list of the one entry [space], in either byte
    order and whatever the attempt, the result is that number and no error. *)
Theorem send_space_result {W} (sys : kernel W) addr plat h w w' n r o name opts src z :
  marshal_opt (Some (vSendSpaceOptions opts)) = Ok src ->
  answer sys addr plat h ZFS_IOC_SEND_SPACE name zeroCmd src
    (Some (VPtr None (typeOf (vSpaceRes 0)) (Some (vSpaceRes 0)))) None w = (Some (n, r), w') ->
  k_errno r = 0 -> k_dst r = packed o [(str "space", NInt KUint64 z)] -> in_range KUint64 z = true ->
  SendSpace sys addr plat name opts (Env h w) = (Ok (z, None), Env h w').
Proof.
  intros M A E D R. unfold SendSpace, gbind.
  rewrite (nvlistIoctl_answer _ _ _ _ _ _ _ _ None _ _ src None M eq_refl), A.
  cbn [fst snd reply_of]. rewrite E, D. cbn [Z.eqb].
  assert (B : blen (packed o [(str "space", NInt KUint64 z)]) <= dst_size n).
  { transitivity (dst_size 0); [|apply dst_size_mono; lia].
    destruct o; vm_compute; discriminate. }
  destruct (filled_prefix (dst_size n) _ B) as [rest ->].
  assert (K : nvs_ok [(str "space", NInt KUint64 z)] = true).
  { rewrite nvs_ok_cons. cbn [nv_ok fixed_width]. rewrite R. reflexivity. }
  pose proof (Unmarshal_struct o [(str "space", NInt KUint64 z)] rest None (typeOf (vSpaceRes 0)) None
    [fld "Space" "space" (vUint64 0)] K eq_refl) as U. cbv zeta in U.
  change (store_flat true _ _ _) with (Ok (vSpaceRes z)) in U. cbv iota in U.
  change (VStruct None [fld "Space" "space" (vUint64 0)]) with (vSpaceRes 0) in U.
  now rewrite U.
Qed.

Lemma send_space_result_witness :
  let bs := packed LittleEndian [(str "space", NInt KUint64 123456)] in
  let opts := MkSendSpaceOptions (str "tank@a") true false false in
  SendSpace (testKernel bs 0) testAddr not_freebsd (str "tank@b") opts (Env (Some 3) 0%nat) =
  (Ok (123456, None), Env (Some 3) 0%nat).
Proof.
  intros bs opts.
  refine (send_space_result (testKernel bs 0) testAddr not_freebsd (Some 3) 0%nat 0%nat 0%nat
    (snd (default (0%nat, KReply 1 zeroCmd []) (answer (testKernel bs 0) testAddr not_freebsd (Some 3)
       ZFS_IOC_SEND_SPACE (str "tank@b") zeroCmd
       (match marshal_opt (Some (vSendSpaceOptions opts)) with Ok s => s | _ => None end)
       (Some (VPtr None (typeOf (vSpaceRes 0)) (Some (vSpaceRes 0)))) None 0%nat).1))
    LittleEndian (str "tank@b") opts
    (match marshal_opt (Some (vSendSpaceOptions opts)) with Ok s => s | _ => None end) 123456 _ _ _ _ _);
  vm_compute; reflexivity.
Defined.

(** C21: The dataset cursor. What [DatasetListNext] returns, case by case. After
    five ENOMEM answers: zero values and the error about the buffer. On an error
    number: zero values and that number. On success with a buffer that cannot be
    decoded: zero values and the decoder's error. On success with a packed list
    of properties, each with a value (not a list) and possibly a source, in either
    byte order:
    the name, cursor and statistics the kernel left in the command, the map of
    these properties, and no error. *)
Theorem dataset_list_next_result {W} (sys : kernel W) addr plat h w name cursor :
  let props := newDatasetPropsWithSource in
  let a := answer sys addr plat h ZFS_IOC_DATASET_LIST_NEXT name (set_Cookie cursor zeroCmd) None
             (Some props) None w in
  let out := DatasetListNext sys addr plat name cursor (Env h w) in
  (a.1 = None ->
     out = (Ok ([], 0, zeroDMUObjectSetStats, Some props, Some errTooBig), Env h a.2)) /\
  (forall n r, a.1 = Some (n, r) -> k_errno r <> 0 ->
     out = (Ok ([], 0, zeroDMUObjectSetStats, Some props, Some (Errno (k_errno r))), Env h a.2)) /\
  (forall n r e v, a.1 = Some (n, r) -> k_errno r = 0 ->
     Unmarshal (filled (dst_size n) (k_dst r)) props = (Err e, v) ->
     out = (Ok ([], 0, zeroDMUObjectSetStats, Some v, Some e), Env h a.2)) /\
  (forall n r o ps, a.1 = Some (n, r) -> k_errno r = 0 ->
     k_dst r = packed o (ksprops_nvs ps) -> blen (k_dst r) <= dst_size n ->
     nvs_ok (ksprops_nvs ps) = true -> forallb (fun p => flat (fst (snd p))) ps = true ->
     out = (Ok (delimitedBufToString (zc_Name (k_cmd' r)), zc_Cookie (k_cmd' r),
                zc_Objset_stats (k_cmd' r), Some (ksprops_map ps), None), Env h a.2)).
Proof.
  intros props a out. unfold out, DatasetListNext, gbind.
  rewrite (nvlistIoctl_answer _ _ _ _ _ _ None _ None _ _ None None eq_refl eq_refl). fold props a.
  repeat split.
  - intros ->. reflexivity.
  - intros n r -> E. cbn [reply_of]. now rewrite (proj2 (Z.eqb_neq _ _) E).
  - intros n r e v -> E U. cbn [reply_of]. rewrite E. cbn [Z.eqb]. now rewrite U.
  - intros n r o ps -> E D B K F. cbn [reply_of]. rewrite E. cbn [Z.eqb]. rewrite D in *.
    destruct (filled_prefix (dst_size n) _ B) as [z ->]. unfold props. now rewrite Unmarshal_ksprops.
Qed.

(** A kernel with one more dataset: it returns its name, cursor and buffer. *)
Definition cursorKernel (dst : list byte) : kernel nat :=
  fun n c => (KReply 0 (set_Name (stored (str "tank/child") (zero_bytes 4096))
                         (set_Cookie (zc_Cookie (k_cmd c) + 1) (k_cmd c))) dst, n).

Lemma dataset_list_next_result_witness :
  let ps := [(str "quota", (NInt KUint64 10, Some (str "tank"))); (str "type", (NInt KUint64 2, None))] in
  DatasetListNext (cursorKernel (packed BigEndian (ksprops_nvs ps))) testAddr not_freebsd (str "tank") 7
    (Env (Some 3) 0%nat) =
  (Ok (str "tank/child", 8, zeroDMUObjectSetStats, Some (ksprops_map ps), None), Env (Some 3) 0%nat) /\
  DatasetListNext (testKernel [] 0) testAddr not_freebsd (str "tank") 7 (Env (Some 3) 9%nat) =
  (Ok ([], 0, zeroDMUObjectSetStats, Some newDatasetPropsWithSource, Some errTooBig), Env (Some 3) 4%nat).
Proof.
  intros ps. split.
  - pose proof (dataset_list_next_result (cursorKernel (packed BigEndian (ksprops_nvs ps))) testAddr not_freebsd
      (Some 3) 0%nat (str "tank") 7) as (_ & _ & _ & H).
    refine (H 0%nat (KReply 0 (set_Name (stored (str "tank/child") (zero_bytes 4096)) (set_Cookie 8
      (k_cmd (sent testAddr 3 (ioctl_number not_freebsd ZFS_IOC_DATASET_LIST_NEXT) (str "tank")
         (set_Cookie 7 zeroCmd) None true None 0)))) (packed BigEndian (ksprops_nvs ps))) BigEndian ps
      _ _ _ _ _ _); vm_compute; congruence.
  - apply (dataset_list_next_result (testKernel [] 0) testAddr not_freebsd (Some 3) 9%nat (str "tank") 7).
    vm_compute. reflexivity.
Defined.

(** ** What is sent *)

(** C31: [Snapshot] rejects a repeated name before any system call. *)
Theorem snapshot_rejects_duplicates {W} (sys : kernel W) addr plat mapKeys names pool props e :
  ~ NoDup names -> Snapshot sys addr plat mapKeys names pool props e = (Ok (Some errDuplicate), e).
Proof. intros D. unfold Snapshot. now rewrite addNames_dup by now left. Qed.

Lemma snapshot_rejects_duplicates_witness :
  Snapshot (testKernel [] 0) testAddr freebsd (fun m => m) [str "tank@a"; str "tank@b"; str "tank@a"]
    (str "tank") None (Env (Some 3) 0%nat) = (Ok (Some errDuplicate), Env (Some 3) 0%nat).
Proof.
  apply snapshot_rejects_duplicates. intros N. apply NoDup_cons in N as [N _]. apply N.
  apply list_elem_of_further, list_elem_of_here.
Defined.

(** C22: [Snapshot] sends the list of its names. For distinct, valid names and
    properties that are nil or a map of encodable values, it makes between one
    and five system calls, each with the number of [ZFS_IOC_SNAPSHOT] and one
    and the same request: the packed list [snaps] with each name once as a flag,
    in the order in which Go lists the keys of the map built from the names (any
    order: [mapKeys] is only assumed to permute), followed by [props] if given. *)
Theorem snapshot_request {W} (sys : kernel W) addr plat mapKeys names pool pl h w log :
  (forall m, mapKeys m ≡ₚ m) -> NoDup names -> forallb name_ok names = true -> props_ok pl = true ->
  exists names' calls w', names' ≡ₚ names /\ (1 <= length calls <= 5)%nat /\
    world (snd (Snapshot (logged sys) addr plat mapKeys names pool (props_of pl) (Env h (w, log)))) =
      (w', log ++ calls) /\
    Forall (fun c => k_ioctl c = ioctl_number plat ZFS_IOC_SNAPSHOT /\
      k_src c = Some (packed LittleEndian (snaps_nvs names' ++ props_nvs pl))) calls.
Proof.
  intros M N K C. unfold Snapshot. rewrite addNames_spec by (done || set_solver). cbn [app].
  destruct (all_true_perm _ names (M (all_true names))) as (names' & P & E). exists names'.
  unfold all_true in E at 1. rewrite E. fold (all_true names').
  destruct (justError_log sys addr plat ZFS_IOC_SNAPSHOT pool zeroCmd
    (Some (vSnapReq (all_true names') (props_of pl))) (Some (newErrList KInt32)) None h w log
    (Some (packed LittleEndian (snaps_nvs names' ++ props_nvs pl))) None
    (fun c => k_ioctl c = ioctl_number plat ZFS_IOC_SNAPSHOT /\
      k_src c = Some (packed LittleEndian (snaps_nvs names' ++ props_nvs pl)))) as (calls & w' & H);
    [|reflexivity|intros k; split; reflexivity|exists calls, w'; split; [exact P|exact H]].
  unfold marshal_opt. cbn [codec_Marshal nvlist_codec]. rewrite Marshal_snapReq; [reflexivity| |exact C].
  rewrite (forallb_perm _ _ _ P). exact K.
Qed.

(** Keys listed backwards, and one property. *)
Lemma snapshot_request_witness :
  exists names' calls w', names' ≡ₚ [str "tank@a"; str "tank@b"] /\ (1 <= length calls <= 5)%nat /\
    world (snd (Snapshot (logged (testKernel (packed LittleEndian []) 0)) testAddr not_freebsd (@rev _)
      [str "tank@a"; str "tank@b"] (str "tank") (Some (Some [(str "k", Some (vString (str "v")))]))
      (Env (Some 3) (1%nat, [])))) = (w', [] ++ calls) /\
    Forall (fun c => k_ioctl c = ioctl_number not_freebsd ZFS_IOC_SNAPSHOT /\
      k_src c = Some (packed LittleEndian (snaps_nvs names' ++
        [(str "props", NNvlist [(str "k", NString (str "v"))])]))) calls.
Proof.
  apply (snapshot_request (testKernel (packed LittleEndian []) 0) testAddr not_freebsd (@rev _)
    [str "tank@a"; str "tank@b"] (str "tank") (Some [(str "k", NString (str "v"))]) (Some 3) 1%nat []);
    [|apply (bool_decide_unpack _); vm_compute; exact I|reflexivity|reflexivity].
  intros m. symmetry. apply Permutation_rev.
Defined.

(** C33: [DestroySnapshots] issues the wrong ioctl. Its request is the right one
    (the names, in the order Go lists them, and [defer] when asked for), but
    every call it makes carries the number of [ZFS_IOC_CLONE], which is not that
    of [ZFS_IOC_DESTROY_SNAPS]. *)
Theorem destroy_snapshots_sends_clone {W} (sys : kernel W) addr plat mapKeys names pool defer h w log :
  (forall m, mapKeys m ≡ₚ m) -> NoDup names -> forallb name_ok names = true ->
  exists names' calls w', names' ≡ₚ names /\ (1 <= length calls <= 5)%nat /\
    world (snd (DestroySnapshots (logged sys) addr plat mapKeys names pool defer (Env h (w, log)))) =
      (w', log ++ calls) /\
    Forall (fun c => k_ioctl c = ioctl_number plat ZFS_IOC_CLONE /\
      k_ioctl c <> ioctl_number plat ZFS_IOC_DESTROY_SNAPS /\
      k_src c = Some (packed LittleEndian (destroy_nvs names' defer))) calls.
Proof.
  intros M N K. unfold DestroySnapshots. rewrite addNames_spec by (done || set_solver). cbn [app].
  destruct (all_true_perm _ names (M (all_true names))) as (names' & P & E). exists names'.
  unfold all_true in E at 1. rewrite E. fold (all_true names').
  destruct (justError_log sys addr plat ZFS_IOC_CLONE pool zeroCmd
    (Some (vDestroySnapReq (all_true names') defer)) (Some (newErrList KInt32)) None h w log
    (Some (packed LittleEndian (destroy_nvs names' defer))) None
    (fun c => k_ioctl c = ioctl_number plat ZFS_IOC_CLONE /\
      k_ioctl c <> ioctl_number plat ZFS_IOC_DESTROY_SNAPS /\
      k_src c = Some (packed LittleEndian (destroy_nvs names' defer)))) as (calls & w' & H);
    [|reflexivity| |exists calls, w'; split; [exact P|exact H]].
  - unfold marshal_opt. cbn [codec_Marshal nvlist_codec]. rewrite Marshal_destroySnapReq; [reflexivity|].
    rewrite (forallb_perm _ _ _ P). exact K.
  - intros k. split; [reflexivity|]. split; [destruct plat; vm_compute; discriminate|reflexivity].
Qed.

Lemma destroy_snapshots_sends_clone_witness :
  exists names' calls w', names' ≡ₚ [str "tank@a"; str "tank@b"] /\ (1 <= length calls <= 5)%nat /\
    world (snd (DestroySnapshots (logged (testKernel (packed LittleEndian []) 0)) testAddr not_freebsd (@rev _)
      [str "tank@a"; str "tank@b"] (str "tank") true (Env (Some 3) (0%nat, [])))) = (w', [] ++ calls) /\
    Forall (fun c => k_ioctl c = ioctl_number not_freebsd ZFS_IOC_CLONE /\
      k_ioctl c <> ioctl_number not_freebsd ZFS_IOC_DESTROY_SNAPS /\
      k_src c = Some (packed LittleEndian (destroy_nvs names' true))) calls.
Proof.
  apply destroy_snapshots_sends_clone;
    [|apply (bool_decide_unpack _); vm_compute; exact I|reflexivity].
  intros m. symmetry. apply Permutation_rev.
Defined.

(** C16: [PoolCreate] sends the device tree. The configuration bytes of every
    call are the packed list of the tree, children nested as lists to any
    depth, with zero numbers and empty child lists left out ([is_log] is sent
    even when zero); the numbers are 64-bit and the strings free of zero bytes. *)
Theorem pool_create_config {W} (sys : kernel W) addr plat name features config h w log src :
  marshal_opt (Some (VMap None tString tUint64
    (option_map (map (fun '(k, z) => (k, vUint64 z))) features))) = Ok src ->
  vdev_ok config = true ->
  exists calls w', (1 <= length calls <= 5)%nat /\
    world (snd (PoolCreate (logged sys) addr plat name features config (Env h (w, log)))) = (w', log ++ calls) /\
    Forall (fun c => k_ioctl c = ioctl_number plat ZFS_IOC_POOL_CREATE /\ k_src c = src /\
      k_conf c = Some (packed LittleEndian (vdev_nvs config)) /\
      zc_Nvlist_conf_size (k_cmd c) = blen (packed LittleEndian (vdev_nvs config))) calls.
Proof.
  intros M K. unfold PoolCreate.
  apply (justError_log sys addr plat ZFS_IOC_POOL_CREATE name zeroCmd _ None (Some (vVDev config)) h w log src
    (Some (packed LittleEndian (vdev_nvs config))) _ M).
  - unfold marshal_opt. cbn [codec_Marshal nvlist_codec]. now rewrite Marshal_vdev.
  - intros k. cbn [k_ioctl k_src k_conf k_cmd sent]. repeat split; destruct src; reflexivity.
Qed.

Definition sampleVDev : VDev :=
  MkVDev 0 0 12 0 0 0 [] (str "root")
    [MkVDev 0 0 0 0 0 0 [] (str "mirror")
       [MkVDev 0 0 0 0 0 0 (str "/dev/sda") (str "disk") [] [] [];
        MkVDev 0 0 0 0 0 1 (str "/dev/sdb") (str "disk") [] [] []] [] []] [] [].

Lemma pool_create_config_witness :
  exists calls w', (1 <= length calls <= 5)%nat /\
    world (snd (PoolCreate (logged (testKernel [] 0)) testAddr not_freebsd (str "tank") None sampleVDev
      (Env (Some 3) (0%nat, [])))) = (w', [] ++ calls) /\
    Forall (fun c => k_ioctl c = ioctl_number not_freebsd ZFS_IOC_POOL_CREATE /\
      k_src c = Some (packed LittleEndian []) /\
      k_conf c = Some (packed LittleEndian (vdev_nvs sampleVDev)) /\
      zc_Nvlist_conf_size (k_cmd c) = blen (packed LittleEndian (vdev_nvs sampleVDev))) calls.
Proof. apply pool_create_config; reflexivity. Defined.

(** ** Results that get lost *)

(** C37: [Rollback] never reports a target. The reply structure is passed by
    value, so whatever the kernel answers the returned target is empty. *)
Theorem rollback_target_empty {W} (sys : kernel W) addr plat name target e :
  match fst (Rollback sys addr plat name target e) with
  | Ok (actual, _) => actual = []
  | _ => True
  end.
Proof.
  destruct e as [h w]. unfold Rollback, gbind. set (res := Some (vRollbackRes [])).
  destruct (marshal_opt (Some (vRollbackReq target))) as [src|x|p|] eqn:M.
  - rewrite (nvlistIoctl_answer _ _ _ _ _ _ _ _ None _ _ src None M eq_refl).
    destruct (answer _ _ _ _ _ _ _ _ _ _ _) as [[[n r]|] w']; cbn [fst snd reply_of]; [|done].
    destruct (k_errno r =? 0); [|done]. cbn [res].
    pose proof (Unmarshal_by_value (filled (dst_size n) (k_dst r)) None
      [fld "Target" "target" (vString [])]) as U. fold (vRollbackRes []) in U.
    destruct (Unmarshal _ _) as [[] v']; cbn [snd] in U; subst; done.
  - unfold nvlistIoctl. rewrite NvlistIoctl_refines. unfold ioctl_spec. now rewrite M.
  - unfold nvlistIoctl. rewrite NvlistIoctl_refines. unfold ioctl_spec. now rewrite M.
  - unfold nvlistIoctl. rewrite NvlistIoctl_refines. unfold ioctl_spec. now rewrite M.
Qed.




(** C30: Invalid strings in the value field. [InheritProp] refuses a property
    name that is too long for its 8192-byte field or contains a zero byte,
    without a system call. [Rename] with a new name that is too long goes ahead:
    every call carries the empty string as the new name. *)
Theorem value_field_errors {W} (sys : kernel W) addr plat name s flag h w log :
  (8192 <= blen s ->
     InheritProp (logged sys) addr plat name s flag (Env h (w, log)) = (Ok (Some errStringLonger), Env h (w, log))) /\
  (blen s < 8192 -> nul_free s = false ->
     InheritProp (logged sys) addr plat name s flag (Env h (w, log)) = (Ok (Some errStringNull), Env h (w, log))) /\
  (8192 <= blen s ->
     exists calls w', (1 <= length calls <= 5)%nat /\
       world (snd (Rename (logged sys) addr plat name s flag (Env h (w, log)))) = (w', log ++ calls) /\
       Forall (fun c => delimitedBufToString (zc_Value (k_cmd c)) = []) calls).
Proof.
  destruct (stringToDelimitedBuf_error s (zero_bytes 8192)) as [L N].
  change (blen (zero_bytes 8192)) with 8192 in *.
  unfold InheritProp. change (zc_Value (set_Cookie _ zeroCmd)) with (zero_bytes 8192).
  repeat split.
  - intros H. specialize (L H). destruct (stringToDelimitedBuf s (zero_bytes 8192)) as [out b].
    cbn [fst] in L. now subst out.
  - intros H H'. specialize (N H H'). destruct (stringToDelimitedBuf s (zero_bytes 8192)) as [out b].
    cbn [fst] in N. now subst out.
  - intros H. unfold Rename. set (cmd := set_Value _ _).
    apply (justError_log sys addr plat ZFS_IOC_RENAME name cmd None None None h w log None None); [done..|].
    intros k. change (zc_Value (k_cmd _)) with (stored s (zero_bytes 8192)).
    rewrite stored_seen by done. unfold seen. now decide_false (blen s <? 8192).
Qed.

Lemma value_field_errors_witness :
  InheritProp (logged (testKernel [] 0)) testAddr not_freebsd (str "tank") [x61; x00] true
    (Env (Some 3) (0%nat, [])) = (Ok (Some errStringNull), Env (Some 3) (0%nat, [])).
Proof.
  apply (value_field_errors (testKernel [] 0) testAddr not_freebsd (str "tank") [x61; x00] true
    (Some 3) 0%nat []); reflexivity.
Defined.
