(* ===== verification/StreamTheorems.v ===== *)
(** * Properties of the send and receive streams

    Statements about every state reachable by any interleaving of the caller,
    the goroutine and the kernel, about the calls of Send and Receive, and about
    the calls of all operations together. *)

From Stdlib Require Import ZArith Lia Strings.Byte Strings.String.
From stdpp Require Import base list gmap relations.
From S2P Require Import Prelude GoValue NvConsts NvEncode NvDecode NvWire NvEncodeSpec NvDecodeSpec.
From S2P Require Import NvTarget NvStruct IoctlTypes Ioctl IoctlSpec WrapTypes Wrappers WrapSpec.
From S2P Require Import Streams StreamsSpec.

(** A kernel that always answers EBUSY, and the results of a send on it. *)
Definition busyKernel : kernel unit := fun w c => (KReply 16 (k_cmd c) [], w).
Definition busySend : option goerr -> Prop :=
  sendResult busyKernel (fun _ _ => 4096) not_freebsd (str "tank@a")
    (MkSendOptions 0 [] [] false false false false false 0 0) 5.

Lemma busySend_fails : busySend (Some (Errno 16)).
Proof. exists (Env (Some 3) tt). eexists _, _. split; vm_compute; reflexivity. Qed.

(** ** Send *)

(** C7: The send stream loses nothing. In every reachable state the bytes the
    caller has read, then the byte kept from the fail-fast peek, then the
    contents of the pipe are exactly the bytes the kernel wrote, in order; and
    once the stream is at its end everything has been delivered. *)
Theorem send_stream_faithful result st0 st :
  send_init None = Ok st0 -> rtc (send_step result) st0 st ->
  ss_read st ++ peekBuf (ss_stream st) ++ p_data (s_r (ss_stream st)) = ss_written st /\
  (isEOF (ss_stream st) = true -> ss_read st = ss_written st).
Proof.
  intros I R. destruct (send_reachable_inv result st0 st I R) as [B G _]. split; [exact B|].
  intros E. destruct (ss_go st); cbn in G; [destr_ctx; congruence..|].
  destruct G as (_ & e & _ & [[_ ?]|(_ & _ & _ & Pk & D)]); [congruence|].
  rewrite Pk, D, !app_nil_r in B. exact B.
Qed.

(** A run: the kernel writes three bytes, [Send] peeks one, the caller reads. *)
Definition sampleSend : sendSys :=
  SendSys (SendStream [] (make_chan 1) None false (Pipe [x03] true true)) SCalling MStream
    [x01; x02; x03] [x01; x02].

Lemma send_stream_faithful_witness :
  (ss_read sampleSend ++ peekBuf (ss_stream sampleSend) ++ p_data (s_r (ss_stream sampleSend)))
    = ss_written sampleSend /\
  (isEOF (ss_stream sampleSend) = true -> ss_read sampleSend = ss_written sampleSend).
Proof.
  refine (send_stream_faithful busySend _ sampleSend eq_refl _).
  eapply rtc_l; [apply (step_kernel_write _ _ _ _ _ [x01; x02; x03]); reflexivity|].
  eapply rtc_l; [eapply (step_peek_ok _ _ _ _ _ 1); reflexivity|].
  eapply rtc_l; [eapply (step_read _ _ _ _ _ 10 1); reflexivity|].
  eapply rtc_l; [eapply (step_read _ _ _ _ _ 10 1); reflexivity|].
  apply rtc_refl.
Defined.

(** C17: Fail fast and the final error. [Send] returns an error only if the
    kernel wrote nothing and the ioctl has returned; a stream it hands out has
    data. The error, whether from [Send] or at the end of the stream, is the
    one the ioctl returned, or [io.EOF] if that was nil, and it stays the
    result of every later [Read]. *)
Theorem send_errors result st0 st :
  send_init None = Ok st0 -> rtc (send_step result) st0 st ->
  (forall e, ss_main st = MFailed e ->
     ss_written st = [] /\ exists x, result x /\ e = final_error x) /\
  (ss_main st = MStream -> ss_written st <> []) /\
  (isEOF (ss_stream st) = true ->
     exists x, result x /\
       forall len give, sendStream.Read len give (ss_stream st) =
         Some ([], Some (final_error x), ss_stream st)).
Proof.
  intros I R. destruct (send_reachable_inv result st0 st I R) as [B G M]. unfold main_inv in M.
  assert (F : isEOF (ss_stream st) = true ->
    exists x, result x /\ lastError (ss_stream st) = Some (final_error x)).
  { intros E. destruct (ss_go st); cbn in G; [destr_ctx; congruence..|].
    destruct G as (_ & e & Re & [[_ ?]|(_ & _ & L & _)]); [congruence|eauto]. }
  split; [|split].
  - intros e H. rewrite H in M. destruct M as (Wr & E & L & _). split; [done|].
    destruct (F E) as (x & Rx & L'). exists x. split; [done|]. congruence.
  - intros H. now rewrite H in M.
  - intros E. destruct (F E) as (x & Rx & L). exists x. split; [done|]. intros len give.
    unfold sendStream.Read. now rewrite E, L.
Qed.

(** The ioctl fails with EBUSY before writing anything. *)
Definition failedSend : sendSys :=
  SendSys (SendStream [] (make_chan 1) (Some (Errno 16)) true (Pipe [] false false)) SDone
    (MFailed (Errno 16)) [] [].

Lemma send_errors_witness :
  (forall e, ss_main failedSend = MFailed e ->
     ss_written failedSend = [] /\ exists x, busySend x /\ e = final_error x) /\
  (ss_main failedSend = MStream -> ss_written failedSend <> []) /\
  (isEOF (ss_stream failedSend) = true ->
     exists x, busySend x /\
       forall len give, sendStream.Read len give (ss_stream failedSend) =
         Some ([], Some (final_error x), ss_stream failedSend)).
Proof.
  refine (send_errors busySend _ failedSend eq_refl _).
  eapply rtc_l; [apply (step_return _ _ _ _ _ (Some (Errno 16))); exact busySend_fails|].
  eapply rtc_l; [eapply step_send_error; reflexivity|].
  eapply rtc_l; [apply step_close_w|].
  eapply rtc_l; [eapply (step_peek_err _ _ _ _ _ 1); reflexivity|].
  apply rtc_refl.
Defined.

(** C18: No deadlock of a send. The goroutine is never stuck: in every reachable
    state in which the ioctl has returned, it can take its next step (its send
    does not block) until it is done; and once it is done neither [Read] nor
    [peek] blocks, in particular not on the error channel. *)
Theorem send_never_stuck result st0 st :
  send_init None = Ok st0 -> rtc (send_step result) st0 st ->
  match ss_go st with
  | SCalling => True
  | SSending _ | SClosing => exists st', send_step result st st' /\ ss_go st' <> ss_go st
  | SDone => forall len give, is_Some (sendStream.Read len give (ss_stream st)) /\
                              is_Some (sendStream.peek len give (ss_stream st))
  end.
Proof.
  intros I R. pose proof (send_reachable_inv result st0 st I R) as Inv.
  destruct (ss_go st) as [|e| |] eqn:E; [done|..|intros; now apply send_done_no_block with result].
  - destruct Inv as [_ G _]. rewrite E in G. destruct G as (_ & C & _).
    destruct st as [s g m wr rd]. cbn in *. subst g. eexists. split.
    + eapply step_send_error. rewrite C. reflexivity.
    + done.
  - destruct st as [s g m wr rd]. cbn in *. subst g. eexists. split; [apply step_close_w|done].
Qed.

Lemma send_never_stuck_witness :
  is_Some (sendStream.Read 5 1 (ss_stream failedSend)) /\
  is_Some (sendStream.peek 5 1 (ss_stream failedSend)).
Proof.
  refine (send_never_stuck busySend _ failedSend eq_refl _ 5%nat 1%nat).
  eapply rtc_l; [apply (step_return _ _ _ _ _ (Some (Errno 16))); exact busySend_fails|].
  eapply rtc_l; [eapply step_send_error; reflexivity|].
  eapply rtc_l; [apply step_close_w|].
  eapply rtc_l; [eapply (step_peek_err _ _ _ _ _ 1); reflexivity|].
  apply rtc_refl.
Defined.

(** ** Receive *)

Definition busyReceive : list byte -> option recvError -> Prop :=
  receiveResult busyKernel (fun _ _ => 4096) not_freebsd (str "tank")
    (MkReceiveOpts [] (str "a") None None false 0 [] 0 false false) 6.

(** C8: The receive stream splits the input at byte 312. Without a supplied
    begin record, in every reachable state the bytes accepted by [Write] are
    the filled part of the begin record followed by what the kernel took from
    the pipe and what is still in it, nothing enters the pipe before the record
    is complete, and the ioctl is issued at most once, with exactly the first
    312 bytes accepted. *)
Theorem receive_stream_faithful result st0 st :
  recv_init [] None = Ok st0 -> rtc (recv_step result) st0 st ->
  exists got rest,
    beginRecord (rs_stream st) = got ++ rest /\ (length got + length rest = 312)%nat /\
    rs_accepted st = got ++ rs_kernel st ++ p_data (r_w (rs_stream st)) /\
    (rest <> [] -> rs_kernel st ++ p_data (r_w (rs_stream st)) = []) /\
    (rs_calls st = [] \/ rs_calls st = [take 312 (rs_accepted st)] /\ rest = []).
Proof.
  intros I R. destruct (recv_reachable_inv result [] st0 st I R) as (got & rest & [[H _] [T _] B O _ G _]).
  change (awaited []) with 312%nat in *.
  exists got, rest. repeat split; try done.
  assert (Full : forall r, r = got ++ rest -> full 312 rest = true ->
    [r] = [take 312 (rs_accepted st)] /\ rest = []).
  { intros r -> F. apply bool_decide_eq_true_1 in F as [-> _]. split; [|done].
    rewrite app_nil_r, B. cbn in T. rewrite take_app_length' by lia. done. }
  destruct (rs_go st); cbn in G; unfold justified in G.
  - left. tauto.
  - right. destruct G as (-> & F & -> & _). now apply Full.
  - destruct G as ([(-> & _)|(-> & F & _)] & _); [now left|right; now apply Full].
  - destruct G as (e & [(-> & _)|(-> & F & _)] & _); [now left|right; now apply Full].
  - destruct G as (e & [(-> & _)|(-> & F & _)] & _); [now left|right; now apply Full].
Qed.

Definition sampleStart (n : nat) : recvSys :=
  RecvSys (MkReceiveStream (Pipe [] true true) (make_chan 1) None (replicate n x00) 0 (make_chan 2))
    RWaiting RWriting [] [] [].

(** After one [Write] of 314 bytes: the record is complete and queued. *)
Definition sampleReceive : recvSys :=
  RecvSys (MkReceiveStream (Pipe [x08; x09] true true) (make_chan 1) None (replicate 312 x07) 312
             (Chan [replicate 312 x07] 2 false))
    RWaiting RWriting (replicate 312 x07 ++ [x08; x09]) [] [].

Lemma receive_stream_faithful_witness :
  exists got rest,
    beginRecord (rs_stream sampleReceive) = got ++ rest /\ (length got + length rest = 312)%nat /\
    rs_accepted sampleReceive = got ++ rs_kernel sampleReceive ++ p_data (r_w (rs_stream sampleReceive)) /\
    (rest <> [] -> rs_kernel sampleReceive ++ p_data (r_w (rs_stream sampleReceive)) = []) /\
    (rs_calls sampleReceive = [] \/ rs_calls sampleReceive = [take 312 (rs_accepted sampleReceive)] /\ rest = []).
Proof.
  refine (receive_stream_faithful busyReceive (sampleStart 312) sampleReceive eq_refl _).
  apply rtc_once.
  apply (recv_write _ _ RWaiting [] [] [] (replicate 312 x07 ++ [x08; x09]) None 314 None).
  vm_compute. reflexivity.
Defined.

(** C19: The result of a receive. When [WaitAndClose] returns, its result is
    justified: the ioctl's result for the complete begin record, or the error
    that not enough data arrived, and then no ioctl was issued at all. *)
Theorem receive_result_justified result st0 st e :
  recv_init [] None = Ok st0 -> rtc (recv_step result) st0 st -> rs_main st = RFinished e ->
  rs_calls st = [] /\ e = Some (RErr errNotEnough) /\ (length (rs_accepted st) < 312)%nat \/
  exists record, rs_calls st = [record] /\ length record = 312%nat /\ result record e.
Proof.
  intros I R M. destruct (recv_reachable_inv result [] st0 st I R) as (got & rest & [H [T _] B O _ G _]).
  change (awaited []) with 312%nat in *. rewrite M in G.
  assert (J : justified result 312 (RFinished e) (got ++ rest) rest (rs_calls st) e).
  { destruct (rs_go st); cbn in G; try (destr_ctx; discriminate); now destruct G as (e' & J & <-). }
  destruct J as [(C & F & _ & ->)|(C & F & Re)].
  - left. repeat split; try done. rewrite B. unfold full in F. apply bool_decide_eq_false_1 in F.
    cbn in T, F. destruct rest as [|b rest]; [destruct F; done|].
    rewrite O by done. rewrite app_nil_r. cbn in T. lia.
  - right. exists (got ++ rest). split; [done|]. split; [|done]. rewrite length_app. exact T.
Qed.

(** Three bytes, then [WaitAndClose]. *)
Definition shortReceive : recvSys :=
  RecvSys (MkReceiveStream (Pipe [] false false) (Chan [] 1 true) None
             ([x01; x02; x03] ++ replicate 309 x00) 3 (Chan [] 2 true))
    RDone (RFinished (Some (RErr errNotEnough))) [x01; x02; x03] [] [].

Lemma receive_result_justified_witness :
  rs_calls shortReceive = [] /\ Some (RErr errNotEnough) = Some (RErr errNotEnough) /\
    (length (rs_accepted shortReceive) < 312)%nat \/
  exists record, rs_calls shortReceive = [record] /\ length record = 312%nat /\
    busyReceive record (Some (RErr errNotEnough)).
Proof.
  refine (receive_result_justified busyReceive (sampleStart 312) shortReceive (Some (RErr errNotEnough))
    eq_refl _ eq_refl).
  eapply rtc_l; [apply (recv_write _ _ _ _ _ _ [x01; x02; x03] None 3 None); vm_compute; reflexivity|].
  eapply rtc_l; [apply recv_wait; vm_compute; reflexivity|].
  eapply rtc_l; [eapply recv_short; [vm_compute; reflexivity|discriminate]|].
  eapply rtc_l; [eapply recv_send; vm_compute; reflexivity|].
  eapply rtc_l; [apply recv_finish; vm_compute; reflexivity|].
  apply rtc_once. apply recv_close.
Defined.

(** C32: A supplied begin record is never used. When [Receive] gets the 312-byte
    record in its options, no interleaving ever issues the ioctl, and all
    [WaitAndClose] can return is the error that not enough data arrived. *)
Theorem receive_supplied_record_unusable result record st0 st :
  blen record = 312 -> recv_init record None = Ok st0 -> rtc (recv_step result) st0 st ->
  rs_calls st = [] /\
  forall e, rs_main st = RFinished e -> e = Some (RErr errNotEnough).
Proof.
  intros L I R. destruct (recv_reachable_inv result record st0 st I R) as (got & rest & [_ _ _ _ _ G _]).
  assert (F : full (awaited record) rest = false).
  { unfold full, awaited. rewrite L. cbn. apply bool_decide_eq_false_2. now intros [_ ?]. }
  destruct (rs_go st); cbn in G; unfold justified in G; try rewrite F in G; destr_ctx; try congruence.
  - split; [done|]. intros e M. rewrite M in *. discriminate.
  - destruct_or?; destr_ctx; [|discriminate]. split; [done|]. intros e' M. rewrite M in *. discriminate.
  - destruct_or?; destr_ctx; [|discriminate]. subst. split; [done|]. intros e' M. rewrite M in *. done.
  - destruct_or?; destr_ctx; [|discriminate]. subst. split; [done|]. intros e' M. rewrite M in *. done.
Qed.

(** The record is supplied, three bytes are written, [WaitAndClose] returns. *)
Definition suppliedReceive : recvSys :=
  RecvSys (MkReceiveStream (Pipe [x01; x02; x03] false false) (Chan [] 1 true) None [] 0 (Chan [] 2 true))
    RDone (RFinished (Some (RErr errNotEnough))) [x01; x02; x03] [] [].

Lemma receive_supplied_record_unusable_witness :
  rs_calls suppliedReceive = [] /\
  forall e, rs_main suppliedReceive = RFinished e -> e = Some (RErr errNotEnough).
Proof.
  refine (receive_supplied_record_unusable busyReceive (replicate 312 x01) (sampleStart 0) suppliedReceive
    eq_refl eq_refl _).
  eapply rtc_l; [apply (recv_write _ _ _ _ _ _ [x01; x02; x03] None 3 None); vm_compute; reflexivity|].
  eapply rtc_l; [apply recv_wait; vm_compute; reflexivity|].
  eapply rtc_l; [eapply recv_short; [vm_compute; reflexivity|discriminate]|].
  eapply rtc_l; [eapply recv_send; vm_compute; reflexivity|].
  eapply rtc_l; [apply recv_close|].
  apply rtc_once. apply recv_finish. vm_compute. reflexivity.
Defined.

(** C20: Channels of a receive. While the caller writes, [Write] neither blocks
    on a channel nor panics, with any buffer and any pipe error, and
    [WaitAndClose] can start; when the goroutine has a result it can always
    send it. But as long as [WaitAndClose] has not returned the write end of
    the pipe is open, so a kernel that waits for more of a truncated stream is
    never woken by an end of file. *)
Theorem receive_channels result opt st0 st :
  recv_init opt None = Ok st0 -> rtc (recv_step result) st0 st ->
  (rs_main st = RWriting ->
     (forall buf fail, exists n e s', ReceiveStream.Write buf fail (rs_stream st) = Some (Ok (n, e), s')) /\
     exists s', ReceiveStream.waitBegin (rs_stream st) = Some (Ok tt, s')) /\
  (forall e, rs_go st = RSending e -> exists c, chan_send e (r_errorChan (rs_stream st)) = Some (Ok c)) /\
  ((forall e, rs_main st <> RFinished e) -> p_wopen (r_w (rs_stream st)) = true).
Proof.
  intros I R. destruct (recv_reachable_inv result opt st0 st I R) as (got & rest & [H T B O C G P]).
  split; [|split].
  - intros M. rewrite M in *. split.
    + intros buf fail. destruct (r_lastError (rs_stream st)) as [le|] eqn:E.
      { unfold ReceiveStream.Write. rewrite E. eauto. }
      destruct (Write_spec buf fail (rs_stream st) got rest _ E H C) as (m & e & s' & _ & _ & _ & W & _);
        [|eauto].
      intros N. assert (F : full (awaited opt) rest = false) by (apply bool_decide_eq_false_2; tauto).
      rewrite (writing_full _ _ _ _ _ _ _ G F). unfold queue. now rewrite F.
    + eexists. apply (waitBegin_spec _ _ C). apply pending_writing.
  - intros e E. rewrite E in G. destruct G as (_ & Ec & _). rewrite Ec. eexists. reflexivity.
  - intros N. destruct P as [-> _]. destruct (rs_main st); try done. now destruct (N e).
Qed.

(** After the 314 bytes, with the goroutine in the ioctl. *)
Definition callingReceive : recvSys :=
  RecvSys (MkReceiveStream (Pipe [x08; x09] true true) (make_chan 1) None (replicate 312 x07) 312 (make_chan 2))
    (RCalling (replicate 312 x07)) RWriting (replicate 312 x07 ++ [x08; x09]) [] [replicate 312 x07].

Lemma receive_channels_witness :
  (rs_main callingReceive = RWriting ->
     (forall buf fail, exists n e s',
        ReceiveStream.Write buf fail (rs_stream callingReceive) = Some (Ok (n, e), s')) /\
     exists s', ReceiveStream.waitBegin (rs_stream callingReceive) = Some (Ok tt, s')) /\
  (forall e, rs_go callingReceive = RSending e ->
     exists c, chan_send e (r_errorChan (rs_stream callingReceive)) = Some (Ok c)) /\
  ((forall e, rs_main callingReceive <> RFinished e) -> p_wopen (r_w (rs_stream callingReceive)) = true).
Proof.
  refine (receive_channels busyReceive [] (sampleStart 312) callingReceive eq_refl _).
  apply rtc_l with sampleReceive.
  { apply (recv_write _ _ RWaiting [] [] [] (replicate 312 x07 ++ [x08; x09]) None 314 None).
    vm_compute. reflexivity. }
  apply rtc_once.
  exact (recv_record _ (rs_stream sampleReceive) RWriting (replicate 312 x07 ++ [x08; x09]) [] []
    (replicate 312 x07) (make_chan 2) eq_refl eq_refl).
Defined.

(** ** The calls *)

(** The fields of a fresh [ReceiveError]. *)
Definition receiveErrorFields : list (sfield * gval) :=
  match zero tReceiveError with VStruct _ fs => fs | _ => [] end.

(** C38: Property failures crash [Receive]. If the kernel's answer to a receive
    is success and its reply has an [errors] list with at least one entry, and
    before it only values that fit [ReceiveError] (such as [read_bytes] and
    [error_flags]), then the goroutine panics when it decodes the reply, because
    the map of the fresh [ReceiveError] was never made: the result is never
    delivered. *)
Theorem receive_errors_panic {W} (sys : kernel W) addr plat h w w' n r o name opts fd record src
    pre k z more after fields :
  let l := pre ++ (str "errors", NNvlist ((k, NInt KInt32 z) :: more)) :: after in
  marshal_opt (Some (vReceiveOpts (set_ro_BeginRecord record (set_ro_Fd (wrap_signed 4 fd) opts)))) = Ok src ->
  answer sys addr plat h ZFS_IOC_RECV_NEW name zeroCmd src (Some newReceiveError) None w
    = (Some (n, r), w') ->
  k_errno r = 0 -> k_dst r = packed o l -> blen (packed o l) <= dst_size n ->
  nvs_ok l = true -> forallb (flat ∘ snd) pre = true -> store_struct pre receiveErrorFields = Ok fields ->
  fst (receiveCall sys addr plat name opts fd record (Env h w)) = Panic PNilMap.
Proof.
  intros l M A E D B K F S. unfold receiveCall, gbind.
  rewrite (nvlistIoctl_answer _ _ _ _ _ _ _ _ None _ _ src None M eq_refl), A.
  cbn [fst snd reply_of]. rewrite E, D. cbn [Z.eqb].
  destruct (filled_prefix (dst_size n) _ B) as [rest ->].
  pose proof (Unmarshal_nil_map o pre (str "errors") k KInt32 z more after rest None tReceiveError
    (Some (str "ReceiveError")) receiveErrorFields fields 2 (SField (str "ErrorList") (str "errors")) None
    K F S eq_refl eq_refl eq_refl) as U.
  change (VPtr None tReceiveError (Some (VStruct (Some (str "ReceiveError")) receiveErrorFields)))
    with newReceiveError in U. fold l in U.
  destruct (Unmarshal (packed o l ++ rest) newReceiveError) as [out v]. cbn [fst] in U. now subst out.
Qed.

(** A kernel that received the stream but could not set [quota]. *)
Definition quotaReply : nvs :=
  [(str "read_bytes", NInt KUint64 4096); (str "error_flags", NInt KUint64 1);
   (str "errors", NNvlist [(str "quota", NInt KInt32 22)])].
Definition quotaKernel : kernel unit := fun w c => (KReply 0 (k_cmd c) (packed LittleEndian quotaReply), w).

Lemma receive_errors_panic_witness :
  let opts := MkReceiveOpts [] (str "a") None None false 0 [] 0 false false in
  fst (receiveCall quotaKernel (fun _ _ => 4096) not_freebsd (str "tank") opts 6 (replicate 312 x07)
         (Env (Some 3) tt)) = Panic PNilMap.
Proof.
  intros opts.
  set (src := match marshal_opt (Some (vReceiveOpts (set_ro_BeginRecord (replicate 312 x07) (set_ro_Fd 6 opts))))
    with Ok s => s | _ => None end).
  refine (receive_errors_panic quotaKernel (fun _ _ => 4096) not_freebsd (Some 3) tt tt 0%nat
    (KReply 0 (k_cmd (sent (fun _ _ => 4096) 3 (ioctl_number not_freebsd ZFS_IOC_RECV_NEW) (str "tank") zeroCmd
       src true None 0)) (packed LittleEndian quotaReply)) LittleEndian (str "tank") opts 6
    (replicate 312 x07) src
    [(str "read_bytes", NInt KUint64 4096); (str "error_flags", NInt KUint64 1)] (str "quota") 22 [] []
    (match store_struct [(str "read_bytes", NInt KUint64 4096); (str "error_flags", NInt KUint64 1)]
       receiveErrorFields with Ok fs => fs | _ => [] end) _ _ _ _ _ _ _ _); vm_compute; congruence.
Defined.

(** C15: Every operation makes its own system call and no other. Each operation of
    wrappers.go that calls the kernel, and the calls of [Send] and [Receive], with
    any arguments, kernel and state, makes at most five system calls, all to the
    open handle, with the ioctl number the ZFS interface has for that operation
    (written out here, an offset from the platform's first number) and with the
    dataset or pool name it was given, as far as the name field can hold it; one
    that returns without an error has made at least one call. The exception shown
    is [DestroySnapshots], which uses the number of [Clone]. *)
Theorem wrappers_issue {W} (sys : kernel W) addr plat mapKeys name other cursor resp features config cfg props
    pprops names flag flag' bookmarks sendSpaceOpts sendOpts recvOpts fd record :
  let ioc n := ZFS_IOC_FIRST plat + n in
  let k := logged sys in
  (issues (PoolCreate k addr plat name features config) (ioc 0x00) name /\
   issues (PoolDestroy k addr plat name) (ioc 0x01) name /\
   issues (PoolImport k addr plat name cfg props) (ioc 0x02) name /\
   issues (PoolExport k addr plat name flag flag') (ioc 0x03) name /\
   issues (PoolConfigs k addr plat) (ioc 0x04) [] /\
   issues (PoolStats k addr plat name) (ioc 0x05) name /\
   issues (PauseScan k addr plat name) (ioc 0x07) name /\
   issues (StartStopScan k addr plat name cursor) (ioc 0x07) name /\
   issues (ObjsetStats k addr plat name) (ioc 0x12) name /\
   issues (ObjsetZPLProps k addr plat name) (ioc 0x13) name) /\
  (issues (DatasetListNext k addr plat name cursor) (ioc 0x14) name /\
   issues (SnapshotListNext k addr plat name cursor resp) (ioc 0x15) name /\
   issues (SetProp k addr plat name props cursor) (ioc 0x16) name /\
   issues (Create k addr plat name cursor pprops) (ioc 0x17) name /\
   issues (Destroy k addr plat name cursor flag) (ioc 0x18) name /\
   issues (Rollback k addr plat name other) (ioc 0x19) name /\
   issues (Rename k addr plat name other flag) (ioc 0x1a) name /\
   issues (Promote k addr plat name) (ioc 0x22) name /\
   issues (Snapshot k addr plat mapKeys names name pprops) (ioc 0x23) name /\
   issues (PoolGetProps k addr plat name) (ioc 0x27) name) /\
  (issues (InheritProp k addr plat name other flag) (ioc 0x2b) name /\
   issues (GetSpaceWritten k addr plat name other) (ioc 0x39) name /\
   issues (RegenerateGUID k addr plat name) (ioc 0x3c) name /\
   issues (sendCall k addr plat name sendOpts fd) (ioc 0x40) name /\
   issues (SendSpace k addr plat name sendSpaceOpts) (ioc 0x41) name /\
   issues (Clone k addr plat other name pprops) (ioc 0x42) name /\
   issues (DestroySnapshots k addr plat mapKeys names name flag) (ioc 0x42) name /\
   issues (Bookmark k addr plat bookmarks) (ioc 0x43) [] /\
   issues (receiveCall k addr plat name recvOpts fd record) (ioc 0x46) name).
Proof.
  intros ioc k. repeat match goal with |- _ /\ _ => split end; try solve_issues.
  - unfold PoolImport. pose proof (poolGuid_outcome cfg) as G. destruct (poolGuid cfg) as [g|e|p|]; try done.
    + change (gbind (glift (Ok g)) ?f) with (f g). solve_issues.
    + now apply issues_nothing.
  - destruct flag, flag'; solve_issues.
  - unfold Snapshot. destruct (addNames names []); [solve_issues|now apply issues_nothing].
  - unfold InheritProp. destruct (stringToDelimitedBuf _ _) as [[u|e|p|] v] eqn:E;
      [solve_issues|now apply issues_nothing..|].
    now destruct (stringToDelimitedBuf_ends other (zc_Value (set_Cookie (if flag then 1 else 0) zeroCmd)));
      rewrite E.
  - apply issues_call; reflexivity.
  - unfold DestroySnapshots. destruct (addNames names []); [solve_issues|now apply issues_nothing].
Qed.
